(** * Chunkwise linear attention: retention and delta rule

    A shallow embedding of [fla/ops/retention/chunk.py] and
    [fla/ops/delta_rule/chunk.py].

    Numbers are modelled in exact arithmetic: every floating-point value
    is a real number, and the narrowing and widening casts [.to(dtype)]
    are the identity on values.  A tensor is a function from indices to
    reals together with its shape and dtype; the batch and head axes are
    flattened into one lane index [i_bh], as the kernels address them.
    The tensors are contiguous (the [@contiguous] decorator), so a block
    pointer is modelled by the matrix view it denotes and the strides
    disappear from the kernels' arguments.

    One value is also modelled in float32, as the kernels compute it: the
    decay rate of a head ([rate_f32]), where rounding decides which heads
    decay at all.

    The kernels are modelled on the inputs Triton compiles them for: block
    sizes that are powers of two, as [tl.arange] requires, and operands of
    [tl.dot] other than float64.  Its rejection of other inputs is not
    modelled. *)

From Stdlib Require Import Reals Lra Lia List Arith ZArith Bool String SpecFloat.
Import ListNotations.

(** ** Blocks and tensors *)

(** A register tile [rows, cols]; entries outside the tile are never read. *)
Definition block := nat -> nat -> R.

(** Device memory of a tensor: lane, row, column. *)
Definition data := nat -> nat -> nat -> R.

Inductive dtype := float16 | bfloat16 | float32 | float64.

Definition dtype_eqb (a b : dtype) : bool :=
  match a, b with
  | float16, float16 | bfloat16, bfloat16
  | float32, float32 | float64, float64 => true
  | _, _ => false
  end.

Record tensor := mk_tensor
  { t_dtype : dtype;
    t_shape : list nat;
    t_requires_grad : bool;
    t_data : data }.

Definition with_data (x : tensor) (d : data) : tensor :=
  mk_tensor (t_dtype x) (t_shape x) (t_requires_grad x) d.

(** [x.to(dt)] *)
Definition to_dtype (x : tensor) (dt : dtype) : tensor :=
  mk_tensor dt (t_shape x) (t_requires_grad x) (t_data x).

(** ** The Triton language primitives used by the kernels *)

Module tl.

Definition exp2 (x : R) : R := Rpower 2 x.

Definition log2 (x : R) : R := (ln x / ln 2)%R.

Definition zeros : block := fun _ _ => 0%R.

(** [tl.cdiv] on compile-time constants. *)
Definition cdiv (a b : nat) : nat := (a + b - 1) / b.

(** Sum of [f 0 .. f (n-1)]. *)
Fixpoint sum (n : nat) (f : nat -> R) : R :=
  match n with
  | O => 0%R
  | S m => (sum m f + f m)%R
  end.

(** [tl.dot(a, b)] for [a : [_, n]] and [b : [n, _]]. *)
Definition dot (n : nat) (a b : block) : block :=
  fun i j => sum n (fun l => (a i l * b l j)%R).

Definition trans (a : block) : block := fun i j => a j i.

(** [tl.where(m, a, 0)] *)
Definition where0 (m : nat -> nat -> bool) (a : block) : block :=
  fun i j => if m i j then a i j else 0%R.

(** A row-major view [(rows, cols), (s, 1)] of a lane, starting at row
    [row0], and the transposed view [(cols, rows), (1, s)]. *)
Definition rows_of (x : data) (lane row0 : nat) : block :=
  fun r c => x lane (row0 + r) c.

Definition cols_of (x : data) (lane row0 : nat) : block :=
  fun c r => x lane (row0 + r) c.

(** [tl.load(p, boundary_check=(0, 1))] of the block at [offs] of a view
    of shape [shape]: entries outside the shape read as zero. *)
Definition load (view : block) (shape offs : nat * nat) : block :=
  fun i j =>
    let r := fst offs + i in
    let c := snd offs + j in
    if (r <? fst shape) && (c <? snd shape) then view r c else 0%R.

(** [tl.store(p, b, boundary_check=(0, 1))] through a row-major block
    pointer into lane [lane], whose view starts at row [row0]. *)
Definition store (x : data) (lane row0 : nat) (shape offs bshape : nat * nat)
           (b : block) : data :=
  fun l r c =>
    if (l =? lane) && (row0 + fst offs <=? r) && (r <? row0 + fst offs + fst bshape)
       && (r <? row0 + fst shape)
       && (snd offs <=? c) && (c <? snd offs + snd bshape) && (c <? snd shape)
    then b (r - (row0 + fst offs)) (c - snd offs)
    else x l r c.

End tl.

(** ** The host side: errors, kernel launches, Triton's host helpers *)

Inductive exn :=
| AssertionError (msg : string)
| ValueError
| AttributeError
| ZeroDivisionError.

(** What has been handed to the device so far. *)
Inductive work :=
| Kernel (name : string) (grid : nat * nat * nat)
| Collaborator (name : string).

(** A host computation: it may raise, and it extends the list of
    dispatched device work. *)
Definition host (A : Type) : Type := list work -> (A + exn) * list work.

Definition ret {A} (a : A) : host A := fun w => (inl a, w).

Definition raise {A} (e : exn) : host A := fun w => (inr e, w).

Definition bind {A B} (m : host A) (f : A -> host B) : host B :=
  fun w =>
    match m w with
    | (inl a, w') => f a w'
    | (inr e, w') => (inr e, w')
    end.

Definition dispatch (x : work) : host unit := fun w => (inl tt, w ++ [x]).

Definition assert (b : bool) (msg : string) : host unit :=
  if b then ret tt else raise (AssertionError msg).

Declare Scope host_scope.
Delimit Scope host_scope with host.
Notation "x <- m ;; k" := (bind m (fun x => k))
  (at level 61, m at next level, right associativity) : host_scope.
Notation "' p <- m ;; k" := (bind m (fun x => let p := x in k))
  (at level 61, p pattern, m at next level, right associativity) : host_scope.
Notation "m ;;; k" := (bind m (fun _ => k))
  (at level 61, right associativity) : host_scope.

(** Run a host computation from an idle device. *)
Definition run {A} (m : host A) : (A + exn) * list work := m [].

Module triton.

(** [triton.next_power_of_2]: the smallest power of two that is at least
    [n] (and 0 for 0, as the bit trick gives). *)
Definition next_power_of_2 (n : nat) : nat :=
  if n =? 0 then 0 else 2 ^ Nat.log2_up n.

(** [triton.cdiv(x, y) = (x + y - 1) // y] *)
Definition cdiv (x y : nat) : host nat :=
  if y =? 0 then raise ZeroDivisionError else ret ((x + y - 1) / y).

(** All program ids of a grid. *)
Definition programs (grid : nat * nat * nat) : list (nat * nat * nat) :=
  let '(n0, n1, n2) := grid in
  flat_map (fun a => flat_map (fun b => map (fun c => (a, b, c)) (seq 0 n2))
                              (seq 0 n1)) (seq 0 n0).

(** [kernel[grid](...)]: every program of the grid runs once on the
    device memory [m].  The programs of one launch write disjoint
    cells, so running them one after the other is faithful. *)
Definition launch {M} (grid : nat * nat * nat)
           (kernel : nat -> nat -> nat -> M -> M) (m : M) : M :=
  fold_left (fun m '(a, b, c) => kernel a b c m) (programs grid) m.

End triton.

(** Pointwise arithmetic on blocks. *)
Definition badd (a b : block) : block := fun i j => (a i j + b i j)%R.
Definition bsub (a b : block) : block := fun i j => (a i j - b i j)%R.
Definition bmul (a b : block) : block := fun i j => (a i j * b i j)%R.
Definition bneg (a : block) : block := fun i j => (- a i j)%R.
(** [a * c] and [c * a] for a scalar [c] *)
Definition bscale (c : R) (a : block) : block := fun i j => (c * a i j)%R.
(** [a * d[:, None]] *)
Definition brows (a : block) (d : nat -> R) : block := fun i j => (a i j * d i)%R.

Definition is_some {A} (x : option A) : bool :=
  match x with Some _ => true | None => false end.

(** The memory behind an optional tensor argument; a [None] pointer is
    never dereferenced. *)
Definition data_of (x : option tensor) : data :=
  match x with Some t => t_data t | None => fun _ _ _ => 0%R end.

(** [B, H, T, K, V = *k.shape, v.shape[-1]] *)
Definition dims (k v : tensor) : host (nat * nat * nat * nat * nat) :=
  match t_shape k, rev (t_shape v) with
  | [B; H; T; K], V :: _ => ret (B, H, T, K, V)
  | _, _ => raise ValueError
  end.

Local Open Scope host_scope.

(** ** Retention: [fla/ops/retention/chunk.py] *)

(** Float32 values, as IEEE 754 binary32: 24 bits of precision, exponents
    below 128, round to nearest even. *)
Module f32.

Definition prec : Z := 24.
Definition emax : Z := 128.

(** [1.0] *)
Definition one : spec_float := S754_finite false 8388608 (-23).

(** [x - y] *)
Definition sub (x y : spec_float) : spec_float := SFsub prec emax x y.

(** [tl.math.exp2] at the float32 that holds the integer [e]: the power of
    two itself, subnormal below [2^-126], zero below [2^-149] and infinite
    from [2^128] on. *)
Definition exp2_int (e : Z) : spec_float :=
  if (e <? -149)%Z then S754_zero false
  else if (e <? -126)%Z then S754_finite false (Z.to_pos (2 ^ (e + 149))) (-149)
  else if (e <? 128)%Z then S754_finite false 8388608 (e - 23)
  else S754_infinity false.

(** The real number a finite float32 stands for. *)
Definition to_R (x : spec_float) : R :=
  match x with
  | S754_finite s m e => ((if s then -1 else 1) * IZR (Z.pos m) * powerRZ 2 e)%R
  | _ => 0%R
  end.

End f32.

(** The argument of the logarithm in [b_b], [1 - tl.math.exp2(-5 - i_h * 1.0)],
    as the kernels compute it in float32.  The exponent [-5 - i_h * 1.0] is
    an integer, which float32 holds exactly for [i_h < 2^24]; beyond, it is
    below [-149] whatever its rounding, where [exp2] is zero. *)
Definition rate_f32 (i_h : nat) : spec_float :=
  f32.sub f32.one (f32.exp2_int (-5 - Z.of_nat i_h)).

(** The per-head log-decay [b_b] computed at the top of every retention
    kernel. *)
Definition b_b (i_h : nat) : R :=
  tl.log2 (1 - tl.exp2 (-5 - INR i_h * 1))%R.

(** Loop-carried registers of [chunk_retention_fwd_kernel_h]. *)
Record fwd_h_regs := mk_fwd_h_regs
  { r_b_h : block; r_d_b : R; r_d_i : nat -> R }.

(** One iteration of the loop over [i_t], registers only. *)
Definition chunk_retention_fwd_kernel_h_step
    (k v : data) (H T K V BT BK BV NT : nat) (i_k i_v i_bh : nat)
    (i_t : nat) (r : fwd_h_regs) : fwd_h_regs :=
  let i_h := i_bh mod H in
  let b_b := b_b i_h in
  let b_h := r_b_h r in
  (* [BK, BT] *)
  let b_k := tl.load (tl.cols_of k i_bh 0) (K, T) (i_k * BK, i_t * BT) in
  (* [BT, BV] *)
  let b_v := tl.load (tl.rows_of v i_bh 0) (T, V) (i_t * BT, i_v * BV) in
  let '(d_b, d_i) :=
    if (i_t =? NT - 1) && negb (T mod BT =? 0)
    then (tl.exp2 (INR (T mod BT) * b_b),
          fun o_i => tl.exp2 (IZR (Z.of_nat (T mod BT) - Z.of_nat o_i - 1) * b_b))
    else (r_d_b r, r_d_i r) in
  let b_h := badd (bscale d_b b_h) (tl.dot BT b_k (brows b_v d_i)) in
  mk_fwd_h_regs b_h d_b d_i.

(** The registers on entry to the loop. *)
Definition chunk_retention_fwd_kernel_h_init
    (h0 : data) (H K V BT BK BV : nat) (USE_INITIAL_STATE : bool)
    (i_k i_v i_bh : nat) : fwd_h_regs :=
  let i_h := i_bh mod H in
  let b_b := b_b i_h in
  let d_b := tl.exp2 (INR BT * b_b) in
  let d_i := fun o_i => tl.exp2 (IZR (Z.of_nat BT - Z.of_nat o_i - 1) * b_b) in
  (* [BK, BV] *)
  let b_h := tl.zeros in
  let b_h :=
    if USE_INITIAL_STATE
    then tl.load (tl.rows_of h0 i_bh 0) (K, V) (i_k * BK, i_v * BV)
    else b_h in
  mk_fwd_h_regs b_h d_b d_i.

Definition chunk_retention_fwd_kernel_h
    (k v h0 : data) (H T K V BT BK BV NT : nat)
    (USE_INITIAL_STATE STORE_FINAL_STATE : bool)
    (i_k i_v i_bh : nat) (mem : data * data) : data * data :=
  let '(h, ht) := mem in
  let '(r, h) :=
    fold_left
      (fun '(r, h) i_t =>
         let h := tl.store h i_bh (i_t * K) (K, V) (i_k * BK, i_v * BV) (BK, BV)
                           (r_b_h r) in
         (chunk_retention_fwd_kernel_h_step k v H T K V BT BK BV NT
                                            i_k i_v i_bh i_t r, h))
      (seq 0 NT)
      (chunk_retention_fwd_kernel_h_init h0 H K V BT BK BV USE_INITIAL_STATE
                                         i_k i_v i_bh, h) in
  let ht :=
    if STORE_FINAL_STATE
    then tl.store ht i_bh 0 (K, V) (i_k * BK, i_v * BV) (BK, BV) (r_b_h r)
    else ht in
  (h, ht).

Definition chunk_retention_fwd_kernel_o
    (q k v h : data) (scale : R) (H T K V BT BK BV : nat)
    (i_v i_t i_bh : nat) (o : data) : data :=
  let i_h := i_bh mod H in
  let b_b := b_b i_h in
  let d_i := fun o_i => tl.exp2 (INR (o_i + 1) * b_b) in
  let m_s := fun i j => j <=? i in
  let d_s := tl.where0 m_s
               (fun i j => tl.exp2 (IZR (Z.of_nat i - Z.of_nat j) * b_b)) in
  let '(b_o, b_s) :=
    fold_left
      (fun '(b_o, b_s) i_k =>
         (* [BT, BK] *)
         let b_q := tl.load (tl.rows_of q i_bh 0) (T, K) (i_t * BT, i_k * BK) in
         (* [BK, BT] *)
         let b_k := tl.load (tl.cols_of k i_bh 0) (K, T) (i_k * BK, i_t * BT) in
         (* [BK, BV] *)
         let b_h := tl.load (tl.rows_of h i_bh (i_t * K)) (K, V)
                            (i_k * BK, i_v * BV) in
         (badd b_o (tl.dot BK b_q b_h), badd b_s (tl.dot BK b_q b_k)))
      (seq 0 (tl.cdiv K BK)) (tl.zeros, tl.zeros) in
  let b_o := brows b_o d_i in
  let b_s := bmul b_s d_s in
  let b_v := tl.load (tl.rows_of v i_bh 0) (T, V) (i_t * BT, i_v * BV) in
  let b_o := bscale scale (badd b_o (tl.dot BT b_s b_v)) in
  tl.store o i_bh 0 (T, V) (i_t * BT, i_v * BV) (BT, BV) b_o.

(** One iteration of the reverse loop of [chunk_retention_bwd_kernel_dh],
    registers only. *)
Definition chunk_retention_bwd_kernel_dh_step
    (q do : data) (scale : R) (H T K V BT BK BV : nat) (i_k i_v i_bh : nat)
    (i_t : nat) (b_dh : block) : block :=
  let i_h := i_bh mod H in
  let b_b := b_b i_h in
  let d_i := fun o_i => tl.exp2 (INR (o_i + 1) * b_b) in
  let d_b := tl.exp2 (IZR (Z.min (Z.of_nat BT)
                                 (Z.of_nat T - Z.of_nat i_t * Z.of_nat BT)) * b_b) in
  (* [BK, BT] *)
  let b_q := tl.load (tl.cols_of q i_bh 0) (K, T) (i_k * BK, i_t * BT) in
  let b_q := bscale scale b_q in
  (* [BT, V] *)
  let b_do := tl.load (tl.rows_of do i_bh 0) (T, V) (i_t * BT, i_v * BV) in
  (* [BK, BV] *)
  badd (bscale d_b b_dh) (tl.dot BT b_q (brows b_do d_i)).

(** The gradient accumulator on entry to the reverse loop, shared by the
    two variants' kernels. *)
Definition bwd_kernel_dh_init
    (dht : data) (K V BK BV : nat) (USE_FINAL_STATE_GRADIENT : bool)
    (i_k i_v i_bh : nat) : block :=
  (* [BK, BV] *)
  let b_dh := tl.zeros in
  if USE_FINAL_STATE_GRADIENT
  then badd b_dh (tl.load (tl.rows_of dht i_bh 0) (K, V) (i_k * BK, i_v * BV))
  else b_dh.

Definition chunk_retention_bwd_kernel_dh
    (q do dht : data) (scale : R) (H T K V BT BK BV NT : nat)
    (STORE_INITIAL_STATE_GRADIENT USE_FINAL_STATE_GRADIENT : bool)
    (i_k i_v i_bh : nat) (mem : data * data) : data * data :=
  let '(dh, dh0) := mem in
  let b_dh := bwd_kernel_dh_init dht K V BK BV USE_FINAL_STATE_GRADIENT
                                 i_k i_v i_bh in
  let '(b_dh, dh) :=
    fold_left
      (fun '(b_dh, dh) i_t =>
         let dh := tl.store dh i_bh (i_t * K) (K, V) (i_k * BK, i_v * BV) (BK, BV)
                            b_dh in
         (chunk_retention_bwd_kernel_dh_step q do scale H T K V BT BK BV
                                             i_k i_v i_bh i_t b_dh, dh))
      (rev (seq 0 NT)) (b_dh, dh) in
  let dh0 :=
    if STORE_INITIAL_STATE_GRADIENT
    then tl.store dh0 i_bh 0 (K, V) (i_k * BK, i_v * BV) (BK, BV) b_dh
    else dh0 in
  (dh, dh0).

(** [chunk_retention_bwd_kernel_dqkv]; [n_bh] is [tl.num_programs(2)].
    Program [i_k] writes its share of [dv] to the lanes of its own slice
    [i_k] of [dv], whose leading dimension is the number of K-tiles. *)
Definition chunk_retention_bwd_kernel_dqkv
    (q k v h do dh : data) (scale : R) (H T K V BT BK BV NT : nat) (n_bh : nat)
    (i_k i_t i_bh : nat) (mem : data * data * data) : data * data * data :=
  let '(dq, dk, dv) := mem in
  let i_h := i_bh mod H in
  let b_b := b_b i_h in
  let d_q := fun o_i => tl.exp2 (INR (o_i + 1) * b_b) in
  let d_k := fun o_i =>
    tl.exp2 (IZR (Z.min (Z.of_nat BT) (Z.of_nat T - Z.of_nat i_t * Z.of_nat BT)
                  - Z.of_nat o_i - 1) * b_b) in
  let d_q := fun o_i => (d_q o_i * scale)%R in
  let m_s := fun i j => j <=? i in
  let d_s := bscale scale
               (tl.where0 m_s
                  (fun i j => tl.exp2 (IZR (Z.of_nat i - Z.of_nat j) * b_b))) in
  let b_q := tl.load (tl.cols_of q i_bh 0) (K, T) (i_k * BK, i_t * BT) in
  let b_k := tl.load (tl.rows_of k i_bh 0) (T, K) (i_t * BT, i_k * BK) in
  let b_s := bmul (tl.dot BK b_k b_q) (tl.trans d_s) in
  let '(b_dq, b_dk, b_ds, dv) :=
    fold_left
      (fun '(b_dq, b_dk, b_ds, dv) i_v =>
         (* [BT, BV] *)
         let b_v := tl.load (tl.rows_of v i_bh 0) (T, V) (i_t * BT, i_v * BV) in
         let b_do := tl.load (tl.rows_of do i_bh 0) (T, V) (i_t * BT, i_v * BV) in
         (* [BV, BK] *)
         let b_h := tl.load (tl.cols_of h i_bh 0) (V, NT * K)
                            (i_v * BV, i_t * K + i_k * BK) in
         (* [BK, BV] *)
         let b_dh := tl.load (tl.rows_of dh i_bh 0) (NT * K, V)
                             (i_t * K + i_k * BK, i_v * BV) in
         (* [BT, BT] *)
         let b_ds := badd b_ds (tl.dot BV b_do (tl.trans b_v)) in
         (* [BT, BK] *)
         let b_dq := badd b_dq (tl.dot BV b_do b_h) in
         let b_dk := badd b_dk (tl.dot BV b_v (tl.trans b_dh)) in
         (* [BT, BV] *)
         let b_dv := badd (brows (tl.dot BK b_k b_dh) d_k) (tl.dot BT b_s b_do) in
         let dv := tl.store dv (i_k * n_bh + i_bh) 0 (T, V) (i_t * BT, i_v * BV)
                            (BT, BV) b_dv in
         (b_dq, b_dk, b_ds, dv))
      (seq 0 (tl.cdiv V BV)) (tl.zeros, tl.zeros, tl.zeros, dv) in
  (* [BT, BT] *)
  let b_ds := bmul b_ds d_s in
  (* [BT, BK] *)
  let b_dq := badd (brows b_dq d_q) (tl.dot BT b_ds b_k) in
  let b_dk := badd (brows b_dk d_k) (tl.trans (tl.dot BT b_q b_ds)) in
  let dq := tl.store dq i_bh 0 (T, K) (i_t * BT, i_k * BK) (BT, BK) b_dq in
  let dk := tl.store dk i_bh 0 (T, K) (i_t * BT, i_k * BK) (BT, BK) b_dk in
  (dq, dk, dv).

(** [x.sum(0)]: the slices along the leading dimension, each made of
    [lanes] lanes, are added up. *)
Definition sum0 (x : tensor) : tensor :=
  match t_shape x with
  | n :: rest =>
      let lanes := fold_right Nat.mul 1 (firstn (List.length rest - 2) rest) in
      mk_tensor (t_dtype x) rest (t_requires_grad x)
                (fun l r c => tl.sum n (fun i => t_data x (i * lanes + l) r c))
  | [] => x
  end.

Section RetentionDrivers.

(** Contents of freshly allocated memory ([new_empty], [empty_like]). *)
Variable uninit : data.

Definition new_empty (shape : list nat) (dt : dtype) : tensor :=
  mk_tensor dt shape false uninit.

Definition chunk_fwd_h_fn (k v : tensor) (h0 : option tensor) (BT : nat)
    (output_final_state : bool) : host (tensor * option tensor) :=
  '(B, H, T, K, V) <- dims k v ;;
  let final_state :=
    if output_final_state then Some (new_empty [B; H; K; V] float32) else None in
  let BK := Nat.min 64 (triton.next_power_of_2 K) in
  let BV := Nat.min 64 (triton.next_power_of_2 V) in
  NT <- triton.cdiv T BT ;;
  NK <- triton.cdiv K BK ;;
  NV <- triton.cdiv V BV ;;
  let h := new_empty [B; H; NT * K; V] (t_dtype k) in
  let grid := (NK, NV, B * H) in
  dispatch (Kernel "chunk_retention_fwd_kernel_h" grid) ;;;
  let mem :=
    triton.launch grid
      (chunk_retention_fwd_kernel_h (t_data k) (t_data v) (data_of h0)
         H T K V BT BK BV NT (is_some h0) output_final_state)
      (t_data h, data_of final_state) in
  ret (with_data h (fst mem),
       option_map (fun x => with_data x (snd mem)) final_state).

Definition chunk_fwd_o_fn (q k v h : tensor) (BT : nat) (scale : R) : host tensor :=
  '(B, H, T, K, V) <- dims k v ;;
  let o := new_empty (t_shape v) (t_dtype v) in
  let BK := Nat.min (triton.next_power_of_2 K) 64 in
  let BV := Nat.min (triton.next_power_of_2 V) 64 in
  NV <- triton.cdiv V BV ;;
  NT <- triton.cdiv T BT ;;
  let grid := (NV, NT, B * H) in
  dispatch (Kernel "chunk_retention_fwd_kernel_o" grid) ;;;
  ret (with_data o
         (triton.launch grid
            (chunk_retention_fwd_kernel_o (t_data q) (t_data k) (t_data v)
               (t_data h) scale H T K V BT BK BV)
            (t_data o))).

Definition chunk_bwd_dh_fn (q k v : tensor) (h0 : option tensor)
    (do : tensor) (dht : option tensor) (BT : nat) (scale : R)
  : host (tensor * option tensor) :=
  '(B, H, T, K, V) <- dims k v ;;
  let BT := 64 in
  let BK := Nat.min (triton.next_power_of_2 K) 64 in
  let BV := Nat.min (triton.next_power_of_2 V) 64 in
  NT <- triton.cdiv T BT ;;
  NK <- triton.cdiv K BK ;;
  NV <- triton.cdiv V BV ;;
  let dh := new_empty [B; H; NT * K; V] (t_dtype k) in
  let dh0 :=
    match h0 with
    | Some x => Some (new_empty (t_shape x) float32)
    | None => None
    end in
  let grid := (NK, NV, B * H) in
  dispatch (Kernel "chunk_retention_bwd_kernel_dh" grid) ;;;
  let mem :=
    triton.launch grid
      (chunk_retention_bwd_kernel_dh (t_data q) (t_data do) (data_of dht) scale
         H T K V BT BK BV NT (is_some dh0) (is_some dht))
      (t_data dh, data_of dh0) in
  ret (with_data dh (fst mem), option_map (fun x => with_data x (snd mem)) dh0).

(** [ChunkRetentionFunction.forward]; the tensors saved for the backward
    pass are its arguments themselves. *)
Definition ChunkRetentionFunction_forward (q k v : tensor) (scale : R)
    (initial_state : option tensor) (output_final_state : bool)
  : host (tensor * option tensor) :=
  let BT := 64 in
  '(h, ht) <- chunk_fwd_h_fn k v initial_state BT output_final_state ;;
  o <- chunk_fwd_o_fn q k v h BT scale ;;
  ret (to_dtype o (t_dtype q), ht).

(** [k.shape[-1] ** -0.5] *)
Definition default_scale (k : tensor) : R :=
  (/ sqrt (INR (last (t_shape k) 0%nat)))%R.

Definition chunk_retention (q k v : tensor) (scale : option R)
    (initial_state : option tensor) (output_final_state : bool)
  : host (tensor * option tensor) :=
  assert ((List.length (t_shape q) =? 4) && (List.length (t_shape k) =? 4)
          && (List.length (t_shape v) =? 4))
         "q, k, v must have 4 dimensions [B, H, T, D]" ;;;
  assert (dtype_eqb (t_dtype q) (t_dtype k) && dtype_eqb (t_dtype k) (t_dtype v))
         "q, k, v must have the same dtype" ;;;
  let scale :=
    match scale with
    | Some s => s
    | None => default_scale k
    end in
  ChunkRetentionFunction_forward q k v scale initial_state output_final_state.


Definition chunk_bwd_dqkv_fn (q k v h do dh : tensor) (scale : R)
  : host (tensor * tensor * tensor) :=
  '(B, H, T, K, V) <- dims k v ;;
  let BT := 64 in
  let BK := Nat.min (triton.next_power_of_2 K) 64 in
  let BV := Nat.min (triton.next_power_of_2 V) 64 in
  NT <- triton.cdiv T BT ;;
  NK <- triton.cdiv K BK ;;
  let grid := (NK, NT, B * H) in
  (* torch.empty_like *)
  let dq := new_empty (t_shape q) (t_dtype q) in
  let dk := new_empty (t_shape k) (t_dtype k) in
  let dv := new_empty (NK :: t_shape v) (t_dtype v) in
  dispatch (Kernel "chunk_retention_bwd_kernel_dqkv" grid) ;;;
  let mem :=
    triton.launch grid
      (chunk_retention_bwd_kernel_dqkv (t_data q) (t_data k) (t_data v) (t_data h)
         (t_data do) (t_data dh) scale H T K V BT BK BV NT (B * H))
      (t_data dq, t_data dk, t_data dv) in
  let dv := sum0 (with_data dv (snd mem)) in
  ret (with_data dq (fst (fst mem)), with_data dk (snd (fst mem)), dv).

(** [ChunkRetentionFunction.backward], from the tensors and constants
    that [forward] saved; it returns a gradient for each argument of
    [forward]: [dq, dk, dv, None, dh0, None]. *)
Definition ChunkRetentionFunction_backward (q k v : tensor)
    (initial_state : option tensor) (BT : nat) (scale : R)
    (do : tensor) (dht : option tensor)
  : host (tensor * tensor * tensor * option tensor * option tensor * option tensor) :=
  '(h, _) <- chunk_fwd_h_fn k v initial_state BT false ;;
  '(dh, dh0) <- chunk_bwd_dh_fn q k v initial_state do dht BT scale ;;
  '(dq, dk, dv) <- chunk_bwd_dqkv_fn q k v h do dh scale ;;
  ret (to_dtype dq (t_dtype q), to_dtype dk (t_dtype k), to_dtype dv (t_dtype v),
       None, dh0, None).

End RetentionDrivers.

(** ** Delta rule: [fla/ops/delta_rule/chunk.py] *)

Definition chunk_delta_rule_fwd_kernel_prepare_dv
    (q k do : data) (T K V : nat) (scale : R) (BT BK BV : nat)
    (i_t i_bh : nat) (dv : data) : data :=
  let b_A :=
    fold_left
      (fun b_A i_k =>
         let b_k := tl.load (tl.rows_of k i_bh 0) (T, K) (i_t * BT, i_k * BK) in
         let b_q := tl.load (tl.cols_of q i_bh 0) (K, T) (i_k * BK, i_t * BT) in
         let b_q := bscale scale b_q in
         badd b_A (tl.dot BK b_k b_q))
      (seq 0 (tl.cdiv K BK)) tl.zeros in
  let b_A := tl.where0 (fun i j => i <=? j) b_A in
  fold_left
    (fun dv i_v =>
       let b_do := tl.load (tl.rows_of do i_bh 0) (T, V) (i_t * BT, i_v * BV) in
       let b_dv := tl.dot BT b_A b_do in
       tl.store dv i_bh 0 (T, V) (i_t * BT, i_v * BV) (BT, BV) b_dv)
    (seq 0 (tl.cdiv V BV)) dv.

(** One sub-chunk [i_c] of chunk [i_t] in [chunk_delta_rule_fwd_kernel_h]:
    the chunk-local accumulator and the memory of [v_new]. *)
Definition chunk_delta_rule_fwd_kernel_h_sub
    (k v d : data) (T K V BT BC BK BV : nat) (i_k i_v i_bh : nat)
    (i_t : nat) (b_h : block) (i_c : nat) (st : block * data) : block * data :=
  let '(b_h_cumsum, v_new) := st in
  let b_k := tl.load (tl.cols_of k i_bh 0) (K, T)
                     (i_k * BK, i_t * BT + i_c * BC) in
  (* [BT, BK] *)
  let b_d := tl.load (tl.rows_of d i_bh 0) (T, K)
                     (i_t * BT + i_c * BC, i_k * BK) in
  (* [BT, BV] *)
  let b_v := tl.load (tl.rows_of v i_bh 0) (T, V)
                     (i_t * BT + i_c * BC, i_v * BV) in
  let b_v := bsub b_v (tl.dot BK b_d b_h) in
  (* [BK, BV] *)
  let v_new := tl.store v_new i_bh 0 (T, V) (i_t * BT + i_c * BC, i_v * BV)
                        (BC, BV) b_v in
  (badd b_h_cumsum (tl.dot BC b_k b_v), v_new).

(** One chunk [i_t]: the running state, and the memories of [h] and [v_new]. *)
Definition chunk_delta_rule_fwd_kernel_h_chunk
    (k v d : data) (T K V BT BC BK BV : nat) (i_k i_v i_bh : nat)
    (i_t : nat) (st : block * (data * data)) : block * (data * data) :=
  let '(b_h, (h, v_new)) := st in
  let h := tl.store h i_bh (i_t * K) (K, V) (i_k * BK, i_v * BV) (BK, BV) b_h in
  let b_h_cumsum := tl.zeros in
  let '(b_h_cumsum, v_new) :=
    fold_left
      (fun st i_c =>
         chunk_delta_rule_fwd_kernel_h_sub k v d T K V BT BC BK BV
                                           i_k i_v i_bh i_t b_h i_c st)
      (seq 0 (tl.cdiv BT BC)) (b_h_cumsum, v_new) in
  (badd b_h b_h_cumsum, (h, v_new)).

(** The running state on entry to the loop. *)
Definition chunk_delta_rule_fwd_kernel_h_init
    (h0 : data) (K V BK BV : nat) (USE_INITIAL_STATE : bool)
    (i_k i_v i_bh : nat) : block :=
  (* [BK, BV] *)
  let b_h := tl.zeros in
  if USE_INITIAL_STATE
  then tl.load (tl.rows_of h0 i_bh 0) (K, V) (i_k * BK, i_v * BV)
  else b_h.

Definition chunk_delta_rule_fwd_kernel_h
    (k v d h0 : data) (T K V BT BC BK BV NT : nat)
    (USE_INITIAL_STATE STORE_FINAL_STATE : bool)
    (i_k i_v i_bh : nat) (mem : data * data * data) : data * data * data :=
  let '(v_new, h, ht) := mem in
  let b_h := chunk_delta_rule_fwd_kernel_h_init h0 K V BK BV USE_INITIAL_STATE
                                                i_k i_v i_bh in
  let '(b_h, (h, v_new)) :=
    fold_left
      (fun st i_t =>
         chunk_delta_rule_fwd_kernel_h_chunk k v d T K V BT BC BK BV
                                             i_k i_v i_bh i_t st)
      (seq 0 NT) (b_h, (h, v_new)) in
  let ht :=
    if STORE_FINAL_STATE
    then tl.store ht i_bh 0 (K, V) (i_k * BK, i_v * BV) (BK, BV) b_h
    else ht in
  (v_new, h, ht).

Definition chunk_delta_rule_fwd_kernel_o
    (q k v h : data) (scale : R) (T K V BT BK BV : nat)
    (i_v i_t i_bh : nat) (o : data) : data :=
  let m_s := fun i j => j <=? i in
  let '(b_o, b_s) :=
    fold_left
      (fun '(b_o, b_s) i_k =>
         (* [BT, BK] *)
         let b_q := tl.load (tl.rows_of q i_bh 0) (T, K) (i_t * BT, i_k * BK) in
         let b_q := bscale scale b_q in
         (* [BK, BT] *)
         let b_k := tl.load (tl.cols_of k i_bh 0) (K, T) (i_k * BK, i_t * BT) in
         (* [BK, BV] *)
         let b_h := tl.load (tl.rows_of h i_bh (i_t * K)) (K, V)
                            (i_k * BK, i_v * BV) in
         (badd b_o (tl.dot BK b_q b_h), badd b_s (tl.dot BK b_q b_k)))
      (seq 0 (tl.cdiv K BK)) (tl.zeros, tl.zeros) in
  let b_s := tl.where0 m_s b_s in
  let b_v := tl.load (tl.rows_of v i_bh 0) (T, V) (i_t * BT, i_v * BV) in
  let b_o := badd b_o (tl.dot BT b_s b_v) in
  tl.store o i_bh 0 (T, V) (i_t * BT, i_v * BV) (BT, BV) b_o.

(** One sub-chunk of the reverse loop of [chunk_delta_rule_bwd_kernel_dhu]. *)
Definition chunk_delta_rule_bwd_kernel_dhu_sub
    (q k d do dv : data) (scale : R) (T K V BT BC BK BV : nat)
    (i_k i_v i_bh : nat) (i_t : nat) (b_dh : block) (i_c : nat)
    (st : block * data) : block * data :=
  let '(b_dh_tmp, dv2) := st in
  (* [BK, BT] *)
  let b_q := tl.load (tl.cols_of q i_bh 0) (K, T)
                     (i_k * BK, i_t * BT + i_c * BC) in
  let b_q := bscale scale b_q in
  (* [BT, BK] *)
  let b_k := tl.load (tl.rows_of k i_bh 0) (T, K)
                     (i_t * BT + i_c * BC, i_k * BK) in
  let b_d := tl.load (tl.cols_of d i_bh 0) (K, T)
                     (i_k * BK, i_t * BT + i_c * BC) in
  (* [BT, V] *)
  let b_do := tl.load (tl.rows_of do i_bh 0) (T, V)
                      (i_t * BT + i_c * BC, i_v * BV) in
  let b_dv := tl.load (tl.rows_of dv i_bh 0) (T, V)
                      (i_t * BT + i_c * BC, i_v * BV) in
  let b_dv := badd b_dv (tl.dot BK b_k b_dh) in
  let dv2 := tl.store dv2 i_bh 0 (T, V) (i_t * BT + i_c * BC, i_v * BV)
                      (BC, BV) b_dv in
  (* [BK, BV] *)
  let b_dh_tmp := badd b_dh_tmp (tl.dot BC b_q b_do) in
  let b_dh_tmp := bsub b_dh_tmp (tl.dot BC b_d b_dv) in
  (b_dh_tmp, dv2).

Definition chunk_delta_rule_bwd_kernel_dhu_chunk
    (q k d do dv : data) (scale : R) (T K V BT BC BK BV : nat)
    (i_k i_v i_bh : nat) (i_t : nat) (st : block * (data * data))
  : block * (data * data) :=
  let '(b_dh, (dh, dv2)) := st in
  let dh := tl.store dh i_bh (i_t * K) (K, V) (i_k * BK, i_v * BV) (BK, BV) b_dh in
  let b_dh_tmp := tl.zeros in
  let '(b_dh_tmp, dv2) :=
    fold_left
      (fun st i_c =>
         chunk_delta_rule_bwd_kernel_dhu_sub q k d do dv scale T K V BT BC BK BV
                                             i_k i_v i_bh i_t b_dh i_c st)
      (rev (seq 0 (tl.cdiv BT BC))) (b_dh_tmp, dv2) in
  (badd b_dh b_dh_tmp, (dh, dv2)).

Definition chunk_delta_rule_bwd_kernel_dhu
    (q k d dht do dv : data) (scale : R) (T K V BT BC BK BV NT : nat)
    (STORE_FINAL_STATE USE_INITIAL_STATE : bool)
    (i_k i_v i_bh : nat) (mem : data * data * data) : data * data * data :=
  let '(dh, dh0, dv2) := mem in
  let b_dh := bwd_kernel_dh_init dht K V BK BV STORE_FINAL_STATE i_k i_v i_bh in
  let '(b_dh, (dh, dv2)) :=
    fold_left
      (fun st i_t =>
         chunk_delta_rule_bwd_kernel_dhu_chunk q k d do dv scale
                                               T K V BT BC BK BV i_k i_v i_bh i_t st)
      (rev (seq 0 NT)) (b_dh, (dh, dv2)) in
  let dh0 :=
    if USE_INITIAL_STATE
    then tl.store dh0 i_bh 0 (K, V) (i_k * BK, i_v * BV) (BK, BV) b_dh
    else dh0 in
  (dh, dh0, dv2).

Definition chunk_delta_rule_bwd_kernel_dqkw
    (q k v h do dh dv : data) (scale : R) (T K V BT BK BV NT : nat)
    (i_k i_t i_bh : nat) (mem : data * data * data) : data * data * data :=
  let '(dq, dk, dw) := mem in
  let '(b_dq, b_dk, b_dw, b_ds) :=
    fold_left
      (fun '(b_dq, b_dk, b_dw, b_ds) i_v =>
         (* [BT, BV] *)
         let b_v := tl.load (tl.rows_of v i_bh 0) (T, V) (i_t * BT, i_v * BV) in
         let b_do := tl.load (tl.rows_of do i_bh 0) (T, V) (i_t * BT, i_v * BV) in
         (* [BV, BK] *)
         let b_h := tl.load (tl.cols_of h i_bh 0) (V, NT * K)
                            (i_v * BV, i_t * K + i_k * BK) in
         let b_dh := tl.load (tl.cols_of dh i_bh 0) (V, NT * K)
                             (i_v * BV, i_t * K + i_k * BK) in
         (* [BT, BT] *)
         let b_ds := badd b_ds (tl.dot BV b_do (tl.trans b_v)) in
         (* [BT, BK] *)
         let b_dq := badd b_dq (tl.dot BV b_do b_h) in
         let b_dk := badd b_dk (tl.dot BV b_v b_dh) in
         let b_dv := tl.load (tl.rows_of dv i_bh 0) (T, V) (i_t * BT, i_v * BV) in
         let b_dw := badd b_dw (tl.dot BV b_dv b_h) in
         (b_dq, b_dk, b_dw, b_ds))
      (seq 0 (tl.cdiv V BV)) (tl.zeros, tl.zeros, tl.zeros, tl.zeros) in
  (* [BK, BT] *)
  let b_q := tl.load (tl.cols_of q i_bh 0) (K, T) (i_k * BK, i_t * BT) in
  let b_q := bscale scale b_q in
  let b_k := tl.load (tl.rows_of k i_bh 0) (T, K) (i_t * BT, i_k * BK) in
  let b_ds := tl.where0 (fun i j => j <=? i) b_ds in
  let b_dq := badd b_dq (tl.dot BT b_ds b_k) in
  let b_dq := bscale scale b_dq in
  let b_dk := badd b_dk (tl.trans (tl.dot BT b_q b_ds)) in
  let dq := tl.store dq i_bh 0 (T, K) (i_t * BT, i_k * BK) (BT, BK) b_dq in
  let dk := tl.store dk i_bh 0 (T, K) (i_t * BT, i_k * BK) (BT, BK) b_dk in
  let dw := tl.store dw i_bh 0 (T, K) (i_t * BT, i_k * BK) (BT, BK) (bneg b_dw) in
  (dq, dk, dw).

Section DeltaRuleDrivers.

(** Contents of freshly allocated memory. *)
Variable uninit : data.

(** The device's compute capability, [torch.cuda.get_device_capability()]. *)
Variable capability : nat * nat.

(** The WY-representation collaborators of [fla.ops.delta_rule.wy_fast]:
    [fwd_prepare_wy_repr k v beta BT] gives [(w, u, A)],
    [fwd_recompute_w_u k v beta A BT] gives [(w, u)] and
    [bwd_prepare_wy_repr k v beta A dw du BT] gives [(dk, dv, dbeta)]. *)
Variable fwd_prepare_wy_repr :
  tensor -> tensor -> tensor -> nat -> tensor * tensor * tensor.
Variable fwd_recompute_w_u :
  tensor -> tensor -> tensor -> tensor -> nat -> tensor * tensor.
Variable bwd_prepare_wy_repr :
  tensor -> tensor -> tensor -> tensor -> tensor -> tensor -> nat
  -> tensor * tensor * tensor.

Definition empty_like (x : tensor) : tensor :=
  new_empty uninit (t_shape x) (t_dtype x).

Definition chunk_delta_rule_fwd_prepare_dv (q k do : tensor) (BT : nat) (scale : R)
  : host tensor :=
  let dv := empty_like do in
  '(B, H, T, K, V) <- dims k do ;;
  NT <- triton.cdiv T BT ;;
  let BK := Nat.min (triton.next_power_of_2 K) 64 in
  let BV := Nat.min (triton.next_power_of_2 V) 64 in
  let grid := (NT, B * H, 1) in
  dispatch (Kernel "chunk_delta_rule_fwd_kernel_prepare_dv" grid) ;;;
  ret (with_data dv
         (triton.launch grid
            (fun i_t i_bh _ =>
               chunk_delta_rule_fwd_kernel_prepare_dv (t_data q) (t_data k)
                 (t_data do) T K V scale BT BK BV i_t i_bh)
            (t_data dv))).

(** The tile sizes [(BV, BC)] chosen from the device capability. *)
Definition fwd_h_tiles (K : nat) : nat * nat :=
  (* H100 can have larger block size *)
  if 9 <=? fst capability then (64, 64)
  (* A100 *)
  else if (fst capability =? 8) && (snd capability =? 0) then (32, 64)
  else (32, if K <=? 128 then 64 else 32).

Definition chunk_delta_rule_fwd_h_fn (k w u : tensor) (BT : nat)
    (initial_state final_state : option tensor)
  : host (tensor * tensor * option tensor) :=
  '(B, H, T, K, V) <- dims k u ;;
  let BK := triton.next_power_of_2 K in
  assert (BK <=? 256)
         "current kernel does not support head dimension larger than 256." ;;;
  let '(BV, BC) := fwd_h_tiles K in
  let BC := Nat.min BT BC in
  NT <- triton.cdiv T BT ;;
  NK <- triton.cdiv K BK ;;
  NV <- triton.cdiv V BV ;;
  assert (NK =? 1)
         "NK > 1 is not supported because it involves time-consuming synchronization" ;;;
  let h := new_empty uninit [B; H; NT * K; V] (t_dtype k) in
  let grid := (NK, NV, B * H) in
  let v_new := empty_like u in
  dispatch (Kernel "chunk_delta_rule_fwd_kernel_h" grid) ;;;
  let mem :=
    triton.launch grid
      (chunk_delta_rule_fwd_kernel_h (t_data k) (t_data u) (t_data w)
         (data_of initial_state) T K V BT BC BK BV NT
         (is_some initial_state) (is_some final_state))
      (t_data v_new, t_data h, data_of final_state) in
  ret (with_data h (snd (fst mem)), with_data v_new (fst (fst mem)),
       option_map (fun x => with_data x (snd mem)) final_state).

Definition bwd_dhu_tiles (K : nat) : nat * nat :=
  (* H100 *)
  if 9 <=? fst capability then (64, 64)
  (* A100 *)
  else if (fst capability =? 8) && (snd capability =? 0)
       then (32, if K <=? 128 then 64 else 32)
  else (32, if K <=? 128 then 64 else 32).

Definition chunk_delta_rule_bwd_dhu_fn (q k w : tensor) (dht dh0 : option tensor)
    (do dv : tensor) (BT : nat) (scale : R)
  : host (tensor * option tensor * tensor) :=
  '(B, H, T, K, V) <- dims q do ;;
  let BK := triton.next_power_of_2 K in
  assert (BK <=? 256)
         "current kernel does not support head dimension being larger than 256." ;;;
  let '(BV, BC) := bwd_dhu_tiles K in
  let BC := Nat.min BT BC in
  NT <- triton.cdiv T BT ;;
  NK <- triton.cdiv K BK ;;
  NV <- triton.cdiv V BV ;;
  assert (NK =? 1)
         "NK > 1 is not supported because it involves time-consuming synchronization" ;;;
  let dh := new_empty uninit [B; H; NT * K; V] (t_dtype q) in
  let grid := (NK, NV, B * H) in
  let dv2 := empty_like dv in
  dispatch (Kernel "chunk_delta_rule_bwd_kernel_dhu" grid) ;;;
  let mem :=
    triton.launch grid
      (chunk_delta_rule_bwd_kernel_dhu (t_data q) (t_data k) (t_data w)
         (data_of dht) (t_data do) (t_data dv) scale T K V BT BC BK BV NT
         (is_some dht) (is_some dh0))
      (t_data dh, data_of dh0, t_data dv2) in
  ret (with_data dh (fst (fst mem)),
       option_map (fun x => with_data x (snd (fst mem))) dh0,
       with_data dv2 (snd mem)).

Definition chunk_delta_rule_fwd_o_fn (q k v_new h : tensor) (BT : nat) (scale : R)
  : host tensor :=
  '(B, H, T, K, V) <- dims q v_new ;;
  let o := empty_like v_new in
  let BK := Nat.min (triton.next_power_of_2 K) 64 in
  let BV := Nat.min (triton.next_power_of_2 V) 64 in
  NV <- triton.cdiv V BV ;;
  NT <- triton.cdiv T BT ;;
  let grid := (NV, NT, B * H) in
  dispatch (Kernel "chunk_delta_rule_fwd_kernel_o" grid) ;;;
  ret (with_data o
         (triton.launch grid
            (chunk_delta_rule_fwd_kernel_o (t_data q) (t_data k) (t_data v_new)
               (t_data h) scale T K V BT BK BV)
            (t_data o))).

Definition chunk_delta_rule_bwd_dqkw_fn (q k v_new w h du do dh : tensor)
    (BT : nat) (scale : R) : host (tensor * tensor * tensor) :=
  '(B, H, T, K, V) <- dims q v_new ;;
  let BK := Nat.min (triton.next_power_of_2 K) 64 in
  let BV := Nat.min (triton.next_power_of_2 V) 64 in
  NK <- triton.cdiv K BK ;;
  NT <- triton.cdiv T BT ;;
  let grid := (NK, NT, B * H) in
  let dq := empty_like q in
  let dk := empty_like k in
  let dw := empty_like w in
  dispatch (Kernel "chunk_delta_rule_bwd_kernel_dqkw" grid) ;;;
  let mem :=
    triton.launch grid
      (chunk_delta_rule_bwd_kernel_dqkw (t_data q) (t_data k) (t_data v_new)
         (t_data h) (t_data do) (t_data dh) (t_data du) scale T K V BT BK BV NT)
      (t_data dq, t_data dk, t_data dw) in
  ret (with_data dq (fst (fst mem)), with_data dk (snd (fst mem)),
       with_data dw (snd mem)).

(** What [chunk_delta_rule_fwd] returns: [o, A, h, v_new, final_state]. *)
Record fwd_result := mk_fwd_result
  { f_o : tensor;
    f_A : tensor;
    f_h : option tensor;
    f_v_new : option tensor;
    f_final_state : option tensor }.

Definition chunk_delta_rule_fwd (q k v beta : tensor) (scale : R)
    (initial_state : option tensor) (output_final_state : bool)
    (checkpoint_level chunk_size : nat) : host fwd_result :=
  '(B, H, K, V) <-
     match firstn 2 (t_shape q), rev (t_shape k), rev (t_shape v) with
     | [B; H], K :: _, V :: _ => ret (B, H, K, V)
     | _, _, _ => raise ValueError
     end ;;
  let BT := chunk_size in
  (* obtain WY representation. u is actually the new v. *)
  dispatch (Collaborator "fwd_prepare_wy_repr") ;;;
  let '(w, u, A) := fwd_prepare_wy_repr k v beta BT in
  let final_state :=
    if output_final_state
    then Some (new_empty uninit [B; H; K; V] float32)
    else None in
  '(h, v_new, final_state) <-
     chunk_delta_rule_fwd_h_fn k w u BT initial_state final_state ;;
  (* obtain output *)
  o <- chunk_delta_rule_fwd_o_fn q k v_new h BT scale ;;
  let '(h, v_new) :=
    if checkpoint_level =? 1 then (None, None) else (Some h, Some v_new) in
  ret (mk_fwd_result o A h v_new final_state).

(** What [chunk_delta_rule_bwd] returns: [dq, dk, dv, db, dh0]. *)
Record bwd_result := mk_bwd_result
  { g_dq : tensor;
    g_dk : tensor;
    g_dv : tensor;
    g_db : tensor;
    g_dh0 : option tensor }.

(** [dk.add_(dk2)] *)
Definition add_ (x y : tensor) : tensor :=
  with_data x (fun l r c => (t_data x l r c + t_data y l r c)%R).

Definition chunk_delta_rule_bwd (q k v beta A : tensor) (h v_new : option tensor)
    (scale : R) (initial_state : option tensor) (do : tensor)
    (dht : option tensor) (chunk_size : nat) : host bwd_result :=
  let BT := chunk_size in
  dispatch (Collaborator "fwd_recompute_w_u") ;;;
  let '(w, u) := fwd_recompute_w_u k v beta A BT in
  '(h, v_new) <-
     match h with
     | Some h => ret (h, v_new)
     | None =>
         '(h, v_new, _) <- chunk_delta_rule_fwd_h_fn k w u BT initial_state None ;;
         ret (h, Some v_new)
     end ;;
  let dh0 :=
    match initial_state with
    | Some s =>
        if t_requires_grad s
        then Some (new_empty uninit (t_shape s) float32)
        else None
    | None => None
    end in
  dv <- chunk_delta_rule_fwd_prepare_dv q k do BT scale ;;
  '(dh, dh0, dv) <- chunk_delta_rule_bwd_dhu_fn q k w dht dh0 do dv BT scale ;;
  '(dq, dk, dw) <-
     match v_new with
     | Some v_new => chunk_delta_rule_bwd_dqkw_fn q k v_new w h dv do dh BT scale
     | None => (* [v_new.shape] on [None] *) raise AttributeError
     end ;;
  dispatch (Collaborator "bwd_prepare_wy_repr") ;;;
  let '(dk2, dv, db) := bwd_prepare_wy_repr k v beta A dw dv BT in
  let dk := add_ dk dk2 in
  ret (mk_bwd_result dq dk dv db dh0).

(** What [ChunkDeltaRuleFunction.forward] leaves in [ctx]. *)
Record ctx := mk_ctx
  { c_q : tensor;
    c_k : tensor;
    c_v : tensor;
    c_beta : tensor;
    c_A : tensor;
    c_h : option tensor;
    c_v_new : option tensor;
    c_initial_state : option tensor;
    c_BT : nat;
    c_scale : R }.

Definition ChunkDeltaRuleFunction_forward (q k v beta : tensor) (scale : R)
    (initial_state : option tensor) (output_final_state : bool)
    (checkpoint_level : nat) : host (ctx * (tensor * option tensor)) :=
  let BT := 64 in
  r <- chunk_delta_rule_fwd q k v beta scale initial_state output_final_state
                            checkpoint_level BT ;;
  let c := mk_ctx q k v beta (f_A r) (f_h r) (f_v_new r) initial_state BT scale in
  ret (c, (to_dtype (f_o r) (t_dtype q), f_final_state r)).

Definition ChunkDeltaRuleFunction_backward (c : ctx) (do : tensor)
    (dht : option tensor) : host bwd_result :=
  r <- chunk_delta_rule_bwd (c_q c) (c_k c) (c_v c) (c_beta c) (c_A c)
                            (c_h c) (c_v_new c) (c_scale c) (c_initial_state c)
                            do dht (c_BT c) ;;
  ret (mk_bwd_result (to_dtype (g_dq r) (t_dtype (c_q c)))
                     (to_dtype (g_dk r) (t_dtype (c_k c)))
                     (to_dtype (g_dv r) (t_dtype (c_v c)))
                     (to_dtype (g_db r) (t_dtype (c_beta c)))
                     (g_dh0 r)).

Definition chunk_delta_rule (q k v beta : tensor) (scale : option R)
    (initial_state : option tensor) (output_final_state : bool)
  : host (tensor * option tensor) :=
  assert (dtype_eqb (t_dtype q) (t_dtype k) && dtype_eqb (t_dtype k) (t_dtype v))
         EmptyString ;;;
  assert (negb (dtype_eqb (t_dtype q) float32))
         "ChunkDeltaRuleFunction does not support float32. Please use bfloat16." ;;;
  assert (List.length (t_shape beta) =? 3)
         "beta must be of shape (batch size, num of head, seq len)." ;;;
  let scale :=
    match scale with
    | Some s => s
    | None => default_scale k
    end in
  '(_, r) <- ChunkDeltaRuleFunction_forward q k v beta scale initial_state
                                            output_final_state 1 ;;
  ret r.

End DeltaRuleDrivers.

(** ** Reference notions used by the properties *)

(** The decay rate of head [i_h], of which [b_b i_h] is the binary
    logarithm. *)
Definition rate (i_h : nat) : R := (1 - tl.exp2 (-5 - INR i_h * 1))%R.

(** A tensor of the given dtype and shape whose entries are all [x]. *)
Definition full (dt : dtype) (shape : list nat) (x : R) : tensor :=
  mk_tensor dt shape false (fun _ _ _ => x).

(** Memory holding zeros, for concrete runs. *)
Definition zero_data : data := fun _ _ _ => 0%R.

(** The output formula of the retention output engine at lane [l],
    time [t], feature [nu]: cross-chunk term plus causal intra-chunk
    term, [c] being the chunk of [t] and [i] its position in the chunk. *)
Definition retention_o_formula (q k v h : data) (scale : R) (H K BT : nat)
           (l t nu : nat) : R :=
  let c := (t / BT)%nat in
  let i := (t mod BT)%nat in
  (scale *
   (rate (l mod H) ^ (i + 1)
    * tl.sum K (fun kk => q l t kk * h l (c * K + kk)%nat nu)
    + tl.sum (i + 1)
        (fun j => rate (l mod H) ^ (i - j)
                  * tl.sum K (fun kk => q l t kk * k l (c * BT + j)%nat kk)
                  * v l (c * BT + j)%nat nu)))%R.

(** The same for the delta rule: no decay weights. *)
Definition delta_o_formula (q k v h : data) (scale : R) (K BT : nat)
           (l t nu : nat) : R :=
  let c := (t / BT)%nat in
  let i := (t mod BT)%nat in
  (scale *
   (tl.sum K (fun kk => q l t kk * h l (c * K + kk)%nat nu)
    + tl.sum (i + 1)
        (fun j => tl.sum K (fun kk => q l t kk * k l (c * BT + j)%nat kk)
                  * v l (c * BT + j)%nat nu)))%R.

(** The registers of program [(i_k, i_v, i_bh)] of the retention state
    kernel on entry to iteration [n]. *)
Definition retention_regs (k v h0 : data) (H T K V BT BK BV NT : nat)
           (USE : bool) (i_k i_v i_bh : nat) (n : nat) : fwd_h_regs :=
  fold_left
    (fun r i_t => chunk_retention_fwd_kernel_h_step k v H T K V BT BK BV NT
                                                    i_k i_v i_bh i_t r)
    (seq 0 n)
    (chunk_retention_fwd_kernel_h_init h0 H K V BT BK BV USE i_k i_v i_bh).

(** The running state of lane [l] on entry to chunk [c], cell by cell:
    the register of a program whose tile is the single cell [(kk, nu)]. *)
Definition retention_H (k v h0 : data) (H T K V BT NT : nat) (USE : bool)
           (l c : nat) : block :=
  fun kk nu => r_b_h (retention_regs k v h0 H T K V BT 1 1 NT USE kk nu l c) 0%nat 0%nat.

(** The number of valid positions the retention state kernel assumes
    for chunk [n]: the remaining length for a partial last chunk. *)
Definition chunk_len (T BT NT : nat) (n : nat) : nat :=
  if ((n =? NT - 1) && negb (T mod BT =? 0))%nat then (T mod BT)%nat else BT.

(** The running state of program [(i_k, i_v, i_bh)] of the delta-rule
    state kernel on entry to chunk [n].  The registers do not depend on
    the memory the chunk body writes, so it is run on [zero_data]. *)
Definition delta_regs (k u w h0 : data) (T K V BT BC BK BV : nat) (USE : bool)
           (i_k i_v i_bh : nat) (n : nat) : block :=
  fold_left
    (fun b i_t =>
       fst (chunk_delta_rule_fwd_kernel_h_chunk k u w T K V BT BC BK BV
              i_k i_v i_bh i_t (b, (zero_data, zero_data))))
    (seq 0 n)
    (chunk_delta_rule_fwd_kernel_h_init h0 K V BK BV USE i_k i_v i_bh).

(** The running state of lane [l] on entry to chunk [c], column by
    column: the register of the program with the single K-tile [K] whose
    V-tile is the single column [nu]. *)
Definition delta_H (k u w h0 : data) (T K V BT BC : nat) (USE : bool)
           (l c : nat) : block :=
  fun kk nu => delta_regs k u w h0 T K V BT BC K 1 USE 0 nu l c kk 0%nat.

(** The sequential retention recurrence of one lane: the state after the
    first [t] positions, [S (t+1) = rate * S t + k_t^T v_t], from the
    initial state [s0]. *)
Fixpoint retention_seq (g : R) (k v : block) (s0 : block) (t : nat) : block :=
  match t with
  | O => s0
  | S t' => fun kk nu => (g * retention_seq g k v s0 t' kk nu + k t' kk * v t' nu)%R
  end.

(** The sequential delta rule of one lane:
    [S (t+1) = S t + beta_t * k_t^T (v_t - k_t S t)], the exact one-step
    state-correction recurrence. *)
Fixpoint delta_seq (K : nat) (k v : block) (beta : nat -> R) (s0 : block) (t : nat)
  : block :=
  match t with
  | O => s0
  | S t' =>
      fun kk nu =>
        (delta_seq K k v beta s0 t' kk nu
         + beta t' * k t' kk
           * (v t' nu - tl.sum K (fun j => k t' j * delta_seq K k v beta s0 t' j nu)))%R
  end.

(** The initial state as the kernels read it. *)
Definition state0 (h0 : option tensor) (l : nat) : block :=
  fun kk nu => match h0 with Some s => t_data s l kk nu | None => 0%R end.

(** The per-position forget strength [beta[l, t]] of a [(B, H, T)] tensor. *)
Definition beta_at (beta : tensor) (l t : nat) : R := t_data beta l t 0%nat.

(** Modelled from the spec: what [fwd_prepare_wy_repr]
    ([fla/ops/delta_rule/wy_fast.py], not part of the sources) returns,
    as far as the chunk engines rely on it.  The spec describes [W] as
    the per-position transformed key "encoding the cumulative within-chunk
    forget corrections" and [U] as "the delta-corrected value", built
    "independently per chunk" so that each chunk update "exactly matches a
    sequential correction recurrence": within its chunk, position [t]
    holds its key (value) corrected by the earlier rows of the chunk,
    [w_t = beta_t (k_t - sum_{j<i} (k_t . k_j) w_j)] and likewise for [u]. *)
Definition wy_contract (BH T K V BT : nat) (k v : data) (beta : nat -> nat -> R)
           (w u : data) : Prop :=
  forall l t, (l < BH)%nat -> (t < T)%nat ->
    let c := (t / BT)%nat in
    let i := (t mod BT)%nat in
    let G := fun j => tl.sum K (fun kk => (k l t kk * k l (c * BT + j)%nat kk)%R) in
    (forall kk, (kk < K)%nat ->
       w l t kk = beta l t * (k l t kk - tl.sum i (fun j => G j * w l (c * BT + j)%nat kk)))%R
    /\
    (forall nu, (nu < V)%nat ->
       u l t nu = beta l t * (v l t nu - tl.sum i (fun j => G j * u l (c * BT + j)%nat nu)))%R.

(** A WY collaborator that honours its contract on every input. *)
Definition wy_ok
    (wy : tensor -> tensor -> tensor -> nat -> tensor * tensor * tensor) : Prop :=
  forall k v beta BT B H T K V w u A,
    t_shape k = [B; H; T; K] -> t_shape v = [B; H; T; V] -> (0 < BT)%nat ->
    wy k v beta BT = (w, u, A) ->
    t_shape u = t_shape v /\
    wy_contract (B * H) T K V BT (t_data k) (t_data v) (beta_at beta)
                (t_data w) (t_data u).

(** Queries, keys and values that pass the shape and dtype validation. *)
Definition qkv_ok (q k v : tensor) (B H T K V : nat) : Prop :=
  t_shape q = [B; H; T; K] /\ t_shape k = [B; H; T; K] /\ t_shape v = [B; H; T; V] /\
  t_dtype q = t_dtype k /\ t_dtype k = t_dtype v /\ (0 < K)%nat /\ (0 < V)%nat.

(** Two tensors agree on lanes below [BH], times up to [t] included and
    features below [n]. *)
Definition agree_upto (x y : tensor) (BH t n : nat) : Prop :=
  forall l s c, (l < BH)%nat -> (s <= t)%nat -> (c < n)%nat ->
                t_data x l s c = t_data y l s c.

(** The scale a call uses. *)
Definition scale_of (scale : option R) (k : tensor) : R :=
  match scale with Some s => s | None => default_scale k end.

(** [x[:, :, start : start + len]] *)
Definition narrow (x : tensor) (start len : nat) : tensor :=
  mk_tensor (t_dtype x)
            (match t_shape x with
             | B :: H :: _ :: rest => B :: H :: len :: rest
             | s => s
             end)
            (t_requires_grad x)
            (fun l t c => t_data x l (start + t)%nat c).

(** The gradient accumulator of program [(i_k, i_v, i_bh)] of the
    retention backward state kernel once the chunks [NT-1, ..., m] have
    been folded in. *)
Definition retention_dregs (q do dht : data) (scale : R) (H T K V BT BK BV NT : nat)
           (USE : bool) (i_k i_v i_bh : nat) (m : nat) : block :=
  fold_left
    (fun b i_t => chunk_retention_bwd_kernel_dh_step q do scale H T K V BT BK BV
                                                     i_k i_v i_bh i_t b)
    (rev (seq m (NT - m)))
    (bwd_kernel_dh_init dht K V BK BV USE i_k i_v i_bh).

(** The same for lane [l], cell by cell. *)
Definition retention_dH (q do dht : data) (scale : R) (H T K V BT NT : nat)
           (USE : bool) (l m : nat) : block :=
  fun kk nu => retention_dregs q do dht scale H T K V BT 1 1 NT USE kk nu l m 0%nat 0%nat.

(** The gradient accumulator of a program of the delta-rule backward
    state kernel once the chunks [NT-1, ..., m] have been folded in. *)
Definition delta_dregs (q k d dht do dv : data) (scale : R) (T K V BT BC BK BV NT : nat)
           (USE : bool) (i_k i_v i_bh : nat) (m : nat) : block :=
  fold_left
    (fun b i_t =>
       fst (chunk_delta_rule_bwd_kernel_dhu_chunk q k d do dv scale T K V BT BC BK BV
              i_k i_v i_bh i_t (b, (zero_data, zero_data))))
    (rev (seq m (NT - m)))
    (bwd_kernel_dh_init dht K V BK BV USE i_k i_v i_bh).

(** The same for lane [l], column by column, with the single K-tile [K]. *)
Definition delta_dH (q k d dht do dv : data) (scale : R) (T K V BT BC NT : nat)
           (USE : bool) (l m : nat) : block :=
  fun kk nu =>
    delta_dregs q k d dht do dv scale T K V BT BC K 1 NT USE 0 nu l m kk 0%nat.

(** A host computation whose outcome does not depend on the work
    dispatched before it, and which only appends to the log. *)
Definition log_free {A} (m : host A) : Prop :=
  forall w, m w = (fst (m []), w ++ snd (m [])).

(** Modelled from the spec: a WY collaborator that honours the contract
    above, for concrete runs.  Rows [0 .. n-1] of the transform of [x]
    within the chunk that starts at position [base], built row by row
    from the rows before. *)
Fixpoint wy_rows (K : nat) (k x : block) (beta : nat -> R) (base n : nat) : block :=
  match n with
  | O => fun _ _ => 0%R
  | S i =>
      let prev := wy_rows K k x beta base i in
      fun j c =>
        if (j =? i)%nat
        then (beta (base + i)%nat
              * (x (base + i)%nat c
                 - tl.sum i (fun j' =>
                     tl.sum K (fun kk => k (base + i)%nat kk * k (base + j')%nat kk)
                     * prev j' c)))%R
        else prev j c
  end.

(** Modelled from the spec: the transform of every position, chunk by chunk. *)
Definition wy_transform (K BT : nat) (k x : data) (beta : nat -> nat -> R) : data :=
  fun l t c =>
    wy_rows K (k l) (x l) (beta l) (t / BT * BT) (S (t mod BT)) (t mod BT) c.

(** Modelled from the spec: [(W, U, A) = build(K, V, beta, chunk_size)],
    [W] and [U] with the shapes of [K] and [V]; [A] holds the chunk-local
    coefficients [beta_t (k_t . k_j)] below the diagonal. *)
Definition wy_model (k v beta : tensor) (BT : nat) : tensor * tensor * tensor :=
  let K := last (t_shape k) 0%nat in
  (with_data k (wy_transform K BT (t_data k) (t_data k) (beta_at beta)),
   with_data v (wy_transform K BT (t_data k) (t_data v) (beta_at beta)),
   mk_tensor (t_dtype k) (firstn 3 (t_shape k) ++ [BT]) false
     (fun l t j =>
        if (j <? t mod BT)%nat
        then (beta_at beta l t
              * tl.sum K (fun kk => t_data k l t kk
                                    * t_data k l (t / BT * BT + j)%nat kk))%R
        else 0%R)).

(** Modelled from the spec: the recomputation of [W] and [U] in the
    backward pass, [fwd_recompute_w_u]. *)
Definition rwu_model (k v beta A : tensor) (BT : nat) : tensor * tensor :=
  fst (wy_model k v beta BT).

(** Modelled from the spec: a stand-in for the WY gradient collaborator
    [(dK_extra, dV, dbeta) = backward(K, V, beta, A, dW, dV_partial,
    chunk_size)], of which the properties use the shapes only. *)
Definition bwy_model (k v beta A dw du : tensor) (BT : nat)
  : tensor * tensor * tensor :=
  (with_data k (t_data dw), with_data v (t_data du), with_data beta zero_data).

(** What [chunk_delta_rule_fwd_prepare_dv] stores at lane [l], time [t],
    feature [nu]: the output gradients of the positions [j >= i] of the
    chunk, weighted by the scaled scores [k_t . q_j]. *)
Definition prepare_dv_formula (q k do : data) (scale : R) (T K BT : nat)
           (l t nu : nat) : R :=
  let c := (t / BT)%nat in
  let i := (t mod BT)%nat in
  tl.sum (Nat.min BT (T - c * BT))
    (fun j => if (i <=? j)%nat
              then (scale * tl.sum K (fun kk => k l t kk * q l (c * BT + j)%nat kk)
                    * do l (c * BT + j)%nat nu)%R
              else 0%R).

(** What [chunk_delta_rule_bwd_dqkw_fn] stores at lane [l], time [t]
    (position [i] of chunk [c]) and key feature [kk]: the gradients of the
    queries, of the keys and of the WY-transformed keys, from the output
    gradient [do], the corrected values [v], their gradient [dv], the state
    snapshots [h] and the state gradients [dh]. *)
Definition dqkw_dq_formula (k v h do : data) (scale : R) (K V BT : nat)
           (l t kk : nat) : R :=
  let c := (t / BT)%nat in
  let i := (t mod BT)%nat in
  (scale *
   (tl.sum V (fun nu => do l t nu * h l (c * K + kk)%nat nu)
    + tl.sum (i + 1)
        (fun j => tl.sum V (fun nu => do l t nu * v l (c * BT + j)%nat nu)
                  * k l (c * BT + j)%nat kk)))%R.

Definition dqkw_dk_formula (q v do dh : data) (scale : R) (T K V BT : nat)
           (l t kk : nat) : R :=
  let c := (t / BT)%nat in
  let i := (t mod BT)%nat in
  (tl.sum V (fun nu => v l t nu * dh l (c * K + kk)%nat nu)
   + tl.sum (Nat.min BT (T - c * BT))
       (fun j => if (i <=? j)%nat
                 then scale * q l (c * BT + j)%nat kk
                      * tl.sum V (fun nu => do l (c * BT + j)%nat nu * v l t nu)
                 else 0))%R.

Definition dqkw_dw_formula (h dv : data) (K V BT : nat) (l t kk : nat) : R :=
  (- tl.sum V (fun nu => dv l t nu * h l (t / BT * K + kk)%nat nu))%R.

(** What [chunk_bwd_dqkv_fn] stores at lane [l], time [t] (position [i]
    of chunk [c], which holds [L] valid positions) and feature [kk] or
    [nu], from the output gradient [do], the state snapshots [h] and the
    state gradients [dh]. *)
Definition retention_dq_formula (k v h do : data) (scale : R) (H K V BT : nat)
           (l t kk : nat) : R :=
  let c := (t / BT)%nat in
  let i := (t mod BT)%nat in
  let r := rate (l mod H) in
  (scale *
   (r ^ (i + 1) * tl.sum V (fun nu => do l t nu * h l (c * K + kk)%nat nu)
    + tl.sum (i + 1)
        (fun j => r ^ (i - j)
                  * tl.sum V (fun nu => do l t nu * v l (c * BT + j)%nat nu)
                  * k l (c * BT + j)%nat kk)))%R.

Definition retention_dk_formula (q v do dh : data) (scale : R) (H T K V BT : nat)
           (l t kk : nat) : R :=
  let c := (t / BT)%nat in
  let i := (t mod BT)%nat in
  let L := Nat.min BT (T - c * BT) in
  let r := rate (l mod H) in
  (r ^ (L - i - 1) * tl.sum V (fun nu => v l t nu * dh l (c * K + kk)%nat nu)
   + tl.sum L
       (fun j => if (i <=? j)%nat
                 then scale * r ^ (j - i) * q l (c * BT + j)%nat kk
                      * tl.sum V (fun nu => do l (c * BT + j)%nat nu * v l t nu)
                 else 0))%R.

Definition retention_dv_formula (q k do dh : data) (scale : R) (H T K BT : nat)
           (l t nu : nat) : R :=
  let c := (t / BT)%nat in
  let i := (t mod BT)%nat in
  let L := Nat.min BT (T - c * BT) in
  let r := rate (l mod H) in
  (r ^ (L - i - 1) * tl.sum K (fun kk => k l t kk * dh l (c * K + kk)%nat nu)
   + tl.sum L
       (fun j => if (i <=? j)%nat
                 then scale * r ^ (j - i)
                      * tl.sum K (fun kk => k l t kk * q l (c * BT + j)%nat kk)
                      * do l (c * BT + j)%nat nu
                 else 0))%R.

(** The share of the value gradient that the programs of K-tile [i_k]
    store in their slice of [dv]. *)
Definition retention_dv_slice (q k do dh : data) (scale : R) (H T K BT BK : nat)
           (i_k : nat) (l t nu : nat) : R :=
  let c := (t / BT)%nat in
  let i := (t mod BT)%nat in
  let L := Nat.min BT (T - c * BT) in
  let r := rate (l mod H) in
  (r ^ (L - i - 1)
   * tl.sum BK (fun a => if (i_k * BK + a <? K)%nat
                         then k l t (i_k * BK + a)%nat
                              * dh l (c * K + (i_k * BK + a))%nat nu
                         else 0)
   + tl.sum L
       (fun j => if (i <=? j)%nat
                 then scale * r ^ (j - i)
                      * tl.sum BK (fun a => if (i_k * BK + a <? K)%nat
                                            then k l t (i_k * BK + a)%nat
                                                 * q l (c * BT + j)%nat (i_k * BK + a)%nat
                                            else 0)
                      * do l (c * BT + j)%nat nu
                 else 0))%R.

(** The reverse recurrence of retention on one lane of a sequence of
    length [T]: the gradient with respect to the state [S (T - n)], from
    the gradient [dT] with respect to the final state [S T], the queries
    and the output gradients.  With [t = T - n - 1], the state [S (t+1)]
    receives gradient from later positions and, through the output
    [o_t = scale * q_t . S (t+1)], the term [scale * q_t^T do_t]; the state
    before it receives the sum decayed once. *)
Fixpoint retention_adj (g scale : R) (q do dT : block) (T n : nat) : block :=
  match n with
  | O => dT
  | S n' =>
      fun kk nu =>
        (g * (retention_adj g scale q do dT T n' kk nu
              + scale * q (T - S n')%nat kk * do (T - S n')%nat nu))%R
  end.

(** * Properties *)

Local Open Scope R_scope.

(** ** The geometric decay of retention *)

Lemma exp2_pos (x : R) : 0 < tl.exp2 x.
Proof. unfold tl.exp2, Rpower. apply exp_pos. Qed.

Lemma ln2_pos : 0 < ln 2.
Proof. pose proof ln_lt_2. lra. Qed.

Lemma exp2_log2 (x : R) : 0 < x -> tl.exp2 (tl.log2 x) = x.
Proof.
  intros Hx. unfold tl.exp2, tl.log2, Rpower.
  replace (ln x / ln 2 * ln 2) with (ln x).
  - now apply exp_ln.
  - field. pose proof ln2_pos. lra.
Qed.

Lemma exp2_lt_1 (x : R) : x < 0 -> tl.exp2 x < 1.
Proof.
  intros Hx. unfold tl.exp2.
  rewrite <- (Rpower_O 2) by lra.
  apply Rpower_lt; lra.
Qed.

Lemma rate_bounds (i_h : nat) : 0 < rate i_h < 1.
Proof.
  unfold rate. pose proof (pos_INR i_h) as Hh.
  pose proof (exp2_pos (-5 - INR i_h * 1)).
  pose proof (exp2_lt_1 (-5 - INR i_h * 1)).
  split; lra.
Qed.

Lemma exp2_b_b (i_h : nat) : tl.exp2 (b_b i_h) = rate i_h.
Proof. unfold b_b. apply exp2_log2. apply rate_bounds. Qed.

Lemma exp2_mul_b_b (x : R) (i_h : nat) :
  tl.exp2 (x * b_b i_h) = Rpower (rate i_h) x.
Proof.
  change (b_b i_h) with (tl.log2 (rate i_h)).
  unfold tl.exp2, tl.log2, Rpower. f_equal.
  field. pose proof ln2_pos. lra.
Qed.

Lemma exp2_nat_b_b (n i_h : nat) : tl.exp2 (INR n * b_b i_h) = rate i_h ^ n.
Proof. rewrite exp2_mul_b_b. apply Rpower_pow. apply rate_bounds. Qed.

Lemma exp2_Z_b_b (z : Z) (i_h : nat) :
  tl.exp2 (IZR z * b_b i_h) = powerRZ (rate i_h) z.
Proof.
  rewrite exp2_mul_b_b. symmetry. apply powerRZ_Rpower. apply rate_bounds.
Qed.

(** In exact arithmetic the rate strictly increases with the head index. *)
Lemma rate_increasing (h1 h2 : nat) : (h1 < h2)%nat -> rate h1 < rate h2.
Proof.
  intros Hlt. unfold rate.
  assert (Hi : INR h1 < INR h2) by now apply lt_INR.
  assert (Hp : tl.exp2 (-5 - INR h2 * 1) < tl.exp2 (-5 - INR h1 * 1)).
  { unfold tl.exp2. apply Rpower_lt; lra. }
  lra.
Qed.

Lemma exp2_neg_nat (n : nat) :
  tl.exp2 (-5 - INR n * 1) = / IZR (2 ^ Z.of_nat (5 + n)).
Proof.
  unfold tl.exp2.
  replace (-5 - INR n * 1) with (- INR (5 + n)) by (rewrite plus_INR; cbn; lra).
  rewrite Rpower_Ropp, Rpower_pow by lra. f_equal.
  change 2 with (IZR 2). apply pow_IZR.
Qed.

Lemma exp2_neg5 : tl.exp2 (-5) = / 32.
Proof.
  unfold tl.exp2. replace (-5) with (- INR 5) by (cbn; lra).
  rewrite Rpower_Ropp, Rpower_pow by lra. f_equal. lra.
Qed.

Lemma rate_lower (i_h : nat) : 31 / 32 <= rate i_h.
Proof.
  unfold rate. pose proof (pos_INR i_h) as Hh.
  assert (H : tl.exp2 (-5 - INR i_h * 1) <= tl.exp2 (-5)).
  { unfold tl.exp2. apply Rle_Rpower; lra. }
  rewrite exp2_neg5 in H. lra.
Qed.

Lemma f32_to_R_finite (m p : positive) :
  f32.to_R (S754_finite false m (Z.neg p)) = IZR (Z.pos m) / IZR (2 ^ Z.pos p).
Proof.
  unfold f32.to_R, powerRZ, Rdiv. rewrite Rmult_1_l. f_equal. f_equal.
  change 2 with (IZR 2). rewrite pow_IZR. now rewrite positive_nat_Z.
Qed.

Ltac pow2_eval :=
  repeat match goal with
    | |- context [(2 ^ ?e)%Z] =>
        let v := eval vm_compute in (2 ^ e)%Z in
        change (2 ^ e)%Z with v
    end.

Lemma f32_one_R : f32.to_R f32.one = 1.
Proof. unfold f32.one. rewrite f32_to_R_finite. pow2_eval. lra. Qed.

Ltac f32_eval :=
  match goal with
  | |- context [rate_f32 ?n] =>
      let v := eval vm_compute in (rate_f32 n) in
      change (rate_f32 n) with v
  end.

(** Below head 20 the float32 subtraction is exact: the float32 rate is
    the rate of exact arithmetic. *)
Lemma rate_f32_low (i_h : nat) :
  (i_h < 20)%nat -> f32.to_R (rate_f32 i_h) = rate i_h.
Proof.
  intros Hh.
  assert (Hall : Forall (fun h => f32.to_R (rate_f32 h) = rate h) (seq 0 20)).
  { repeat (constructor;
            [ unfold rate; rewrite exp2_neg_nat; f32_eval;
              rewrite f32_to_R_finite; pow2_eval; lra | ]).
    constructor. }
  rewrite Forall_forall in Hall. apply Hall. apply in_seq. lia.
Qed.

(** From head 20 on, [2^(-5 - i_h)] is at most half an ulp of 1 and the
    float32 subtraction returns [1.0]. *)
Lemma rate_f32_high (i_h : nat) : (20 <= i_h)%nat -> rate_f32 i_h = f32.one.
Proof.
  intros Hh. destruct (le_lt_dec i_h 150) as [Hle|Hgt].
  - assert (Hall : Forall (fun h => rate_f32 h = f32.one) (seq 20 131)).
    { repeat (constructor; [vm_compute; reflexivity|]). constructor. }
    rewrite Forall_forall in Hall. apply Hall. apply in_seq. lia.
  - unfold rate_f32, f32.exp2_int.
    destruct (Z.ltb_spec (-5 - Z.of_nat i_h) (-149)); [reflexivity|lia].
Qed.

(** Counterexample to C10 as stated ("decay strictly increases with head
    index"): in float32 the heads 20 and 21 get the same rate, exactly
    [1.0], so the rate of head 20 is not below that of head 21 and their
    [b_b], the logarithm of that rate, is the same number. *)
Lemma decay_rate_not_strict_in_float32 :
  rate_f32 20 = f32.one /\ rate_f32 21 = f32.one /\
  SFltb (rate_f32 20) (rate_f32 21) = false.
Proof. vm_compute. repeat split. Qed.

(** C10, amended.  As the retention kernels compute it in float32, the
    decay rate [1 - exp2 (-5 - h)] derived from the head index never
    decreases with the head index: for [h1 < h2] the rate of [h1] is at most
    the rate of [h2].  It is strictly smaller exactly when [h1 < 20]; from
    head 20 on every head has the rate [1.0] (so [b_b = log2 1.0] and the
    state of these heads does not decay). *)
Theorem decay_rate_monotone_float32 (h1 h2 : nat) :
  (h1 < h2)%nat ->
  f32.to_R (rate_f32 h1) <= f32.to_R (rate_f32 h2) /\
  (f32.to_R (rate_f32 h1) < f32.to_R (rate_f32 h2) <-> (h1 < 20)%nat) /\
  ((20 <= h1)%nat -> rate_f32 h1 = f32.one /\ rate_f32 h2 = f32.one).
Proof.
  intros Hlt.
  assert (Hcases : (20 <= h1 /\ 20 <= h2)%nat \/ (h1 < 20 /\ h2 < 20)%nat
                   \/ (h1 < 20 /\ 20 <= h2)%nat) by lia.
  destruct Hcases as [[H1 H2]|[[H1 H2]|[H1 H2]]].
  - rewrite (rate_f32_high h1 H1), (rate_f32_high h2 H2).
    split; [apply Rle_refl|]. split; [|auto].
    split; [intros Habs; exfalso; lra | lia].
  - rewrite (rate_f32_low h1 H1), (rate_f32_low h2 H2).
    pose proof (rate_increasing h1 h2 Hlt).
    split; [lra|]. split; [tauto|lia].
  - rewrite (rate_f32_low h1 H1), (rate_f32_high h2 H2), f32_one_R.
    pose proof (rate_bounds h1).
    split; [lra|]. split; [|lia]. split; [auto|intros _; lra].
Qed.

Lemma decay_rate_monotone_float32_witness :
  (19 < 20)%nat /\ f32.to_R (rate_f32 19) < f32.to_R (rate_f32 20).
Proof.
  split; [lia|].
  destruct (decay_rate_monotone_float32 19 20 ltac:(lia)) as (_ & Hs & _).
  apply Hs. lia.
Defined.

(** ** Host-side arithmetic *)

Lemma next_power_of_2_ge (n : nat) : (n <= triton.next_power_of_2 n)%nat.
Proof.
  unfold triton.next_power_of_2.
  destruct (Nat.eqb_spec n 0) as [->|Hn]; [lia|].
  destruct (Nat.eq_dec n 1) as [->|H1]; [cbn; lia|].
  apply (Nat.log2_up_spec n). lia.
Qed.

Lemma next_power_of_2_pos (n : nat) : (0 < n -> 0 < triton.next_power_of_2 n)%nat.
Proof. pose proof (next_power_of_2_ge n). lia. Qed.

Lemma next_power_of_2_le_256 (n : nat) :
  (triton.next_power_of_2 n <= 256 <-> n <= 256)%nat.
Proof.
  split.
  - pose proof (next_power_of_2_ge n). lia.
  - intros Hn. unfold triton.next_power_of_2.
    destruct (Nat.eqb_spec n 0) as [->|H0]; [lia|].
    change 256%nat with (2 ^ 8)%nat.
    apply Nat.pow_le_mono_r; [lia|].
    apply Nat.log2_up_le_pow2; [lia|]. exact Hn.
Qed.

Lemma div_one (a b : nat) : (b <= a < 2 * b -> a / b = 1)%nat.
Proof.
  intros H. symmetry. apply (Nat.div_unique a b 1 (a - b)); lia.
Qed.

Lemma cdiv_single_tile (n b : nat) : (0 < n <= b -> (n + b - 1) / b = 1)%nat.
Proof. intros H. apply div_one. lia. Qed.

Lemma cdiv_pos (n b : nat) : (0 < n -> 0 < b -> 0 < (n + b - 1) / b)%nat.
Proof.
  intros Hn Hb. apply Nat.div_str_pos. lia.
Qed.

Lemma cdiv_cover (n b : nat) : (0 < b -> n <= (n + b - 1) / b * b)%nat.
Proof.
  intros Hb.
  pose proof (Nat.div_mod_eq (n + b - 1) b) as E.
  pose proof (Nat.mod_upper_bound (n + b - 1) b ltac:(lia)) as U.
  nia.
Qed.

Lemma cdiv_tight (n b : nat) : (0 < b -> 0 < n -> ((n + b - 1) / b - 1) * b < n)%nat.
Proof.
  intros Hb Hn.
  pose proof (Nat.div_mod_eq (n + b - 1) b) as E.
  pose proof (Nat.mod_upper_bound (n + b - 1) b ltac:(lia)) as U.
  pose proof (cdiv_pos n b Hn Hb).
  nia.
Qed.

(** ** Validation on the host *)

Lemma dims_ok (k v : tensor) (B H T K V : nat) (sv : list nat) :
  t_shape k = [B; H; T; K] -> t_shape v = sv ++ [V] ->
  forall w, dims k v w = (inl (B, H, T, K, V), w).
Proof.
  intros Hk Hv w. unfold dims. rewrite Hk, Hv, rev_app_distr. reflexivity.
Qed.

Lemma cdiv_ok (x y : nat) :
  (0 < y)%nat -> forall w, triton.cdiv x y w = (inl ((x + y - 1) / y)%nat, w).
Proof.
  intros Hy w. unfold triton.cdiv.
  destruct (Nat.eqb_spec y 0); [lia | reflexivity].
Qed.

Lemma min_npow2_pos (n : nat) :
  (0 < n -> 0 < Nat.min (triton.next_power_of_2 n) 64)%nat.
Proof. intros H. pose proof (next_power_of_2_pos n H). lia. Qed.

(** Counterexample to C9 as stated: a float32 call of [chunk_retention]
    is not rejected; it runs both forward kernels and returns. *)
Lemma retention_accepts_float32 :
  let x := full float32 [1; 1; 1; 1]%nat 1 in
  t_dtype x = float32 /\
  (exists r, fst (run (chunk_retention zero_data x x x (Some 1) None false)) = inl r) /\
  snd (run (chunk_retention zero_data x x x (Some 1) None false))
  = [Kernel "chunk_retention_fwd_kernel_h" (1, 1, 1)%nat;
     Kernel "chunk_retention_fwd_kernel_o" (1, 1, 1)%nat].
Proof.
  cbv zeta. split; [reflexivity|]. split.
  - eexists. reflexivity.
  - reflexivity.
Qed.

(** ** Loops that carry registers and store to memory *)

Section FoldWrites.

Variables St Rg : Type.
Variable body : nat -> St -> St.
Variable reg : St -> Rg.
Variable step : nat -> Rg -> Rg.

Hypothesis reg_body : forall i s, reg (body i s) = step i (reg s).

(** The registers evolve on their own. *)
Lemma fold_regs (l : list nat) (s : St) :
  reg (fold_left (fun s i => body i s) l s)
  = fold_left (fun r i => step i r) l (reg s).
Proof.
  revert s. induction l as [|i l IH]; intros s; cbn; [reflexivity|].
  now rewrite IH, reg_body.
Qed.

(** One observed memory cell [cell]: if every iteration that hits the
    cell writes the value [G] there, and the others leave it alone, the
    cell holds [G] after the loop as soon as one iteration hit it. *)
Variable cell : St -> R.
Variable hit : nat -> bool.
Variable G : R.

Lemma fold_writes (l : list nat) (s : St) :
  (forall pre i suf s',
      l = pre ++ i :: suf ->
      reg s' = fold_left (fun r i => step i r) pre (reg s) ->
      cell (body i s') = if hit i then G else cell s') ->
  cell (fold_left (fun s i => body i s) l s)
  = if existsb hit l then G else cell s.
Proof.
  revert s. induction l as [|i l IH]; intros s Hw; cbn; [reflexivity|].
  rewrite IH.
  - rewrite (Hw [] i l s eq_refl eq_refl).
    destruct (hit i), (existsb hit l); reflexivity.
  - intros pre j suf s' -> Hs'.
    apply (Hw (i :: pre) j suf s' eq_refl).
    cbn. now rewrite <- reg_body.
Qed.

End FoldWrites.

Lemma in_programs (n0 n1 n2 a b c : nat) :
  In (a, b, c) (triton.programs (n0, n1, n2)) <-> (a < n0 /\ b < n1 /\ c < n2)%nat.
Proof.
  unfold triton.programs. rewrite in_flat_map. split.
  - intros (a' & Ha & H). apply in_flat_map in H as (b' & Hb & H).
    apply in_map_iff in H as (c' & E & Hc). inversion E; subst.
    apply in_seq in Ha, Hb, Hc. lia.
  - intros (Ha & Hb & Hc). exists a. split; [apply in_seq; lia|].
    apply in_flat_map. exists b. split; [apply in_seq; lia|].
    apply in_map_iff. exists c. split; [reflexivity | apply in_seq; lia].
Qed.

(** A launch, observed at one memory cell: if the programs that hit the
    cell write [G] there and the others leave it alone, the cell holds
    [G] after the launch as soon as a program of the grid hits it. *)
Lemma launch_writes {M : Type} (grid : nat * nat * nat)
      (kernel : nat -> nat -> nat -> M -> M) (cell : M -> R)
      (hit : nat * nat * nat -> bool) (G : R) (m : M) :
  (forall a b c m', In (a, b, c) (triton.programs grid) ->
                    cell (kernel a b c m') = if hit (a, b, c) then G else cell m') ->
  cell (triton.launch grid kernel m)
  = if existsb hit (triton.programs grid) then G else cell m.
Proof.
  unfold triton.launch. generalize (triton.programs grid) as l.
  intros l. revert m. induction l as [|[[a b] c] l IH]; intros m Hw; cbn;
    [reflexivity|].
  rewrite IH.
  - rewrite (Hw a b c m) by now left.
    destruct (hit (a, b, c)), (existsb hit l); reflexivity.
  - intros a' b' c' m' Hin. apply Hw. now right.
Qed.

(** ** Finite sums *)

Lemma sum_ext (n : nat) (f g : nat -> R) :
  (forall i, (i < n)%nat -> f i = g i) -> tl.sum n f = tl.sum n g.
Proof.
  induction n as [|n IH]; intros H; cbn; [reflexivity|].
  rewrite IH, (H n); auto.
Qed.

Lemma sum_zero (n : nat) (f : nat -> R) :
  (forall i, (i < n)%nat -> f i = 0) -> tl.sum n f = 0.
Proof.
  induction n as [|n IH]; intros H; cbn; [reflexivity|].
  rewrite IH, (H n); auto; lra.
Qed.

Lemma sum_plus (n : nat) (f g : nat -> R) :
  tl.sum n (fun i => f i + g i) = tl.sum n f + tl.sum n g.
Proof. induction n as [|n IH]; cbn; [lra | rewrite IH; lra]. Qed.

Lemma sum_minus (n : nat) (f g : nat -> R) :
  tl.sum n (fun i => f i - g i) = tl.sum n f - tl.sum n g.
Proof. induction n as [|n IH]; cbn; [lra | rewrite IH; lra]. Qed.

Lemma sum_scal_l (n : nat) (c : R) (f : nat -> R) :
  tl.sum n (fun i => c * f i) = c * tl.sum n f.
Proof. induction n as [|n IH]; cbn; [lra | rewrite IH; lra]. Qed.

Lemma sum_scal_r (n : nat) (c : R) (f : nat -> R) :
  tl.sum n (fun i => f i * c) = tl.sum n f * c.
Proof. induction n as [|n IH]; cbn; [lra | rewrite IH; lra]. Qed.

Lemma sum_swap (n m : nat) (f : nat -> nat -> R) :
  tl.sum n (fun i => tl.sum m (fun j => f i j))
  = tl.sum m (fun j => tl.sum n (fun i => f i j)).
Proof.
  induction n as [|n IH]; cbn.
  - symmetry. now apply sum_zero.
  - rewrite IH, <- sum_plus. reflexivity.
Qed.

Lemma sum_split (n m : nat) (f : nat -> R) :
  tl.sum (n + m) f = tl.sum n f + tl.sum m (fun i => f (n + i)%nat).
Proof.
  induction m as [|m IH].
  - rewrite Nat.add_0_r. cbn. lra.
  - rewrite Nat.add_succ_r. cbn. rewrite IH. lra.
Qed.

(** Padding with zero terms does not change a sum. *)
Lemma sum_pad (n m : nat) (f : nat -> R) :
  (n <= m)%nat -> (forall i, (n <= i < m)%nat -> f i = 0) ->
  tl.sum m f = tl.sum n f.
Proof.
  intros Hle Hz. replace m with (n + (m - n))%nat by lia.
  rewrite sum_split, (sum_zero (m - n)); [lra|].
  intros i Hi. apply Hz. lia.
Qed.

(** A sum taken tile by tile. *)
Lemma sum_tiles (nb b : nat) (f : nat -> R) :
  tl.sum nb (fun t => tl.sum b (fun i => f (t * b + i)%nat)) = tl.sum (nb * b) f.
Proof.
  induction nb as [|nb IH]; cbn; [reflexivity|].
  rewrite IH, (Nat.add_comm b), sum_split. reflexivity.
Qed.

(** A sum taken tile by tile with zero padding past [n]: what the loops
    over feature tiles with boundary-checked loads compute. *)
Lemma sum_tiles_pad (n b : nat) (f : nat -> R) :
  (0 < b)%nat ->
  tl.sum (tl.cdiv n b)
         (fun t => tl.sum b (fun i => if (t * b + i <? n)%nat
                                      then f (t * b + i)%nat else 0))
  = tl.sum n f.
Proof.
  intros Hb.
  rewrite (sum_tiles (tl.cdiv n b) b (fun x => if (x <? n)%nat then f x else 0)).
  rewrite (sum_pad n).
  - apply sum_ext. intros i Hi.
    destruct (Nat.ltb_spec i n); [reflexivity | lia].
  - apply cdiv_cover. exact Hb.
  - intros i Hi. destruct (Nat.ltb_spec i n); [lia | reflexivity].
Qed.

(** Accumulating [term i] over [i = 0 .. n-1] in a loop-carried block. *)
Lemma fold_badd (n : nat) (term : nat -> block) (b0 : block) (i j : nat) :
  fold_left (fun b t => badd b (term t)) (seq 0 n) b0 i j
  = b0 i j + tl.sum n (fun t => term t i j).
Proof.
  induction n as [|n IH]; cbn [tl.sum]; [cbn; lra|].
  rewrite seq_S, fold_left_app. cbn. unfold badd at 1. rewrite IH. lra.
Qed.

(** ** Loads, stores and tiles *)

(** The cells written by a store through a row-major block pointer. *)
Definition stored (lane row0 : nat) (shape offs bshape : nat * nat)
           (l r c : nat) : bool :=
  ((l =? lane) && (row0 + fst offs <=? r) && (r <? row0 + fst offs + fst bshape)
   && (r <? row0 + fst shape)
   && (snd offs <=? c) && (c <? snd offs + snd bshape) && (c <? snd shape))%nat.

Lemma store_spec (x : data) (lane row0 : nat) (shape offs bshape : nat * nat)
      (b : block) (l r c : nat) :
  tl.store x lane row0 shape offs bshape b l r c
  = if stored lane row0 shape offs bshape l r c
    then b (r - (row0 + fst offs))%nat (c - snd offs)%nat
    else x l r c.
Proof. reflexivity. Qed.

Lemma stored_iff (lane row0 : nat) (shape offs bshape : nat * nat) (l r c : nat) :
  stored lane row0 shape offs bshape l r c = true <->
  (l = lane /\ row0 + fst offs <= r < row0 + fst offs + fst bshape
   /\ r < row0 + fst shape
   /\ snd offs <= c < snd offs + snd bshape /\ c < snd shape)%nat.
Proof.
  unfold stored. rewrite !andb_true_iff, Nat.eqb_eq, !Nat.leb_le, !Nat.ltb_lt.
  lia.
Qed.

Lemma tile_index (b i x : nat) :
  (i * b <= x < i * b + b)%nat -> (x / b = i /\ x mod b = x - i * b)%nat.
Proof.
  intros H.
  assert (Hb : (0 < b)%nat) by lia.
  assert (E : (x / b = i)%nat).
  { symmetry. apply (Nat.div_unique x b i (x - i * b)); lia. }
  split; [exact E|].
  pose proof (Nat.div_mod_eq x b). rewrite E in *. lia.
Qed.

Lemma tile_bounds (b x : nat) :
  (0 < b)%nat -> (x / b * b <= x < x / b * b + b)%nat.
Proof.
  intros Hb. pose proof (Nat.div_mod_eq x b).
  pose proof (Nat.mod_upper_bound x b ltac:(lia)). lia.
Qed.

Lemma tile_count (n b x : nat) :
  (0 < b)%nat -> (x < n)%nat -> (x / b < tl.cdiv n b)%nat.
Proof.
  intros Hb Hx. unfold tl.cdiv.
  apply Nat.Div0.div_lt_upper_bound.
  pose proof (cdiv_cover n b Hb). lia.
Qed.

Lemma fold_pair {A B : Type} (f : A -> nat -> A) (g : B -> nat -> B)
      (l : list nat) (a : A) (b : B) :
  fold_left (fun '(a, b) i => (f a i, g b i)) l (a, b)
  = (fold_left f l a, fold_left g l b).
Proof.
  revert a b. induction l as [|i l IH]; intros a b; cbn; [reflexivity|].
  apply IH.
Qed.

Lemma existsb_programs (n0 n1 n2 : nat) (hit : nat * nat * nat -> bool)
      (a b c : nat) :
  (a < n0)%nat -> (b < n1)%nat -> (c < n2)%nat -> hit (a, b, c) = true ->
  existsb hit (triton.programs (n0, n1, n2)) = true.
Proof.
  intros Ha Hb Hc Hh. apply existsb_exists. exists (a, b, c).
  split; [apply in_programs; lia | exact Hh].
Qed.

Lemma acc_dot (n BK : nat) (L Rt : nat -> block) (i j : nat) :
  fold_left (fun b i_k => badd b (tl.dot BK (L i_k) (Rt i_k))) (seq 0 n) tl.zeros i j
  = tl.sum n (fun i_k => tl.sum BK (fun l => L i_k i l * Rt i_k l j)).
Proof.
  rewrite (fold_badd n (fun i_k => tl.dot BK (L i_k) (Rt i_k))).
  unfold tl.zeros, tl.dot. lra.
Qed.

(** A product of two boundary-checked tiles, accumulated over the tiles
    of the contracted dimension, is the full product. *)
Lemma load_dot_tiles (K BK : nat) (A B : block) (Ra Cb r0 c0 i j : nat) :
  (0 < BK)%nat ->
  tl.sum (tl.cdiv K BK)
    (fun i_k => tl.sum BK
       (fun l => tl.load A (Ra, K) (r0, i_k * BK)%nat i l
                 * tl.load B (K, Cb) (i_k * BK, c0)%nat l j))
  = if ((r0 + i <? Ra) && (c0 + j <? Cb))%nat
    then tl.sum K (fun kk => A (r0 + i)%nat kk * B kk (c0 + j)%nat)
    else 0.
Proof.
  intros HBK.
  set (F := fun kk => if ((r0 + i <? Ra) && (c0 + j <? Cb))%nat
                      then A (r0 + i)%nat kk * B kk (c0 + j)%nat else 0).
  transitivity (tl.sum K F).
  - rewrite <- (sum_tiles_pad K BK F HBK).
    apply sum_ext. intros i_k _. apply sum_ext. intros l _.
    unfold tl.load, F. cbn [fst snd].
    destruct (r0 + i <? Ra)%nat, (i_k * BK + l <? K)%nat, (c0 + j <? Cb)%nat;
      cbn; lra.
  - unfold F. destruct ((r0 + i <? Ra) && (c0 + j <? Cb))%nat.
    + reflexivity.
    + now apply sum_zero.
Qed.

(** ** The output engines *)

Lemma exp2_sub_b_b (i j i_h : nat) :
  (j <= i)%nat ->
  tl.exp2 (IZR (Z.of_nat i - Z.of_nat j) * b_b i_h) = rate i_h ^ (i - j).
Proof.
  intros H. rewrite exp2_Z_b_b, pow_powerRZ. f_equal. lia.
Qed.

(** One program of the retention output kernel writes the output formula
    on its tile and nothing else. *)
Lemma retention_o_program (q k v h : data) (scale : R) (H T K V BT BK BV : nat)
      (i_v i_t i_bh : nat) (o : data) (l t nu : nat) :
  (0 < BK)%nat ->
  chunk_retention_fwd_kernel_o q k v h scale H T K V BT BK BV i_v i_t i_bh o l t nu
  = if stored i_bh 0 (T, V) (i_t * BT, i_v * BV)%nat (BT, BV) l t nu
    then retention_o_formula q k v h scale H K BT l t nu
    else o l t nu.
Proof.
  intros HBK. unfold chunk_retention_fwd_kernel_o, retention_o_formula.
  rewrite (fold_pair (fun b_o i_k => badd b_o _) (fun b_s i_k => badd b_s _)).
  rewrite store_spec.
  destruct (stored _ _ _ _ _ _ _ _) eqn:Hs; [|reflexivity].
  apply stored_iff in Hs. cbn [fst snd] in Hs.
  destruct Hs as (-> & Ht & HtT & Hnu & HnuV).
  rewrite Nat.add_0_l in *.
  destruct (tile_index BT i_t t Ht) as [Ec Ei].
  cbv zeta. rewrite Ec, Ei. cbn [fst snd].
  set (i := (t - i_t * BT)%nat).
  set (j := (nu - i_v * BV)%nat).
  assert (Et : (i_t * BT + i = t)%nat) by (unfold i; lia).
  assert (Enu : (i_v * BV + j = nu)%nat) by (unfold j; lia).
  unfold bscale. f_equal. unfold badd at 1. f_equal.
  - unfold brows. rewrite acc_dot, load_dot_tiles by exact HBK.
    rewrite Et, Enu.
    destruct (Nat.ltb_spec t T); [|lia]. destruct (Nat.ltb_spec nu V); [|lia].
    cbn [andb]. rewrite exp2_nat_b_b. unfold tl.rows_of. cbn [Nat.add].
    lra.
  - unfold tl.dot at 1.
    rewrite (sum_pad (i + 1) BT).
    + apply sum_ext. intros j' Hj'.
      unfold bmul. rewrite acc_dot, load_dot_tiles by exact HBK.
      rewrite Et.
      unfold tl.where0, tl.load. cbn [fst snd]. rewrite Enu.
      destruct (Nat.ltb_spec t T); [|lia].
      destruct (Nat.ltb_spec nu V); [|lia].
      destruct (Nat.ltb_spec (i_t * BT + j') T); [|lia].
      destruct (Nat.leb_spec j' i); [|lia].
      cbn [andb]. rewrite exp2_sub_b_b by lia.
      unfold tl.rows_of, tl.cols_of. cbn [Nat.add]. lra.
    + unfold i. lia.
    + intros j' Hj'. unfold bmul, tl.where0.
      destruct (Nat.leb_spec j' i); [lia|]. lra.
Qed.

Lemma delta_o_program (q k v h : data) (scale : R) (T K V BT BK BV : nat)
      (i_v i_t i_bh : nat) (o : data) (l t nu : nat) :
  (0 < BK)%nat ->
  chunk_delta_rule_fwd_kernel_o q k v h scale T K V BT BK BV i_v i_t i_bh o l t nu
  = if stored i_bh 0 (T, V) (i_t * BT, i_v * BV)%nat (BT, BV) l t nu
    then delta_o_formula q k v h scale K BT l t nu
    else o l t nu.
Proof.
  intros HBK. unfold chunk_delta_rule_fwd_kernel_o, delta_o_formula.
  rewrite (fold_pair (fun b_o i_k => badd b_o _) (fun b_s i_k => badd b_s _)).
  rewrite store_spec.
  destruct (stored _ _ _ _ _ _ _ _) eqn:Hs; [|reflexivity].
  apply stored_iff in Hs. cbn [fst snd] in Hs.
  destruct Hs as (-> & Ht & HtT & Hnu & HnuV).
  rewrite Nat.add_0_l in *.
  destruct (tile_index BT i_t t Ht) as [Ec Ei].
  cbv zeta. rewrite Ec, Ei. cbn [fst snd].
  set (i := (t - i_t * BT)%nat).
  set (j := (nu - i_v * BV)%nat).
  assert (Et : (i_t * BT + i = t)%nat) by (unfold i; lia).
  assert (Enu : (i_v * BV + j = nu)%nat) by (unfold j; lia).
  assert (Hacc : forall (Rt : nat -> block) i0 j0,
             fold_left
               (fun b i_k =>
                  badd b (tl.dot BK
                            (bscale scale (tl.load (tl.rows_of q i_bh 0) (T, K)
                                                   (i_t * BT, i_k * BK)%nat))
                            (Rt i_k)))
               (seq 0 (tl.cdiv K BK)) tl.zeros i0 j0
             = scale * tl.sum (tl.cdiv K BK)
                 (fun i_k => tl.sum BK
                    (fun l => tl.load (tl.rows_of q i_bh 0) (T, K)
                                      (i_t * BT, i_k * BK)%nat i0 l
                              * Rt i_k l j0))).
  { intros Rt i0 j0.
    rewrite (acc_dot _ BK (fun i_k => bscale scale _) Rt).
    rewrite <- sum_scal_l. apply sum_ext. intros i_k _.
    rewrite <- sum_scal_l. apply sum_ext. intros l _.
    unfold bscale. lra. }
  unfold badd at 1. rewrite Rmult_plus_distr_l. f_equal.
  - rewrite (Hacc (fun i_k => tl.load (tl.rows_of h i_bh (i_t * K)) (K, V)
                                      (i_k * BK, i_v * BV)%nat)).
    rewrite load_dot_tiles by exact HBK. rewrite Et, Enu.
    destruct (Nat.ltb_spec t T); [|lia]. destruct (Nat.ltb_spec nu V); [|lia].
    cbn [andb]. unfold tl.rows_of. cbn [Nat.add]. reflexivity.
  - unfold tl.dot at 1. rewrite <- sum_scal_l.
    rewrite (sum_pad (i + 1) BT).
    + apply sum_ext. intros j' Hj'.
      unfold tl.where0. destruct (Nat.leb_spec j' i); [|lia].
      rewrite (Hacc (fun i_k => tl.load (tl.cols_of k i_bh 0) (K, T)
                                        (i_k * BK, i_t * BT)%nat)).
      rewrite load_dot_tiles by exact HBK. rewrite Et.
      unfold tl.load. cbn [fst snd]. rewrite Enu.
      destruct (Nat.ltb_spec t T); [|lia].
      destruct (Nat.ltb_spec nu V); [|lia].
      destruct (Nat.ltb_spec (i_t * BT + j') T); [|lia].
      cbn [andb]. unfold tl.rows_of, tl.cols_of. cbn [Nat.add]. lra.
    + unfold i. lia.
    + intros j' Hj'. unfold tl.where0.
      destruct (Nat.leb_spec j' i); [lia|]. lra.
Qed.

(** A launch over (column tile, row tile, lane) whose programs each write
    [G] on their own tile fills the whole tensor with [G]. *)
Lemma launch_tiles (kernel : nat -> nat -> nat -> data -> data) (G : data)
      (Rw Cl BR BC n2 : nat) (o : data) (l r c : nat) :
  (forall a b i o' l' r' c',
      kernel a b i o' l' r' c'
      = if stored i 0 (Rw, Cl) (b * BR, a * BC)%nat (BR, BC) l' r' c'
        then G l' r' c' else o' l' r' c') ->
  (0 < BR)%nat -> (0 < BC)%nat -> (l < n2)%nat -> (r < Rw)%nat -> (c < Cl)%nat ->
  triton.launch (tl.cdiv Cl BC, tl.cdiv Rw BR, n2) kernel o l r c = G l r c.
Proof.
  intros Hk HBR HBC Hl Hr Hc.
  rewrite (launch_writes (tl.cdiv Cl BC, tl.cdiv Rw BR, n2) kernel
             (fun m => m l r c)
             (fun '(a, b, i) => stored i 0 (Rw, Cl) (b * BR, a * BC)%nat (BR, BC) l r c)
             (G l r c)).
  - rewrite (existsb_programs _ _ _ _ (c / BC)%nat (r / BR)%nat l); auto.
    + now apply tile_count.
    + now apply tile_count.
    + apply stored_iff. cbn [fst snd].
      pose proof (tile_bounds BR r HBR). pose proof (tile_bounds BC c HBC). lia.
  - intros a b i m' _. apply Hk.
Qed.

(** C4. Output formula: for either variant the output engine produces,
    at every time [t] (chunk [c = t / BT], position [i = t mod BT] in the
    chunk) and value feature [nu],
    [scale * (decay_query * (Q_t . H[c]) + sum over j <= i of S[i][j] * V[c*BT+j])],
    where only key positions [j <= i] of the same chunk contribute
    (lower-triangular inclusive, nothing anti-causal).  For retention
    the score of key [j] is weighted by [rate ^ (i - j)] and the
    cross-chunk term by [decay_query = rate ^ (i + 1)]; for the delta rule
    there are no decay weights and [V] is the corrected value [v_new]. *)
Theorem output_formula
    (uninit : data) (q k v h : tensor) (BT : nat) (scale : R)
    (B H T K V : nat) (w : list work) :
  t_shape q = [B; H; T; K] -> t_shape k = [B; H; T; K] ->
  t_shape v = [B; H; T; V] ->
  (0 < BT)%nat -> (0 < K)%nat -> (0 < V)%nat ->
  (exists o wo,
      chunk_fwd_o_fn uninit q k v h BT scale w = (inl o, wo) /\
      forall l t nu, (l < B * H)%nat -> (t < T)%nat -> (nu < V)%nat ->
        let c := (t / BT)%nat in
        let i := (t mod BT)%nat in
        let r := rate (l mod H) in
        t_data o l t nu
        = scale *
          (r ^ (i + 1)
           * tl.sum K (fun kk => t_data q l t kk * t_data h l (c * K + kk)%nat nu)
           + tl.sum (i + 1)
               (fun j => r ^ (i - j)
                         * tl.sum K (fun kk => t_data q l t kk
                                               * t_data k l (c * BT + j)%nat kk)
                         * t_data v l (c * BT + j)%nat nu))) /\
  (exists o wo,
      chunk_delta_rule_fwd_o_fn uninit q k v h BT scale w = (inl o, wo) /\
      forall l t nu, (l < B * H)%nat -> (t < T)%nat -> (nu < V)%nat ->
        let c := (t / BT)%nat in
        let i := (t mod BT)%nat in
        t_data o l t nu
        = scale *
          (tl.sum K (fun kk => t_data q l t kk * t_data h l (c * K + kk)%nat nu)
           + tl.sum (i + 1)
               (fun j => tl.sum K (fun kk => t_data q l t kk
                                             * t_data k l (c * BT + j)%nat kk)
                         * t_data v l (c * BT + j)%nat nu))).
Proof.
  intros Hq Hk Hv HBT HK HV.
  pose proof (min_npow2_pos K HK) as HBK.
  pose proof (min_npow2_pos V HV) as HBV.
  split.
  - unfold chunk_fwd_o_fn, bind.
    rewrite (dims_ok k v B H T K V [B; H; T] Hk Hv).
    rewrite !cdiv_ok by assumption. unfold dispatch, ret.
    eexists. eexists. split; [reflexivity|].
    intros l t nu Hl Ht Hnu. cbn [t_data with_data].
    apply (launch_tiles _ (retention_o_formula (t_data q) (t_data k) (t_data v)
                                               (t_data h) scale H K BT));
      auto.
    intros. now apply retention_o_program.
  - unfold chunk_delta_rule_fwd_o_fn, bind.
    rewrite (dims_ok q v B H T K V [B; H; T] Hq Hv).
    rewrite !cdiv_ok by assumption. unfold dispatch, ret.
    eexists. eexists. split; [reflexivity|].
    intros l t nu Hl Ht Hnu. cbn [t_data with_data].
    apply (launch_tiles _ (delta_o_formula (t_data q) (t_data k) (t_data v)
                                           (t_data h) scale K BT));
      auto.
    intros. now apply delta_o_program.
Qed.

(** ** The retention state engine *)

Section RetentionState.

Variables (k v h0 : data) (H T K V BT BK BV NT : nat) (USE : bool).
Variables (i_k i_v i_bh : nat).

Let regs := retention_regs k v h0 H T K V BT BK BV NT USE i_k i_v i_bh.

Lemma retention_regs_S (n : nat) :
  regs (S n)
  = chunk_retention_fwd_kernel_h_step k v H T K V BT BK BV NT i_k i_v i_bh n (regs n).
Proof.
  unfold regs, retention_regs. rewrite seq_S, fold_left_app. reflexivity.
Qed.

(** The decay registers keep their initial values up to the last chunk. *)
Lemma retention_regs_decay (n : nat) :
  (n < NT)%nat ->
  r_d_b (regs n) = tl.exp2 (INR BT * b_b (i_bh mod H)) /\
  r_d_i (regs n)
  = (fun o_i => tl.exp2 (IZR (Z.of_nat BT - Z.of_nat o_i - 1) * b_b (i_bh mod H))).
Proof.
  induction n as [|n IH]; intros Hn.
  - split; reflexivity.
  - rewrite retention_regs_S. unfold chunk_retention_fwd_kernel_h_step.
    destruct (Nat.eqb_spec n (NT - 1)) as [E|E]; [lia|].
    cbn [andb r_d_b r_d_i]. apply IH. lia.
Qed.

(** The state register after chunk [n]. *)
Lemma retention_regs_b_h (n a b : nat) :
  (n < NT)%nat ->
  r_b_h (regs (S n)) a b
  = rate (i_bh mod H) ^ chunk_len T BT NT n * r_b_h (regs n) a b
    + tl.sum BT
        (fun i => tl.load (tl.cols_of k i_bh 0) (K, T) (i_k * BK, n * BT)%nat a i
                  * (tl.load (tl.rows_of v i_bh 0) (T, V) (n * BT, i_v * BV)%nat i b
                     * powerRZ (rate (i_bh mod H))
                               (Z.of_nat (chunk_len T BT NT n) - Z.of_nat i - 1))).
Proof.
  intros Hn. rewrite retention_regs_S.
  destruct (retention_regs_decay n Hn) as [Hb Hi].
  unfold chunk_retention_fwd_kernel_h_step, chunk_len.
  destruct ((n =? NT - 1) && negb (T mod BT =? 0))%nat.
  - cbn [r_b_h]. unfold badd, bscale, tl.dot, brows.
    rewrite exp2_nat_b_b. f_equal. apply sum_ext. intros i _.
    now rewrite exp2_Z_b_b.
  - cbn [r_b_h]. rewrite Hb, Hi. unfold badd, bscale, tl.dot, brows.
    rewrite exp2_nat_b_b. f_equal. apply sum_ext. intros i _.
    now rewrite exp2_Z_b_b.
Qed.

End RetentionState.

Lemma load_shift (view : block) (shape : nat * nat) (r0 c0 a b : nat) :
  tl.load view shape (r0, c0) a b
  = tl.load view shape ((r0 + a) * 1, (c0 + b) * 1)%nat 0%nat 0%nat.
Proof.
  unfold tl.load. cbn [fst snd]. now rewrite !Nat.mul_1_r, !Nat.add_0_r.
Qed.

Lemma retention_regs_tile (k v h0 : data) (H T K V BT BK BV NT : nat) (USE : bool)
      (i_k i_v i_bh n a b : nat) :
  (n <= NT)%nat ->
  r_b_h (retention_regs k v h0 H T K V BT BK BV NT USE i_k i_v i_bh n) a b
  = retention_H k v h0 H T K V BT NT USE i_bh n (i_k * BK + a)%nat (i_v * BV + b)%nat.
Proof.
  unfold retention_H. induction n as [|n IH]; intros Hn.
  - unfold retention_regs, chunk_retention_fwd_kernel_h_init. cbn [fold_left seq r_b_h].
    destruct USE; [|reflexivity]. apply load_shift.
  - rewrite !retention_regs_b_h by lia. rewrite IH by lia. f_equal.
    apply sum_ext. intros i _.
    rewrite (load_shift _ _ (i_k * BK) (n * BT) a i).
    rewrite (load_shift _ _ (n * BT) (i_v * BV) i b).
    rewrite (load_shift _ _ ((i_k * BK + a) * 1) (n * BT) 0 i).
    rewrite (load_shift _ _ (n * BT) ((i_v * BV + b) * 1) i 0).
    now rewrite !Nat.mul_1_r, !Nat.add_0_r.
Qed.

Lemma seq_split (a n : nat) (pre suf : list nat) (i : nat) :
  seq a n = pre ++ i :: suf ->
  (i = a + List.length pre /\ pre = seq a (List.length pre)
   /\ suf = seq (S i) (n - S (List.length pre)) /\ List.length pre < n)%nat.
Proof.
  revert a n. induction pre as [|x pre IH]; intros a n E.
  - destruct n as [|n]; [discriminate|]. cbn in E. inversion E; subst.
    cbn. rewrite Nat.sub_0_r. repeat split; lia.
  - destruct n as [|n]; [discriminate|]. cbn in E. inversion E; subst.
    destruct (IH _ _ H1) as (Ei & Ep & Es & Hl).
    cbn [List.length]. repeat split; try lia.
    + cbn. now rewrite <- Ep.
    + rewrite Es. f_equal.
Qed.

Section RetentionProgram.

Variables (k v h0 : data) (H T K V BT BK BV NT : nat) (USE STORE : bool).
Variables (i_k i_v i_bh : nat).

Let body (i_t : nat) (s : fwd_h_regs * data) : fwd_h_regs * data :=
  (fun '(r, h) i_t =>
     let h := tl.store h i_bh (i_t * K) (K, V) (i_k * BK, i_v * BV)%nat (BK, BV)
                       (r_b_h r) in
     (chunk_retention_fwd_kernel_h_step k v H T K V BT BK BV NT i_k i_v i_bh i_t r, h))
    s i_t.

Let step := chunk_retention_fwd_kernel_h_step k v H T K V BT BK BV NT i_k i_v i_bh.

Lemma retention_body_reg (i : nat) (s : fwd_h_regs * data) :
  fst (body i s) = step i (fst s).
Proof. destruct s. reflexivity. Qed.

Lemma retention_h_program (h ht : data) (l r nu : nat) :
  fst (chunk_retention_fwd_kernel_h k v h0 H T K V BT BK BV NT USE STORE
         i_k i_v i_bh (h, ht)) l r nu
  = if existsb (fun i_t => stored i_bh (i_t * K) (K, V) (i_k * BK, i_v * BV)%nat
                             (BK, BV) l r nu) (seq 0 NT)
    then retention_H k v h0 H T K V BT NT USE l (r / K)%nat (r mod K)%nat nu
    else h l r nu.
Proof.
  unfold chunk_retention_fwd_kernel_h.
  set (s0 := (chunk_retention_fwd_kernel_h_init h0 H K V BT BK BV USE i_k i_v i_bh, h)).
  change (fold_left _ (seq 0 NT) s0) with (fold_left (fun s i => body i s) (seq 0 NT) s0).
  destruct (fold_left (fun s i => body i s) (seq 0 NT) s0) as [rN hN] eqn:E.
  cbn [fst].
  change hN with (snd (rN, hN)). rewrite <- E.
  apply (fold_writes _ _ body fst step retention_body_reg (fun s => snd s l r nu)).
  intros pre i suf [r' h'] Hsplit Hreg.
  apply seq_split in Hsplit as (Ei & Epre & _ & Hi). cbn [Nat.add] in Ei.
  unfold body. cbv beta iota zeta. cbn [fst snd] in Hreg |- *. rewrite store_spec.
  destruct (stored _ _ _ _ _ _ _ _) eqn:Hs; [|reflexivity].
  apply stored_iff in Hs. cbn [fst snd] in Hs.
  destruct Hs as (-> & Hr & HrK & Hnu & HnuV).
  assert (Hreg' : r' = retention_regs k v h0 H T K V BT BK BV NT USE i_k i_v i_bh i).
  { rewrite Hreg, Epre, <- Ei. reflexivity. }
  rewrite Hreg', retention_regs_tile by lia.
  destruct (tile_index K i r ltac:(lia)) as [-> ->].
  cbn [fst snd]. f_equal; lia.
Qed.

Lemma retention_ht_program (h ht : data) (l kk nu : nat) :
  snd (chunk_retention_fwd_kernel_h k v h0 H T K V BT BK BV NT USE STORE
         i_k i_v i_bh (h, ht)) l kk nu
  = if STORE && stored i_bh 0 (K, V) (i_k * BK, i_v * BV)%nat (BK, BV) l kk nu
    then retention_H k v h0 H T K V BT NT USE l NT kk nu
    else ht l kk nu.
Proof.
  unfold chunk_retention_fwd_kernel_h.
  set (s0 := (chunk_retention_fwd_kernel_h_init h0 H K V BT BK BV USE i_k i_v i_bh, h)).
  change (fold_left _ (seq 0 NT) s0) with (fold_left (fun s i => body i s) (seq 0 NT) s0).
  pose proof (fold_regs _ _ body fst step retention_body_reg (seq 0 NT) s0) as Hreg.
  destruct (fold_left (fun s i => body i s) (seq 0 NT) s0) as [rN hN].
  cbn [fst snd] in Hreg |- *.
  destruct STORE; [|reflexivity]. cbn [andb]. rewrite store_spec.
  destruct (stored _ _ _ _ _ _ _ _) eqn:Hs; [|reflexivity].
  apply stored_iff in Hs. cbn [fst snd] in Hs.
  destruct Hs as (-> & Hr & HrK & Hnu & HnuV).
  change (rN = retention_regs k v h0 H T K V BT BK BV NT USE i_k i_v i_bh NT) in Hreg.
  rewrite Hreg, retention_regs_tile by lia.
  cbn [fst snd]. f_equal; lia.
Qed.

End RetentionProgram.

Lemma existsb_seq (hit : nat -> bool) (n c : nat) :
  (c < n)%nat -> hit c = true -> existsb hit (seq 0 n) = true.
Proof.
  intros Hc Hh. apply existsb_exists. exists c. split; [apply in_seq; lia | exact Hh].
Qed.

Section RetentionGrid.

Variables (k v h0 : data) (H T K V BT BK BV NT BH : nat) (USE STORE : bool).
Hypotheses (HK : (0 < K)%nat) (HBK : (0 < BK)%nat) (HBV : (0 < BV)%nat).

Let kernel := chunk_retention_fwd_kernel_h k v h0 H T K V BT BK BV NT USE STORE.
Let grid := (tl.cdiv K BK, tl.cdiv V BV, BH).

Lemma retention_h_grid (mem : data * data) (l c kk nu : nat) :
  (l < BH)%nat -> (c < NT)%nat -> (kk < K)%nat -> (nu < V)%nat ->
  fst (triton.launch grid kernel mem) l (c * K + kk)%nat nu
  = retention_H k v h0 H T K V BT NT USE l c kk nu.
Proof.
  intros Hl Hc Hkk Hnu.
  rewrite (launch_writes grid kernel (fun m => fst m l (c * K + kk)%nat nu)
             (fun '(a, b, i) =>
                existsb (fun i_t => stored i (i_t * K) (K, V) (a * BK, b * BV)%nat
                                      (BK, BV) l (c * K + kk)%nat nu) (seq 0 NT))
             (retention_H k v h0 H T K V BT NT USE l c kk nu)).
  - unfold grid.
    rewrite (existsb_programs _ _ _ _ (kk / BK)%nat (nu / BV)%nat l); auto.
    + now apply tile_count.
    + now apply tile_count.
    + apply (existsb_seq _ NT c Hc). apply stored_iff. cbn [fst snd].
      pose proof (tile_bounds BK kk HBK). pose proof (tile_bounds BV nu HBV). lia.
  - intros a b i [h' ht'] _. unfold kernel. rewrite retention_h_program.
    destruct (tile_index K c (c * K + kk)%nat ltac:(lia)) as [-> ->].
    replace (c * K + kk - c * K)%nat with kk by lia. reflexivity.
Qed.

Lemma retention_ht_grid (mem : data * data) (l kk nu : nat) :
  STORE = true ->
  (l < BH)%nat -> (kk < K)%nat -> (nu < V)%nat ->
  snd (triton.launch grid kernel mem) l kk nu
  = retention_H k v h0 H T K V BT NT USE l NT kk nu.
Proof.
  intros HS Hl Hkk Hnu.
  rewrite (launch_writes grid kernel (fun m => snd m l kk nu)
             (fun '(a, b, i) =>
                stored i 0 (K, V) (a * BK, b * BV)%nat (BK, BV) l kk nu)
             (retention_H k v h0 H T K V BT NT USE l NT kk nu)).
  - unfold grid.
    rewrite (existsb_programs _ _ _ _ (kk / BK)%nat (nu / BV)%nat l); auto.
    + now apply tile_count.
    + now apply tile_count.
    + apply stored_iff. cbn [fst snd].
      pose proof (tile_bounds BK kk HBK). pose proof (tile_bounds BV nu HBV). lia.
  - intros a b i [h' ht'] _. unfold kernel. rewrite retention_ht_program.
    rewrite HS. reflexivity.
Qed.

End RetentionGrid.

(** What the retention state engine returns: the snapshot of every chunk
    and, on request, the final state. *)
Lemma chunk_fwd_h_fn_spec (uninit : data) (k v : tensor) (h0 : option tensor)
      (BT : nat) (ofs : bool) (B H T K V : nat) (sv : list nat) (w : list work) :
  t_shape k = [B; H; T; K] -> t_shape v = sv ++ [V] ->
  (0 < K)%nat -> (0 < V)%nat -> (0 < BT)%nat ->
  let NT := tl.cdiv T BT in
  let Hs := retention_H (t_data k) (t_data v) (data_of h0) H T K V BT NT (is_some h0) in
  exists h ht,
    chunk_fwd_h_fn uninit k v h0 BT ofs w
    = (inl (h, ht),
       w ++ [Kernel "chunk_retention_fwd_kernel_h"
                    (tl.cdiv K (Nat.min 64 (triton.next_power_of_2 K)),
                     tl.cdiv V (Nat.min 64 (triton.next_power_of_2 V)), B * H)%nat]) /\
    t_dtype h = t_dtype k /\
    (forall l c kk nu, (l < B * H)%nat -> (c < NT)%nat -> (kk < K)%nat -> (nu < V)%nat ->
                       t_data h l (c * K + kk)%nat nu = Hs l c kk nu) /\
    (ofs = false -> ht = None) /\
    (ofs = true ->
     exists f, ht = Some f /\ t_dtype f = float32 /\ t_shape f = [B; H; K; V] /\
               forall l kk nu, (l < B * H)%nat -> (kk < K)%nat -> (nu < V)%nat ->
                               t_data f l kk nu = Hs l NT kk nu).
Proof.
  intros Hk Hv HK HV HBT NT Hs.
  pose proof (min_npow2_pos K HK) as HBK. rewrite Nat.min_comm in HBK.
  pose proof (min_npow2_pos V HV) as HBV. rewrite Nat.min_comm in HBV.
  unfold chunk_fwd_h_fn, bind.
  rewrite (dims_ok k v B H T K V sv Hk Hv).
  rewrite !cdiv_ok by assumption. unfold dispatch, ret. cbv zeta.
  eexists. eexists. split; [reflexivity|].
  split; [reflexivity|]. split; [|split].
  - intros l c kk nu Hl Hc Hkk Hnu. cbn [t_data with_data].
    now apply retention_h_grid.
  - intros ->. reflexivity.
  - intros ->. eexists. split; [reflexivity|]. split; [reflexivity|].
    split; [reflexivity|].
    intros l kk nu Hl Hkk Hnu. cbn [t_data with_data].
    now apply retention_ht_grid.
Qed.

(** ** The delta-rule state engine *)

Section DeltaState.

Variables (k u w h0 : data) (T K V BT BC BK BV : nat) (USE : bool).
Variables (i_k i_v i_bh : nat).

Let sub := chunk_delta_rule_fwd_kernel_h_sub k u w T K V BT BC BK BV i_k i_v i_bh.
Let chunk := chunk_delta_rule_fwd_kernel_h_chunk k u w T K V BT BC BK BV i_k i_v i_bh.
Let regs := delta_regs k u w h0 T K V BT BC BK BV USE i_k i_v i_bh.

(** What one sub-chunk adds to the chunk-local accumulator. *)
Let term (i_t : nat) (b_h : block) (i_c : nat) : block :=
  tl.dot BC
    (tl.load (tl.cols_of k i_bh 0) (K, T) (i_k * BK, i_t * BT + i_c * BC)%nat)
    (bsub (tl.load (tl.rows_of u i_bh 0) (T, V) (i_t * BT + i_c * BC, i_v * BV)%nat)
          (tl.dot BK
             (tl.load (tl.rows_of w i_bh 0) (T, K) (i_t * BT + i_c * BC, i_k * BK)%nat)
             b_h)).

Lemma delta_sub_reg (i_t : nat) (b_h : block) (i_c : nat) (s : block * data) :
  fst (sub i_t b_h i_c s) = badd (fst s) (term i_t b_h i_c).
Proof. destruct s. reflexivity. Qed.

Lemma delta_chunk_reg (i_t : nat) (s : block * (data * data)) :
  fst (chunk i_t s)
  = badd (fst s)
         (fold_left (fun cum i_c => badd cum (term i_t (fst s) i_c))
                    (seq 0 (tl.cdiv BT BC)) tl.zeros).
Proof.
  destruct s as [b_h [h v_new]]. unfold chunk, chunk_delta_rule_fwd_kernel_h_chunk.
  fold (sub i_t b_h).
  pose proof (fold_regs _ _ (sub i_t b_h) fst (fun i_c cum => badd cum (term i_t b_h i_c))
                (delta_sub_reg i_t b_h) (seq 0 (tl.cdiv BT BC)) (tl.zeros, v_new)) as E.
  destruct (fold_left _ _ (tl.zeros, v_new)) as [cum vn]. cbn [fst] in E |- *.
  now rewrite E.
Qed.

Lemma delta_regs_S (n : nat) :
  regs (S n) = fst (chunk n (regs n, (zero_data, zero_data))).
Proof.
  unfold regs, delta_regs. rewrite seq_S, fold_left_app. reflexivity.
Qed.

(** The state register after chunk [n]. *)
Lemma delta_regs_b_h (n a b : nat) :
  regs (S n) a b
  = regs n a b
    + tl.sum (tl.cdiv BT BC)
        (fun i_c =>
           tl.sum BC
             (fun j =>
                tl.load (tl.cols_of k i_bh 0) (K, T)
                        (i_k * BK, n * BT + i_c * BC)%nat a j
                * (tl.load (tl.rows_of u i_bh 0) (T, V)
                           (n * BT + i_c * BC, i_v * BV)%nat j b
                   - tl.sum BK
                       (fun kk => tl.load (tl.rows_of w i_bh 0) (T, K)
                                          (n * BT + i_c * BC, i_k * BK)%nat j kk
                                  * regs n kk b)))).
Proof.
  rewrite delta_regs_S, delta_chunk_reg. cbn [fst]. unfold badd at 1.
  rewrite fold_badd. unfold tl.zeros, term, tl.dot, bsub. lra.
Qed.

End DeltaState.

Lemma load_at (view : block) (shape : nat * nat) (r0 c0 a b : nat) :
  tl.load view shape (r0, c0) a b
  = if ((r0 + a <? fst shape) && (c0 + b <? snd shape))%nat
    then view (r0 + a)%nat (c0 + b)%nat else 0.
Proof. reflexivity. Qed.

(** With a single K-tile that covers [K], the registers of a program
    are the columns of the lane's running state. *)
Lemma delta_regs_tile (k u w h0 : data) (T K V BT BC BK BV : nat) (USE : bool)
      (i_v i_bh n : nat) :
  (K <= BK)%nat ->
  forall a b,
    delta_regs k u w h0 T K V BT BC BK BV USE 0 i_v i_bh n a b
    = delta_H k u w h0 T K V BT BC USE i_bh n a (i_v * BV + b)%nat.
Proof.
  intros HK. unfold delta_H. induction n as [|n IH]; intros a b.
  - unfold delta_regs, chunk_delta_rule_fwd_kernel_h_init. cbn [fold_left seq].
    destruct USE; [|reflexivity]. rewrite !load_at. cbn [fst snd].
    now rewrite !Nat.mul_0_l, !Nat.mul_1_r, !Nat.add_0_r.
  - rewrite !delta_regs_b_h, IH. f_equal.
    apply sum_ext. intros i_c _. apply sum_ext. intros j _.
    rewrite (sum_pad K BK).
    + rewrite !load_at. cbn [fst snd].
      rewrite !Nat.mul_0_l, !Nat.mul_1_r, !Nat.add_0_r. cbn [Nat.add].
      f_equal. f_equal.
      apply sum_ext. intros kk Hkk. now rewrite IH.
    + exact HK.
    + intros kk Hkk. rewrite load_at. cbn [fst snd].
      destruct (Nat.ltb_spec (0 * BK + kk) K); [lia|].
      rewrite andb_false_r. lra.
Qed.

Section DeltaProgram.

Variables (k u w h0 : data) (T K V BT BC BK BV NT : nat) (USE STORE : bool).
Variables (i_v i_bh : nat).
Hypothesis HKBK : (K <= BK)%nat.

Let sub := chunk_delta_rule_fwd_kernel_h_sub k u w T K V BT BC BK BV 0 i_v i_bh.
Let chunk := chunk_delta_rule_fwd_kernel_h_chunk k u w T K V BT BC BK BV 0 i_v i_bh.
Let step (i_t : nat) (b : block) : block := fst (chunk i_t (b, (zero_data, zero_data))).
Let Hs := delta_H k u w h0 T K V BT BC USE.

Lemma delta_chunk_step (i : nat) (s : block * (data * data)) :
  fst (chunk i s) = step i (fst s).
Proof. unfold step, chunk. now rewrite !delta_chunk_reg. Qed.

Lemma delta_fold_regs (n : nat) (mem : data * data) :
  fst (fold_left (fun st i_t => chunk i_t st) (seq 0 n)
         (chunk_delta_rule_fwd_kernel_h_init h0 K V BK BV USE 0 i_v i_bh, mem))
  = delta_regs k u w h0 T K V BT BC BK BV USE 0 i_v i_bh n.
Proof.
  rewrite (fold_regs _ _ chunk fst step delta_chunk_step). reflexivity.
Qed.

(** The snapshot memory after the program. *)
Lemma delta_h_program (v_new h ht : data) (l r nu : nat) :
  snd (fst (chunk_delta_rule_fwd_kernel_h k u w h0 T K V BT BC BK BV NT USE STORE
              0 i_v i_bh (v_new, h, ht))) l r nu
  = if existsb (fun i_t => stored i_bh (i_t * K) (K, V) (0 * BK, i_v * BV)%nat
                             (BK, BV) l r nu) (seq 0 NT)
    then Hs l (r / K)%nat (r mod K)%nat nu
    else h l r nu.
Proof.
  unfold chunk_delta_rule_fwd_kernel_h. fold chunk.
  set (s0 := (chunk_delta_rule_fwd_kernel_h_init h0 K V BK BV USE 0 i_v i_bh, (h, v_new))).
  destruct (fold_left (fun st i_t => chunk i_t st) (seq 0 NT) s0) as [bN [hN vN]] eqn:E.
  cbn [fst snd].
  change hN with (fst (snd (bN, (hN, vN)))). rewrite <- E.
  apply (fold_writes _ _ chunk fst step delta_chunk_step (fun s => fst (snd s) l r nu)).
  intros pre i suf [b' [h' v']] Hsplit Hreg.
  apply seq_split in Hsplit as (Ei & Epre & _ & Hi). cbn [Nat.add] in Ei.
  assert (Hb : b' = delta_regs k u w h0 T K V BT BC BK BV USE 0 i_v i_bh i).
  { cbn [fst] in Hreg. rewrite Hreg, Epre, <- Ei. reflexivity. }
  unfold chunk, chunk_delta_rule_fwd_kernel_h_chunk.
  destruct (fold_left _ (seq 0 (tl.cdiv BT BC)) (tl.zeros, v')) as [cum vn].
  cbn [fst snd]. rewrite store_spec.
  destruct (stored _ _ _ _ _ _ _ _) eqn:Hst; [|reflexivity].
  apply stored_iff in Hst. cbn [fst snd] in Hst.
  destruct Hst as (-> & Hr & HrK & Hnu & HnuV).
  rewrite Hb, delta_regs_tile by exact HKBK.
  destruct (tile_index K i r ltac:(lia)) as [-> ->].
  cbn [fst snd]. unfold Hs. f_equal; lia.
Qed.

Lemma delta_ht_program (v_new h ht : data) (l kk nu : nat) :
  snd (chunk_delta_rule_fwd_kernel_h k u w h0 T K V BT BC BK BV NT USE STORE
         0 i_v i_bh (v_new, h, ht)) l kk nu
  = if STORE && stored i_bh 0 (K, V) (0 * BK, i_v * BV)%nat (BK, BV) l kk nu
    then Hs l NT kk nu
    else ht l kk nu.
Proof.
  unfold chunk_delta_rule_fwd_kernel_h. fold chunk.
  pose proof (delta_fold_regs NT (h, v_new)) as Hreg.
  destruct (fold_left _ (seq 0 NT) _) as [bN [hN vN]].
  cbn [fst snd] in Hreg |- *.
  destruct STORE; [|reflexivity]. cbn [andb]. rewrite store_spec.
  destruct (stored _ _ _ _ _ _ _ _) eqn:Hst; [|reflexivity].
  apply stored_iff in Hst. cbn [fst snd] in Hst.
  destruct Hst as (-> & Hr & HrK & Hnu & HnuV).
  rewrite Hreg, delta_regs_tile by exact HKBK.
  cbn [fst snd]. unfold Hs. f_equal; lia.
Qed.

Hypothesis Hdiv : (tl.cdiv BT BC * BC = BT)%nat.

(** The corrected-value memory after the program: every position holds
    its value corrected by the state on entry to its chunk. *)
Lemma delta_v_new_program (v_new h ht : data) (l t nu : nat) :
  fst (fst (chunk_delta_rule_fwd_kernel_h k u w h0 T K V BT BC BK BV NT USE STORE
              0 i_v i_bh (v_new, h, ht))) l t nu
  = if existsb
         (fun i_t =>
            existsb (fun i_c => stored i_bh 0 (T, V)
                                  (i_t * BT + i_c * BC, i_v * BV)%nat (BC, BV) l t nu)
                    (seq 0 (tl.cdiv BT BC)))
         (seq 0 NT)
    then u l t nu - tl.sum K (fun kk => w l t kk * Hs l (t / BT)%nat kk nu)
    else v_new l t nu.
Proof.
  unfold chunk_delta_rule_fwd_kernel_h. fold chunk.
  set (s0 := (chunk_delta_rule_fwd_kernel_h_init h0 K V BK BV USE 0 i_v i_bh, (h, v_new))).
  destruct (fold_left (fun st i_t => chunk i_t st) (seq 0 NT) s0) as [bN [hN vN]] eqn:E.
  cbn [fst snd].
  change vN with (snd (snd (bN, (hN, vN)))). rewrite <- E.
  apply (fold_writes _ _ chunk fst step delta_chunk_step (fun s => snd (snd s) l t nu)).
  intros pre i suf [b' [h' v']] Hsplit Hreg.
  apply seq_split in Hsplit as (Ei & Epre & _ & Hi). cbn [Nat.add] in Ei.
  assert (Hb : b' = delta_regs k u w h0 T K V BT BC BK BV USE 0 i_v i_bh i).
  { cbn [fst] in Hreg. rewrite Hreg, Epre, <- Ei. reflexivity. }
  unfold chunk, chunk_delta_rule_fwd_kernel_h_chunk. fold (sub i b').
  destruct (fold_left (fun st i_c => sub i b' i_c st) (seq 0 (tl.cdiv BT BC))
                      (tl.zeros, v')) as [cum vn] eqn:E'.
  cbn [fst snd].
  change vn with (snd (cum, vn)). rewrite <- E'.
  change v' with (snd (tl.zeros, v')) at 2.
  apply (fold_writes _ unit (sub i b') (fun _ => tt) (fun _ _ => tt)
                      (fun _ _ => eq_refl) (fun s => snd s l t nu)).
  intros pre' i_c suf' [cum' v''] Hsplit' _.
  apply seq_split in Hsplit' as (Ei' & _ & _ & Hi'). cbn [Nat.add] in Ei'.
  unfold sub, chunk_delta_rule_fwd_kernel_h_sub. cbn [fst snd]. rewrite store_spec.
  destruct (stored _ _ _ _ _ _ _ _) eqn:Hst; [|reflexivity].
  apply stored_iff in Hst. cbn [fst snd] in Hst.
  destruct Hst as (-> & Ht & HtT & Hnu & HnuV).
  assert (Hic : (i_c * BC + BC <= BT)%nat) by nia.
  destruct (tile_index BT i t ltac:(lia)) as [-> _].
  rewrite Nat.add_0_l in *.
  assert (Et : (i * BT + i_c * BC + (t - (i * BT + i_c * BC)) = t)%nat) by lia.
  assert (Enu : (i_v * BV + (nu - i_v * BV) = nu)%nat) by lia.
  unfold bsub, tl.dot. rewrite !load_at. cbn [fst snd].
  rewrite Et, Enu.
  destruct (Nat.ltb_spec t T); [|lia]. destruct (Nat.ltb_spec nu V); [|lia].
  cbn [andb]. unfold tl.rows_of. cbn [Nat.add]. f_equal.
  rewrite (sum_pad K BK).
  - apply sum_ext. intros kk Hkk. rewrite load_at. cbn [fst snd].
    rewrite Et.
    destruct (Nat.ltb_spec t T); [|lia].
    destruct (Nat.ltb_spec (0 * BK + kk) K); [|lia].
    cbn [andb]. rewrite Hb, delta_regs_tile by exact HKBK.
    unfold Hs. rewrite Enu. reflexivity.
  - exact HKBK.
  - intros kk Hkk. rewrite load_at. cbn [fst snd].
    destruct (Nat.ltb_spec (0 * BK + kk) K); [lia|].
    rewrite andb_false_r. lra.
Qed.

End DeltaProgram.

Section DeltaGrid.

Variables (k u w h0 : data) (T K V BT BC BK BV NT BH : nat) (USE STORE : bool).
Hypotheses (HK : (0 < K)%nat) (HKBK : (K <= BK)%nat) (HBV : (0 < BV)%nat).

Let kernel := chunk_delta_rule_fwd_kernel_h k u w h0 T K V BT BC BK BV NT USE STORE.
Let grid := (1%nat, tl.cdiv V BV, BH).
Let Hs := delta_H k u w h0 T K V BT BC USE.

Lemma delta_h_grid (mem : data * data * data) (l c kk nu : nat) :
  (l < BH)%nat -> (c < NT)%nat -> (kk < K)%nat -> (nu < V)%nat ->
  snd (fst (triton.launch grid kernel mem)) l (c * K + kk)%nat nu = Hs l c kk nu.
Proof.
  intros Hl Hc Hkk Hnu.
  rewrite (launch_writes grid kernel (fun m => snd (fst m) l (c * K + kk)%nat nu)
             (fun '(a, b, i) =>
                (a =? 0)%nat &&
                existsb (fun i_t => stored i (i_t * K) (K, V) (0 * BK, b * BV)%nat
                                      (BK, BV) l (c * K + kk)%nat nu) (seq 0 NT))
             (Hs l c kk nu)).
  - unfold grid.
    rewrite (existsb_programs _ _ _ _ 0%nat (nu / BV)%nat l); auto.
    + now apply tile_count.
    + cbn [Nat.eqb andb].
      apply (existsb_seq _ NT c Hc). apply stored_iff. cbn [fst snd].
      pose proof (tile_bounds BV nu HBV). lia.
  - intros a b i [[v' h'] ht'] Hin. apply in_programs in Hin.
    assert (a = 0%nat) as -> by lia. cbn [Nat.eqb andb].
    unfold kernel. rewrite delta_h_program by exact HKBK.
    destruct (tile_index K c (c * K + kk)%nat ltac:(lia)) as [-> ->].
    replace (c * K + kk - c * K)%nat with kk by lia. reflexivity.
Qed.

Lemma delta_ht_grid (mem : data * data * data) (l kk nu : nat) :
  STORE = true ->
  (l < BH)%nat -> (kk < K)%nat -> (nu < V)%nat ->
  snd (triton.launch grid kernel mem) l kk nu = Hs l NT kk nu.
Proof.
  intros HS Hl Hkk Hnu.
  rewrite (launch_writes grid kernel (fun m => snd m l kk nu)
             (fun '(a, b, i) =>
                (a =? 0)%nat &&
                stored i 0 (K, V) (0 * BK, b * BV)%nat (BK, BV) l kk nu)
             (Hs l NT kk nu)).
  - unfold grid.
    rewrite (existsb_programs _ _ _ _ 0%nat (nu / BV)%nat l); auto.
    + now apply tile_count.
    + cbn [Nat.eqb andb]. apply stored_iff. cbn [fst snd].
      pose proof (tile_bounds BV nu HBV). lia.
  - intros a b i [[v' h'] ht'] Hin. apply in_programs in Hin.
    assert (a = 0%nat) as -> by lia. cbn [Nat.eqb andb].
    unfold kernel. rewrite delta_ht_program by exact HKBK.
    rewrite HS. reflexivity.
Qed.

Hypotheses (HBT : (0 < BT)%nat) (HBC : (0 < BC)%nat).
Hypothesis Hdiv : (tl.cdiv BT BC * BC = BT)%nat.

Lemma delta_v_new_grid (mem : data * data * data) (l t nu : nat) :
  (l < BH)%nat -> (t < T)%nat -> (t / BT < NT)%nat -> (nu < V)%nat ->
  fst (fst (triton.launch grid kernel mem)) l t nu
  = u l t nu - tl.sum K (fun kk => w l t kk * Hs l (t / BT)%nat kk nu).
Proof.
  intros Hl Ht Hc Hnu.
  rewrite (launch_writes grid kernel (fun m => fst (fst m) l t nu)
             (fun '(a, b, i) =>
                (a =? 0)%nat &&
                existsb
                  (fun i_t =>
                     existsb (fun i_c => stored i 0 (T, V)
                                           (i_t * BT + i_c * BC, b * BV)%nat
                                           (BC, BV) l t nu)
                             (seq 0 (tl.cdiv BT BC)))
                  (seq 0 NT))
             (u l t nu - tl.sum K (fun kk => w l t kk * Hs l (t / BT)%nat kk nu))).
  - unfold grid.
    rewrite (existsb_programs _ _ _ _ 0%nat (nu / BV)%nat l); auto.
    + now apply tile_count.
    + cbn [Nat.eqb andb].
      apply (existsb_seq _ NT (t / BT)%nat Hc).
      apply (existsb_seq _ (tl.cdiv BT BC) ((t mod BT) / BC)%nat).
      * apply Nat.Div0.div_lt_upper_bound. rewrite Nat.mul_comm, Hdiv.
        now apply Nat.mod_upper_bound; lia.
      * apply stored_iff. cbn [fst snd].
        pose proof (tile_bounds BV nu HBV).
        pose proof (tile_bounds BC (t mod BT) HBC).
        pose proof (Nat.div_mod_eq t BT). nia.
  - intros a b i [[v' h'] ht'] Hin. apply in_programs in Hin.
    assert (a = 0%nat) as -> by lia. cbn [Nat.eqb andb].
    unfold kernel. now rewrite delta_v_new_program.
Qed.

End DeltaGrid.

Lemma fwd_h_tiles_pos (capability : nat * nat) (K : nat) :
  (0 < fst (fwd_h_tiles capability K) /\ 0 < snd (fwd_h_tiles capability K))%nat.
Proof.
  unfold fwd_h_tiles.
  destruct (9 <=? fst capability)%nat; [cbn; lia|].
  destruct ((fst capability =? 8) && (snd capability =? 0))%nat; [cbn; lia|].
  destruct (K <=? 128)%nat; cbn; lia.
Qed.

(** What the delta-rule state engine returns: the snapshot of every
    chunk, the corrected values and, on request, the final state. *)
Lemma chunk_delta_rule_fwd_h_fn_spec (uninit : data) (capability : nat * nat)
      (k w u : tensor) (BT : nat) (initial_state final_state : option tensor)
      (B H T K V : nat) (sv : list nat) (wk : list work) :
  t_shape k = [B; H; T; K] -> t_shape u = sv ++ [V] ->
  (0 < K <= 256)%nat -> (0 < V)%nat -> (0 < BT)%nat ->
  let BC := Nat.min BT (snd (fwd_h_tiles capability K)) in
  let NT := tl.cdiv T BT in
  let Hs := delta_H (t_data k) (t_data u) (t_data w) (data_of initial_state)
                    T K V BT BC (is_some initial_state) in
  exists h v_new ht,
    chunk_delta_rule_fwd_h_fn uninit capability k w u BT initial_state final_state wk
    = (inl (h, v_new, ht),
       wk ++ [Kernel "chunk_delta_rule_fwd_kernel_h"
                     (1, tl.cdiv V (fst (fwd_h_tiles capability K)), B * H)%nat]) /\
    t_shape v_new = t_shape u /\
    (forall l c kk nu, (l < B * H)%nat -> (c < NT)%nat -> (kk < K)%nat -> (nu < V)%nat ->
                       t_data h l (c * K + kk)%nat nu = Hs l c kk nu) /\
    ((tl.cdiv BT BC * BC = BT)%nat ->
     forall l t nu, (l < B * H)%nat -> (t < T)%nat -> (nu < V)%nat ->
                    t_data v_new l t nu
                    = t_data u l t nu
                      - tl.sum K (fun kk => t_data w l t kk * Hs l (t / BT)%nat kk nu)) /\
    match final_state with
    | None => ht = None
    | Some f0 =>
        exists f, ht = Some f /\ t_dtype f = t_dtype f0 /\ t_shape f = t_shape f0 /\
                  forall l kk nu, (l < B * H)%nat -> (kk < K)%nat -> (nu < V)%nat ->
                                  t_data f l kk nu = Hs l NT kk nu
    end.
Proof.
  intros Hk Hu HK HV HBT BC NT Hs.
  destruct (fwd_h_tiles_pos capability K) as [HBV HBC0].
  assert (HBC : (0 < BC)%nat) by (unfold BC; lia).
  pose proof (next_power_of_2_ge K) as HBK.
  pose proof (proj2 (next_power_of_2_le_256 K) (proj2 HK)) as HBK256.
  unfold chunk_delta_rule_fwd_h_fn, bind.
  rewrite (dims_ok k u B H T K V sv Hk Hu).
  unfold assert at 1. destruct (Nat.leb_spec (triton.next_power_of_2 K) 256); [|lia].
  unfold ret at 1.
  destruct (fwd_h_tiles capability K) as [BV BC'] eqn:Etiles. cbn [fst snd] in *.
  rewrite !cdiv_ok by lia.
  rewrite (cdiv_single_tile K (triton.next_power_of_2 K)) by lia.
  cbn [Nat.eqb assert]. unfold ret at 1. unfold dispatch, ret. cbv zeta.
  eexists. eexists. eexists. split; [reflexivity|].
  split; [reflexivity|]. split; [|split].
  - intros l c kk nu Hl Hc Hkk Hnu. cbn [t_data with_data].
    apply delta_h_grid; auto; lia.
  - intros Hdiv l t nu Hl Ht Hnu. cbn [t_data with_data].
    apply delta_v_new_grid; auto; try lia.
    now apply tile_count.
  - destruct final_state as [f0|]; [|reflexivity].
    eexists. split; [reflexivity|]. split; [reflexivity|]. split; [reflexivity|].
    intros l kk nu Hl Hkk Hnu. cbn [t_data with_data].
    apply delta_ht_grid; auto; lia.
Qed.

Lemma retention_H_0 (k v h0 : data) (H T K V BT NT : nat) (USE : bool)
      (l kk nu : nat) :
  (kk < K)%nat -> (nu < V)%nat ->
  retention_H k v h0 H T K V BT NT USE l 0 kk nu = if USE then h0 l kk nu else 0.
Proof.
  intros Hkk Hnu. unfold retention_H, retention_regs, chunk_retention_fwd_kernel_h_init.
  cbn [fold_left seq r_b_h]. destruct USE; [|reflexivity].
  rewrite load_at. cbn [fst snd]. rewrite !Nat.mul_1_r, !Nat.add_0_r.
  destruct (Nat.ltb_spec kk K); [|lia]. destruct (Nat.ltb_spec nu V); [|lia].
  reflexivity.
Qed.

Lemma delta_H_0 (k u w h0 : data) (T K V BT BC : nat) (USE : bool) (l kk nu : nat) :
  (kk < K)%nat -> (nu < V)%nat ->
  delta_H k u w h0 T K V BT BC USE l 0 kk nu = if USE then h0 l kk nu else 0.
Proof.
  intros Hkk Hnu. unfold delta_H, delta_regs, chunk_delta_rule_fwd_kernel_h_init.
  cbn [fold_left seq]. destruct USE; [|reflexivity].
  rewrite load_at. cbn [fst snd].
  rewrite ?Nat.mul_1_r, ?Nat.add_0_r, ?Nat.mul_0_l, ?Nat.add_0_l.
  destruct (Nat.ltb_spec kk K); [|lia]. destruct (Nat.ltb_spec nu V); [|lia].
  reflexivity.
Qed.

Lemma use_initial_state (h0 : option tensor) (l kk nu : nat) :
  (if is_some h0 then data_of h0 l kk nu else 0)
  = match h0 with Some s => t_data s l kk nu | None => 0 end.
Proof. destruct h0; reflexivity. Qed.

(** C7. For either variant, the state snapshot that the state engine
    stores for chunk 0 is the initial state supplied by the caller, and
    zero when none is supplied. *)
Theorem initial_snapshot
    (uninit : data) (capability : nat * nat) (k v w u : tensor)
    (h0 : option tensor) (BT : nat) (ofs : bool) (final_state : option tensor)
    (B H T K V : nat) (wk : list work) :
  t_shape k = [B; H; T; K] -> t_shape v = [B; H; T; V] -> t_shape u = [B; H; T; V] ->
  (0 < K <= 256)%nat -> (0 < V)%nat -> (0 < BT)%nat -> (0 < T)%nat ->
  (exists h ht wo,
      chunk_fwd_h_fn uninit k v h0 BT ofs wk = (inl (h, ht), wo) /\
      forall l kk nu, (l < B * H)%nat -> (kk < K)%nat -> (nu < V)%nat ->
        t_data h l kk nu = match h0 with Some s => t_data s l kk nu | None => 0 end) /\
  (exists h v_new ht wo,
      chunk_delta_rule_fwd_h_fn uninit capability k w u BT h0 final_state wk
      = (inl (h, v_new, ht), wo) /\
      forall l kk nu, (l < B * H)%nat -> (kk < K)%nat -> (nu < V)%nat ->
        t_data h l kk nu = match h0 with Some s => t_data s l kk nu | None => 0 end).
Proof.
  intros Hk Hv Hu HK HV HBT HT.
  assert (HNT : (0 < tl.cdiv T BT)%nat) by now apply cdiv_pos.
  split.
  - destruct (chunk_fwd_h_fn_spec uninit k v h0 BT ofs B H T K V [B; H; T] wk
                Hk Hv ltac:(lia) HV HBT)
      as (h & ht & E & _ & Hh & _).
    exists h, ht. eexists. split; [exact E|].
    intros l kk nu Hl Hkk Hnu.
    rewrite <- use_initial_state, <- (retention_H_0 (t_data k) (t_data v) _ H T K V BT
                                        (tl.cdiv T BT)) by assumption.
    rewrite <- Hh by assumption. reflexivity.
  - destruct (chunk_delta_rule_fwd_h_fn_spec uninit capability k w u BT h0 final_state
                B H T K V [B; H; T] wk Hk Hu HK HV HBT)
      as (h & v_new & ht & E & _ & Hh & _).
    exists h, v_new, ht. eexists. split; [exact E|].
    intros l kk nu Hl Hkk Hnu.
    rewrite <- use_initial_state.
    erewrite <- delta_H_0 by eassumption.
    rewrite <- Hh by assumption. reflexivity.
Qed.

(** ** Retention: the chunked engine computes the sequential recurrence *)

Lemma retention_seq_unroll (g : R) (k v s0 : block) (t0 L kk nu : nat) :
  retention_seq g k v s0 (t0 + L) kk nu
  = g ^ L * retention_seq g k v s0 t0 kk nu
    + tl.sum L (fun i => g ^ (L - 1 - i) * (k (t0 + i)%nat kk * v (t0 + i)%nat nu)).
Proof.
  induction L as [|L IH].
  - rewrite Nat.add_0_r. cbn. lra.
  - rewrite Nat.add_succ_r. cbn [retention_seq tl.sum]. rewrite IH.
    replace (S L - 1 - L)%nat with 0%nat by lia.
    rewrite (sum_ext L (fun i => g ^ (S L - 1 - i) * (k (t0 + i)%nat kk * v (t0 + i)%nat nu))
                     (fun i => g * (g ^ (L - 1 - i) * (k (t0 + i)%nat kk * v (t0 + i)%nat nu)))).
    + rewrite sum_scal_l. cbn [pow]. lra.
    + intros i Hi. replace (S L - 1 - i)%nat with (S (L - 1 - i)) by lia.
      cbn [pow]. lra.
Qed.

(** The state depends on the inputs only through the cell's own key and
    value columns at the positions already seen. *)
Lemma retention_seq_ext (g : R) (k v s0 k' v' s0' : block) (t kk nu : nat) :
  s0 kk nu = s0' kk nu ->
  (forall i, (i < t)%nat -> k i kk = k' i kk) ->
  (forall i, (i < t)%nat -> v i nu = v' i nu) ->
  retention_seq g k v s0 t kk nu = retention_seq g k' v' s0' t kk nu.
Proof.
  intros H0 Hk Hv. induction t as [|t IH]; cbn; [exact H0|].
  rewrite IH, Hk, Hv; auto.
Qed.

Lemma chunk_len_eq (T BT c : nat) :
  (0 < BT)%nat -> (c < tl.cdiv T BT)%nat ->
  chunk_len T BT (tl.cdiv T BT) c = Nat.min BT (T - c * BT).
Proof.
  intros HBT Hc. unfold chunk_len, tl.cdiv in *.
  pose proof (Nat.div_mod_eq (T + BT - 1) BT) as E.
  pose proof (Nat.mod_upper_bound (T + BT - 1) BT ltac:(lia)) as U.
  pose proof (Nat.div_mod_eq T BT) as E'.
  pose proof (Nat.mod_upper_bound T BT ltac:(lia)) as U'.
  set (NT := ((T + BT - 1) / BT)%nat) in *.
  set (q := (T / BT)%nat) in *.
  destruct (Nat.eqb_spec c (NT - 1)) as [Ec|Ec];
    destruct (Nat.eqb_spec (T mod BT) 0) as [Em|Em]; cbn [andb negb].
  - assert (NT = q) by nia. nia.
  - assert (NT = q + 1)%nat by nia. nia.
  - assert (c + 1 < NT)%nat by lia. nia.
  - assert (c + 1 < NT)%nat by lia. nia.
Qed.

Lemma retention_H_S (k v h0 : data) (H T K V BT : nat) (USE : bool) (l c kk nu : nat) :
  (0 < BT)%nat -> (c < tl.cdiv T BT)%nat -> (kk < K)%nat -> (nu < V)%nat ->
  let L := Nat.min BT (T - c * BT) in
  retention_H k v h0 H T K V BT (tl.cdiv T BT) USE l (S c) kk nu
  = rate (l mod H) ^ L * retention_H k v h0 H T K V BT (tl.cdiv T BT) USE l c kk nu
    + tl.sum L (fun i => rate (l mod H) ^ (L - 1 - i)
                         * (k l (c * BT + i)%nat kk * v l (c * BT + i)%nat nu)).
Proof.
  intros HBT Hc Hkk Hnu L. unfold retention_H.
  rewrite retention_regs_b_h by exact Hc. rewrite chunk_len_eq by assumption.
  fold L. f_equal.
  assert (HcT : (c * BT < T)%nat).
  { pose proof (cdiv_tight T BT HBT). unfold tl.cdiv in Hc.
    destruct T; [cbn in Hc; rewrite Nat.div_small in Hc; lia|]. nia. }
  rewrite (sum_pad L BT).
  - apply sum_ext. intros i Hi. rewrite !load_at. cbn [fst snd].
    rewrite !Nat.mul_1_r, !Nat.add_0_r.
    destruct (Nat.ltb_spec kk K); [|lia]. destruct (Nat.ltb_spec nu V); [|lia].
    destruct (Nat.ltb_spec (c * BT + i) T); [|lia].
    cbn [andb]. unfold tl.cols_of, tl.rows_of. cbn [Nat.add].
    replace (Z.of_nat L - Z.of_nat i - 1)%Z with (Z.of_nat (L - 1 - i)) by lia.
    rewrite <- pow_powerRZ. lra.
  - unfold L. lia.
  - intros i Hi. rewrite !load_at. cbn [fst snd].
    destruct (Nat.ltb_spec (c * BT + i) T); [lia|].
    rewrite andb_false_r. cbn [andb]. lra.
Qed.

Lemma cdiv_chunk_lt (T BT c : nat) :
  (0 < BT)%nat -> (c < tl.cdiv T BT)%nat -> (c * BT < T)%nat.
Proof.
  intros HBT Hc. pose proof (cdiv_tight T BT HBT). unfold tl.cdiv in *.
  destruct T; [cbn in Hc; rewrite Nat.div_small in Hc; lia|]. nia.
Qed.

(** The snapshot on entry to chunk [c] is the sequential state after the
    first [c * BT] positions, and the register after the last chunk is
    the state after all [T] positions. *)
Lemma retention_H_seq (k v h0 : data) (H T K V BT : nat) (USE : bool) (l c kk nu : nat) :
  (0 < BT)%nat -> (c <= tl.cdiv T BT)%nat -> (kk < K)%nat -> (nu < V)%nat ->
  retention_H k v h0 H T K V BT (tl.cdiv T BT) USE l c kk nu
  = retention_seq (rate (l mod H)) (k l) (v l)
                  (fun kk nu => if USE then h0 l kk nu else 0)
                  (Nat.min (c * BT) T) kk nu.
Proof.
  intros HBT Hc Hkk Hnu. induction c as [|c IH].
  - rewrite retention_H_0 by assumption. reflexivity.
  - pose proof (cdiv_chunk_lt T BT c HBT ltac:(lia)) as HcT.
    rewrite retention_H_S by (assumption || lia). rewrite IH by lia.
    replace (Nat.min (c * BT) T) with (c * BT)%nat by lia.
    replace (Nat.min (S c * BT) T) with (c * BT + Nat.min BT (T - c * BT))%nat by lia.
    now rewrite retention_seq_unroll.
Qed.

(** The output formula, fed with the snapshots, is the readout of the
    sequential state. *)
Lemma retention_o_seq (q k v h : data) (s0 : block) (scale : R) (H T K BT : nat)
      (l t nu : nat) :
  (0 < BT)%nat ->
  (forall kk, (kk < K)%nat ->
     h l (t / BT * K + kk)%nat nu
     = retention_seq (rate (l mod H)) (k l) (v l) s0 (t / BT * BT) kk nu) ->
  retention_o_formula q k v h scale H K BT l t nu
  = scale * tl.sum K (fun kk => q l t kk
                                * retention_seq (rate (l mod H)) (k l) (v l) s0 (S t) kk nu).
Proof.
  intros HBT Hh. unfold retention_o_formula. cbv zeta.
  set (c := (t / BT)%nat) in *. set (i := (t mod BT)%nat).
  set (g := rate (l mod H)).
  assert (Et : S t = (c * BT + (i + 1))%nat).
  { pose proof (Nat.div_mod_eq t BT). unfold c, i. lia. }
  f_equal. rewrite Et.
  transitivity
    (tl.sum K (fun kk => g ^ (i + 1) * (q l t kk * h l (c * K + kk)%nat nu)
                         + tl.sum (i + 1)
                             (fun j => g ^ (i - j)
                                       * (q l t kk * k l (c * BT + j)%nat kk)
                                       * v l (c * BT + j)%nat nu))).
  - rewrite sum_plus, sum_scal_l, sum_swap. f_equal.
    apply sum_ext. intros j _.
    rewrite <- sum_scal_l, <- sum_scal_r. apply sum_ext. intros kk _. lra.
  - apply sum_ext. intros kk Hkk.
    rewrite retention_seq_unroll, <- Hh by exact Hkk.
    rewrite Rmult_plus_distr_l, <- sum_scal_l. f_equal; [lra|].
    apply sum_ext. intros j Hj.
    replace (i + 1 - 1 - j)%nat with (i - j)%nat by lia. lra.
Qed.

Lemma chunk_fwd_o_fn_spec (uninit : data) (q k v h : tensor) (BT : nat) (scale : R)
      (B H T K V : nat) (sv : list nat) (w : list work) :
  t_shape k = [B; H; T; K] -> t_shape v = sv ++ [V] ->
  (0 < BT)%nat -> (0 < K)%nat -> (0 < V)%nat ->
  exists o,
    chunk_fwd_o_fn uninit q k v h BT scale w
    = (inl o,
       w ++ [Kernel "chunk_retention_fwd_kernel_o"
                    (tl.cdiv V (Nat.min (triton.next_power_of_2 V) 64),
                     tl.cdiv T BT, B * H)%nat]) /\
    t_shape o = t_shape v /\
    forall l t nu, (l < B * H)%nat -> (t < T)%nat -> (nu < V)%nat ->
      t_data o l t nu
      = retention_o_formula (t_data q) (t_data k) (t_data v) (t_data h) scale H K BT l t nu.
Proof.
  intros Hk Hv HBT HK HV.
  pose proof (min_npow2_pos K HK) as HBK.
  pose proof (min_npow2_pos V HV) as HBV.
  unfold chunk_fwd_o_fn, bind.
  rewrite (dims_ok k v B H T K V sv Hk Hv).
  rewrite !cdiv_ok by assumption. unfold dispatch, ret.
  eexists. split; [reflexivity|]. split; [reflexivity|].
  intros l t nu Hl Ht Hnu. cbn [t_data with_data].
  apply (launch_tiles _ (retention_o_formula (t_data q) (t_data k) (t_data v)
                                             (t_data h) scale H K BT));
    auto.
  intros. now apply retention_o_program.
Qed.

Lemma chunk_delta_rule_fwd_o_fn_spec (uninit : data) (q k v_new h : tensor) (BT : nat)
      (scale : R) (B H T K V : nat) (sv : list nat) (w : list work) :
  t_shape q = [B; H; T; K] -> t_shape v_new = sv ++ [V] ->
  (0 < BT)%nat -> (0 < K)%nat -> (0 < V)%nat ->
  exists o,
    chunk_delta_rule_fwd_o_fn uninit q k v_new h BT scale w
    = (inl o,
       w ++ [Kernel "chunk_delta_rule_fwd_kernel_o"
                    (tl.cdiv V (Nat.min (triton.next_power_of_2 V) 64),
                     tl.cdiv T BT, B * H)%nat]) /\
    t_shape o = t_shape v_new /\
    forall l t nu, (l < B * H)%nat -> (t < T)%nat -> (nu < V)%nat ->
      t_data o l t nu
      = delta_o_formula (t_data q) (t_data k) (t_data v_new) (t_data h) scale K BT l t nu.
Proof.
  intros Hq Hv HBT HK HV.
  pose proof (min_npow2_pos K HK) as HBK.
  pose proof (min_npow2_pos V HV) as HBV.
  unfold chunk_delta_rule_fwd_o_fn, bind.
  rewrite (dims_ok q v_new B H T K V sv Hq Hv).
  rewrite !cdiv_ok by assumption. unfold dispatch, ret.
  eexists. split; [reflexivity|]. split; [reflexivity|].
  intros l t nu Hl Ht Hnu. cbn [t_data with_data].
  apply (launch_tiles _ (delta_o_formula (t_data q) (t_data k) (t_data v_new)
                                         (t_data h) scale K BT));
    auto.
  intros. now apply delta_o_program.
Qed.

(** The whole retention forward pass computes the sequential recurrence:
    the output at [t] reads the state after position [t] with the query,
    and the final state is the state after all positions. *)
Lemma retention_forward_seq (uninit : data) (q k v : tensor) (scale : R)
      (h0 : option tensor) (ofs : bool) (B H T K V : nat) (w : list work) :
  t_shape k = [B; H; T; K] -> t_shape v = [B; H; T; V] ->
  (0 < K)%nat -> (0 < V)%nat ->
  let S := fun l => retention_seq (rate (l mod H)) (t_data k l) (t_data v l) (state0 h0 l) in
  exists o ht wo,
    ChunkRetentionFunction_forward uninit q k v scale h0 ofs w = (inl (o, ht), wo) /\
    t_shape o = t_shape v /\ t_dtype o = t_dtype q /\
    (forall l t nu, (l < B * H)%nat -> (t < T)%nat -> (nu < V)%nat ->
       t_data o l t nu
       = scale * tl.sum K (fun kk => t_data q l t kk * S l (Datatypes.S t) kk nu)) /\
    (ofs = false -> ht = None) /\
    (ofs = true ->
     exists f, ht = Some f /\ t_dtype f = float32 /\ t_shape f = [B; H; K; V] /\
               forall l kk nu, (l < B * H)%nat -> (kk < K)%nat -> (nu < V)%nat ->
                               t_data f l kk nu = S l T kk nu).
Proof.
  intros Hk Hv HK HV S.
  assert (HBT : (0 < 64)%nat) by lia.
  assert (Hst : forall l, (fun kk nu => if is_some h0 then data_of h0 l kk nu else 0)
                          = state0 h0 l).
  { intros l. unfold state0. destruct h0; reflexivity. }
  unfold ChunkRetentionFunction_forward, bind.
  destruct (chunk_fwd_h_fn_spec uninit k v h0 64 ofs B H T K V [B; H; T] w
              Hk Hv HK HV HBT)
    as (h & ht & E & _ & Hh & Hnone & Hsome).
  rewrite E.
  match goal with
  | |- context [chunk_fwd_o_fn _ _ _ _ _ _ _ ?w'] =>
      destruct (chunk_fwd_o_fn_spec uninit q k v h 64 scale B H T K V [B; H; T] w'
                  Hk Hv HBT HK HV) as (o & Eo & Hso & Ho)
  end.
  rewrite Eo. unfold ret.
  eexists. eexists. eexists. split; [reflexivity|].
  split; [exact Hso|]. split; [reflexivity|]. split; [|split].
  - intros l t nu Hl Ht Hnu. cbn [t_data to_dtype]. rewrite Ho by assumption.
    apply (retention_o_seq _ _ _ _ (state0 h0 l) scale H T K 64 l t nu HBT).
    intros kk Hkk.
    assert (Hc : (t / 64 < tl.cdiv T 64)%nat) by (apply tile_count; lia).
    rewrite Hh by assumption.
    rewrite retention_H_seq by (assumption || lia). rewrite Hst.
    pose proof (cdiv_chunk_lt T 64 _ HBT Hc) as Hlt.
    rewrite (Nat.min_l _ T) by (apply Nat.lt_le_incl; exact Hlt). reflexivity.
  - exact Hnone.
  - intros Hofs. destruct (Hsome Hofs) as (f & -> & Hd & Hs & Hf).
    exists f. repeat split; auto.
    intros l kk nu Hl Hkk Hnu. rewrite Hf by assumption.
    rewrite retention_H_seq by (assumption || lia). rewrite Hst.
    pose proof (cdiv_cover T 64 HBT) as Hcov.
    rewrite (Nat.min_r _ T) by exact Hcov. reflexivity.
Qed.

(** ** Delta rule: the chunked engine computes the sequential recurrence *)

Section DeltaChunk.

Variables (K : nat) (kl vl wl ul : block) (b : nat -> R) (s0 : block).
Variables (t0 n nu : nat).

Let G (i j : nat) : R := tl.sum K (fun kk => kl (t0 + i)%nat kk * kl (t0 + j)%nat kk).
Let S (t : nat) : block := delta_seq K kl vl b s0 t.
(** The corrected value of position [t0 + j] against the chunk's entry state. *)
Let vn (j : nat) : R :=
  ul (t0 + j)%nat nu - tl.sum K (fun kk => wl (t0 + j)%nat kk * S t0 kk nu).

Hypothesis Hw : forall i kk, (i < n)%nat -> (kk < K)%nat ->
  wl (t0 + i)%nat kk
  = b (t0 + i)%nat * (kl (t0 + i)%nat kk - tl.sum i (fun j => G i j * wl (t0 + j)%nat kk)).
Hypothesis Hu : forall i, (i < n)%nat ->
  ul (t0 + i)%nat nu
  = b (t0 + i)%nat * (vl (t0 + i)%nat nu - tl.sum i (fun j => G i j * ul (t0 + j)%nat nu)).

(** Within a chunk, the sequential state is the entry state plus the
    keys times the corrected values: the WY form of the delta rule. *)
Lemma delta_seq_chunk (i : nat) :
  (i <= n)%nat ->
  forall kk, (kk < K)%nat ->
    S (t0 + i) kk nu = S t0 kk nu + tl.sum i (fun j => kl (t0 + j)%nat kk * vn j).
Proof.
  induction i as [|i IH]; intros Hi kk Hkk.
  - rewrite Nat.add_0_r. cbn. lra.
  - rewrite Nat.add_succ_r. unfold S at 1. cbn [delta_seq tl.sum]. fold (S (t0 + i)).
    rewrite IH by (assumption || lia).
    assert (E : b (t0 + i)%nat
                * (vl (t0 + i)%nat nu
                   - tl.sum K (fun j => kl (t0 + i)%nat j * S (t0 + i) j nu))
                = vn i).
    { rewrite (sum_ext K _ (fun j => kl (t0 + i)%nat j * S t0 j nu
                                     + tl.sum i (fun j' => kl (t0 + i)%nat j
                                                           * kl (t0 + j')%nat j * vn j'))).
      2:{ intros j Hj. rewrite IH by (assumption || lia).
          rewrite Rmult_plus_distr_l, <- sum_scal_l. f_equal.
          apply sum_ext. intros j' _. lra. }
      rewrite sum_plus, sum_swap.
      rewrite (sum_ext i _ (fun j' => G i j' * vn j')).
      2:{ intros j' _. unfold G. rewrite <- sum_scal_r. reflexivity. }
      unfold vn at 2. rewrite Hu by lia.
      rewrite (sum_ext K (fun kk0 => wl (t0 + i)%nat kk0 * S t0 kk0 nu)
                       (fun kk0 => b (t0 + i)%nat
                                   * (kl (t0 + i)%nat kk0 * S t0 kk0 nu)
                                   - b (t0 + i)%nat
                                     * tl.sum i (fun j => G i j * (wl (t0 + j)%nat kk0
                                                                   * S t0 kk0 nu)))).
      2:{ intros kk0 Hkk0. rewrite Hw by (assumption || lia).
          assert (tl.sum i (fun j => G i j * (wl (t0 + j)%nat kk0 * S t0 kk0 nu))
                  = tl.sum i (fun j => G i j * wl (t0 + j)%nat kk0) * S t0 kk0 nu) as ->.
          { rewrite <- sum_scal_r. apply sum_ext. intros; lra. }
          lra. }
      rewrite sum_minus, !sum_scal_l, sum_swap.
      rewrite (sum_ext i (fun j => tl.sum K (fun i0 => G i j * (wl (t0 + j)%nat i0
                                                                * S t0 i0 nu)))
                       (fun j => G i j * tl.sum K (fun i0 => wl (t0 + j)%nat i0
                                                            * S t0 i0 nu)))
        by (intros; now rewrite sum_scal_l).
      unfold vn.
      rewrite (sum_ext i (fun j' => G i j' * (ul (t0 + j')%nat nu
                                              - tl.sum K (fun kk0 => wl (t0 + j')%nat kk0
                                                                     * S t0 kk0 nu)))
                       (fun j' => G i j' * ul (t0 + j')%nat nu
                                  - G i j' * tl.sum K (fun kk0 => wl (t0 + j')%nat kk0
                                                                  * S t0 kk0 nu)))
        by (intros; lra).
      rewrite sum_minus. lra. }
    rewrite Rmult_assoc.
    replace (b (t0 + i)%nat
             * (kl (t0 + i)%nat kk
                * (vl (t0 + i)%nat nu
                   - tl.sum K (fun j => kl (t0 + i)%nat j * S (t0 + i) j nu))))
      with (kl (t0 + i)%nat kk * vn i) by (rewrite <- E; lra).
    lra.
Qed.

End DeltaChunk.

Lemma delta_H_S (k u w h0 : data) (T K V BT BC : nat) (USE : bool) (l c kk nu : nat) :
  (0 < BT)%nat -> (tl.cdiv BT BC * BC = BT)%nat ->
  (c < tl.cdiv T BT)%nat -> (kk < K)%nat -> (nu < V)%nat ->
  let Hc := delta_H k u w h0 T K V BT BC USE l c in
  delta_H k u w h0 T K V BT BC USE l (S c) kk nu
  = Hc kk nu
    + tl.sum (Nat.min BT (T - c * BT))
        (fun x => k l (c * BT + x)%nat kk
                  * (u l (c * BT + x)%nat nu
                     - tl.sum K (fun j => w l (c * BT + x)%nat j * Hc j nu))).
Proof.
  intros HBT Hdiv Hc Hkk Hnu Hcur. unfold delta_H at 1.
  rewrite delta_regs_b_h. fold (delta_H k u w h0 T K V BT BC USE l c kk nu).
  fold Hcur. f_equal.
  pose proof (cdiv_chunk_lt T BT c HBT Hc) as HcT.
  set (F := fun x =>
              tl.load (tl.cols_of k l 0) (K, T) (0, c * BT)%nat kk x
              * (tl.load (tl.rows_of u l 0) (T, V) (c * BT, nu)%nat x 0%nat
                 - tl.sum K (fun j => tl.load (tl.rows_of w l 0) (T, K) (c * BT, 0)%nat x j
                                      * Hcur j nu))).
  transitivity (tl.sum (tl.cdiv BT BC) (fun i_c => tl.sum BC (fun j => F (i_c * BC + j)%nat))).
  - apply sum_ext. intros i_c _. apply sum_ext. intros j _. unfold F.
    rewrite !load_at. cbn [fst snd].
    rewrite !Nat.mul_0_l, !Nat.mul_1_r, !Nat.add_0_r, !Nat.add_assoc.
    f_equal. f_equal. apply sum_ext. intros j' _.
    rewrite !load_at. cbn [fst snd]. now rewrite !Nat.add_assoc.
  - rewrite sum_tiles, Hdiv. rewrite (sum_pad (Nat.min BT (T - c * BT)) BT).
    + apply sum_ext. intros x Hx. unfold F. rewrite !load_at. cbn [fst snd].
      rewrite !Nat.add_0_r. cbn [Nat.add].
      destruct (Nat.ltb_spec kk K); [|lia]. destruct (Nat.ltb_spec nu V); [|lia].
      destruct (Nat.ltb_spec (c * BT + x) T); [|lia].
      cbn [andb]. unfold tl.cols_of, tl.rows_of. cbn [Nat.add].
      f_equal. f_equal. apply sum_ext. intros j Hj.
      rewrite load_at. cbn [fst snd]. cbn [Nat.add].
      destruct (Nat.ltb_spec (c * BT + x) T); [|lia].
      destruct (Nat.ltb_spec j K); [|lia]. reflexivity.
    + lia.
    + intros x Hx. unfold F. rewrite load_at. cbn [fst snd].
      destruct (Nat.ltb_spec (c * BT + x) T); [lia|].
      rewrite andb_false_r. lra.
Qed.

Lemma wy_contract_at (BH T K V BT : nat) (k v : data) (beta : nat -> nat -> R)
      (w u : data) (l c i : nat) :
  wy_contract BH T K V BT k v beta w u ->
  (l < BH)%nat -> (c * BT + i < T)%nat -> (i < BT)%nat ->
  let G := fun j => tl.sum K (fun kk => k l (c * BT + i)%nat kk * k l (c * BT + j)%nat kk) in
  (forall kk, (kk < K)%nat ->
     w l (c * BT + i)%nat kk
     = beta l (c * BT + i)%nat
       * (k l (c * BT + i)%nat kk - tl.sum i (fun j => G j * w l (c * BT + j)%nat kk)))
  /\
  (forall nu, (nu < V)%nat ->
     u l (c * BT + i)%nat nu
     = beta l (c * BT + i)%nat
       * (v l (c * BT + i)%nat nu - tl.sum i (fun j => G j * u l (c * BT + j)%nat nu))).
Proof.
  intros Hwy Hl Ht Hi G.
  specialize (Hwy l (c * BT + i)%nat Hl Ht). cbv zeta in Hwy.
  destruct (tile_index BT c (c * BT + i)%nat ltac:(lia)) as [Ec Ei].
  rewrite Ec, Ei in Hwy.
  replace (c * BT + i - c * BT)%nat with i in Hwy by lia.
  exact Hwy.
Qed.

Section DeltaSeq.

Variables (BH T K V BT BC : nat) (k v u w h0 : data) (beta : nat -> nat -> R).
Variable USE : bool.
Hypothesis Hwy : wy_contract BH T K V BT k v beta w u.
Hypotheses (HBT : (0 < BT)%nat) (Hdiv : (tl.cdiv BT BC * BC = BT)%nat).
Variable l : nat.
Hypothesis Hl : (l < BH)%nat.

Let S := delta_seq K (k l) (v l) (beta l) (fun kk nu => if USE then h0 l kk nu else 0).
Let Hs := delta_H k u w h0 T K V BT BC USE l.

(** Inside chunk [c], the sequential state in WY form. *)
Lemma delta_seq_in_chunk (c i nu : nat) :
  (c * BT + i <= T)%nat -> (i <= BT)%nat -> (nu < V)%nat ->
  forall kk, (kk < K)%nat ->
    S (c * BT + i) kk nu
    = S (c * BT) kk nu
      + tl.sum i (fun j => k l (c * BT + j)%nat kk
                           * (u l (c * BT + j)%nat nu
                              - tl.sum K (fun kk' => w l (c * BT + j)%nat kk'
                                                     * S (c * BT) kk' nu))).
Proof.
  intros Hci Hi Hnu kk Hkk.
  apply (delta_seq_chunk K (k l) (v l) (w l) (u l) (beta l) _ (c * BT) i nu); auto.
  - intros i' kk' Hi' Hkk'.
    now apply (wy_contract_at BH T K V BT k v beta w u l c i' Hwy Hl ltac:(lia) ltac:(lia)).
  - intros i' Hi'.
    now apply (wy_contract_at BH T K V BT k v beta w u l c i' Hwy Hl ltac:(lia) ltac:(lia)).
Qed.

(** The snapshot on entry to chunk [c] is the sequential state after the
    first [c * BT] positions; the register after the last chunk is the
    state after all [T] positions. *)
Lemma delta_H_seq (c nu : nat) :
  (c <= tl.cdiv T BT)%nat -> (nu < V)%nat ->
  forall kk, (kk < K)%nat -> Hs c kk nu = S (Nat.min (c * BT) T) kk nu.
Proof.
  intros Hc Hnu. induction c as [|c IH]; intros kk Hkk.
  - unfold Hs. rewrite delta_H_0 by assumption. reflexivity.
  - pose proof (cdiv_chunk_lt T BT c HBT ltac:(lia)) as HcT.
    unfold Hs. rewrite delta_H_S by (assumption || lia). fold Hs.
    specialize (IH ltac:(lia)).
    replace (Nat.min (c * BT) T) with (c * BT)%nat in IH by lia.
    replace (Nat.min (Datatypes.S c * BT) T)
      with (c * BT + Nat.min BT (T - c * BT))%nat by lia.
    rewrite delta_seq_in_chunk by (assumption || lia).
    rewrite IH by exact Hkk. f_equal.
    apply sum_ext. intros x _. f_equal. f_equal.
    apply sum_ext. intros j Hj. now rewrite IH.
Qed.

(** The corrected value and the output formula, fed by the state engine,
    give the readout of the sequential state. *)
Lemma delta_o_seq (q v_new h : data) (scale : R) (t nu : nat) :
  (t < T)%nat -> (nu < V)%nat ->
  (forall kk, (kk < K)%nat -> h l (t / BT * K + kk)%nat nu = Hs (t / BT)%nat kk nu) ->
  (forall t', (t' < T)%nat ->
     v_new l t' nu = u l t' nu - tl.sum K (fun kk => w l t' kk * Hs (t' / BT)%nat kk nu)) ->
  delta_o_formula q k v_new h scale K BT l t nu
  = scale * tl.sum K (fun kk => q l t kk * S (Datatypes.S t) kk nu).
Proof.
  intros Ht Hnu Hh Hv. unfold delta_o_formula. cbv zeta.
  set (c := (t / BT)%nat) in *. set (i := (t mod BT)%nat).
  assert (Et : (t = c * BT + i)%nat).
  { pose proof (Nat.div_mod_eq t BT). unfold c, i. lia. }
  assert (Hi : (i < BT)%nat) by (apply Nat.mod_upper_bound; lia).
  assert (Hc : (c < tl.cdiv T BT)%nat) by now apply tile_count.
  assert (HH : forall kk, (kk < K)%nat -> Hs c kk nu = S (c * BT) kk nu).
  { intros kk Hkk. rewrite delta_H_seq by (assumption || lia).
    f_equal. lia. }
  f_equal. replace (Datatypes.S t) with (c * BT + (i + 1))%nat by lia.
  transitivity
    (tl.sum K (fun kk => q l t kk * S (c * BT) kk nu
                         + tl.sum (i + 1)
                             (fun j => (q l t kk * k l (c * BT + j)%nat kk)
                                       * v_new l (c * BT + j)%nat nu))).
  - rewrite sum_plus, sum_swap. f_equal.
    + apply sum_ext. intros kk Hkk. now rewrite Hh, HH.
    + apply sum_ext. intros j _. rewrite <- sum_scal_r. reflexivity.
  - apply sum_ext. intros kk Hkk.
    rewrite delta_seq_in_chunk by (assumption || lia).
    rewrite Rmult_plus_distr_l, <- sum_scal_l. f_equal.
    apply sum_ext. intros j Hj.
    rewrite Hv by lia.
    destruct (tile_index BT c (c * BT + j)%nat ltac:(lia)) as [-> _].
    rewrite (sum_ext K (fun kk0 => w l (c * BT + j)%nat kk0 * Hs c kk0 nu)
                     (fun kk' => w l (c * BT + j)%nat kk' * S (c * BT) kk' nu))
      by (intros; now rewrite HH).
    lra.
Qed.

End DeltaSeq.

(** The whole delta-rule forward pass computes the sequential delta
    rule, given a WY collaborator that honours its contract. *)
Lemma delta_forward_seq (uninit : data) (capability : nat * nat)
      (wy : tensor -> tensor -> tensor -> nat -> tensor * tensor * tensor)
      (q k v beta : tensor) (scale : R) (h0 : option tensor) (ofs : bool)
      (level BT : nat) (B H T K V : nat) (w u A : tensor) (wk : list work) :
  t_shape q = [B; H; T; K] -> t_shape k = [B; H; T; K] -> t_shape v = [B; H; T; V] ->
  (0 < K <= 256)%nat -> (0 < V)%nat -> (0 < BT)%nat ->
  (let BC := Nat.min BT (snd (fwd_h_tiles capability K)) in
   tl.cdiv BT BC * BC = BT)%nat ->
  wy k v beta BT = (w, u, A) ->
  t_shape u = t_shape v ->
  wy_contract (B * H) T K V BT (t_data k) (t_data v) (beta_at beta) (t_data w) (t_data u) ->
  let S := fun l => delta_seq K (t_data k l) (t_data v l) (beta_at beta l) (state0 h0 l) in
  exists r wo,
    chunk_delta_rule_fwd uninit capability wy q k v beta scale h0 ofs level BT wk
    = (inl r, wo) /\
    f_A r = A /\
    (level = 1%nat -> f_h r = None /\ f_v_new r = None) /\
    (forall l t nu, (l < B * H)%nat -> (t < T)%nat -> (nu < V)%nat ->
       t_data (f_o r) l t nu
       = scale * tl.sum K (fun kk => t_data q l t kk * S l (Datatypes.S t) kk nu)) /\
    (ofs = false -> f_final_state r = None) /\
    (ofs = true ->
     exists f, f_final_state r = Some f /\ t_dtype f = float32 /\
               t_shape f = [B; H; K; V] /\
               forall l kk nu, (l < B * H)%nat -> (kk < K)%nat -> (nu < V)%nat ->
                               t_data f l kk nu = S l T kk nu).
Proof.
  intros Hq Hk Hv HK HV HBT Hdiv Ewy Hu Hwy S. cbv zeta in Hdiv.
  assert (Hst : forall l, (fun kk nu => if is_some h0 then data_of h0 l kk nu else 0)
                          = state0 h0 l).
  { intros l. unfold state0. destruct h0; reflexivity. }
  unfold chunk_delta_rule_fwd, bind.
  rewrite Hq, Hk, Hv. cbn [firstn rev app]. unfold ret at 1, dispatch.
  rewrite Ewy.
  set (fs := if ofs then Some (new_empty uninit [B; H; K; V] float32) else None).
  rewrite Hv in Hu.
  destruct (chunk_delta_rule_fwd_h_fn_spec uninit capability k w u BT h0 fs
              B H T K V [B; H; T] (wk ++ [Collaborator "fwd_prepare_wy_repr"])
              Hk Hu HK HV HBT)
    as (h & v_new & ht & E & Hsv & Hh & Hvn & Hht).
  rewrite E. rewrite Hu in Hsv.
  match goal with
  | |- context [chunk_delta_rule_fwd_o_fn _ _ _ _ _ _ _ ?w'] =>
      destruct (chunk_delta_rule_fwd_o_fn_spec uninit q k v_new h BT scale B H T K V
                  [B; H; T] w' Hq Hsv HBT ltac:(lia) HV) as (o & Eo & _ & Ho)
  end.
  rewrite Eo. unfold ret.
  assert (HH : forall l c nu kk, (l < B * H)%nat -> (c <= tl.cdiv T BT)%nat ->
                                 (nu < V)%nat -> (kk < K)%nat ->
                 delta_H (t_data k) (t_data u) (t_data w) (data_of h0) T K V BT
                         (Nat.min BT (snd (fwd_h_tiles capability K))) (is_some h0)
                         l c kk nu
                 = S l (Nat.min (c * BT) T) kk nu).
  { intros l c nu kk Hl Hc Hnu Hkk. unfold S. rewrite <- Hst.
    now apply (delta_H_seq (B * H) T K V BT _ (t_data k) (t_data v) (t_data u) (t_data w)
                 (data_of h0) (beta_at beta) (is_some h0) Hwy HBT Hdiv l Hl c nu). }
  exists (mk_fwd_result o A (if (level =? 1)%nat then None else Some h)
                        (if (level =? 1)%nat then None else Some v_new) ht).
  eexists. split.
  { destruct (level =? 1)%nat; reflexivity. }
  split; [reflexivity|].
  split; [intros ->; cbn; split; reflexivity|].
  cbn [f_o f_final_state].
  split; [|split].
  - intros l t nu Hl Ht Hnu.
    rewrite Ho by assumption. unfold S. rewrite <- Hst.
    apply (delta_o_seq (B * H) T K V BT _ (t_data k) (t_data v) (t_data u) (t_data w)
             (data_of h0) (beta_at beta) (is_some h0) Hwy HBT Hdiv l Hl); auto.
    intros kk Hkk. apply Hh; auto. now apply tile_count.
  - intros ->. exact Hht.
  - intros ->.
    cbn in Hht. destruct Hht as (f & -> & Hd & Hs & Hf).
    exists f. repeat split; auto.
    intros l kk nu Hl Hkk Hnu. rewrite Hf by assumption.
    rewrite HH by (assumption || lia).
    pose proof (cdiv_cover T BT HBT) as Hcov. unfold tl.cdiv.
    rewrite (Nat.min_r _ T) by exact Hcov. reflexivity.
Qed.

(** ** The public entry points *)

Lemma dtype_eqb_eq (a b : dtype) : dtype_eqb a b = true <-> a = b.
Proof. destruct a, b; cbn; split; congruence. Qed.

Lemma dtype_eqb_refl (a : dtype) : dtype_eqb a a = true.
Proof. now apply dtype_eqb_eq. Qed.

Lemma chunk_retention_seq (uninit : data) (q k v : tensor) (scale : option R)
      (h0 : option tensor) (ofs : bool) (B H T K V : nat) (w : list work) :
  qkv_ok q k v B H T K V ->
  let S := fun l => retention_seq (rate (l mod H)) (t_data k l) (t_data v l) (state0 h0 l) in
  exists o ht wo,
    chunk_retention uninit q k v scale h0 ofs w = (inl (o, ht), wo) /\
    t_shape o = t_shape v /\ t_dtype o = t_dtype q /\
    (forall l t nu, (l < B * H)%nat -> (t < T)%nat -> (nu < V)%nat ->
       t_data o l t nu
       = scale_of scale k
         * tl.sum K (fun kk => t_data q l t kk * S l (Datatypes.S t) kk nu)) /\
    (ofs = false -> ht = None) /\
    (ofs = true ->
     exists f, ht = Some f /\ t_dtype f = float32 /\ t_shape f = [B; H; K; V] /\
               forall l kk nu, (l < B * H)%nat -> (kk < K)%nat -> (nu < V)%nat ->
                               t_data f l kk nu = S l T kk nu).
Proof.
  intros (Hq & Hk & Hv & Hd1 & Hd2 & HK & HV) S.
  destruct (retention_forward_seq uninit q k v (scale_of scale k) h0 ofs B H T K V w
              Hk Hv HK HV) as (o & ht & wo & E & Hrest).
  exists o, ht, wo. split; [|exact Hrest].
  unfold chunk_retention, bind.
  rewrite Hq, Hk, Hv, <- Hd2, <- Hd1, !dtype_eqb_refl.
  cbn [List.length Nat.eqb andb assert]. unfold ret at 1 2.
  exact E.
Qed.

Lemma fwd_h_tiles_64 (capability : nat * nat) (K : nat) :
  let BC := Nat.min 64 (snd (fwd_h_tiles capability K)) in
  (tl.cdiv 64 BC * BC = 64)%nat.
Proof.
  unfold fwd_h_tiles.
  destruct (9 <=? fst capability)%nat; [reflexivity|].
  destruct ((fst capability =? 8) && (snd capability =? 0))%nat; [reflexivity|].
  destruct (K <=? 128)%nat; reflexivity.
Qed.

Lemma chunk_delta_rule_seq (uninit : data) (capability : nat * nat)
      (wy : tensor -> tensor -> tensor -> nat -> tensor * tensor * tensor)
      (q k v beta : tensor) (scale : option R)
      (h0 : option tensor) (ofs : bool) (B H T K V : nat) (w : list work) :
  qkv_ok q k v B H T K V -> t_dtype q <> float32 -> t_shape beta = [B; H; T] ->
  (K <= 256)%nat -> wy_ok wy ->
  let S := fun l => delta_seq K (t_data k l) (t_data v l) (beta_at beta l) (state0 h0 l) in
  exists o ht wo,
    chunk_delta_rule uninit capability wy q k v beta scale h0 ofs w = (inl (o, ht), wo) /\
    t_dtype o = t_dtype q /\
    (forall l t nu, (l < B * H)%nat -> (t < T)%nat -> (nu < V)%nat ->
       t_data o l t nu
       = scale_of scale k
         * tl.sum K (fun kk => t_data q l t kk * S l (Datatypes.S t) kk nu)) /\
    (ofs = false -> ht = None) /\
    (ofs = true ->
     exists f, ht = Some f /\ t_dtype f = float32 /\ t_shape f = [B; H; K; V] /\
               forall l kk nu, (l < B * H)%nat -> (kk < K)%nat -> (nu < V)%nat ->
                               t_data f l kk nu = S l T kk nu).
Proof.
  intros (Hq & Hk & Hv & Hd1 & Hd2 & HK & HV) Hf32 Hb HK256 Hwy S.
  unfold chunk_delta_rule, bind.
  rewrite <- Hd2, <- Hd1, !dtype_eqb_refl. cbn [andb assert]. unfold ret at 1.
  destruct (dtype_eqb (t_dtype q) float32) eqn:Ed;
    [apply dtype_eqb_eq in Ed; contradiction|].
  cbn [negb assert]. unfold ret at 1.
  rewrite Hb. cbn [List.length Nat.eqb assert]. unfold ret at 1.
  fold (scale_of scale k).
  unfold ChunkDeltaRuleFunction_forward, bind.
  destruct (wy k v beta 64%nat) as [[wt ut] A] eqn:Ewy.
  destruct (Hwy k v beta 64%nat B H T K V wt ut A Hk Hv ltac:(lia) Ewy) as [Hsu Hc].
  destruct (delta_forward_seq uninit capability wy q k v beta (scale_of scale k) h0 ofs
              1 64 B H T K V wt ut A w Hq Hk Hv ltac:(lia) HV ltac:(lia)
              (fwd_h_tiles_64 capability K) Ewy Hsu Hc)
    as (r & wo & E & _ & _ & Ho & Hnone & Hsome).
  rewrite E. unfold ret.
  eexists. eexists. eexists. split; [reflexivity|].
  split; [reflexivity|]. split; [exact Ho|]. split; assumption.
Qed.

Lemma delta_seq_ext (K : nat) (k v s0 k' v' s0' : block) (b b' : nat -> R) (t nu : nat) :
  (forall kk, (kk < K)%nat -> s0 kk nu = s0' kk nu) ->
  (forall i kk, (i < t)%nat -> (kk < K)%nat -> k i kk = k' i kk) ->
  (forall i, (i < t)%nat -> v i nu = v' i nu) ->
  (forall i, (i < t)%nat -> b i = b' i) ->
  forall kk, (kk < K)%nat ->
    delta_seq K k v b s0 t kk nu = delta_seq K k' v' b' s0' t kk nu.
Proof.
  intros H0 Hk Hv Hb. induction t as [|t IH]; intros kk Hkk; cbn; [now apply H0|].
  assert (IH' : forall kk, (kk < K)%nat ->
                  delta_seq K k v b s0 t kk nu = delta_seq K k' v' b' s0' t kk nu).
  { apply IH; intros; [apply Hk | apply Hv | apply Hb]; auto. }
  rewrite IH', Hk, Hv, Hb by auto.
  f_equal. f_equal. f_equal. apply sum_ext. intros j Hj. rewrite IH', Hk by auto.
  reflexivity.
Qed.

Lemma retention_seq_shift (g : R) (k v s0 : block) (T1 t kk nu : nat) :
  retention_seq g (fun i => k (T1 + i)%nat) (fun i => v (T1 + i)%nat)
                (retention_seq g k v s0 T1) t kk nu
  = retention_seq g k v s0 (T1 + t) kk nu.
Proof.
  induction t as [|t IH].
  - now rewrite Nat.add_0_r.
  - rewrite Nat.add_succ_r. cbn. now rewrite IH.
Qed.

Lemma delta_seq_shift (K : nat) (k v s0 : block) (b : nat -> R) (T1 t : nat) :
  forall kk nu,
    delta_seq K (fun i => k (T1 + i)%nat) (fun i => v (T1 + i)%nat)
              (fun i => b (T1 + i)%nat) (delta_seq K k v b s0 T1) t kk nu
    = delta_seq K k v b s0 (T1 + t) kk nu.
Proof.
  induction t as [|t IH]; intros kk nu.
  - now rewrite Nat.add_0_r.
  - rewrite Nat.add_succ_r. cbn. rewrite IH. do 3 f_equal.
    apply sum_ext. intros j _. now rewrite IH.
Qed.

Lemma scale_of_shape (scale : option R) (k k' : tensor) :
  last (t_shape k) 0%nat = last (t_shape k') 0%nat ->
  scale_of scale k = scale_of scale k'.
Proof.
  intros E. unfold scale_of, default_scale. destruct scale; [reflexivity|].
  now rewrite E.
Qed.

(** C1. Causality: for both [chunk_retention] and [chunk_delta_rule],
    take two inputs that agree on the keys and values (and beta) at the
    positions [0..t] and on the initial state, whatever they hold at later
    positions.  Then at every position [t' <= t] at which the queries agree,
    the two outputs are identical: the output at a position is a function
    of the query at that position, of the keys, values and beta up to that
    position, and of the initial state only. *)
Theorem causality
    (uninit : data) (capability : nat * nat)
    (wy : tensor -> tensor -> tensor -> nat -> tensor * tensor * tensor)
    (q1 k1 v1 beta1 q2 k2 v2 beta2 : tensor) (scale : option R)
    (h01 h02 : option tensor) (ofs : bool) (B H T K V t : nat) :
  qkv_ok q1 k1 v1 B H T K V -> qkv_ok q2 k2 v2 B H T K V -> (t < T)%nat ->
  agree_upto k1 k2 (B * H) t K -> agree_upto v1 v2 (B * H) t V ->
  (forall l kk nu, (l < B * H)%nat -> (kk < K)%nat -> (nu < V)%nat ->
                   state0 h01 l kk nu = state0 h02 l kk nu) ->
  (exists o1 f1 w1 o2 f2 w2,
      run (chunk_retention uninit q1 k1 v1 scale h01 ofs) = (inl (o1, f1), w1) /\
      run (chunk_retention uninit q2 k2 v2 scale h02 ofs) = (inl (o2, f2), w2) /\
      forall l t' nu, (l < B * H)%nat -> (t' <= t)%nat -> (nu < V)%nat ->
        (forall kk, (kk < K)%nat -> t_data q1 l t' kk = t_data q2 l t' kk) ->
        t_data o1 l t' nu = t_data o2 l t' nu) /\
  ((K <= 256)%nat -> t_dtype q1 <> float32 -> t_dtype q2 <> float32 ->
   t_shape beta1 = [B; H; T] -> t_shape beta2 = [B; H; T] -> wy_ok wy ->
   (forall l s, (l < B * H)%nat -> (s <= t)%nat -> beta_at beta1 l s = beta_at beta2 l s) ->
   exists o1 f1 w1 o2 f2 w2,
     run (chunk_delta_rule uninit capability wy q1 k1 v1 beta1 scale h01 ofs)
     = (inl (o1, f1), w1) /\
     run (chunk_delta_rule uninit capability wy q2 k2 v2 beta2 scale h02 ofs)
     = (inl (o2, f2), w2) /\
     forall l t' nu, (l < B * H)%nat -> (t' <= t)%nat -> (nu < V)%nat ->
       (forall kk, (kk < K)%nat -> t_data q1 l t' kk = t_data q2 l t' kk) ->
       t_data o1 l t' nu = t_data o2 l t' nu).
Proof.
  intros Hok1 Hok2 Ht Hk Hv Hs.
  assert (Hsc : scale_of scale k1 = scale_of scale k2).
  { apply scale_of_shape. destruct Hok1 as (_ & -> & _), Hok2 as (_ & -> & _).
    reflexivity. }
  split.
  - destruct (chunk_retention_seq uninit q1 k1 v1 scale h01 ofs B H T K V [] Hok1)
      as (o1 & f1 & w1 & E1 & _ & _ & Ho1 & _).
    destruct (chunk_retention_seq uninit q2 k2 v2 scale h02 ofs B H T K V [] Hok2)
      as (o2 & f2 & w2 & E2 & _ & _ & Ho2 & _).
    exists o1, f1, w1, o2, f2, w2. split; [exact E1|]. split; [exact E2|].
    intros l t' nu Hl Ht' Hnu Hq.
    rewrite Ho1, Ho2, Hsc by (assumption || lia). f_equal.
    apply sum_ext. intros kk Hkk. rewrite Hq by exact Hkk. f_equal.
    apply retention_seq_ext.
    + now apply Hs.
    + intros i Hi. apply Hk; auto; lia.
    + intros i Hi. apply Hv; auto; lia.
  - intros HK Hf1 Hf2 Hb1 Hb2 Hwy Hb.
    destruct (chunk_delta_rule_seq uninit capability wy q1 k1 v1 beta1 scale h01 ofs
                B H T K V [] Hok1 Hf1 Hb1 HK Hwy)
      as (o1 & f1 & w1 & E1 & _ & Ho1 & _).
    destruct (chunk_delta_rule_seq uninit capability wy q2 k2 v2 beta2 scale h02 ofs
                B H T K V [] Hok2 Hf2 Hb2 HK Hwy)
      as (o2 & f2 & w2 & E2 & _ & Ho2 & _).
    exists o1, f1, w1, o2, f2, w2. split; [exact E1|]. split; [exact E2|].
    intros l t' nu Hl Ht' Hnu Hq.
    rewrite Ho1, Ho2, Hsc by (assumption || lia). f_equal.
    apply sum_ext. intros kk Hkk. rewrite Hq by exact Hkk. f_equal.
    apply delta_seq_ext;
      [ intros kk' Hkk'; now apply Hs
      | intros i kk' Hi Hkk'; apply Hk; auto; lia
      | intros i Hi; apply Hv; auto; lia
      | intros i Hi; apply Hb; auto; lia
      | exact Hkk ].
Qed.

Lemma qkv_ok_narrow (q k v : tensor) (B H T K V start len : nat) :
  qkv_ok q k v B H T K V ->
  qkv_ok (narrow q start len) (narrow k start len) (narrow v start len) B H len K V.
Proof.
  intros (Hq & Hk & Hv & Hd1 & Hd2 & HK & HV). unfold qkv_ok, narrow. cbn.
  rewrite Hq, Hk, Hv. repeat split; auto.
Qed.

Lemma scale_of_narrow (scale : option R) (k : tensor) (B H T K start len : nat) :
  t_shape k = [B; H; T; K] -> scale_of scale (narrow k start len) = scale_of scale k.
Proof.
  intros Hk. apply scale_of_shape. unfold narrow. cbn. rewrite Hk. reflexivity.
Qed.

(** C2. State-chain correctness: for either variant, a call over
    [0, T1) that returns its final state, followed by a call over [T1, T)
    that starts from that state, produces the same outputs (concatenated)
    and the same final state as one call over [0, T), in exact
    arithmetic. *)
Theorem state_chain
    (uninit : data) (capability : nat * nat)
    (wy : tensor -> tensor -> tensor -> nat -> tensor * tensor * tensor)
    (q k v beta : tensor) (scale : option R) (h0 : option tensor) (ofs : bool)
    (B H T K V T1 : nat) :
  qkv_ok q k v B H T K V -> (T1 <= T)%nat ->
  let q1 := narrow q 0 T1 in
  let k1 := narrow k 0 T1 in
  let v1 := narrow v 0 T1 in
  let beta1 := narrow beta 0 T1 in
  let q2 := narrow q T1 (T - T1) in
  let k2 := narrow k T1 (T - T1) in
  let v2 := narrow v T1 (T - T1) in
  let beta2 := narrow beta T1 (T - T1) in
  (exists o ht w o1 s1 w1 o2 ht2 w2,
      run (chunk_retention uninit q k v scale h0 ofs) = (inl (o, ht), w) /\
      run (chunk_retention uninit q1 k1 v1 scale h0 true) = (inl (o1, Some s1), w1) /\
      run (chunk_retention uninit q2 k2 v2 scale (Some s1) ofs) = (inl (o2, ht2), w2) /\
      (forall l t nu, (l < B * H)%nat -> (t < T1)%nat -> (nu < V)%nat ->
                      t_data o1 l t nu = t_data o l t nu) /\
      (forall l t nu, (l < B * H)%nat -> (t < T - T1)%nat -> (nu < V)%nat ->
                      t_data o2 l t nu = t_data o l (T1 + t)%nat nu) /\
      (ofs = false -> ht = None /\ ht2 = None) /\
      (ofs = true ->
       exists f f2, ht = Some f /\ ht2 = Some f2 /\
                    forall l kk nu, (l < B * H)%nat -> (kk < K)%nat -> (nu < V)%nat ->
                                    t_data f2 l kk nu = t_data f l kk nu)) /\
  ((K <= 256)%nat -> t_dtype q <> float32 -> t_shape beta = [B; H; T] -> wy_ok wy ->
   exists o ht w o1 s1 w1 o2 ht2 w2,
     run (chunk_delta_rule uninit capability wy q k v beta scale h0 ofs)
     = (inl (o, ht), w) /\
     run (chunk_delta_rule uninit capability wy q1 k1 v1 beta1 scale h0 true)
     = (inl (o1, Some s1), w1) /\
     run (chunk_delta_rule uninit capability wy q2 k2 v2 beta2 scale (Some s1) ofs)
     = (inl (o2, ht2), w2) /\
     (forall l t nu, (l < B * H)%nat -> (t < T1)%nat -> (nu < V)%nat ->
                     t_data o1 l t nu = t_data o l t nu) /\
     (forall l t nu, (l < B * H)%nat -> (t < T - T1)%nat -> (nu < V)%nat ->
                     t_data o2 l t nu = t_data o l (T1 + t)%nat nu) /\
     (ofs = false -> ht = None /\ ht2 = None) /\
     (ofs = true ->
      exists f f2, ht = Some f /\ ht2 = Some f2 /\
                   forall l kk nu, (l < B * H)%nat -> (kk < K)%nat -> (nu < V)%nat ->
                                   t_data f2 l kk nu = t_data f l kk nu)).
Proof.
  intros Hok HT1 q1 k1 v1 beta1 q2 k2 v2 beta2.
  pose proof (qkv_ok_narrow q k v B H T K V 0 T1 Hok) as Hok1.
  pose proof (qkv_ok_narrow q k v B H T K V T1 (T - T1) Hok) as Hok2.
  fold q1 k1 v1 in Hok1. fold q2 k2 v2 in Hok2.
  assert (Hk : t_shape k = [B; H; T; K]) by apply Hok.
  assert (Hsc1 : scale_of scale k1 = scale_of scale k)
    by now apply (scale_of_narrow scale k B H T K).
  assert (Hsc2 : scale_of scale k2 = scale_of scale k)
    by now apply (scale_of_narrow scale k B H T K).
  split.
  - destruct (chunk_retention_seq uninit q k v scale h0 ofs B H T K V [] Hok)
      as (o & ht & w & E & _ & _ & Ho & Hn & Hs).
    destruct (chunk_retention_seq uninit q1 k1 v1 scale h0 true B H T1 K V [] Hok1)
      as (o1 & ht1 & w1 & E1 & _ & _ & Ho1 & _ & Hs1).
    destruct (Hs1 eq_refl) as (s1 & -> & _ & _ & Hf1).
    destruct (chunk_retention_seq uninit q2 k2 v2 scale (Some s1) ofs B H (T - T1) K V []
                Hok2)
      as (o2 & ht2 & w2 & E2 & _ & _ & Ho2 & Hn2 & Hs2).
    exists o, ht, w, o1, s1, w1, o2, ht2, w2.
    split; [exact E|]. split; [exact E1|]. split; [exact E2|].
    assert (Hshift : forall l t kk nu, (l < B * H)%nat -> (kk < K)%nat -> (nu < V)%nat ->
              retention_seq (rate (l mod H)) (t_data k2 l) (t_data v2 l)
                            (state0 (Some s1) l) t kk nu
              = retention_seq (rate (l mod H)) (t_data k l) (t_data v l)
                              (state0 h0 l) (T1 + t) kk nu).
    { intros l t kk nu Hl Hkk Hnu.
      rewrite <- retention_seq_shift. apply retention_seq_ext; auto.
      cbn [state0]. now apply Hf1. }
    split; [|split; [|split]].
    + intros l t nu Hl Ht Hnu. rewrite Ho1, Ho, Hsc1 by (assumption || lia).
      reflexivity.
    + intros l t nu Hl Ht Hnu. rewrite Ho2, Ho, Hsc2 by (assumption || lia).
      f_equal. apply sum_ext. intros kk Hkk.
      rewrite Hshift, <- Nat.add_succ_r by assumption. reflexivity.
    + intros Hofs. split; auto.
    + intros Hofs. destruct (Hs Hofs) as (f & -> & _ & _ & Hf).
      destruct (Hs2 Hofs) as (f2 & -> & _ & _ & Hf2).
      exists f, f2. split; [reflexivity|]. split; [reflexivity|].
      intros l kk nu Hl Hkk Hnu. rewrite Hf2, Hf, Hshift by assumption.
      f_equal. lia.
  - intros HK Hf32 Hb Hwy.
    assert (Hb1 : t_shape beta1 = [B; H; T1]) by (unfold beta1, narrow; cbn; now rewrite Hb).
    assert (Hb2 : t_shape beta2 = [B; H; (T - T1)%nat])
      by (unfold beta2, narrow; cbn; now rewrite Hb).
    destruct (chunk_delta_rule_seq uninit capability wy q k v beta scale h0 ofs
                B H T K V [] Hok Hf32 Hb HK Hwy)
      as (o & ht & w & E & _ & Ho & Hn & Hs).
    destruct (chunk_delta_rule_seq uninit capability wy q1 k1 v1 beta1 scale h0 true
                B H T1 K V [] Hok1 Hf32 Hb1 HK Hwy)
      as (o1 & ht1 & w1 & E1 & _ & Ho1 & _ & Hs1).
    destruct (Hs1 eq_refl) as (s1 & -> & _ & _ & Hf1).
    destruct (chunk_delta_rule_seq uninit capability wy q2 k2 v2 beta2 scale (Some s1) ofs
                B H (T - T1) K V [] Hok2 Hf32 Hb2 HK Hwy)
      as (o2 & ht2 & w2 & E2 & _ & Ho2 & Hn2 & Hs2).
    exists o, ht, w, o1, s1, w1, o2, ht2, w2.
    split; [exact E|]. split; [exact E1|]. split; [exact E2|].
    assert (Hshift : forall l t kk nu, (l < B * H)%nat -> (kk < K)%nat -> (nu < V)%nat ->
              delta_seq K (t_data k2 l) (t_data v2 l) (beta_at beta2 l)
                        (state0 (Some s1) l) t kk nu
              = delta_seq K (t_data k l) (t_data v l) (beta_at beta l)
                          (state0 h0 l) (T1 + t) kk nu).
    { intros l t kk nu Hl Hkk Hnu.
      rewrite <- delta_seq_shift. apply delta_seq_ext; auto.
      intros kk' Hkk'. cbn [state0]. now apply Hf1. }
    split; [|split; [|split]].
    + intros l t nu Hl Ht Hnu. rewrite Ho1, Ho, Hsc1 by (assumption || lia).
      reflexivity.
    + intros l t nu Hl Ht Hnu. rewrite Ho2, Ho, Hsc2 by (assumption || lia).
      f_equal. apply sum_ext. intros kk Hkk.
      rewrite Hshift, <- Nat.add_succ_r by assumption. reflexivity.
    + intros Hofs. split; auto.
    + intros Hofs. destruct (Hs Hofs) as (f & -> & _ & _ & Hf).
      destruct (Hs2 Hofs) as (f2 & -> & _ & _ & Hf2).
      exists f, f2. split; [reflexivity|]. split; [reflexivity|].
      intros l kk nu Hl Hkk Hnu. rewrite Hf2, Hf, Hshift by assumption.
      f_equal. lia.
Qed.

(** C6. Delta-rule sub-tiled staging of the state engine.  Whatever the
    sub-chunk size [BC] (dividing the chunk size), (a) every position's
    corrected value is [v' = u - W . H[c]] with the snapshot [H[c]] taken on
    entry to its chunk, so the state is not updated between sub-tiles;
    (b) the state moves once per chunk, by the sum of [K^T v'] over the
    chunk's valid positions, up to the final state; and (c) when [W, U] are
    the WY representation of [(K, V, beta)], the snapshots and the final
    state are those of the sequential delta rule
    [S (t+1) = S t + beta_t k_t^T (v_t - k_t S t)]. *)
Theorem delta_rule_staging
    (uninit : data) (capability : nat * nat) (k v beta w u : tensor) (BT : nat)
    (h0 : option tensor) (f0 : tensor) (B H T K V : nat) :
  t_shape k = [B; H; T; K] -> t_shape u = [B; H; T; V] ->
  (0 < K <= 256)%nat -> (0 < V)%nat -> (0 < BT)%nat ->
  (let BC := Nat.min BT (snd (fwd_h_tiles capability K)) in
   tl.cdiv BT BC * BC = BT)%nat ->
  wy_contract (B * H) T K V BT (t_data k) (t_data v) (beta_at beta) (t_data w) (t_data u) ->
  let NT := tl.cdiv T BT in
  let S := fun l => delta_seq K (t_data k l) (t_data v l) (beta_at beta l) (state0 h0 l) in
  exists h v_new f wo,
    run (chunk_delta_rule_fwd_h_fn uninit capability k w u BT h0 (Some f0))
    = (inl (h, v_new, Some f), wo) /\
    (forall l t nu, (l < B * H)%nat -> (t < T)%nat -> (nu < V)%nat ->
       t_data v_new l t nu
       = t_data u l t nu
         - tl.sum K (fun kk => t_data w l t kk * t_data h l (t / BT * K + kk)%nat nu)) /\
    (forall l c kk nu, (l < B * H)%nat -> (c < NT)%nat -> (kk < K)%nat -> (nu < V)%nat ->
       (if (c + 1 <? NT)%nat then t_data h l ((c + 1) * K + kk)%nat nu
        else t_data f l kk nu)
       = t_data h l (c * K + kk)%nat nu
         + tl.sum (Nat.min BT (T - c * BT))
             (fun i => t_data k l (c * BT + i)%nat kk
                       * t_data v_new l (c * BT + i)%nat nu)) /\
    (forall l c kk nu, (l < B * H)%nat -> (c < NT)%nat -> (kk < K)%nat -> (nu < V)%nat ->
       t_data h l (c * K + kk)%nat nu = S l (c * BT)%nat kk nu) /\
    (forall l kk nu, (l < B * H)%nat -> (kk < K)%nat -> (nu < V)%nat ->
       t_data f l kk nu = S l T kk nu).
Proof.
  intros Hk Hu HK HV HBT Hdiv Hwy NT S. cbv zeta in Hdiv.
  destruct (chunk_delta_rule_fwd_h_fn_spec uninit capability k w u BT h0 (Some f0)
              B H T K V [B; H; T] [] Hk Hu HK HV HBT)
    as (h & v_new & ht & E & _ & Hh & Hvn & (f & -> & _ & _ & Hf)).
  specialize (Hvn Hdiv).
  set (BC := Nat.min BT (snd (fwd_h_tiles capability K))) in *.
  set (Hs := delta_H (t_data k) (t_data u) (t_data w) (data_of h0) T K V BT BC
                     (is_some h0)) in *.
  assert (Hst : forall l, (fun kk nu => if is_some h0 then data_of h0 l kk nu else 0)
                          = state0 h0 l).
  { intros l. unfold state0. destruct h0; reflexivity. }
  assert (HH : forall l c nu kk, (l < B * H)%nat -> (c <= NT)%nat ->
                                 (nu < V)%nat -> (kk < K)%nat ->
                 Hs l c kk nu = S l (Nat.min (c * BT) T) kk nu).
  { intros l c nu kk Hl Hc Hnu Hkk. unfold S. rewrite <- Hst.
    now apply (delta_H_seq (B * H) T K V BT BC (t_data k) (t_data v) (t_data u) (t_data w)
                 (data_of h0) (beta_at beta) (is_some h0) Hwy HBT Hdiv l Hl c nu). }
  exists h, v_new, f. eexists. split; [exact E|].
  assert (Hv' : forall l t nu, (l < B * H)%nat -> (t < T)%nat -> (nu < V)%nat ->
                  t_data v_new l t nu
                  = t_data u l t nu
                    - tl.sum K (fun kk => t_data w l t kk
                                          * t_data h l (t / BT * K + kk)%nat nu)).
  { intros l t nu Hl Ht Hnu. rewrite Hvn by assumption. f_equal.
    apply sum_ext. intros kk Hkk. rewrite Hh; auto. now apply tile_count. }
  split; [exact Hv'|]. split; [|split].
  - intros l c kk nu Hl Hc Hkk Hnu.
    pose proof (cdiv_chunk_lt T BT c HBT Hc) as HcT.
    assert (Enext : (if (c + 1 <? NT)%nat then t_data h l ((c + 1) * K + kk)%nat nu
                     else t_data f l kk nu) = Hs l (Datatypes.S c) kk nu).
    { destruct (Nat.ltb_spec (c + 1) NT) as [Hlt|Hge].
      - rewrite Hh by assumption. now rewrite Nat.add_1_r.
      - rewrite Hf by assumption. f_equal. unfold NT in *. lia. }
    rewrite Enext. unfold Hs.
    rewrite delta_H_S by assumption. fold Hs. rewrite Hh by assumption.
    fold Hs. f_equal. apply sum_ext. intros i Hi. f_equal.
    rewrite Hv' by (assumption || lia).
    destruct (tile_index BT c (c * BT + i)%nat ltac:(lia)) as [-> _].
    f_equal. apply sum_ext. intros j Hj. now rewrite Hh.
  - intros l c kk nu Hl Hc Hkk Hnu. rewrite Hh by assumption.
    rewrite HH by (assumption || lia).
    pose proof (cdiv_chunk_lt T BT c HBT Hc) as HcT.
    rewrite (Nat.min_l _ T) by lia. reflexivity.
  - intros l kk nu Hl Hkk Hnu. rewrite Hf by assumption.
    rewrite HH by (assumption || lia).
    pose proof (cdiv_cover T BT HBT) as Hcov. fold (tl.cdiv T BT) in Hcov. fold NT in Hcov.
    rewrite (Nat.min_r _ T) by exact Hcov. reflexivity.
Qed.

(** ** Validation *)

(** Counterexample to C3 as stated: with [K = 128] the retention state
    engine tiles the key dimension in two tiles of 64, raises nothing and
    launches its kernel on a grid with two K-tiles. *)
Lemma retention_state_engine_two_K_tiles :
  let k := full bfloat16 [1; 1; 1; 128]%nat 1 in
  let v := full bfloat16 [1; 1; 1; 1]%nat 1 in
  Nat.min 64 (triton.next_power_of_2 128) = 64%nat /\
  (exists r, fst (run (chunk_fwd_h_fn zero_data k v None 64 false)) = inl r) /\
  snd (run (chunk_fwd_h_fn zero_data k v None 64 false))
  = [Kernel "chunk_retention_fwd_kernel_h" (2, 1, 1)%nat].
Proof.
  cbv zeta. split; [reflexivity|]. split.
  - eexists. reflexivity.
  - reflexivity.
Qed.

(** C3, amended.  The delta-rule state engine always uses one K-tile of
    size [next_power_of_2 K]: it rejects the call, by an assertion made
    before its kernel is dispatched, exactly when that tile would exceed
    256, and otherwise launches a grid with a single K-tile; a whole
    forward call fails in the same way, after the WY collaborator has been
    dispatched.  The retention state engine has no such check: it tiles the
    key dimension in tiles of at most 64 and launches as many as needed. *)
Theorem single_K_tile_guard
    (uninit : data) (capability : nat * nat)
    (wy : tensor -> tensor -> tensor -> nat -> tensor * tensor * tensor)
    (q k v beta w u : tensor) (scale : R) (BT level : nat)
    (h0 fs : option tensor) (ofs : bool) (B H T K V : nat) (wk : list work) :
  t_shape q = [B; H; T; K] -> t_shape k = [B; H; T; K] ->
  t_shape v = [B; H; T; V] -> t_shape u = [B; H; T; V] ->
  t_shape (snd (fst (wy k v beta BT))) = [B; H; T; V] ->
  (0 < K)%nat -> (0 < V)%nat -> (0 < BT)%nat ->
  let too_large :=
    AssertionError "current kernel does not support head dimension larger than 256." in
  (if (K <=? 256)%nat
   then exists r,
       chunk_delta_rule_fwd_h_fn uninit capability k w u BT h0 fs wk
       = (inl r, wk ++ [Kernel "chunk_delta_rule_fwd_kernel_h"
                               (1, tl.cdiv V (fst (fwd_h_tiles capability K)), B * H)%nat])
   else
     chunk_delta_rule_fwd_h_fn uninit capability k w u BT h0 fs wk = (inr too_large, wk)
     /\ chunk_delta_rule_fwd uninit capability wy q k v beta scale h0 ofs level BT wk
        = (inr too_large, wk ++ [Collaborator "fwd_prepare_wy_repr"])) /\
  (exists r,
      chunk_fwd_h_fn uninit k v h0 BT ofs wk
      = (inl r, wk ++ [Kernel "chunk_retention_fwd_kernel_h"
                              (tl.cdiv K (Nat.min 64 (triton.next_power_of_2 K)),
                               tl.cdiv V (Nat.min 64 (triton.next_power_of_2 V)),
                               B * H)%nat])).
Proof.
  intros Hq Hk Hv Hu Hwy HK HV HBT too_large.
  assert (Hrej : forall w' u' fs' wk', t_shape u' = [B; H; T; V] -> (256 < K)%nat ->
            chunk_delta_rule_fwd_h_fn uninit capability k w' u' BT h0 fs' wk'
            = (inr too_large, wk')).
  { intros w' u' fs' wk' Hu' Hbig. unfold chunk_delta_rule_fwd_h_fn, bind.
    rewrite (dims_ok k u' B H T K V [B; H; T] Hk Hu').
    pose proof (next_power_of_2_ge K).
    unfold assert at 1.
    destruct (Nat.leb_spec (triton.next_power_of_2 K) 256); [lia|]. reflexivity. }
  split.
  - destruct (Nat.leb_spec K 256) as [Hle|Hbig].
    + destruct (chunk_delta_rule_fwd_h_fn_spec uninit capability k w u BT h0 fs
                  B H T K V [B; H; T] wk Hk Hu ltac:(lia) HV HBT)
        as (h & v_new & ht & E & _).
      eexists. exact E.
    + split; [now apply Hrej|].
      unfold chunk_delta_rule_fwd, bind.
      rewrite Hq, Hk, Hv. cbn [firstn rev app]. unfold ret at 1, dispatch.
      destruct (wy k v beta BT) as [[w' u'] A]. cbn [fst snd] in Hwy.
      rewrite (Hrej w' u' _ _ Hwy Hbig). reflexivity.
  - destruct (chunk_fwd_h_fn_spec uninit k v h0 BT ofs B H T K V [B; H; T] wk
                Hk Hv HK HV HBT) as (h & ht & E & _).
    eexists. exact E.
Qed.

(** C9, amended.  Precision rejection holds for the delta rule only:
    every [chunk_delta_rule] call whose queries, keys and values are
    float32 is rejected by an assertion before anything is dispatched to
    the device.  [chunk_retention] has no dtype restriction: the same
    float32 inputs run to completion and give a float32 output. *)
Theorem float32_rejected_by_delta_rule_only
    (uninit : data) (capability : nat * nat)
    (wy : tensor -> tensor -> tensor -> nat -> tensor * tensor * tensor)
    (q k v beta : tensor) (scale : option R) (h0 : option tensor) (ofs : bool)
    (B H T K V : nat) :
  qkv_ok q k v B H T K V -> t_dtype q = float32 ->
  run (chunk_delta_rule uninit capability wy q k v beta scale h0 ofs)
  = (inr (AssertionError
            "ChunkDeltaRuleFunction does not support float32. Please use bfloat16."),
     []) /\
  exists o ht w,
    run (chunk_retention uninit q k v scale h0 ofs) = (inl (o, ht), w) /\
    t_dtype o = float32.
Proof.
  intros Hok Hf. split.
  - destruct Hok as (_ & _ & _ & Hd1 & Hd2 & _).
    unfold run, chunk_delta_rule, bind.
    rewrite <- Hd2, <- Hd1, Hf. reflexivity.
  - destruct (chunk_retention_seq uninit q k v scale h0 ofs B H T K V [] Hok)
      as (o & ht & w & E & _ & Hd & _).
    exists o, ht, w. split; [exact E|]. now rewrite Hd.
Qed.

(** ** The backward state engines *)

Lemma rev_seq_S (m n : nat) :
  (m < n)%nat -> rev (seq m (n - m)) = rev (seq (S m) (n - S m)) ++ [m].
Proof.
  intros H. replace (n - m)%nat with (S (n - S m)) by lia. reflexivity.
Qed.

Lemma rev_seq_split (n : nat) (pre suf : list nat) (i : nat) :
  rev (seq 0 n) = pre ++ i :: suf ->
  pre = rev (seq (S i) (n - S i)) /\ (i < n)%nat.
Proof.
  intros E. apply (f_equal (@rev nat)) in E.
  rewrite rev_involutive, rev_app_distr in E. cbn [rev] in E.
  rewrite <- app_assoc in E. cbn [app] in E.
  apply seq_split in E as (Ei & _ & Es & Hl). cbn [Nat.add] in Ei.
  rewrite <- Ei in Es, Hl. split; [|exact Hl].
  rewrite <- Es. now rewrite rev_involutive.
Qed.

Lemma powerRZ_min_chunk (g : R) (T BT c : nat) :
  (c * BT < T)%nat ->
  powerRZ g (Z.min (Z.of_nat BT) (Z.of_nat T - Z.of_nat c * Z.of_nat BT))
  = g ^ Nat.min BT (T - c * BT).
Proof.
  intros H. rewrite pow_powerRZ. f_equal. lia.
Qed.

Section RetentionBackward.

Variables (q do dht : data) (scale : R) (H T K V BT BK BV NT : nat) (USE : bool).
Variables (i_k i_v i_bh : nat).

Let dregs := retention_dregs q do dht scale H T K V BT BK BV NT USE i_k i_v i_bh.

Lemma retention_dregs_S (m : nat) :
  (m < NT)%nat ->
  dregs m = chunk_retention_bwd_kernel_dh_step q do scale H T K V BT BK BV
                                               i_k i_v i_bh m (dregs (S m)).
Proof.
  intros Hm. unfold dregs, retention_dregs.
  rewrite (rev_seq_S m NT Hm), fold_left_app. reflexivity.
Qed.

(** Folding chunk [m] into the accumulator. *)
Lemma retention_dregs_fold (m a b : nat) :
  (m < NT)%nat ->
  dregs m a b
  = powerRZ (rate (i_bh mod H))
            (Z.min (Z.of_nat BT) (Z.of_nat T - Z.of_nat m * Z.of_nat BT))
    * dregs (S m) a b
    + tl.sum BT
        (fun i => scale * tl.load (tl.cols_of q i_bh 0) (K, T) (i_k * BK, m * BT)%nat a i
                  * (tl.load (tl.rows_of do i_bh 0) (T, V) (m * BT, i_v * BV)%nat i b
                     * rate (i_bh mod H) ^ (i + 1))).
Proof.
  intros Hm. rewrite retention_dregs_S by exact Hm.
  unfold chunk_retention_bwd_kernel_dh_step, badd, bscale, tl.dot, brows.
  rewrite exp2_Z_b_b. f_equal. apply sum_ext. intros i _.
  now rewrite exp2_nat_b_b.
Qed.

End RetentionBackward.

Lemma retention_dregs_tile (q do dht : data) (scale : R) (H T K V BT BK BV NT : nat)
      (USE : bool) (i_k i_v i_bh d a b : nat) :
  (d <= NT)%nat ->
  retention_dregs q do dht scale H T K V BT BK BV NT USE i_k i_v i_bh (NT - d) a b
  = retention_dH q do dht scale H T K V BT NT USE i_bh (NT - d)
                 (i_k * BK + a)%nat (i_v * BV + b)%nat.
Proof.
  unfold retention_dH. induction d as [|d IH]; intros Hd.
  - rewrite Nat.sub_0_r. unfold retention_dregs, bwd_kernel_dh_init.
    rewrite Nat.sub_diag. cbn [seq rev fold_left].
    destruct USE; [|reflexivity]. unfold badd, tl.zeros. f_equal. apply load_shift.
  - rewrite (retention_dregs_fold q do dht scale H T K V BT BK BV NT USE i_k i_v i_bh
               (NT - S d) a b) by lia.
    rewrite (retention_dregs_fold q do dht scale H T K V BT 1 1 NT USE
               (i_k * BK + a) (i_v * BV + b) i_bh (NT - S d) 0 0) by lia.
    replace (S (NT - S d)) with (NT - d)%nat by lia.
    rewrite IH by lia. f_equal.
    apply sum_ext. intros i _.
    rewrite !load_at. cbn [fst snd].
    now rewrite !Nat.mul_1_r, !Nat.add_0_r.
Qed.

Section RetentionBackwardProgram.

Variables (q do dht : data) (scale : R) (H T K V BT BK BV NT : nat) (STORE USE : bool).
Variables (i_k i_v i_bh : nat).

Let body (i_t : nat) (s : block * data) : block * data :=
  (fun '(b_dh, dh) i_t =>
     let dh := tl.store dh i_bh (i_t * K) (K, V) (i_k * BK, i_v * BV)%nat (BK, BV)
                        b_dh in
     (chunk_retention_bwd_kernel_dh_step q do scale H T K V BT BK BV
                                         i_k i_v i_bh i_t b_dh, dh))
    s i_t.

Let step := chunk_retention_bwd_kernel_dh_step q do scale H T K V BT BK BV i_k i_v i_bh.
Let dH := retention_dH q do dht scale H T K V BT NT USE.

Lemma retention_bwd_body_reg (i : nat) (s : block * data) :
  fst (body i s) = step i (fst s).
Proof. destruct s. reflexivity. Qed.

(** The memory of [dh] after the program: the cell of chunk [c] holds the
    accumulator as it stood before chunk [c] was folded in. *)
Lemma retention_dh_program (dh dh0 : data) (l r nu : nat) :
  fst (chunk_retention_bwd_kernel_dh q do dht scale H T K V BT BK BV NT STORE USE
         i_k i_v i_bh (dh, dh0)) l r nu
  = if existsb (fun i_t => stored i_bh (i_t * K) (K, V) (i_k * BK, i_v * BV)%nat
                             (BK, BV) l r nu) (rev (seq 0 NT))
    then dH l (S (r / K)) (r mod K)%nat nu
    else dh l r nu.
Proof.
  unfold chunk_retention_bwd_kernel_dh.
  set (s0 := (bwd_kernel_dh_init dht K V BK BV USE i_k i_v i_bh, dh)).
  change (fold_left _ (rev (seq 0 NT)) s0)
    with (fold_left (fun s i => body i s) (rev (seq 0 NT)) s0).
  destruct (fold_left (fun s i => body i s) (rev (seq 0 NT)) s0) as [bN hN] eqn:E.
  cbn [fst].
  change hN with (snd (bN, hN)). rewrite <- E.
  apply (fold_writes _ _ body fst step retention_bwd_body_reg (fun s => snd s l r nu)).
  intros pre i suf [b' h'] Hsplit Hreg.
  apply rev_seq_split in Hsplit as (Epre & Hi).
  unfold body. cbv beta iota zeta. cbn [fst snd] in Hreg |- *. rewrite store_spec.
  destruct (stored _ _ _ _ _ _ _ _) eqn:Hs; [|reflexivity].
  apply stored_iff in Hs. cbn [fst snd] in Hs.
  destruct Hs as (-> & Hr & HrK & Hnu & HnuV).
  assert (Hreg' : b' = retention_dregs q do dht scale H T K V BT BK BV NT USE
                                       i_k i_v i_bh (S i)).
  { rewrite Hreg, Epre. reflexivity. }
  rewrite Hreg'.
  replace (S i) with (NT - (NT - S i))%nat by lia.
  rewrite retention_dregs_tile by lia.
  destruct (tile_index K i r ltac:(lia)) as [-> ->].
  cbn [fst snd]. unfold dH. f_equal; lia.
Qed.

(** The memory of [dh0] after the program: the accumulator after the loop. *)
Lemma retention_dh0_program (dh dh0 : data) (l kk nu : nat) :
  snd (chunk_retention_bwd_kernel_dh q do dht scale H T K V BT BK BV NT STORE USE
         i_k i_v i_bh (dh, dh0)) l kk nu
  = if STORE && stored i_bh 0 (K, V) (i_k * BK, i_v * BV)%nat (BK, BV) l kk nu
    then dH l 0 kk nu
    else dh0 l kk nu.
Proof.
  unfold chunk_retention_bwd_kernel_dh.
  set (s0 := (bwd_kernel_dh_init dht K V BK BV USE i_k i_v i_bh, dh)).
  change (fold_left _ (rev (seq 0 NT)) s0)
    with (fold_left (fun s i => body i s) (rev (seq 0 NT)) s0).
  pose proof (fold_regs _ _ body fst step retention_bwd_body_reg (rev (seq 0 NT)) s0) as Hreg.
  destruct (fold_left (fun s i => body i s) (rev (seq 0 NT)) s0) as [bN hN].
  cbn [fst snd] in Hreg |- *.
  destruct STORE; [|reflexivity]. cbn [andb]. rewrite store_spec.
  destruct (stored _ _ _ _ _ _ _ _) eqn:Hs; [|reflexivity].
  apply stored_iff in Hs. cbn [fst snd] in Hs.
  destruct Hs as (-> & Hr & HrK & Hnu & HnuV).
  assert (Hreg' : bN = retention_dregs q do dht scale H T K V BT BK BV NT USE
                                       i_k i_v i_bh 0).
  { rewrite Hreg. unfold retention_dregs. now rewrite Nat.sub_0_r. }
  rewrite Hreg'.
  replace 0%nat with (NT - NT)%nat at 1 by lia.
  rewrite retention_dregs_tile by lia. rewrite Nat.sub_diag.
  cbn [fst snd]. unfold dH. f_equal; lia.
Qed.

End RetentionBackwardProgram.

Lemma existsb_rev_seq (hit : nat -> bool) (n c : nat) :
  (c < n)%nat -> hit c = true -> existsb hit (rev (seq 0 n)) = true.
Proof.
  intros Hc Hh. apply existsb_exists. exists c.
  split; [apply in_rev; rewrite rev_involutive; apply in_seq; lia | exact Hh].
Qed.

Section RetentionBackwardGrid.

Variables (q do dht : data) (scale : R) (H T K V BT BK BV NT BH : nat) (STORE USE : bool).
Hypotheses (HK : (0 < K)%nat) (HBK : (0 < BK)%nat) (HBV : (0 < BV)%nat).

Let kernel := chunk_retention_bwd_kernel_dh q do dht scale H T K V BT BK BV NT STORE USE.
Let grid := (tl.cdiv K BK, tl.cdiv V BV, BH).
Let dH := retention_dH q do dht scale H T K V BT NT USE.

Lemma retention_dh_grid (mem : data * data) (l c kk nu : nat) :
  (l < BH)%nat -> (c < NT)%nat -> (kk < K)%nat -> (nu < V)%nat ->
  fst (triton.launch grid kernel mem) l (c * K + kk)%nat nu = dH l (S c) kk nu.
Proof.
  intros Hl Hc Hkk Hnu.
  rewrite (launch_writes grid kernel (fun m => fst m l (c * K + kk)%nat nu)
             (fun '(a, b, i) =>
                existsb (fun i_t => stored i (i_t * K) (K, V) (a * BK, b * BV)%nat
                                      (BK, BV) l (c * K + kk)%nat nu) (rev (seq 0 NT)))
             (dH l (S c) kk nu)).
  - unfold grid.
    rewrite (existsb_programs _ _ _ _ (kk / BK)%nat (nu / BV)%nat l); auto.
    + now apply tile_count.
    + now apply tile_count.
    + apply (existsb_rev_seq _ NT c Hc). apply stored_iff. cbn [fst snd].
      pose proof (tile_bounds BK kk HBK). pose proof (tile_bounds BV nu HBV). lia.
  - intros a b i [h' ht'] _. unfold kernel. rewrite retention_dh_program.
    destruct (tile_index K c (c * K + kk)%nat ltac:(lia)) as [-> ->].
    replace (c * K + kk - c * K)%nat with kk by lia. reflexivity.
Qed.

Lemma retention_dh0_grid (mem : data * data) (l kk nu : nat) :
  STORE = true ->
  (l < BH)%nat -> (kk < K)%nat -> (nu < V)%nat ->
  snd (triton.launch grid kernel mem) l kk nu = dH l 0 kk nu.
Proof.
  intros HS Hl Hkk Hnu.
  rewrite (launch_writes grid kernel (fun m => snd m l kk nu)
             (fun '(a, b, i) =>
                stored i 0 (K, V) (a * BK, b * BV)%nat (BK, BV) l kk nu)
             (dH l 0 kk nu)).
  - unfold grid.
    rewrite (existsb_programs _ _ _ _ (kk / BK)%nat (nu / BV)%nat l); auto.
    + now apply tile_count.
    + now apply tile_count.
    + apply stored_iff. cbn [fst snd].
      pose proof (tile_bounds BK kk HBK). pose proof (tile_bounds BV nu HBV). lia.
  - intros a b i [h' ht'] _. unfold kernel. rewrite retention_dh0_program.
    rewrite HS. reflexivity.
Qed.

End RetentionBackwardGrid.

(** Accumulating over [i = n-1, ..., 0] in a loop-carried block. *)
Lemma fold_acc_rev (n : nat) (f : block -> nat -> block) (term : nat -> block)
      (b0 : block) (i j : nat) :
  (forall b t i j, f b t i j = b i j + term t i j) ->
  fold_left f (rev (seq 0 n)) b0 i j = b0 i j + tl.sum n (fun t => term t i j).
Proof.
  intros Hf. revert b0. induction n as [|n IH]; intros b0; cbn [tl.sum].
  - cbn. lra.
  - rewrite seq_S, rev_app_distr. cbn [rev app fold_left Nat.add].
    rewrite IH, Hf. lra.
Qed.

Section DeltaBackward.

Variables (q k d dht do dv : data) (scale : R) (T K V BT BC BK BV NT : nat) (USE : bool).
Variables (i_k i_v i_bh : nat).

Let sub := chunk_delta_rule_bwd_kernel_dhu_sub q k d do dv scale T K V BT BC BK BV
                                               i_k i_v i_bh.
Let chunk := chunk_delta_rule_bwd_kernel_dhu_chunk q k d do dv scale T K V BT BC BK BV
                                                   i_k i_v i_bh.
Let dregs := delta_dregs q k d dht do dv scale T K V BT BC BK BV NT USE i_k i_v i_bh.

(** What one sub-chunk adds to the chunk-local accumulator. *)
Let term (i_t : nat) (b_dh : block) (i_c : nat) : block :=
  bsub (tl.dot BC
          (bscale scale (tl.load (tl.cols_of q i_bh 0) (K, T)
                                 (i_k * BK, i_t * BT + i_c * BC)%nat))
          (tl.load (tl.rows_of do i_bh 0) (T, V) (i_t * BT + i_c * BC, i_v * BV)%nat))
       (tl.dot BC
          (tl.load (tl.cols_of d i_bh 0) (K, T) (i_k * BK, i_t * BT + i_c * BC)%nat)
          (badd (tl.load (tl.rows_of dv i_bh 0) (T, V)
                         (i_t * BT + i_c * BC, i_v * BV)%nat)
                (tl.dot BK
                   (tl.load (tl.rows_of k i_bh 0) (T, K)
                            (i_t * BT + i_c * BC, i_k * BK)%nat)
                   b_dh))).

Lemma delta_bwd_sub_reg (i_t : nat) (b_dh : block) (i_c : nat) (s : block * data)
      (i j : nat) :
  fst (sub i_t b_dh i_c s) i j = fst s i j + term i_t b_dh i_c i j.
Proof.
  destruct s as [tmp dv2].
  unfold sub, chunk_delta_rule_bwd_kernel_dhu_sub, term, bsub, badd. cbn [fst].
  lra.
Qed.

Lemma delta_bwd_chunk_reg (i_t : nat) (s : block * (data * data)) (i j : nat) :
  fst (chunk i_t s) i j
  = fst s i j + tl.sum (tl.cdiv BT BC) (fun i_c => term i_t (fst s) i_c i j).
Proof.
  destruct s as [b_dh [dh dv2]].
  unfold chunk, chunk_delta_rule_bwd_kernel_dhu_chunk. fold (sub i_t b_dh).
  set (F := fold_left (fun st i_c => sub i_t b_dh i_c st) (rev (seq 0 (tl.cdiv BT BC)))
                      (tl.zeros, dv2)).
  assert (E : fst F i j = tl.sum (tl.cdiv BT BC) (fun i_c => term i_t b_dh i_c i j)).
  { unfold F.
    rewrite (fold_regs _ _ (sub i_t b_dh) fst
               (fun i_c b => fst (sub i_t b_dh i_c (b, zero_data)))).
    - rewrite (fold_acc_rev _ _ (term i_t b_dh)).
      + cbn [fst]. unfold tl.zeros. lra.
      + intros b t i' j'. now rewrite delta_bwd_sub_reg.
    - intros i_c [b m]. reflexivity. }
  destruct F as [tmp dv2']. cbn [fst] in E |- *. unfold badd. now rewrite E.
Qed.

Lemma delta_dregs_S (m : nat) :
  (m < NT)%nat ->
  dregs m = fst (chunk m (dregs (S m), (zero_data, zero_data))).
Proof.
  intros Hm. unfold dregs, delta_dregs.
  rewrite (rev_seq_S m NT Hm), fold_left_app. reflexivity.
Qed.

(** Folding chunk [m] into the accumulator. *)
Lemma delta_dregs_fold (m a b : nat) :
  (m < NT)%nat ->
  dregs m a b
  = dregs (S m) a b
    + tl.sum (tl.cdiv BT BC)
        (fun i_c =>
           tl.sum BC
             (fun j =>
                scale * tl.load (tl.cols_of q i_bh 0) (K, T)
                                (i_k * BK, m * BT + i_c * BC)%nat a j
                * tl.load (tl.rows_of do i_bh 0) (T, V)
                          (m * BT + i_c * BC, i_v * BV)%nat j b
                - tl.load (tl.cols_of d i_bh 0) (K, T)
                          (i_k * BK, m * BT + i_c * BC)%nat a j
                  * (tl.load (tl.rows_of dv i_bh 0) (T, V)
                             (m * BT + i_c * BC, i_v * BV)%nat j b
                     + tl.sum BK
                         (fun kk => tl.load (tl.rows_of k i_bh 0) (T, K)
                                            (m * BT + i_c * BC, i_k * BK)%nat j kk
                                    * dregs (S m) kk b)))).
Proof.
  intros Hm. rewrite delta_dregs_S by exact Hm. rewrite delta_bwd_chunk_reg.
  cbn [fst]. f_equal. apply sum_ext. intros i_c _.
  unfold term, bsub, tl.dot, bscale, badd. rewrite <- sum_minus.
  apply sum_ext. intros j _. reflexivity.
Qed.

End DeltaBackward.

(** With a single K-tile that covers [K], the accumulator of a program
    is a block of columns of the lane's accumulator. *)
Lemma delta_dregs_tile (q k d dht do dv : data) (scale : R) (T K V BT BC BK BV NT : nat)
      (USE : bool) (i_v i_bh n : nat) :
  (K <= BK)%nat -> (n <= NT)%nat ->
  forall a b,
    delta_dregs q k d dht do dv scale T K V BT BC BK BV NT USE 0 i_v i_bh (NT - n) a b
    = delta_dH q k d dht do dv scale T K V BT BC NT USE i_bh (NT - n) a (i_v * BV + b)%nat.
Proof.
  intros HK. unfold delta_dH. induction n as [|n IH]; intros Hn a b.
  - rewrite Nat.sub_0_r. unfold delta_dregs, bwd_kernel_dh_init.
    rewrite Nat.sub_diag. cbn [seq rev fold_left].
    destruct USE; [|reflexivity]. unfold badd, tl.zeros. f_equal.
    rewrite !load_at. cbn [fst snd].
    now rewrite !Nat.mul_0_l, !Nat.mul_1_r, !Nat.add_0_r.
  - rewrite (delta_dregs_fold q k d dht do dv scale T K V BT BC BK BV NT USE 0 i_v i_bh
               (NT - S n) a b) by lia.
    rewrite (delta_dregs_fold q k d dht do dv scale T K V BT BC K 1 NT USE 0
               (i_v * BV + b) i_bh (NT - S n) a 0) by lia.
    replace (S (NT - S n)) with (NT - n)%nat by lia.
    specialize (IH ltac:(lia)). rewrite IH. f_equal.
    apply sum_ext. intros i_c _. apply sum_ext. intros j _.
    rewrite (sum_pad K BK).
    + rewrite !load_at. cbn [fst snd].
      rewrite !Nat.mul_0_l, !Nat.mul_1_r, !Nat.add_0_r. cbn [Nat.add].
      f_equal. f_equal. f_equal.
      apply sum_ext. intros kk Hkk. now rewrite IH.
    + exact HK.
    + intros kk Hkk. rewrite load_at. cbn [fst snd].
      destruct (Nat.ltb_spec (0 * BK + kk) K); [lia|].
      rewrite andb_false_r. lra.
Qed.

Section DeltaBackwardProgram.

Variables (q k d dht do dv : data) (scale : R) (T K V BT BC BK BV NT : nat).
Variables (STORE USE : bool) (i_v i_bh : nat).
Hypothesis HKBK : (K <= BK)%nat.

Let sub := chunk_delta_rule_bwd_kernel_dhu_sub q k d do dv scale T K V BT BC BK BV
                                               0 i_v i_bh.
Let chunk := chunk_delta_rule_bwd_kernel_dhu_chunk q k d do dv scale T K V BT BC BK BV
                                                   0 i_v i_bh.
Let step (i_t : nat) (b : block) : block := fst (chunk i_t (b, (zero_data, zero_data))).
Let dH := delta_dH q k d dht do dv scale T K V BT BC NT STORE.

Lemma delta_bwd_chunk_step (i : nat) (s : block * (data * data)) :
  fst (chunk i s) = step i (fst s).
Proof.
  destruct s as [b [dh dv2]]. unfold step, chunk, chunk_delta_rule_bwd_kernel_dhu_chunk.
  fold (sub i b). cbn [fst].
  pose proof (fold_regs _ _ (sub i b) fst (fun i_c t => fst (sub i b i_c (t, zero_data)))
                (fun i_c s => match s with (t, m) => eq_refl end)) as E.
  pose proof (E (rev (seq 0 (tl.cdiv BT BC))) (tl.zeros, dv2)) as E1.
  pose proof (E (rev (seq 0 (tl.cdiv BT BC))) (tl.zeros, zero_data)) as E2.
  destruct (fold_left _ _ (tl.zeros, dv2)) as [t1 m1].
  destruct (fold_left _ _ (tl.zeros, zero_data)) as [t2 m2].
  cbn [fst] in *. now rewrite E1, E2.
Qed.

Lemma delta_dh_program (dh dh0 dv2 : data) (l r nu : nat) :
  fst (fst (chunk_delta_rule_bwd_kernel_dhu q k d dht do dv scale T K V BT BC BK BV NT
              STORE USE 0 i_v i_bh (dh, dh0, dv2))) l r nu
  = if existsb (fun i_t => stored i_bh (i_t * K) (K, V) (0 * BK, i_v * BV)%nat
                             (BK, BV) l r nu) (rev (seq 0 NT))
    then dH l (S (r / K)) (r mod K)%nat nu
    else dh l r nu.
Proof.
  unfold chunk_delta_rule_bwd_kernel_dhu. fold chunk.
  set (s0 := (bwd_kernel_dh_init dht K V BK BV STORE 0 i_v i_bh, (dh, dv2))).
  destruct (fold_left (fun st i_t => chunk i_t st) (rev (seq 0 NT)) s0)
    as [bN [hN vN]] eqn:E.
  cbn [fst snd].
  change hN with (fst (snd (bN, (hN, vN)))). rewrite <- E.
  apply (fold_writes _ _ chunk fst step delta_bwd_chunk_step (fun s => fst (snd s) l r nu)).
  intros pre i suf [b' [h' v']] Hsplit Hreg.
  apply rev_seq_split in Hsplit as (Epre & Hi).
  assert (Hb : b' = delta_dregs q k d dht do dv scale T K V BT BC BK BV NT STORE
                                0 i_v i_bh (S i)).
  { cbn [fst] in Hreg. rewrite Hreg, Epre. reflexivity. }
  unfold chunk, chunk_delta_rule_bwd_kernel_dhu_chunk.
  destruct (fold_left _ (rev (seq 0 (tl.cdiv BT BC))) (tl.zeros, v')) as [tmp vn].
  cbn [fst snd]. rewrite store_spec.
  destruct (stored _ _ _ _ _ _ _ _) eqn:Hst; [|reflexivity].
  apply stored_iff in Hst. cbn [fst snd] in Hst.
  destruct Hst as (-> & Hr & HrK & Hnu & HnuV).
  rewrite Hb.
  replace (S i) with (NT - (NT - S i))%nat by lia.
  rewrite delta_dregs_tile by (exact HKBK || lia).
  destruct (tile_index K i r ltac:(lia)) as [-> ->].
  cbn [fst snd]. unfold dH. f_equal; lia.
Qed.

Lemma delta_dh0_program (dh dh0 dv2 : data) (l kk nu : nat) :
  snd (fst (chunk_delta_rule_bwd_kernel_dhu q k d dht do dv scale T K V BT BC BK BV NT
              STORE USE 0 i_v i_bh (dh, dh0, dv2))) l kk nu
  = if USE && stored i_bh 0 (K, V) (0 * BK, i_v * BV)%nat (BK, BV) l kk nu
    then dH l 0 kk nu
    else dh0 l kk nu.
Proof.
  unfold chunk_delta_rule_bwd_kernel_dhu. fold chunk.
  set (s0 := (bwd_kernel_dh_init dht K V BK BV STORE 0 i_v i_bh, (dh, dv2))).
  pose proof (fold_regs _ _ chunk fst step delta_bwd_chunk_step (rev (seq 0 NT)) s0) as Hreg.
  destruct (fold_left (fun st i_t => chunk i_t st) (rev (seq 0 NT)) s0) as [bN [hN vN]].
  cbn [fst snd] in Hreg |- *.
  destruct USE; [|reflexivity]. cbn [andb]. rewrite store_spec.
  destruct (stored _ _ _ _ _ _ _ _) eqn:Hst; [|reflexivity].
  apply stored_iff in Hst. cbn [fst snd] in Hst.
  destruct Hst as (-> & Hr & HrK & Hnu & HnuV).
  assert (Hb : bN = delta_dregs q k d dht do dv scale T K V BT BC BK BV NT STORE
                                0 i_v i_bh 0).
  { rewrite Hreg. unfold delta_dregs. now rewrite Nat.sub_0_r. }
  rewrite Hb.
  replace 0%nat with (NT - NT)%nat at 2 by lia.
  rewrite delta_dregs_tile by (exact HKBK || lia). rewrite Nat.sub_diag.
  cbn [fst snd]. unfold dH. f_equal; lia.
Qed.

End DeltaBackwardProgram.

Section DeltaBackwardGrid.

Variables (q k d dht do dv : data) (scale : R) (T K V BT BC BK BV NT BH : nat).
Variables (STORE USE : bool).
Hypotheses (HK : (0 < K)%nat) (HKBK : (K <= BK)%nat) (HBV : (0 < BV)%nat).

Let kernel := chunk_delta_rule_bwd_kernel_dhu q k d dht do dv scale T K V BT BC BK BV NT
                                              STORE USE.
Let grid := (1%nat, tl.cdiv V BV, BH).
Let dH := delta_dH q k d dht do dv scale T K V BT BC NT STORE.

Lemma delta_dh_grid (mem : data * data * data) (l c kk nu : nat) :
  (l < BH)%nat -> (c < NT)%nat -> (kk < K)%nat -> (nu < V)%nat ->
  fst (fst (triton.launch grid kernel mem)) l (c * K + kk)%nat nu = dH l (S c) kk nu.
Proof.
  intros Hl Hc Hkk Hnu.
  rewrite (launch_writes grid kernel (fun m => fst (fst m) l (c * K + kk)%nat nu)
             (fun '(a, b, i) =>
                (a =? 0)%nat &&
                existsb (fun i_t => stored i (i_t * K) (K, V) (0 * BK, b * BV)%nat
                                      (BK, BV) l (c * K + kk)%nat nu) (rev (seq 0 NT)))
             (dH l (S c) kk nu)).
  - unfold grid.
    rewrite (existsb_programs _ _ _ _ 0%nat (nu / BV)%nat l); auto.
    + now apply tile_count.
    + cbn [Nat.eqb andb].
      apply (existsb_rev_seq _ NT c Hc). apply stored_iff. cbn [fst snd].
      pose proof (tile_bounds BV nu HBV). lia.
  - intros a b i [[dh' dh0'] dv2'] Hin. apply in_programs in Hin.
    assert (a = 0%nat) as -> by lia. cbn [Nat.eqb andb].
    unfold kernel. rewrite delta_dh_program by exact HKBK.
    destruct (tile_index K c (c * K + kk)%nat ltac:(lia)) as [-> ->].
    replace (c * K + kk - c * K)%nat with kk by lia. reflexivity.
Qed.

Lemma delta_dh0_grid (mem : data * data * data) (l kk nu : nat) :
  USE = true ->
  (l < BH)%nat -> (kk < K)%nat -> (nu < V)%nat ->
  snd (fst (triton.launch grid kernel mem)) l kk nu = dH l 0 kk nu.
Proof.
  intros HS Hl Hkk Hnu.
  rewrite (launch_writes grid kernel (fun m => snd (fst m) l kk nu)
             (fun '(a, b, i) =>
                (a =? 0)%nat &&
                stored i 0 (K, V) (0 * BK, b * BV)%nat (BK, BV) l kk nu)
             (dH l 0 kk nu)).
  - unfold grid.
    rewrite (existsb_programs _ _ _ _ 0%nat (nu / BV)%nat l); auto.
    + now apply tile_count.
    + cbn [Nat.eqb andb]. apply stored_iff. cbn [fst snd].
      pose proof (tile_bounds BV nu HBV). lia.
  - intros a b i [[dh' dh0'] dv2'] Hin. apply in_programs in Hin.
    assert (a = 0%nat) as -> by lia. cbn [Nat.eqb andb].
    unfold kernel. rewrite delta_dh0_program by exact HKBK.
    rewrite HS. reflexivity.
Qed.

End DeltaBackwardGrid.

Lemma retention_dH_NT (q do dht : data) (scale : R) (H T K V BT NT : nat) (USE : bool)
      (l kk nu : nat) :
  (kk < K)%nat -> (nu < V)%nat ->
  retention_dH q do dht scale H T K V BT NT USE l NT kk nu
  = if USE then dht l kk nu else 0.
Proof.
  intros Hkk Hnu. unfold retention_dH, retention_dregs, bwd_kernel_dh_init.
  rewrite Nat.sub_diag. cbn [seq rev fold_left].
  destruct USE; [|reflexivity]. unfold badd, tl.zeros.
  rewrite load_at. cbn [fst snd].
  rewrite ?Nat.mul_1_r, ?Nat.add_0_r, ?Nat.mul_0_l, ?Nat.add_0_l.
  destruct (Nat.ltb_spec kk K); [|lia]. destruct (Nat.ltb_spec nu V); [|lia].
  cbn [andb]. unfold tl.rows_of. cbn [Nat.add]. lra.
Qed.

Lemma retention_dH_fold (q do dht : data) (scale : R) (H T K V BT : nat) (USE : bool)
      (l c kk nu : nat) :
  (0 < BT)%nat -> (c < tl.cdiv T BT)%nat -> (kk < K)%nat -> (nu < V)%nat ->
  let L := Nat.min BT (T - c * BT) in
  let dH := retention_dH q do dht scale H T K V BT (tl.cdiv T BT) USE l in
  dH c kk nu
  = rate (l mod H) ^ L * dH (S c) kk nu
    + tl.sum L (fun i => scale * q l (c * BT + i)%nat kk
                         * (do l (c * BT + i)%nat nu * rate (l mod H) ^ (i + 1))).
Proof.
  intros HBT Hc Hkk Hnu L dH. unfold dH, retention_dH.
  rewrite retention_dregs_fold by exact Hc.
  pose proof (cdiv_chunk_lt T BT c HBT Hc) as HcT.
  rewrite powerRZ_min_chunk by exact HcT. fold L. f_equal.
  rewrite (sum_pad L BT).
  - apply sum_ext. intros i Hi. rewrite !load_at. cbn [fst snd].
    rewrite !Nat.mul_1_r, !Nat.add_0_r.
    destruct (Nat.ltb_spec kk K); [|lia]. destruct (Nat.ltb_spec nu V); [|lia].
    destruct (Nat.ltb_spec (c * BT + i) T); [|lia].
    cbn [andb]. unfold tl.cols_of, tl.rows_of. cbn [Nat.add]. reflexivity.
  - unfold L. lia.
  - intros i Hi. rewrite !load_at. cbn [fst snd].
    destruct (Nat.ltb_spec (c * BT + i) T); [lia|].
    rewrite andb_false_r. cbn [andb]. lra.
Qed.

Lemma delta_dH_NT (q k d dht do dv : data) (scale : R) (T K V BT BC NT : nat) (USE : bool)
      (l kk nu : nat) :
  (kk < K)%nat -> (nu < V)%nat ->
  delta_dH q k d dht do dv scale T K V BT BC NT USE l NT kk nu
  = if USE then dht l kk nu else 0.
Proof.
  intros Hkk Hnu. unfold delta_dH, delta_dregs, bwd_kernel_dh_init.
  rewrite Nat.sub_diag. cbn [seq rev fold_left].
  destruct USE; [|reflexivity]. unfold badd, tl.zeros.
  rewrite load_at. cbn [fst snd].
  rewrite ?Nat.mul_1_r, ?Nat.add_0_r, ?Nat.mul_0_l, ?Nat.add_0_l.
  destruct (Nat.ltb_spec kk K); [|lia]. destruct (Nat.ltb_spec nu V); [|lia].
  cbn [andb]. unfold tl.rows_of. cbn [Nat.add]. lra.
Qed.

Lemma delta_dH_fold (q k d dht do dv : data) (scale : R) (T K V BT BC : nat) (USE : bool)
      (l c kk nu : nat) :
  (0 < BT)%nat -> (tl.cdiv BT BC * BC = BT)%nat ->
  (c < tl.cdiv T BT)%nat -> (kk < K)%nat -> (nu < V)%nat ->
  let dH := delta_dH q k d dht do dv scale T K V BT BC (tl.cdiv T BT) USE l in
  dH c kk nu
  = dH (S c) kk nu
    + tl.sum (Nat.min BT (T - c * BT))
        (fun x => scale * q l (c * BT + x)%nat kk * do l (c * BT + x)%nat nu
                  - d l (c * BT + x)%nat kk
                    * (dv l (c * BT + x)%nat nu
                       + tl.sum K (fun j => k l (c * BT + x)%nat j * dH (S c) j nu))).
Proof.
  intros HBT Hdiv Hc Hkk Hnu dH. unfold dH at 1, delta_dH at 1.
  rewrite delta_dregs_fold by exact Hc.
  fold (delta_dH q k d dht do dv scale T K V BT BC (tl.cdiv T BT) USE l (S c) kk nu).
  fold dH. f_equal.
  pose proof (cdiv_chunk_lt T BT c HBT Hc) as HcT.
  set (F := fun x =>
              scale * tl.load (tl.cols_of q l 0) (K, T) (0, c * BT)%nat kk x
              * tl.load (tl.rows_of do l 0) (T, V) (c * BT, nu)%nat x 0%nat
              - tl.load (tl.cols_of d l 0) (K, T) (0, c * BT)%nat kk x
                * (tl.load (tl.rows_of dv l 0) (T, V) (c * BT, nu)%nat x 0%nat
                   + tl.sum K (fun j => tl.load (tl.rows_of k l 0) (T, K)
                                                (c * BT, 0)%nat x j
                                        * dH (S c) j nu))).
  transitivity (tl.sum (tl.cdiv BT BC) (fun i_c => tl.sum BC (fun j => F (i_c * BC + j)%nat))).
  - apply sum_ext. intros i_c _. apply sum_ext. intros j _. unfold F.
    rewrite !load_at. cbn [fst snd].
    rewrite !Nat.mul_0_l, !Nat.mul_1_r, !Nat.add_0_r, !Nat.add_assoc.
    f_equal. f_equal. f_equal. apply sum_ext. intros j' _.
    rewrite !load_at. cbn [fst snd]. now rewrite !Nat.add_assoc.
  - rewrite sum_tiles, Hdiv. rewrite (sum_pad (Nat.min BT (T - c * BT)) BT).
    + apply sum_ext. intros x Hx. unfold F. rewrite !load_at. cbn [fst snd].
      rewrite !Nat.add_0_r. cbn [Nat.add].
      destruct (Nat.ltb_spec kk K); [|lia]. destruct (Nat.ltb_spec nu V); [|lia].
      destruct (Nat.ltb_spec (c * BT + x) T); [|lia].
      cbn [andb]. unfold tl.cols_of, tl.rows_of. cbn [Nat.add].
      f_equal. f_equal. f_equal. apply sum_ext. intros j Hj.
      rewrite load_at. cbn [fst snd]. cbn [Nat.add].
      destruct (Nat.ltb_spec (c * BT + x) T); [|lia].
      destruct (Nat.ltb_spec j K); [|lia]. reflexivity.
    + lia.
    + intros x Hx. unfold F. rewrite !load_at. cbn [fst snd].
      destruct (Nat.ltb_spec (c * BT + x) T); [lia|].
      rewrite !andb_false_r. lra.
Qed.

Lemma bwd_dhu_tiles_pos (capability : nat * nat) (K : nat) :
  (0 < fst (bwd_dhu_tiles capability K) /\ 0 < snd (bwd_dhu_tiles capability K))%nat.
Proof.
  unfold bwd_dhu_tiles.
  destruct (9 <=? fst capability)%nat; [cbn; lia|].
  destruct ((fst capability =? 8)%nat && (snd capability =? 0)%nat);
    destruct (K <=? 128)%nat; cbn; lia.
Qed.

Lemma bwd_dhu_tiles_64 (capability : nat * nat) (K : nat) :
  let BC := Nat.min 64 (snd (bwd_dhu_tiles capability K)) in
  (tl.cdiv 64 BC * BC = 64)%nat.
Proof.
  unfold bwd_dhu_tiles.
  destruct (9 <=? fst capability)%nat; [reflexivity|].
  destruct ((fst capability =? 8)%nat && (snd capability =? 0)%nat);
    destruct (K <=? 128)%nat; reflexivity.
Qed.

Lemma state0_init (s : option tensor) (l kk nu : nat) :
  (if is_some s then data_of s l kk nu else 0) = state0 s l kk nu.
Proof. destruct s; reflexivity. Qed.

(** The retention backward state engine: what it dispatches and what
    each cell of its results holds. *)
Lemma chunk_bwd_dh_fn_spec (uninit : data) (q k v : tensor) (h0 : option tensor)
      (do : tensor) (dht : option tensor) (BT : nat) (scale : R)
      (B H T K V : nat) (sv : list nat) (w : list work) :
  t_shape k = [B; H; T; K] -> t_shape v = sv ++ [V] ->
  (0 < K)%nat -> (0 < V)%nat ->
  let NT := tl.cdiv T 64 in
  let dH := retention_dH (t_data q) (t_data do) (data_of dht) scale H T K V 64 NT
                         (is_some dht) in
  exists dh g,
    chunk_bwd_dh_fn uninit q k v h0 do dht BT scale w
    = (inl (dh, g),
       w ++ [Kernel "chunk_retention_bwd_kernel_dh"
                    (tl.cdiv K (Nat.min (triton.next_power_of_2 K) 64),
                     tl.cdiv V (Nat.min (triton.next_power_of_2 V) 64), B * H)%nat]) /\
    t_dtype dh = t_dtype k /\
    (forall l c kk nu, (l < B * H)%nat -> (c < NT)%nat -> (kk < K)%nat -> (nu < V)%nat ->
                       t_data dh l (c * K + kk)%nat nu = dH l (S c) kk nu) /\
    match h0 with
    | None => g = None
    | Some x =>
        exists g0, g = Some g0 /\ t_dtype g0 = float32 /\ t_shape g0 = t_shape x /\
                   forall l kk nu, (l < B * H)%nat -> (kk < K)%nat -> (nu < V)%nat ->
                                   t_data g0 l kk nu = dH l 0%nat kk nu
    end.
Proof.
  intros Hk Hv HK HV NT dH.
  pose proof (min_npow2_pos K HK) as HBK.
  pose proof (min_npow2_pos V HV) as HBV.
  unfold chunk_bwd_dh_fn, bind.
  rewrite (dims_ok k v B H T K V sv Hk Hv).
  rewrite !cdiv_ok by (assumption || lia). unfold dispatch, ret. cbv zeta.
  eexists. eexists. split; [reflexivity|].
  split; [reflexivity|]. split.
  - intros l c kk nu Hl Hc Hkk Hnu. cbn [t_data with_data fst snd].
    now apply retention_dh_grid.
  - destruct h0 as [x|]; [|reflexivity].
    eexists. split; [reflexivity|]. split; [reflexivity|]. split; [reflexivity|].
    intros l kk nu Hl Hkk Hnu. cbn [t_data with_data fst snd option_map].
    now apply retention_dh0_grid.
Qed.

(** The delta-rule backward state engine. *)
Lemma chunk_delta_rule_bwd_dhu_fn_spec (uninit : data) (capability : nat * nat)
      (q k w : tensor) (dht dh0 : option tensor) (do dv : tensor) (BT : nat) (scale : R)
      (B H T K V : nat) (sv : list nat) (wk : list work) :
  t_shape q = [B; H; T; K] -> t_shape do = sv ++ [V] ->
  (0 < K <= 256)%nat -> (0 < V)%nat -> (0 < BT)%nat ->
  let BC := Nat.min BT (snd (bwd_dhu_tiles capability K)) in
  let NT := tl.cdiv T BT in
  let dH := delta_dH (t_data q) (t_data k) (t_data w) (data_of dht) (t_data do) (t_data dv)
                     scale T K V BT BC NT (is_some dht) in
  exists dh g dv2,
    chunk_delta_rule_bwd_dhu_fn uninit capability q k w dht dh0 do dv BT scale wk
    = (inl (dh, g, dv2),
       wk ++ [Kernel "chunk_delta_rule_bwd_kernel_dhu"
                     (1, tl.cdiv V (fst (bwd_dhu_tiles capability K)), B * H)%nat]) /\
    t_dtype dh = t_dtype q /\
    (forall l c kk nu, (l < B * H)%nat -> (c < NT)%nat -> (kk < K)%nat -> (nu < V)%nat ->
                       t_data dh l (c * K + kk)%nat nu = dH l (S c) kk nu) /\
    match dh0 with
    | None => g = None
    | Some x =>
        exists g0, g = Some g0 /\ t_dtype g0 = t_dtype x /\ t_shape g0 = t_shape x /\
                   forall l kk nu, (l < B * H)%nat -> (kk < K)%nat -> (nu < V)%nat ->
                                   t_data g0 l kk nu = dH l 0%nat kk nu
    end.
Proof.
  intros Hq Hdo HK HV HBT BC NT dH.
  destruct (bwd_dhu_tiles_pos capability K) as [HBV HBC0].
  pose proof (next_power_of_2_ge K) as HBK.
  pose proof (proj2 (next_power_of_2_le_256 K) (proj2 HK)) as HBK256.
  unfold chunk_delta_rule_bwd_dhu_fn, bind.
  rewrite (dims_ok q do B H T K V sv Hq Hdo).
  unfold assert at 1. destruct (Nat.leb_spec (triton.next_power_of_2 K) 256); [|lia].
  unfold ret at 1.
  unfold dH, BC. clear dH BC.
  destruct (bwd_dhu_tiles capability K) as [BV BC'] eqn:Etiles. cbn [fst snd] in *.
  rewrite !cdiv_ok by lia.
  rewrite (cdiv_single_tile K (triton.next_power_of_2 K)) by lia.
  cbn [Nat.eqb assert]. unfold ret at 1. unfold dispatch, ret. cbv zeta.
  eexists. eexists. eexists. split; [reflexivity|].
  split; [reflexivity|]. split.
  - intros l c kk nu Hl Hc Hkk Hnu. cbn [t_data with_data fst snd].
    apply delta_dh_grid; auto; lia.
  - destruct dh0 as [x|]; [|reflexivity].
    eexists. split; [reflexivity|]. split; [reflexivity|]. split; [reflexivity|].
    intros l kk nu Hl Hkk Hnu. cbn [t_data with_data fst snd option_map].
    apply delta_dh0_grid; auto; lia.
Qed.

(** ** The reverse recurrence of the backward state engines *)

(** C5.  Backward reverse recurrence.  For either variant the backward
    state engine ([chunk_bwd_dh_fn] for retention,
    [chunk_delta_rule_bwd_dhu_fn] for the delta rule) runs a gradient
    accumulator [dacc] backwards over the chunks: it starts, at index
    [NT], from the final-state gradient [dht], or from zero when the
    caller supplies none; the block stored as [dh] for chunk [c] is the
    accumulator as it stands before chunk [c] is folded in, that is
    [dacc (c + 1)]; folding chunk [c] in gives [dacc c] (for retention
    the accumulator is decayed over the chunk and the chunk's
    [scale * q^T (do * decay)] is added, for the delta rule the chunk's
    [scale * q^T do - w^T (dv + k dacc)] is added to the undecayed
    accumulator); and when an initial-state gradient is requested the
    engine returns [dacc 0], the accumulator after the loop, and returns
    none otherwise. *)
Theorem backward_recurrence (uninit : data) (capability : nat * nat)
    (q k v w do dv : tensor) (h0 dht dh0 : option tensor) (BT : nat) (scale : R)
    (B H T K V : nat) (wk : list work) :
  t_shape q = [B; H; T; K] -> t_shape k = [B; H; T; K] ->
  t_shape v = [B; H; T; V] -> t_shape do = [B; H; T; V] ->
  (0 < K)%nat -> (0 < V)%nat ->
  (exists (dh : tensor) (g : option tensor) (dacc : nat -> data),
     let NT := tl.cdiv T 64 in
     chunk_bwd_dh_fn uninit q k v h0 do dht BT scale wk
     = (inl (dh, g),
        wk ++ [Kernel "chunk_retention_bwd_kernel_dh"
                      (tl.cdiv K (Nat.min (triton.next_power_of_2 K) 64),
                       tl.cdiv V (Nat.min (triton.next_power_of_2 V) 64), B * H)%nat]) /\
     (forall l kk nu, (l < B * H)%nat -> (kk < K)%nat -> (nu < V)%nat ->
        dacc NT l kk nu = state0 dht l kk nu /\
        forall c, (c < NT)%nat ->
          t_data dh l (c * K + kk)%nat nu = dacc (S c) l kk nu /\
          let L := Nat.min 64 (T - c * 64) in
          dacc c l kk nu
          = rate (l mod H) ^ L * dacc (S c) l kk nu
            + tl.sum L (fun i =>
                scale * t_data q l (c * 64 + i)%nat kk
                * (t_data do l (c * 64 + i)%nat nu * rate (l mod H) ^ (i + 1)))) /\
     match h0 with
     | None => g = None
     | Some _ =>
         exists g0, g = Some g0 /\
           forall l kk nu, (l < B * H)%nat -> (kk < K)%nat -> (nu < V)%nat ->
                           t_data g0 l kk nu = dacc 0%nat l kk nu
     end)
  /\
  ((K <= 256)%nat -> (0 < BT)%nat ->
   (let BC := Nat.min BT (snd (bwd_dhu_tiles capability K)) in
    tl.cdiv BT BC * BC = BT)%nat ->
   exists (dh : tensor) (g : option tensor) (dv2 : tensor) (dacc : nat -> data),
     let NT := tl.cdiv T BT in
     chunk_delta_rule_bwd_dhu_fn uninit capability q k w dht dh0 do dv BT scale wk
     = (inl (dh, g, dv2),
        wk ++ [Kernel "chunk_delta_rule_bwd_kernel_dhu"
                      (1, tl.cdiv V (fst (bwd_dhu_tiles capability K)), B * H)%nat]) /\
     (forall l kk nu, (l < B * H)%nat -> (kk < K)%nat -> (nu < V)%nat ->
        dacc NT l kk nu = state0 dht l kk nu /\
        forall c, (c < NT)%nat ->
          t_data dh l (c * K + kk)%nat nu = dacc (S c) l kk nu /\
          dacc c l kk nu
          = dacc (S c) l kk nu
            + tl.sum (Nat.min BT (T - c * BT)) (fun i =>
                let t := (c * BT + i)%nat in
                scale * t_data q l t kk * t_data do l t nu
                - t_data w l t kk
                  * (t_data dv l t nu
                     + tl.sum K (fun j => t_data k l t j * dacc (S c) l j nu)))) /\
     match dh0 with
     | None => g = None
     | Some _ =>
         exists g0, g = Some g0 /\
           forall l kk nu, (l < B * H)%nat -> (kk < K)%nat -> (nu < V)%nat ->
                           t_data g0 l kk nu = dacc 0%nat l kk nu
     end).
Proof.
  intros Hq Hk Hv Hdo HK HV. split.
  - destruct (chunk_bwd_dh_fn_spec uninit q k v h0 do dht BT scale B H T K V [B; H; T] wk
                Hk Hv HK HV) as (dh & g & E & _ & Hdh & Hg).
    exists dh, g,
      (fun c l => retention_dH (t_data q) (t_data do) (data_of dht) scale H T K V 64
                               (tl.cdiv T 64) (is_some dht) l c).
    cbv zeta. split; [exact E|]. split.
    + intros l kk nu Hl Hkk Hnu. split.
      * rewrite retention_dH_NT by assumption. apply state0_init.
      * intros c Hc. split; [now apply Hdh|].
        apply (retention_dH_fold (t_data q) (t_data do) (data_of dht) scale H T K V 64
                                 (is_some dht) l c kk nu); [lia|assumption..].
    + destruct h0 as [x|]; [|exact Hg].
      destruct Hg as (g0 & -> & _ & _ & Hg0). exists g0. split; [reflexivity|exact Hg0].
  - intros HK256 HBT Hdiv. cbv zeta in Hdiv.
    destruct (chunk_delta_rule_bwd_dhu_fn_spec uninit capability q k w dht dh0 do dv BT
                scale B H T K V [B; H; T] wk Hq Hdo (conj HK HK256) HV HBT)
      as (dh & g & dv2 & E & _ & Hdh & Hg).
    exists dh, g, dv2,
      (fun c l => delta_dH (t_data q) (t_data k) (t_data w) (data_of dht) (t_data do)
                           (t_data dv) scale T K V BT
                           (Nat.min BT (snd (bwd_dhu_tiles capability K)))
                           (tl.cdiv T BT) (is_some dht) l c).
    cbv zeta. split; [exact E|]. split.
    + intros l kk nu Hl Hkk Hnu. split.
      * rewrite delta_dH_NT by assumption. apply state0_init.
      * intros c Hc. split; [now apply Hdh|].
        apply (delta_dH_fold (t_data q) (t_data k) (t_data w) (data_of dht) (t_data do)
                             (t_data dv) scale T K V BT _ (is_some dht) l c kk nu);
          assumption.
    + destruct dh0 as [x|]; [|exact Hg].
      destruct Hg as (g0 & -> & _ & _ & Hg0). exists g0. split; [reflexivity|exact Hg0].
Qed.

Lemma backward_recurrence_witness :
  let x := full bfloat16 [1; 1; 1; 1]%nat 1 in
  let y := full bfloat16 [1; 1; 1; 1]%nat 3 in
  (exists dh g0 wo,
     run (chunk_bwd_dh_fn zero_data x x x (Some x) x None 64 1) = (inl (dh, Some g0), wo) /\
     t_data dh 0%nat 0%nat 0%nat = 0 /\ t_data g0 0%nat 0%nat 0%nat = rate 0) /\
  (exists dh g0 dv2 wo,
     run (chunk_delta_rule_bwd_dhu_fn zero_data (8, 0)%nat x x x None (Some x) x y 64 1)
     = (inl (dh, Some g0, dv2), wo) /\
     t_data dh 0%nat 0%nat 0%nat = 0 /\ t_data g0 0%nat 0%nat 0%nat = -2).
Proof.
  intros x y.
  destruct (backward_recurrence zero_data (8, 0)%nat x x x x x y (Some x) None (Some x)
              64 1 1 1 1 1 1 [] eq_refl eq_refl eq_refl eq_refl Nat.lt_0_1 Nat.lt_0_1)
    as [Hr Hd].
  split.
  - destruct Hr as (dh & g & dacc & E & Hc & g0 & -> & Hg0).
    exists dh, g0. eexists. split; [exact E|].
    destruct (Hc 0%nat 0%nat 0%nat Nat.lt_0_1 Nat.lt_0_1 Nat.lt_0_1) as [Hinit Hstep].
    destruct (Hstep 0%nat Nat.lt_0_1) as [Hdh Hfold].
    change (tl.cdiv 1 64) with 1%nat in Hinit.
    cbn in Hinit, Hdh, Hfold. split.
    + rewrite Hdh. exact Hinit.
    + rewrite Hg0 by apply Nat.lt_0_1. rewrite Hfold, Hinit. cbn. lra.
  - destruct Hd as (dh & g & dv2 & dacc & E & Hc & g0 & -> & Hg0).
    + apply Nat.leb_le. reflexivity.
    + apply Nat.ltb_lt. reflexivity.
    + reflexivity.
    + exists dh, g0, dv2. eexists. split; [exact E|].
      destruct (Hc 0%nat 0%nat 0%nat Nat.lt_0_1 Nat.lt_0_1 Nat.lt_0_1) as [Hinit Hstep].
      destruct (Hstep 0%nat Nat.lt_0_1) as [Hdh Hfold].
      change (tl.cdiv 1 64) with 1%nat in Hinit.
      cbn in Hinit, Hdh, Hfold. split.
      * rewrite Hdh. exact Hinit.
      * rewrite Hg0 by apply Nat.lt_0_1. rewrite Hfold, Hinit. lra.
Defined.

(** ** Checkpointing in the delta rule *)

Lemma log_free_ret {A} (a : A) : log_free (ret a).
Proof. intros w. unfold ret. cbn. now rewrite app_nil_r. Qed.

Lemma log_free_raise {A} (e : exn) : log_free (@raise A e).
Proof. intros w. unfold raise. cbn. now rewrite app_nil_r. Qed.

Lemma log_free_dispatch (x : work) : log_free (dispatch x).
Proof. intros w. reflexivity. Qed.

Lemma log_free_assert (b : bool) (msg : string) : log_free (assert b msg).
Proof. destruct b; [apply log_free_ret | apply log_free_raise]. Qed.

Lemma log_free_cdiv (x y : nat) : log_free (triton.cdiv x y).
Proof.
  unfold triton.cdiv. destruct (y =? 0)%nat; [apply log_free_raise | apply log_free_ret].
Qed.

Lemma log_free_dims (k v : tensor) : log_free (dims k v).
Proof.
  unfold dims.
  destruct (t_shape k) as [|B [|H [|T [|K [|]]]]]; try apply log_free_raise.
  destruct (rev (t_shape v)); [apply log_free_raise | apply log_free_ret].
Qed.

Lemma log_free_bind {A B} (m : host A) (f : A -> host B) :
  log_free m -> (forall a, log_free (f a)) -> log_free (bind m f).
Proof.
  intros Hm Hf w. unfold bind. rewrite (Hm w).
  destruct (m []) as [[a|e] s]; cbn [fst snd].
  - rewrite (Hf a (w ++ s)), (Hf a s). cbn [fst snd]. now rewrite app_assoc.
  - reflexivity.
Qed.

Lemma bind_inl {A B} (m : host A) (f : A -> host B) (w w' : list work) (a : A) :
  m w = (inl a, w') -> bind m f w = f a w'.
Proof. intros E. unfold bind. now rewrite E. Qed.

(** Where a log-free computation ends when started from any log. *)
Lemma log_free_run {A} (m : host A) (w : list work) (r : (A + exn)) (s : list work) :
  log_free m -> run m = (r, s) -> m w = (r, w ++ s).
Proof. intros Hm E. unfold run in E. rewrite (Hm w), E. reflexivity. Qed.

Ltac solve_log_free :=
  repeat first
    [ apply log_free_ret | apply log_free_raise | apply log_free_dispatch
    | apply log_free_assert | apply log_free_cdiv | apply log_free_dims
    | apply log_free_bind; [|intros ?]
    | match goal with
      | |- log_free (match ?x with _ => _ end) => destruct x
      end ].

Lemma log_free_prepare_dv (uninit : data) (q k do : tensor) (BT : nat) (scale : R) :
  log_free (chunk_delta_rule_fwd_prepare_dv uninit q k do BT scale).
Proof. unfold chunk_delta_rule_fwd_prepare_dv. cbv zeta. solve_log_free. Qed.

Lemma log_free_fwd_h_fn (uninit : data) (capability : nat * nat) (k w u : tensor)
      (BT : nat) (s fs : option tensor) :
  log_free (chunk_delta_rule_fwd_h_fn uninit capability k w u BT s fs).
Proof. unfold chunk_delta_rule_fwd_h_fn. cbv zeta. solve_log_free. Qed.

Lemma log_free_bwd_dhu_fn (uninit : data) (capability : nat * nat) (q k w : tensor)
      (dht dh0 : option tensor) (do dv : tensor) (BT : nat) (scale : R) :
  log_free (chunk_delta_rule_bwd_dhu_fn uninit capability q k w dht dh0 do dv BT scale).
Proof. unfold chunk_delta_rule_bwd_dhu_fn. cbv zeta. solve_log_free. Qed.

Lemma log_free_bwd_dqkw_fn (uninit : data) (q k v_new w h du do dh : tensor)
      (BT : nat) (scale : R) :
  log_free (chunk_delta_rule_bwd_dqkw_fn uninit q k v_new w h du do dh BT scale).
Proof. unfold chunk_delta_rule_bwd_dqkw_fn. cbv zeta. solve_log_free. Qed.

(** The state snapshots and corrected values a program of the state
    kernel writes do not depend on whether it stores the final state. *)
Lemma delta_h_kernel_final_state (k v d h0 : data) (T K V BT BC BK BV NT : nat)
      (USE STORE STORE' : bool) (i_k i_v i_bh : nat) (m m' : data * data * data) :
  fst m = fst m' ->
  fst (chunk_delta_rule_fwd_kernel_h k v d h0 T K V BT BC BK BV NT USE STORE
         i_k i_v i_bh m)
  = fst (chunk_delta_rule_fwd_kernel_h k v d h0 T K V BT BC BK BV NT USE STORE'
           i_k i_v i_bh m').
Proof.
  destruct m as [[v_new h] ht], m' as [[v_new' h'] ht']. cbn [fst].
  intros E. injection E as -> ->.
  unfold chunk_delta_rule_fwd_kernel_h.
  destruct (fold_left _ _ _) as [b_h [h v_new]]. reflexivity.
Qed.

Lemma launch_fst {A B} (grid : nat * nat * nat)
      (f g : nat -> nat -> nat -> A * B -> A * B) (m m' : A * B) :
  (forall a b c x y, fst x = fst y -> fst (f a b c x) = fst (g a b c y)) ->
  fst m = fst m' ->
  fst (triton.launch grid f m) = fst (triton.launch grid g m').
Proof.
  intros Hfg. unfold triton.launch. revert m m'.
  induction (triton.programs grid) as [|[[a b] c] ps IH]; intros m m' E.
  - exact E.
  - cbn [fold_left]. apply IH. now apply Hfg.
Qed.

(** Recomputing the state snapshots and corrected values without
    asking for the final state gives the tensors of the forward pass. *)
Lemma chunk_delta_rule_fwd_h_fn_recompute (uninit : data) (capability : nat * nat)
      (k w u : tensor) (BT : nat) (s fs : option tensor)
      (B H T K V : nat) (sv : list nat) :
  t_shape k = [B; H; T; K] -> t_shape u = sv ++ [V] ->
  (0 < K <= 256)%nat -> (0 < BT)%nat ->
  exists h v_new,
    (exists ht,
       forall wk,
         chunk_delta_rule_fwd_h_fn uninit capability k w u BT s fs wk
         = (inl (h, v_new, ht),
            wk ++ [Kernel "chunk_delta_rule_fwd_kernel_h"
                          (1, tl.cdiv V (fst (fwd_h_tiles capability K)), B * H)%nat])) /\
    (forall wk,
       chunk_delta_rule_fwd_h_fn uninit capability k w u BT s None wk
       = (inl (h, v_new, None),
          wk ++ [Kernel "chunk_delta_rule_fwd_kernel_h"
                        (1, tl.cdiv V (fst (fwd_h_tiles capability K)), B * H)%nat])) /\
    t_shape v_new = t_shape u.
Proof.
  intros Hk Hu HK HBT.
  destruct (fwd_h_tiles_pos capability K) as [HBV HBC0].
  pose proof (next_power_of_2_ge K) as HBK.
  pose proof (proj2 (next_power_of_2_le_256 K) (proj2 HK)) as HBK256.
  assert (E : forall fs' wk,
             chunk_delta_rule_fwd_h_fn uninit capability k w u BT s fs' wk
             = (let BV := fst (fwd_h_tiles capability K) in
                let BC := Nat.min BT (snd (fwd_h_tiles capability K)) in
                let mem :=
                  triton.launch (1%nat, tl.cdiv V BV, (B * H)%nat)
                    (chunk_delta_rule_fwd_kernel_h (t_data k) (t_data u) (t_data w)
                       (data_of s) T K V BT BC (triton.next_power_of_2 K) BV
                       (tl.cdiv T BT) (is_some s) (is_some fs'))
                    (t_data (empty_like uninit u),
                     t_data (new_empty uninit [B; H; (tl.cdiv T BT * K)%nat; V] (t_dtype k)),
                     data_of fs') in
                (inl (with_data (new_empty uninit [B; H; (tl.cdiv T BT * K)%nat; V]
                                           (t_dtype k)) (snd (fst mem)),
                      with_data (empty_like uninit u) (fst (fst mem)),
                      option_map (fun x => with_data x (snd mem)) fs'),
                 wk ++ [Kernel "chunk_delta_rule_fwd_kernel_h"
                               (1, tl.cdiv V BV, B * H)%nat]))).
  { intros fs' wk. unfold chunk_delta_rule_fwd_h_fn, bind.
    rewrite (dims_ok k u B H T K V sv Hk Hu).
    unfold assert at 1. destruct (Nat.leb_spec (triton.next_power_of_2 K) 256); [|lia].
    unfold ret at 1.
    destruct (fwd_h_tiles capability K) as [BV BC'] eqn:Etiles. cbn [fst snd] in *.
    rewrite !cdiv_ok by lia.
    rewrite (cdiv_single_tile K (triton.next_power_of_2 K)) by lia.
    cbn [Nat.eqb assert]. unfold ret at 1. unfold dispatch, ret. reflexivity. }
  cbv zeta in E.
  eexists. eexists. split; [|split].
  - eexists. intros wk. rewrite E. reflexivity.
  - intros wk. rewrite E. cbn [option_map].
    assert (F : forall fs', 
               fst (triton.launch (1%nat, tl.cdiv V (fst (fwd_h_tiles capability K)),
                                   (B * H)%nat)
                      (chunk_delta_rule_fwd_kernel_h (t_data k) (t_data u) (t_data w)
                         (data_of s) T K V BT
                         (Nat.min BT (snd (fwd_h_tiles capability K)))
                         (triton.next_power_of_2 K) (fst (fwd_h_tiles capability K))
                         (tl.cdiv T BT) (is_some s) (is_some (@None tensor)))
                      (t_data (empty_like uninit u),
                       t_data (new_empty uninit [B; H; (tl.cdiv T BT * K)%nat; V]
                                         (t_dtype k)),
                       data_of None))
               = fst (triton.launch (1%nat, tl.cdiv V (fst (fwd_h_tiles capability K)),
                                     (B * H)%nat)
                        (chunk_delta_rule_fwd_kernel_h (t_data k) (t_data u) (t_data w)
                           (data_of s) T K V BT
                           (Nat.min BT (snd (fwd_h_tiles capability K)))
                           (triton.next_power_of_2 K) (fst (fwd_h_tiles capability K))
                           (tl.cdiv T BT) (is_some s) (is_some fs'))
                        (t_data (empty_like uninit u),
                         t_data (new_empty uninit [B; H; (tl.cdiv T BT * K)%nat; V]
                                           (t_dtype k)),
                         data_of fs'))).
    { intros fs'. apply launch_fst; [|reflexivity].
      intros a b c x y Exy. now apply delta_h_kernel_final_state. }
    rewrite (F fs). reflexivity.
  - reflexivity.
Qed.

Lemma chunk_delta_rule_fwd_prepare_dv_ok (uninit : data) (q k do : tensor) (BT : nat)
      (scale : R) (B H T K V : nat) (sv : list nat) :
  t_shape k = [B; H; T; K] -> t_shape do = sv ++ [V] -> (0 < BT)%nat ->
  exists dv,
    t_shape dv = t_shape do /\
    forall wk,
      chunk_delta_rule_fwd_prepare_dv uninit q k do BT scale wk
      = (inl dv,
         wk ++ [Kernel "chunk_delta_rule_fwd_kernel_prepare_dv"
                       (tl.cdiv T BT, B * H, 1)%nat]).
Proof.
  intros Hk Hdo HBT. eexists. split; cycle 1.
  - intros wk. unfold chunk_delta_rule_fwd_prepare_dv, bind.
    rewrite (dims_ok k do B H T K V sv Hk Hdo).
    rewrite !cdiv_ok by assumption. unfold dispatch, ret. reflexivity.
  - reflexivity.
Qed.

Lemma chunk_delta_rule_bwd_dqkw_fn_ok (uninit : data) (q k v_new w h du do dh : tensor)
      (BT : nat) (scale : R) (B H T K V : nat) (sv : list nat) :
  t_shape q = [B; H; T; K] -> t_shape v_new = sv ++ [V] -> (0 < K)%nat -> (0 < BT)%nat ->
  exists dq dk dw,
    forall wk,
      chunk_delta_rule_bwd_dqkw_fn uninit q k v_new w h du do dh BT scale wk
      = (inl (dq, dk, dw),
         wk ++ [Kernel "chunk_delta_rule_bwd_kernel_dqkw"
                       (tl.cdiv K (Nat.min (triton.next_power_of_2 K) 64),
                        tl.cdiv T BT, B * H)%nat]).
Proof.
  intros Hq Hv HK HBT.
  pose proof (min_npow2_pos K HK) as HBK.
  eexists. eexists. eexists. intros wk.
  unfold chunk_delta_rule_bwd_dqkw_fn, bind.
  rewrite (dims_ok q v_new B H T K V sv Hq Hv).
  rewrite !cdiv_ok by assumption. unfold dispatch, ret. reflexivity.
Qed.

Lemma chunk_delta_rule_bwd_dhu_fn_ok (uninit : data) (capability : nat * nat)
      (q k w : tensor) (dht dh0 : option tensor) (do dv : tensor) (BT : nat) (scale : R)
      (B H T K V : nat) (sv : list nat) :
  t_shape q = [B; H; T; K] -> t_shape do = sv ++ [V] ->
  (0 < K <= 256)%nat -> (0 < V)%nat -> (0 < BT)%nat ->
  exists dh g dv2,
    forall wk,
      chunk_delta_rule_bwd_dhu_fn uninit capability q k w dht dh0 do dv BT scale wk
      = (inl (dh, g, dv2),
         wk ++ [Kernel "chunk_delta_rule_bwd_kernel_dhu"
                       (1, tl.cdiv V (fst (bwd_dhu_tiles capability K)), B * H)%nat]).
Proof.
  intros Hq Hdo HK HV HBT.
  destruct (chunk_delta_rule_bwd_dhu_fn_spec uninit capability q k w dht dh0 do dv BT
              scale B H T K V sv [] Hq Hdo HK HV HBT) as (dh & g & dv2 & E & _).
  exists dh, g, dv2. intros wk.
  apply (log_free_run _ wk _ _ (log_free_bwd_dhu_fn _ _ _ _ _ _ _ _ _ _ _) E).
Qed.

(** The backward pass from retained snapshots and the backward pass
    that recomputes them produce the same gradients; the second
    dispatches one more state kernel. *)
Lemma chunk_delta_rule_bwd_levels (uninit : data) (capability : nat * nat)
      (rwu : tensor -> tensor -> tensor -> tensor -> nat -> tensor * tensor)
      (bwy : tensor -> tensor -> tensor -> tensor -> tensor -> tensor -> nat
             -> tensor * tensor * tensor)
      (q k v beta A : tensor) (h v_new : tensor) (scale : R) (s : option tensor)
      (do : tensor) (dht : option tensor) (BT : nat)
      (B H T K V V' : nat) (sv sv' : list nat) (Kh : work) :
  t_shape q = [B; H; T; K] -> t_shape k = [B; H; T; K] ->
  t_shape do = sv ++ [V] -> t_shape v_new = sv' ++ [V'] ->
  (0 < K <= 256)%nat -> (0 < V)%nat -> (0 < BT)%nat ->
  (forall wk,
     chunk_delta_rule_fwd_h_fn uninit capability k
       (fst (rwu k v beta A BT)) (snd (rwu k v beta A BT)) BT s None wk
     = (inl (h, v_new, None), wk ++ [Kh])) ->
  exists g rest,
    forall wb,
      chunk_delta_rule_bwd uninit capability rwu bwy q k v beta A (Some h) (Some v_new)
                           scale s do dht BT wb
      = (inl g, wb ++ Collaborator "fwd_recompute_w_u" :: rest) /\
      chunk_delta_rule_bwd uninit capability rwu bwy q k v beta A None None
                           scale s do dht BT wb
      = (inl g, wb ++ Collaborator "fwd_recompute_w_u" :: Kh :: rest).
Proof.
  intros Hq Hk Hdo Hvn HK HV HBT Hre.
  destruct (rwu k v beta A BT) as [w u] eqn:Erwu. cbn [fst snd] in Hre.
  destruct (chunk_delta_rule_fwd_prepare_dv_ok uninit q k do BT scale B H T K V sv
              Hk Hdo HBT) as (dv & _ & Edv).
  set (dh0 := match s with
              | Some s0 => if t_requires_grad s0
                           then Some (new_empty uninit (t_shape s0) float32) else None
              | None => None
              end).
  destruct (chunk_delta_rule_bwd_dhu_fn_ok uninit capability q k w dht dh0 do dv BT scale
              B H T K V sv Hq Hdo HK HV HBT) as (dh & g0 & dv2 & Edhu).
  destruct (chunk_delta_rule_bwd_dqkw_fn_ok uninit q k v_new w h dv2 do dh BT scale
              B H T K V' sv' Hq Hvn (proj1 HK) HBT) as (dq & dk & dw & Edqkw).
  destruct (bwy k v beta A dw dv2 BT) as [[dk2 dv3] db] eqn:Ebwy.
  eexists. eexists. intros wb.
  unfold chunk_delta_rule_bwd. rewrite Erwu. fold dh0. split.
  - erewrite bind_inl by reflexivity.
    erewrite bind_inl by reflexivity. cbv beta iota.
    erewrite bind_inl by apply Edv.
    erewrite bind_inl by apply Edhu. cbv beta iota.
    erewrite bind_inl by apply Edqkw. cbv beta iota.
    erewrite bind_inl by reflexivity.
    rewrite Ebwy. unfold ret. rewrite <- !app_assoc. cbn [app]. reflexivity.
  - erewrite bind_inl by reflexivity.
    erewrite bind_inl by (erewrite bind_inl by apply Hre; reflexivity). cbv beta iota.
    erewrite bind_inl by apply Edv.
    erewrite bind_inl by apply Edhu. cbv beta iota.
    erewrite bind_inl by apply Edqkw. cbv beta iota.
    erewrite bind_inl by reflexivity.
    rewrite Ebwy. unfold ret. rewrite <- !app_assoc. cbn [app]. reflexivity.
Qed.

(** C8.  Checkpoint-vs-recompute equivalence.  On inputs that pass the
    validation, with a WY collaborator whose recomputation
    [fwd_recompute_w_u] returns the [w] and [u] that [fwd_prepare_wy_repr]
    built, the forward pass with [checkpoint_level = 0] and the one with
    [checkpoint_level = 1] return the same output and the same final
    state after the same device work; the first retains the state
    snapshots and corrected values in its context, the second discards
    them; and the backward passes run from the two contexts on the same
    output gradient [do] and final-state gradient [dht] return the same
    gradients [dq, dk, dv, dbeta, dh0], the second after one additional
    launch of the forward state kernel. *)
Theorem checkpoint_equivalence (uninit : data) (capability : nat * nat)
    (wy : tensor -> tensor -> tensor -> nat -> tensor * tensor * tensor)
    (rwu : tensor -> tensor -> tensor -> tensor -> nat -> tensor * tensor)
    (bwy : tensor -> tensor -> tensor -> tensor -> tensor -> tensor -> nat
           -> tensor * tensor * tensor)
    (q k v beta : tensor) (scale : R) (h0 : option tensor) (ofs : bool)
    (do : tensor) (dht : option tensor) (B H T K V : nat) (w0 : list work) :
  qkv_ok q k v B H T K V -> (K <= 256)%nat ->
  t_shape do = [B; H; T; V] ->
  (let r := wy k v beta 64%nat in
   t_shape (snd (fst r)) = t_shape v /\ rwu k v beta (snd r) 64%nat = fst r) ->
  exists (c0 c1 : ctx) (o : tensor) (ht : option tensor) (g : bwd_result)
         (wf rest : list work),
    ChunkDeltaRuleFunction_forward uninit capability wy q k v beta scale h0 ofs 0%nat w0
    = (inl (c0, (o, ht)), wf) /\
    ChunkDeltaRuleFunction_forward uninit capability wy q k v beta scale h0 ofs 1%nat w0
    = (inl (c1, (o, ht)), wf) /\
    (exists h v_new, c_h c0 = Some h /\ c_v_new c0 = Some v_new) /\
    c_h c1 = None /\ c_v_new c1 = None /\
    forall wb,
      ChunkDeltaRuleFunction_backward uninit capability rwu bwy c0 do dht wb
      = (inl g, wb ++ Collaborator "fwd_recompute_w_u" :: rest) /\
      ChunkDeltaRuleFunction_backward uninit capability rwu bwy c1 do dht wb
      = (inl g,
         wb ++ Collaborator "fwd_recompute_w_u"
            :: Kernel "chunk_delta_rule_fwd_kernel_h"
                      (1, tl.cdiv V (fst (fwd_h_tiles capability K)), B * H)%nat
            :: rest).
Proof.
  intros (Hq & Hk & Hv & _ & _ & HK & HV) HK256 Hdo Hwy.
  destruct (wy k v beta 64%nat) as [[w u] A] eqn:Ewy. cbv zeta in Hwy. cbn [fst snd] in Hwy.
  destruct Hwy as [Hu Hrwu]. rewrite Hv in Hu.
  set (fs := if ofs then Some (new_empty uninit [B; H; K; V] float32) else None).
  destruct (chunk_delta_rule_fwd_h_fn_recompute uninit capability k w u 64%nat h0 fs
              B H T K V [B; H; T] Hk Hu (conj HK HK256) ltac:(lia))
    as (h & v_new & (ht & Eh) & Ere & Hsv).
  rewrite Hu in Hsv.
  destruct (chunk_delta_rule_fwd_o_fn_spec uninit q k v_new h 64%nat scale B H T K V
              [B; H; T]
              ((w0 ++ [Collaborator "fwd_prepare_wy_repr"])
                 ++ [Kernel "chunk_delta_rule_fwd_kernel_h"
                            (1, tl.cdiv V (fst (fwd_h_tiles capability K)), B * H)%nat])
              Hq Hsv ltac:(lia) HK HV) as (o & Eo & _).
  assert (Ef : forall level,
             chunk_delta_rule_fwd uninit capability wy q k v beta scale h0 ofs level 64%nat w0
             = (inl (mk_fwd_result o A (if (level =? 1)%nat then None else Some h)
                                   (if (level =? 1)%nat then None else Some v_new) ht),
                ((w0 ++ [Collaborator "fwd_prepare_wy_repr"])
                   ++ [Kernel "chunk_delta_rule_fwd_kernel_h"
                              (1, tl.cdiv V (fst (fwd_h_tiles capability K)), B * H)%nat])
                  ++ [Kernel "chunk_delta_rule_fwd_kernel_o"
                             (tl.cdiv V (Nat.min (triton.next_power_of_2 V) 64),
                              tl.cdiv T 64%nat, B * H)%nat])).
  { intros level. unfold chunk_delta_rule_fwd, bind.
    rewrite Hq, Hk, Hv. cbn [firstn rev app]. unfold ret at 1, dispatch.
    rewrite Ewy. fold fs. rewrite Eh. rewrite Eo. unfold ret.
    destruct (level =? 1)%nat; reflexivity. }
  destruct (chunk_delta_rule_bwd_levels uninit capability rwu bwy q k v beta A h v_new
              scale h0 do dht 64%nat B H T K V V [B; H; T] [B; H; T]
              (Kernel "chunk_delta_rule_fwd_kernel_h"
                      (1, tl.cdiv V (fst (fwd_h_tiles capability K)), B * H)%nat)
              Hq Hk Hdo Hsv (conj HK HK256) HV ltac:(lia))
    as (g & rest & Hb).
  { rewrite Hrwu. exact Ere. }
  exists (mk_ctx q k v beta A (Some h) (Some v_new) h0 64%nat scale),
         (mk_ctx q k v beta A None None h0 64%nat scale),
         (to_dtype o (t_dtype q)), ht,
         (mk_bwd_result (to_dtype (g_dq g) (t_dtype q)) (to_dtype (g_dk g) (t_dtype k))
                        (to_dtype (g_dv g) (t_dtype v)) (to_dtype (g_db g) (t_dtype beta))
                        (g_dh0 g)).
  eexists. exists rest.
  split; [|split; [|split; [|split; [|split]]]].
  - unfold ChunkDeltaRuleFunction_forward.
    erewrite bind_inl by apply Ef. reflexivity.
  - unfold ChunkDeltaRuleFunction_forward.
    erewrite bind_inl by apply Ef. reflexivity.
  - exists h, v_new. split; reflexivity.
  - reflexivity.
  - reflexivity.
  - intros wb. destruct (Hb wb) as [Hb0 Hb1].
    unfold ChunkDeltaRuleFunction_backward.
    cbn [c_q c_k c_v c_beta c_A c_h c_v_new c_scale c_initial_state c_BT].
    split.
    + erewrite bind_inl by apply Hb0. reflexivity.
    + erewrite bind_inl by apply Hb1. reflexivity.
Qed.

(** ** A collaborator that honours the WY contract *)

Lemma wy_rows_stable (K : nat) (k x : block) (beta : nat -> R) (base n j : nat) :
  (j < n)%nat ->
  wy_rows K k x beta base n j = wy_rows K k x beta base (S j) j.
Proof.
  induction n as [|n IH]; intros Hj; [lia|].
  destruct (Nat.eq_dec j n) as [->|Hne]; [reflexivity|].
  rewrite <- IH by lia. cbn [wy_rows].
  destruct (Nat.eqb_spec j n); [contradiction|reflexivity].
Qed.

Lemma wy_transform_row (K BT : nat) (k x : data) (beta : nat -> nat -> R)
      (l t c : nat) :
  (0 < BT)%nat ->
  wy_transform K BT k x beta l t c
  = beta l t
    * (x l t c
       - tl.sum (t mod BT) (fun j =>
           tl.sum K (fun kk => k l t kk * k l (t / BT * BT + j)%nat kk)
           * wy_transform K BT k x beta l (t / BT * BT + j)%nat c)).
Proof.
  intros HBT. unfold wy_transform at 1. cbn [wy_rows]. rewrite Nat.eqb_refl.
  assert (Et : (t / BT * BT + t mod BT = t)%nat).
  { pose proof (Nat.div_mod_eq t BT). lia. }
  rewrite Et. f_equal. f_equal. apply sum_ext. intros j Hj. f_equal.
  assert (Hlt : (t mod BT < BT)%nat) by (apply Nat.mod_upper_bound; lia).
  unfold wy_transform.
  assert (Ed : ((t / BT * BT + j) / BT = t / BT)%nat).
  { rewrite Nat.add_comm, Nat.div_add by lia. rewrite Nat.div_small by lia. lia. }
  assert (Em : ((t / BT * BT + j) mod BT = j)%nat).
  { rewrite Nat.add_comm, Nat.Div0.mod_add. apply Nat.mod_small. lia. }
  rewrite Ed, Em.
  now rewrite (wy_rows_stable K (k l) (x l) (beta l) (t / BT * BT) (t mod BT) j Hj).
Qed.

Lemma wy_model_ok : wy_ok wy_model.
Proof.
  intros k v beta BT B H T K V w u A Hk Hv HBT E.
  unfold wy_model in E. rewrite Hk in E. cbn [last] in E.
  injection E as <- <- <-. split; [reflexivity|].
  intros l t Hl Ht. cbv zeta. cbn [t_data with_data]. split.
  - intros kk Hkk. now apply wy_transform_row.
  - intros nu Hnu. now apply wy_transform_row.
Qed.

(** ** The properties on concrete runs *)

Lemma output_formula_witness :
  let x := full bfloat16 [1; 1; 1; 1]%nat 1 in
  (exists o, fst (run (chunk_fwd_o_fn zero_data x x x x 64 1)) = inl o /\
             t_data o 0%nat 0%nat 0%nat = rate 0 + 1) /\
  (exists o, fst (run (chunk_delta_rule_fwd_o_fn zero_data x x x x 64 1)) = inl o /\
             t_data o 0%nat 0%nat 0%nat = 2).
Proof.
  intros x.
  destruct (output_formula zero_data x x x x 64 1 1 1 1 1 1 []
              eq_refl eq_refl eq_refl ltac:(lia) ltac:(lia) ltac:(lia))
    as [(o & wo & E & Ho) (o' & wo' & E' & Ho')].
  split.
  - exists o. unfold run. rewrite E. split; [reflexivity|].
    rewrite (Ho 0%nat 0%nat 0%nat) by lia. cbn. lra.
  - exists o'. unfold run. rewrite E'. split; [reflexivity|].
    rewrite (Ho' 0%nat 0%nat 0%nat) by lia. cbn. lra.
Defined.

Lemma initial_snapshot_witness :
  let x := full bfloat16 [1; 1; 1; 1]%nat 1 in
  let s := full float32 [1; 1; 1; 1]%nat 5 in
  (exists h ht, fst (run (chunk_fwd_h_fn zero_data x x (Some s) 64 false)) = inl (h, ht) /\
                t_data h 0%nat 0%nat 0%nat = 5) /\
  (exists h v_new ht,
      fst (run (chunk_delta_rule_fwd_h_fn zero_data (8, 0)%nat x x x 64 None None))
      = inl (h, v_new, ht) /\
      t_data h 0%nat 0%nat 0%nat = 0).
Proof.
  intros x s. split.
  - destruct (initial_snapshot zero_data (8, 0)%nat x x x x (Some s) 64 false None
                1 1 1 1 1 [] eq_refl eq_refl eq_refl ltac:(lia) ltac:(lia) ltac:(lia)
                ltac:(lia))
      as [(h & ht & wo & E & Hh) _].
    exists h, ht. unfold run. rewrite E. split; [reflexivity|].
    rewrite (Hh 0%nat 0%nat 0%nat) by lia. reflexivity.
  - destruct (initial_snapshot zero_data (8, 0)%nat x x x x None 64 false None
                1 1 1 1 1 [] eq_refl eq_refl eq_refl ltac:(lia) ltac:(lia) ltac:(lia)
                ltac:(lia))
      as [_ (h & v_new & ht & wo & E & Hh)].
    exists h, v_new, ht. unfold run. rewrite E. split; [reflexivity|].
    rewrite (Hh 0%nat 0%nat 0%nat) by lia. reflexivity.
Defined.

Lemma qkv_ok_full (dt : dtype) (B H T K V : nat) (x y z : R) :
  (0 < K)%nat -> (0 < V)%nat ->
  qkv_ok (full dt [B; H; T; K] x) (full dt [B; H; T; K] y) (full dt [B; H; T; V] z)
         B H T K V.
Proof. intros HK HV. unfold qkv_ok. cbn. repeat split; assumption. Qed.

Lemma causality_witness :
  let x := full bfloat16 [1; 1; 2; 1]%nat 1 in
  let y := mk_tensor bfloat16 [1; 1; 2; 1]%nat false
                     (fun _ s _ => if (s =? 0)%nat then 1 else 7) in
  let b := full bfloat16 [1; 1; 2]%nat 1 in
  (exists o1 f1 o2 f2,
      fst (run (chunk_retention zero_data x x x None None false)) = inl (o1, f1) /\
      fst (run (chunk_retention zero_data x y y None None false)) = inl (o2, f2) /\
      t_data o1 0%nat 0%nat 0%nat = t_data o2 0%nat 0%nat 0%nat) /\
  (exists o1 f1 o2 f2,
      fst (run (chunk_delta_rule zero_data (8, 0)%nat wy_model x x x b None None false))
      = inl (o1, f1) /\
      fst (run (chunk_delta_rule zero_data (8, 0)%nat wy_model x y y b None None false))
      = inl (o2, f2) /\
      t_data o1 0%nat 0%nat 0%nat = t_data o2 0%nat 0%nat 0%nat).
Proof.
  intros x y b.
  assert (Hxy : agree_upto x y (1 * 1) 0 1).
  { intros l s c Hl Hs Hc. assert (s = 0%nat) as -> by lia. reflexivity. }
  assert (Hy : qkv_ok x y y 1 1 2 1 1).
  { unfold qkv_ok. cbn. repeat split; lia. }
  destruct (causality zero_data (8, 0)%nat wy_model x x x b x y y b None None None false
              1 1 2 1 1 0
              (qkv_ok_full bfloat16 1 1 2 1 1 1 1 1 Nat.lt_0_1 Nat.lt_0_1) Hy
              ltac:(lia) Hxy Hxy (fun l kk nu _ _ _ => eq_refl))
    as [(o1 & f1 & w1 & o2 & f2 & w2 & E1 & E2 & Ho) Hd].
  split.
  - exists o1, f1, o2, f2. rewrite E1, E2. split; [reflexivity|]. split; [reflexivity|].
    apply Ho; try lia. reflexivity.
  - destruct Hd as (o1' & f1' & w1' & o2' & f2' & w2' & E1' & E2' & Ho').
    + lia.
    + discriminate.
    + discriminate.
    + reflexivity.
    + reflexivity.
    + exact wy_model_ok.
    + reflexivity.
    + exists o1', f1', o2', f2'. rewrite E1', E2'.
      split; [reflexivity|]. split; [reflexivity|].
      apply Ho'; try lia. reflexivity.
Defined.

Lemma state_chain_witness :
  let x := full bfloat16 [1; 1; 2; 1]%nat 1 in
  let b := full bfloat16 [1; 1; 2]%nat 1 in
  (exists o ht o1 s1 o2 ht2,
      fst (run (chunk_retention zero_data x x x None None true)) = inl (o, ht) /\
      fst (run (chunk_retention zero_data (narrow x 0 1) (narrow x 0 1) (narrow x 0 1)
                                None None true)) = inl (o1, Some s1) /\
      fst (run (chunk_retention zero_data (narrow x 1 1) (narrow x 1 1) (narrow x 1 1)
                                None (Some s1) true)) = inl (o2, ht2) /\
      t_data o2 0%nat 0%nat 0%nat = t_data o 0%nat 1%nat 0%nat) /\
  (exists o ht o1 s1 o2 ht2,
      fst (run (chunk_delta_rule zero_data (8, 0)%nat wy_model x x x b None None true))
      = inl (o, ht) /\
      fst (run (chunk_delta_rule zero_data (8, 0)%nat wy_model
                                 (narrow x 0 1) (narrow x 0 1) (narrow x 0 1)
                                 (narrow b 0 1) None None true)) = inl (o1, Some s1) /\
      fst (run (chunk_delta_rule zero_data (8, 0)%nat wy_model
                                 (narrow x 1 1) (narrow x 1 1) (narrow x 1 1)
                                 (narrow b 1 1) None (Some s1) true)) = inl (o2, ht2) /\
      t_data o2 0%nat 0%nat 0%nat = t_data o 0%nat 1%nat 0%nat).
Proof.
  intros x b.
  destruct (state_chain zero_data (8, 0)%nat wy_model x x x b None None true
              1 1 2 1 1 1
              (qkv_ok_full bfloat16 1 1 2 1 1 1 1 1 Nat.lt_0_1 Nat.lt_0_1) ltac:(lia))
    as [(o & ht & w & o1 & s1 & w1 & o2 & ht2 & w2 & E & E1 & E2 & _ & Ho2 & _) Hd].
  split.
  - exists o, ht, o1, s1, o2, ht2.
    change (2 - 1)%nat with 1%nat in E2. rewrite E, E1, E2.
    repeat (split; [reflexivity|]).
    apply (Ho2 0%nat 0%nat 0%nat); lia.
  - destruct Hd as (o' & ht' & w' & o1' & s1' & w1' & o2' & ht2' & w2'
                    & E' & E1' & E2' & _ & Ho2' & _).
    + lia.
    + discriminate.
    + reflexivity.
    + exact wy_model_ok.
    + exists o', ht', o1', s1', o2', ht2'.
      change (2 - 1)%nat with 1%nat in E2'. rewrite E', E1', E2'.
      repeat (split; [reflexivity|]).
      apply (Ho2' 0%nat 0%nat 0%nat); lia.
Defined.

Lemma delta_rule_staging_witness :
  let x := full bfloat16 [1; 1; 2; 1]%nat 1 in
  let b := full bfloat16 [1; 1; 2]%nat 1 in
  let w := fst (fst (wy_model x x b 64)) in
  let u := snd (fst (wy_model x x b 64)) in
  exists h v_new f,
    fst (run (chunk_delta_rule_fwd_h_fn zero_data (8, 0)%nat x w u 64 None (Some x)))
    = inl (h, v_new, Some f) /\
    t_data h 0%nat 0%nat 0%nat = 0 /\ t_data f 0%nat 0%nat 0%nat = 1.
Proof.
  intros x b w u.
  destruct (delta_rule_staging zero_data (8, 0)%nat x x b w u 64 None x 1 1 2 1 1
              eq_refl eq_refl ltac:(lia) ltac:(lia) ltac:(lia) eq_refl
              (proj2 (wy_model_ok x x b 64%nat 1%nat 1%nat 2%nat 1%nat 1%nat w u
                        (snd (wy_model x x b 64)) eq_refl eq_refl ltac:(lia) eq_refl)))
    as (h & v_new & f & wo & E & _ & _ & Hh & Hf).
  exists h, v_new, f. rewrite E. split; [reflexivity|]. split.
  - change (t_data h 0%nat (0 * 1 + 0)%nat 0%nat = 0).
    rewrite (Hh 0%nat 0%nat 0%nat 0%nat) by (cbn; lia). reflexivity.
  - rewrite (Hf 0%nat 0%nat 0%nat) by lia. cbn. lra.
Defined.

Lemma single_K_tile_guard_witness :
  let x := full bfloat16 [1; 1; 1; 1]%nat 1 in
  let y := full bfloat16 [1; 1; 1; 257]%nat 1 in
  let b := full bfloat16 [1; 1; 1]%nat 1 in
  (exists r,
      run (chunk_delta_rule_fwd_h_fn zero_data (8, 0)%nat x x x 64 None None)
      = (inl r, [Kernel "chunk_delta_rule_fwd_kernel_h" (1, 1, 1)%nat])) /\
  run (chunk_delta_rule_fwd zero_data (8, 0)%nat wy_model y y x b 1 None false 1 64)
  = (inr (AssertionError
            "current kernel does not support head dimension larger than 256."),
     [Collaborator "fwd_prepare_wy_repr"]) /\
  (exists r,
      run (chunk_fwd_h_fn zero_data y x None 64 false)
      = (inl r, [Kernel "chunk_retention_fwd_kernel_h" (5, 1, 1)%nat])).
Proof.
  intros x y b.
  destruct (single_K_tile_guard zero_data (8, 0)%nat wy_model x x x b x x 1 64 1
              None None false 1 1 1 1 1 []
              eq_refl eq_refl eq_refl eq_refl eq_refl ltac:(lia) ltac:(lia) ltac:(lia))
    as [Hsmall _].
  destruct (single_K_tile_guard zero_data (8, 0)%nat wy_model y y x b y x 1 64 1
              None None false 1 1 1 257 1 []
              eq_refl eq_refl eq_refl eq_refl eq_refl ltac:(lia) ltac:(lia) ltac:(lia))
    as [Hbig Hret].
  change (1 <=? 256)%nat with true in Hsmall.
  change (257 <=? 256)%nat with false in Hbig.
  split; [exact Hsmall|]. split; [exact (proj2 Hbig)|exact Hret].
Defined.

Lemma float32_rejected_by_delta_rule_only_witness :
  let x := full float32 [1; 1; 1; 1]%nat 1 in
  let b := full float32 [1; 1; 1]%nat 1 in
  run (chunk_delta_rule zero_data (8, 0)%nat wy_model x x x b None None false)
  = (inr (AssertionError
            "ChunkDeltaRuleFunction does not support float32. Please use bfloat16."),
     []) /\
  exists o ht w,
    run (chunk_retention zero_data x x x None None false) = (inl (o, ht), w) /\
    t_dtype o = float32.
Proof.
  intros x b.
  exact (float32_rejected_by_delta_rule_only zero_data (8, 0)%nat wy_model x x x b
           None None false 1 1 1 1 1
           (qkv_ok_full float32 1 1 1 1 1 1 1 1 Nat.lt_0_1 Nat.lt_0_1) eq_refl).
Defined.

Lemma checkpoint_equivalence_witness :
  let x := full bfloat16 [1; 1; 1; 1]%nat 1 in
  let b := full bfloat16 [1; 1; 1]%nat 1 in
  exists c0 c1 o ht g,
    fst (run (ChunkDeltaRuleFunction_forward zero_data (8, 0)%nat wy_model
                x x x b 1 None true 0)) = inl (c0, (o, ht)) /\
    fst (run (ChunkDeltaRuleFunction_forward zero_data (8, 0)%nat wy_model
                x x x b 1 None true 1)) = inl (c1, (o, ht)) /\
    fst (run (ChunkDeltaRuleFunction_backward zero_data (8, 0)%nat rwu_model bwy_model
                c0 x None)) = inl g /\
    fst (run (ChunkDeltaRuleFunction_backward zero_data (8, 0)%nat rwu_model bwy_model
                c1 x None)) = inl g.
Proof.
  intros x b.
  destruct (checkpoint_equivalence zero_data (8, 0)%nat wy_model rwu_model bwy_model
              x x x b 1 None true x None 1 1 1 1 1 []
              (qkv_ok_full bfloat16 1 1 1 1 1 1 1 1 Nat.lt_0_1 Nat.lt_0_1)
              ltac:(lia) eq_refl (conj eq_refl eq_refl))
    as (c0 & c1 & o & ht & g & wf & rest & E0 & E1 & _ & _ & _ & Hb).
  exists c0, c1, o, ht, g. unfold run. rewrite E0, E1.
  destruct (Hb []) as [-> ->]. repeat split.
Defined.

(** * Further properties of the code *)

(** ** The chunked forward passes are the recurrent form *)

(** X1.  [chunk_retention] computes the recurrent form of retention.  On
    inputs that pass its validation the call succeeds; with [S 0] the
    initial state (zero when none is given) and
    [S (t+1) = rate_h * S t + k_t^T v_t] per (batch, head) lane, the output
    at position [t] is [scale * q_t . S (t+1)], where [scale] defaults to
    [K ** -0.5]; the output has the shape of [v] and the dtype of [q]; and
    the final state, returned exactly when [output_final_state] is set, is
    the float32 tensor [S T] of shape [(B, H, K, V)].  Float64 inputs are
    excluded: they pass the validation, but [tl.dot] in the kernels rejects
    float64 operands. *)
Theorem chunk_retention_recurrent
    (uninit : data) (q k v : tensor) (scale : option R) (h0 : option tensor)
    (ofs : bool) (B H T K V : nat) :
  qkv_ok q k v B H T K V -> t_dtype q <> float64 ->
  let S := fun l => retention_seq (rate (l mod H)) (t_data k l) (t_data v l)
                                  (state0 h0 l) in
  exists o ht wo,
    run (chunk_retention uninit q k v scale h0 ofs) = (inl (o, ht), wo) /\
    t_shape o = t_shape v /\ t_dtype o = t_dtype q /\
    (forall l t nu, (l < B * H)%nat -> (t < T)%nat -> (nu < V)%nat ->
       t_data o l t nu
       = match scale with Some s => s | None => / sqrt (INR K) end
         * tl.sum K (fun kk => t_data q l t kk * S l (Datatypes.S t) kk nu)) /\
    if ofs
    then exists f, ht = Some f /\ t_dtype f = float32 /\ t_shape f = [B; H; K; V] /\
                   forall l kk nu, (l < B * H)%nat -> (kk < K)%nat -> (nu < V)%nat ->
                                   t_data f l kk nu = S l T kk nu
    else ht = None.
Proof.
  intros Hok _ S.
  destruct (chunk_retention_seq uninit q k v scale h0 ofs B H T K V [] Hok)
    as (o & ht & wo & E & Hs & Hd & Ho & Hnone & Hsome).
  exists o, ht, wo. split; [exact E|]. split; [exact Hs|]. split; [exact Hd|].
  split.
  - intros l t nu Hl Ht Hnu. rewrite Ho by assumption. f_equal.
    unfold scale_of, default_scale. destruct scale; [reflexivity|].
    destruct Hok as (_ & -> & _). reflexivity.
  - destruct ofs; [now apply Hsome | now apply Hnone].
Qed.

Lemma chunk_retention_recurrent_witness :
  let x := full bfloat16 [1; 1; 2; 1]%nat 1 in
  exists o f,
    fst (run (chunk_retention zero_data x x x (Some 2) None true)) = inl (o, Some f) /\
    t_data o 0%nat 1%nat 0%nat = 2 * (rate 0 + 1) /\
    t_data f 0%nat 0%nat 0%nat = rate 0 + 1.
Proof.
  intros x.
  destruct (chunk_retention_recurrent zero_data x x x (Some 2) None true 1 1 2 1 1
              (qkv_ok_full bfloat16 1 1 2 1 1 1 1 1 Nat.lt_0_1 Nat.lt_0_1)
              ltac:(discriminate))
    as (o & ht & wo & E & _ & _ & Ho & f & -> & _ & _ & Hf).
  exists o, f. rewrite E. split; [reflexivity|]. split.
  - rewrite (Ho 0%nat 1%nat 0%nat) by lia. cbn. lra.
  - rewrite (Hf 0%nat 0%nat 0%nat) by lia. cbn. lra.
Defined.

(** X2.  [chunk_delta_rule] computes the recurrent delta rule.  On inputs
    that pass its validation (equal dtypes other than float32, [beta] of
    shape [(B, H, T)], [K <= 256]) and are not float64, which [tl.dot] in
    the kernels rejects, with a WY collaborator that honours its contract,
    the call succeeds; with [S 0] the initial state and
    [S (t+1) = S t + beta_t * k_t^T (v_t - k_t S t)] per lane, the output at
    position [t] is [scale * q_t . S (t+1)], and the final state, returned
    exactly when asked for, is the float32 tensor [S T] of shape
    [(B, H, K, V)]. *)
Theorem chunk_delta_rule_recurrent
    (uninit : data) (capability : nat * nat)
    (wy : tensor -> tensor -> tensor -> nat -> tensor * tensor * tensor)
    (q k v beta : tensor) (scale : option R) (h0 : option tensor)
    (ofs : bool) (B H T K V : nat) :
  qkv_ok q k v B H T K V -> t_dtype q <> float32 -> t_dtype q <> float64 ->
  t_shape beta = [B; H; T] -> (K <= 256)%nat -> wy_ok wy ->
  let S := fun l => delta_seq K (t_data k l) (t_data v l) (beta_at beta l)
                              (state0 h0 l) in
  exists o ht wo,
    run (chunk_delta_rule uninit capability wy q k v beta scale h0 ofs)
    = (inl (o, ht), wo) /\
    t_dtype o = t_dtype q /\
    (forall l t nu, (l < B * H)%nat -> (t < T)%nat -> (nu < V)%nat ->
       t_data o l t nu
       = match scale with Some s => s | None => / sqrt (INR K) end
         * tl.sum K (fun kk => t_data q l t kk * S l (Datatypes.S t) kk nu)) /\
    if ofs
    then exists f, ht = Some f /\ t_dtype f = float32 /\ t_shape f = [B; H; K; V] /\
                   forall l kk nu, (l < B * H)%nat -> (kk < K)%nat -> (nu < V)%nat ->
                                   t_data f l kk nu = S l T kk nu
    else ht = None.
Proof.
  intros Hok Hf32 _ Hb HK Hwy S.
  destruct (chunk_delta_rule_seq uninit capability wy q k v beta scale h0 ofs
              B H T K V [] Hok Hf32 Hb HK Hwy)
    as (o & ht & wo & E & Hd & Ho & Hnone & Hsome).
  exists o, ht, wo. split; [exact E|]. split; [exact Hd|].
  split.
  - intros l t nu Hl Ht Hnu. rewrite Ho by assumption. f_equal.
    unfold scale_of, default_scale. destruct scale; [reflexivity|].
    destruct Hok as (_ & -> & _). reflexivity.
  - destruct ofs; [now apply Hsome | now apply Hnone].
Qed.

Lemma chunk_delta_rule_recurrent_witness :
  let x := full bfloat16 [1; 1; 2; 1]%nat 1 in
  let y := full bfloat16 [1; 1; 2; 1]%nat 3 in
  let b := full bfloat16 [1; 1; 2]%nat (/ 2) in
  exists o f,
    fst (run (chunk_delta_rule zero_data (8, 0)%nat wy_model x x y b (Some 1) None true))
    = inl (o, Some f) /\
    t_data o 0%nat 0%nat 0%nat = 3 / 2 /\
    t_data f 0%nat 0%nat 0%nat = 9 / 4.
Proof.
  intros x y b.
  assert (Hok : qkv_ok x x y 1 1 2 1 1).
  { apply qkv_ok_full; lia. }
  destruct (chunk_delta_rule_recurrent zero_data (8, 0)%nat wy_model x x y b (Some 1)
              None true 1 1 2 1 1 Hok ltac:(discriminate) ltac:(discriminate)
              eq_refl ltac:(lia) wy_model_ok)
    as (o & ht & wo & E & _ & Ho & f & -> & _ & _ & Hf).
  exists o, f. rewrite E. split; [reflexivity|]. split.
  - rewrite (Ho 0%nat 0%nat 0%nat) by lia. cbn. lra.
  - rewrite (Hf 0%nat 0%nat 0%nat) by lia. cbn. lra.
Defined.

(** ** The decay of the retention kernels *)

(** X3.  The range of the decay rate, as the retention kernels compute
    it in float32 from the head index: [1 - exp2 (-5 - i_h)] lies between
    [31/32] and [1] for every head, so the logarithm [b_b] is taken of a
    positive number.  Below head 20 it is the exact value
    [1 - 2^(-5 - i_h)], below 1; it is exactly [1.0] for every head from 20
    on and for no other, and these heads have [b_b = log2 1.0]: their state
    does not decay. *)
Theorem decay_rate_range_float32 (i_h : nat) :
  31 / 32 <= f32.to_R (rate_f32 i_h) <= 1 /\
  (rate_f32 i_h = f32.one <-> (20 <= i_h)%nat) /\
  ((i_h < 20)%nat ->
   f32.to_R (rate_f32 i_h) = rate i_h /\ f32.to_R (rate_f32 i_h) < 1).
Proof.
  destruct (le_lt_dec 20 i_h) as [Hh|Hl].
  - rewrite (rate_f32_high i_h Hh), f32_one_R.
    split; [lra|]. split; [tauto|lia].
  - pose proof (rate_f32_low i_h Hl) as E.
    pose proof (rate_bounds i_h). pose proof (rate_lower i_h).
    split; [rewrite E; lra|]. split; [|intros _; split; [exact E|rewrite E; lra]].
    split; [|lia].
    intros Hone. rewrite Hone, f32_one_R in E. lra.
Qed.

(** ** What the forward passes depend on *)

Lemma scale_of_qkv (scale : option R) (q1 k1 v1 q2 k2 v2 : tensor) (B H T K V : nat) :
  qkv_ok q1 k1 v1 B H T K V -> qkv_ok q2 k2 v2 B H T K V ->
  scale_of scale k1 = scale_of scale k2.
Proof.
  intros (_ & Hk1 & _) (_ & Hk2 & _). apply scale_of_shape. now rewrite Hk1, Hk2.
Qed.

(** X4.  Lanes are isolated.  For [chunk_retention] and for
    [chunk_delta_rule], the output and the final state of a (batch, head)
    lane [l] depend on the lane [l] of the queries, keys, values (beta) and
    initial state only: two calls whose inputs agree on that lane give the
    same output and final state on it, whatever the other lanes hold. *)
Theorem lane_isolation
    (uninit : data) (capability : nat * nat)
    (wy : tensor -> tensor -> tensor -> nat -> tensor * tensor * tensor)
    (q1 k1 v1 beta1 q2 k2 v2 beta2 : tensor) (scale : option R)
    (h01 h02 : option tensor) (B H T K V l : nat) :
  qkv_ok q1 k1 v1 B H T K V -> qkv_ok q2 k2 v2 B H T K V -> (l < B * H)%nat ->
  (forall t kk, (t < T)%nat -> (kk < K)%nat ->
                t_data q1 l t kk = t_data q2 l t kk /\
                t_data k1 l t kk = t_data k2 l t kk) ->
  (forall t nu, (t < T)%nat -> (nu < V)%nat -> t_data v1 l t nu = t_data v2 l t nu) ->
  (forall kk nu, (kk < K)%nat -> (nu < V)%nat ->
                 state0 h01 l kk nu = state0 h02 l kk nu) ->
  (exists o1 f1 w1 o2 f2 w2,
      run (chunk_retention uninit q1 k1 v1 scale h01 true) = (inl (o1, Some f1), w1) /\
      run (chunk_retention uninit q2 k2 v2 scale h02 true) = (inl (o2, Some f2), w2) /\
      (forall t nu, (t < T)%nat -> (nu < V)%nat ->
                    t_data o1 l t nu = t_data o2 l t nu) /\
      (forall kk nu, (kk < K)%nat -> (nu < V)%nat ->
                     t_data f1 l kk nu = t_data f2 l kk nu)) /\
  ((K <= 256)%nat -> t_dtype q1 <> float32 -> t_dtype q2 <> float32 ->
   t_shape beta1 = [B; H; T] -> t_shape beta2 = [B; H; T] -> wy_ok wy ->
   (forall t, (t < T)%nat -> beta_at beta1 l t = beta_at beta2 l t) ->
   exists o1 f1 w1 o2 f2 w2,
     run (chunk_delta_rule uninit capability wy q1 k1 v1 beta1 scale h01 true)
     = (inl (o1, Some f1), w1) /\
     run (chunk_delta_rule uninit capability wy q2 k2 v2 beta2 scale h02 true)
     = (inl (o2, Some f2), w2) /\
     (forall t nu, (t < T)%nat -> (nu < V)%nat ->
                   t_data o1 l t nu = t_data o2 l t nu) /\
     (forall kk nu, (kk < K)%nat -> (nu < V)%nat ->
                    t_data f1 l kk nu = t_data f2 l kk nu)).
Proof.
  intros Hok1 Hok2 Hl Hqk Hv Hs.
  pose proof (scale_of_qkv scale q1 k1 v1 q2 k2 v2 B H T K V Hok1 Hok2) as Hsc.
  split.
  - destruct (chunk_retention_seq uninit q1 k1 v1 scale h01 true B H T K V [] Hok1)
      as (o1 & ht1 & w1 & E1 & _ & _ & Ho1 & _ & Hf1).
    destruct (chunk_retention_seq uninit q2 k2 v2 scale h02 true B H T K V [] Hok2)
      as (o2 & ht2 & w2 & E2 & _ & _ & Ho2 & _ & Hf2).
    destruct (Hf1 eq_refl) as (f1 & -> & _ & _ & Hf1').
    destruct (Hf2 eq_refl) as (f2 & -> & _ & _ & Hf2').
    assert (HS : forall t kk nu, (t <= T)%nat -> (kk < K)%nat -> (nu < V)%nat ->
               retention_seq (rate (l mod H)) (t_data k1 l) (t_data v1 l) (state0 h01 l)
                             t kk nu
               = retention_seq (rate (l mod H)) (t_data k2 l) (t_data v2 l)
                               (state0 h02 l) t kk nu).
    { intros t kk nu Ht Hkk Hnu. apply retention_seq_ext.
      - now apply Hs.
      - intros i Hi. apply Hqk; [lia|assumption].
      - intros i Hi. apply Hv; [lia|assumption]. }
    exists o1, f1, w1, o2, f2, w2. split; [exact E1|]. split; [exact E2|]. split.
    + intros t nu Ht Hnu. rewrite Ho1, Ho2, Hsc by assumption. f_equal.
      apply sum_ext. intros kk Hkk.
      rewrite (proj1 (Hqk t kk Ht Hkk)), HS by (assumption || lia). reflexivity.
    + intros kk nu Hkk Hnu. rewrite Hf1', Hf2' by assumption. apply HS; auto.
  - intros HK Hd1 Hd2 Hb1 Hb2 Hwy Hb.
    destruct (chunk_delta_rule_seq uninit capability wy q1 k1 v1 beta1 scale h01 true
                B H T K V [] Hok1 Hd1 Hb1 HK Hwy)
      as (o1 & ht1 & w1 & E1 & _ & Ho1 & _ & Hf1).
    destruct (chunk_delta_rule_seq uninit capability wy q2 k2 v2 beta2 scale h02 true
                B H T K V [] Hok2 Hd2 Hb2 HK Hwy)
      as (o2 & ht2 & w2 & E2 & _ & Ho2 & _ & Hf2).
    destruct (Hf1 eq_refl) as (f1 & -> & _ & _ & Hf1').
    destruct (Hf2 eq_refl) as (f2 & -> & _ & _ & Hf2').
    assert (HS : forall t kk nu, (t <= T)%nat -> (kk < K)%nat -> (nu < V)%nat ->
               delta_seq K (t_data k1 l) (t_data v1 l) (beta_at beta1 l) (state0 h01 l)
                         t kk nu
               = delta_seq K (t_data k2 l) (t_data v2 l) (beta_at beta2 l)
                           (state0 h02 l) t kk nu).
    { intros t kk nu Ht Hkk Hnu.
      apply delta_seq_ext;
        [ intros kk' Hkk'; now apply Hs
        | intros i kk' Hi Hkk'; apply Hqk; [lia|assumption]
        | intros i Hi; apply Hv; [lia|assumption]
        | intros i Hi; apply Hb; lia
        | assumption ]. }
    exists o1, f1, w1, o2, f2, w2. split; [exact E1|]. split; [exact E2|]. split.
    + intros t nu Ht Hnu. rewrite Ho1, Ho2, Hsc by assumption. f_equal.
      apply sum_ext. intros kk Hkk.
      rewrite (proj1 (Hqk t kk Ht Hkk)), HS by (assumption || lia). reflexivity.
    + intros kk nu Hkk Hnu. rewrite Hf1', Hf2' by assumption. apply HS; auto.
Qed.

Lemma lane_isolation_witness :
  let x := full bfloat16 [2; 1; 1; 1]%nat 1 in
  let y := mk_tensor bfloat16 [2; 1; 1; 1]%nat false
                     (fun l _ _ => if (l =? 0)%nat then 1 else 7) in
  let b := full bfloat16 [2; 1; 1]%nat 1 in
  (exists o1 f1 o2 f2,
      fst (run (chunk_retention zero_data x x x None None true)) = inl (o1, Some f1) /\
      fst (run (chunk_retention zero_data y y y None None true)) = inl (o2, Some f2) /\
      t_data o1 0%nat 0%nat 0%nat = t_data o2 0%nat 0%nat 0%nat /\
      t_data f1 0%nat 0%nat 0%nat = t_data f2 0%nat 0%nat 0%nat) /\
  (exists o1 f1 o2 f2,
      fst (run (chunk_delta_rule zero_data (8, 0)%nat wy_model x x x b None None true))
      = inl (o1, Some f1) /\
      fst (run (chunk_delta_rule zero_data (8, 0)%nat wy_model y y y b None None true))
      = inl (o2, Some f2) /\
      t_data o1 0%nat 0%nat 0%nat = t_data o2 0%nat 0%nat 0%nat /\
      t_data f1 0%nat 0%nat 0%nat = t_data f2 0%nat 0%nat 0%nat).
Proof.
  intros x y b.
  assert (Hy : qkv_ok y y y 2 1 1 1 1).
  { unfold qkv_ok. cbn. repeat split; lia. }
  destruct (lane_isolation zero_data (8, 0)%nat wy_model x x x b y y y b None None None
              2 1 1 1 1 0
              (qkv_ok_full bfloat16 2 1 1 1 1 1 1 1 Nat.lt_0_1 Nat.lt_0_1) Hy
              ltac:(lia) (fun t kk _ _ => conj eq_refl eq_refl)
              (fun t nu _ _ => eq_refl) (fun kk nu _ _ => eq_refl))
    as [(o1 & f1 & w1 & o2 & f2 & w2 & E1 & E2 & Ho & Hf) Hd].
  split.
  - exists o1, f1, o2, f2. rewrite E1, E2. split; [reflexivity|]. split; [reflexivity|].
    split; [apply Ho; lia | apply Hf; lia].
  - destruct Hd as (o1' & f1' & w1' & o2' & f2' & w2' & E1' & E2' & Ho' & Hf').
    + lia.
    + discriminate.
    + discriminate.
    + reflexivity.
    + reflexivity.
    + exact wy_model_ok.
    + reflexivity.
    + exists o1', f1', o2', f2'. rewrite E1', E2'.
      split; [reflexivity|]. split; [reflexivity|].
      split; [apply Ho'; lia | apply Hf'; lia].
Defined.

(** X5.  The scale multiplies the output and nothing else.  For either
    variant, a call with scale [s] returns [s] times the output of the call
    with scale 1 on the same inputs, and the same final state. *)
Theorem scale_is_linear
    (uninit : data) (capability : nat * nat)
    (wy : tensor -> tensor -> tensor -> nat -> tensor * tensor * tensor)
    (q k v beta : tensor) (s : R) (h0 : option tensor) (B H T K V : nat) :
  qkv_ok q k v B H T K V ->
  (exists o f w o1 f1 w1,
      run (chunk_retention uninit q k v (Some s) h0 true) = (inl (o, Some f), w) /\
      run (chunk_retention uninit q k v (Some 1) h0 true) = (inl (o1, Some f1), w1) /\
      (forall l t nu, (l < B * H)%nat -> (t < T)%nat -> (nu < V)%nat ->
                      t_data o l t nu = s * t_data o1 l t nu) /\
      (forall l kk nu, (l < B * H)%nat -> (kk < K)%nat -> (nu < V)%nat ->
                       t_data f l kk nu = t_data f1 l kk nu)) /\
  ((K <= 256)%nat -> t_dtype q <> float32 -> t_shape beta = [B; H; T] -> wy_ok wy ->
   exists o f w o1 f1 w1,
     run (chunk_delta_rule uninit capability wy q k v beta (Some s) h0 true)
     = (inl (o, Some f), w) /\
     run (chunk_delta_rule uninit capability wy q k v beta (Some 1) h0 true)
     = (inl (o1, Some f1), w1) /\
     (forall l t nu, (l < B * H)%nat -> (t < T)%nat -> (nu < V)%nat ->
                     t_data o l t nu = s * t_data o1 l t nu) /\
     (forall l kk nu, (l < B * H)%nat -> (kk < K)%nat -> (nu < V)%nat ->
                      t_data f l kk nu = t_data f1 l kk nu)).
Proof.
  intros Hok. split.
  - destruct (chunk_retention_seq uninit q k v (Some s) h0 true B H T K V [] Hok)
      as (o & ht & w & E & _ & _ & Ho & _ & Hf).
    destruct (chunk_retention_seq uninit q k v (Some 1) h0 true B H T K V [] Hok)
      as (o1 & ht1 & w1 & E1 & _ & _ & Ho1 & _ & Hf1).
    destruct (Hf eq_refl) as (f & -> & _ & _ & Hf').
    destruct (Hf1 eq_refl) as (f1 & -> & _ & _ & Hf1').
    exists o, f, w, o1, f1, w1. split; [exact E|]. split; [exact E1|]. split.
    + intros l t nu Hl Ht Hnu. rewrite Ho, Ho1 by assumption. cbn [scale_of]. lra.
    + intros l kk nu Hl Hkk Hnu. now rewrite Hf', Hf1'.
  - intros HK Hd Hb Hwy.
    destruct (chunk_delta_rule_seq uninit capability wy q k v beta (Some s) h0 true
                B H T K V [] Hok Hd Hb HK Hwy)
      as (o & ht & w & E & _ & Ho & _ & Hf).
    destruct (chunk_delta_rule_seq uninit capability wy q k v beta (Some 1) h0 true
                B H T K V [] Hok Hd Hb HK Hwy)
      as (o1 & ht1 & w1 & E1 & _ & Ho1 & _ & Hf1).
    destruct (Hf eq_refl) as (f & -> & _ & _ & Hf').
    destruct (Hf1 eq_refl) as (f1 & -> & _ & _ & Hf1').
    exists o, f, w, o1, f1, w1. split; [exact E|]. split; [exact E1|]. split.
    + intros l t nu Hl Ht Hnu. rewrite Ho, Ho1 by assumption. cbn [scale_of]. lra.
    + intros l kk nu Hl Hkk Hnu. now rewrite Hf', Hf1'.
Qed.

Lemma scale_is_linear_witness :
  let x := full bfloat16 [1; 1; 1; 1]%nat 1 in
  let b := full bfloat16 [1; 1; 1]%nat 1 in
  (exists o f o1 f1,
      fst (run (chunk_retention zero_data x x x (Some 3) None true)) = inl (o, Some f) /\
      fst (run (chunk_retention zero_data x x x (Some 1) None true))
      = inl (o1, Some f1) /\
      t_data o 0%nat 0%nat 0%nat = 3 * t_data o1 0%nat 0%nat 0%nat) /\
  (exists o f o1 f1,
      fst (run (chunk_delta_rule zero_data (8, 0)%nat wy_model x x x b (Some 3) None true))
      = inl (o, Some f) /\
      fst (run (chunk_delta_rule zero_data (8, 0)%nat wy_model x x x b (Some 1) None true))
      = inl (o1, Some f1) /\
      t_data o 0%nat 0%nat 0%nat = 3 * t_data o1 0%nat 0%nat 0%nat).
Proof.
  intros x b.
  destruct (scale_is_linear zero_data (8, 0)%nat wy_model x x x b 3 None 1 1 1 1 1
              (qkv_ok_full bfloat16 1 1 1 1 1 1 1 1 Nat.lt_0_1 Nat.lt_0_1))
    as [(o & f & w & o1 & f1 & w1 & E & E1 & Ho & _) Hd].
  split.
  - exists o, f, o1, f1. rewrite E, E1. split; [reflexivity|]. split; [reflexivity|].
    apply Ho; lia.
  - destruct Hd as (o' & f' & w' & o1' & f1' & w1' & E' & E1' & Ho' & _).
    + lia.
    + discriminate.
    + reflexivity.
    + exact wy_model_ok.
    + exists o', f', o1', f1'. rewrite E', E1'.
      split; [reflexivity|]. split; [reflexivity|]. apply Ho'; lia.
Defined.

(** X6.  The tile sizes chosen from the device capability do not show in
    the results of the delta rule: on validated inputs, [chunk_delta_rule]
    run for two device capabilities (whatever tiles [fwd_h_tiles] picks for
    them) returns the same output and the same final state. *)
Theorem device_capability_is_invisible
    (uninit : data) (cap1 cap2 : nat * nat)
    (wy : tensor -> tensor -> tensor -> nat -> tensor * tensor * tensor)
    (q k v beta : tensor) (scale : option R) (h0 : option tensor)
    (B H T K V : nat) :
  qkv_ok q k v B H T K V -> t_dtype q <> float32 -> t_shape beta = [B; H; T] ->
  (K <= 256)%nat -> wy_ok wy ->
  exists o1 f1 w1 o2 f2 w2,
    run (chunk_delta_rule uninit cap1 wy q k v beta scale h0 true)
    = (inl (o1, Some f1), w1) /\
    run (chunk_delta_rule uninit cap2 wy q k v beta scale h0 true)
    = (inl (o2, Some f2), w2) /\
    (forall l t nu, (l < B * H)%nat -> (t < T)%nat -> (nu < V)%nat ->
                    t_data o1 l t nu = t_data o2 l t nu) /\
    (forall l kk nu, (l < B * H)%nat -> (kk < K)%nat -> (nu < V)%nat ->
                     t_data f1 l kk nu = t_data f2 l kk nu).
Proof.
  intros Hok Hd Hb HK Hwy.
  destruct (chunk_delta_rule_seq uninit cap1 wy q k v beta scale h0 true
              B H T K V [] Hok Hd Hb HK Hwy)
    as (o1 & ht1 & w1 & E1 & _ & Ho1 & _ & Hf1).
  destruct (chunk_delta_rule_seq uninit cap2 wy q k v beta scale h0 true
              B H T K V [] Hok Hd Hb HK Hwy)
    as (o2 & ht2 & w2 & E2 & _ & Ho2 & _ & Hf2).
  destruct (Hf1 eq_refl) as (f1 & -> & _ & _ & Hf1').
  destruct (Hf2 eq_refl) as (f2 & -> & _ & _ & Hf2').
  exists o1, f1, w1, o2, f2, w2. split; [exact E1|]. split; [exact E2|]. split.
  - intros l t nu Hl Ht Hnu. now rewrite Ho1, Ho2.
  - intros l kk nu Hl Hkk Hnu. now rewrite Hf1', Hf2'.
Qed.

Lemma device_capability_is_invisible_witness :
  let x := full bfloat16 [1; 1; 1; 200]%nat 1 in
  let y := full bfloat16 [1; 1; 1; 1]%nat 1 in
  let b := full bfloat16 [1; 1; 1]%nat 1 in
  fwd_h_tiles (9, 0)%nat 200 = (64, 64)%nat /\
  fwd_h_tiles (7, 5)%nat 200 = (32, 32)%nat /\
  exists o1 f1 o2 f2,
    fst (run (chunk_delta_rule zero_data (9, 0)%nat wy_model x x y b None None true))
    = inl (o1, Some f1) /\
    fst (run (chunk_delta_rule zero_data (7, 5)%nat wy_model x x y b None None true))
    = inl (o2, Some f2) /\
    t_data o1 0%nat 0%nat 0%nat = t_data o2 0%nat 0%nat 0%nat.
Proof.
  intros x y b. split; [reflexivity|]. split; [reflexivity|].
  assert (Hok : qkv_ok x x y 1 1 1 200 1).
  { apply qkv_ok_full; lia. }
  destruct (device_capability_is_invisible zero_data (9, 0)%nat (7, 5)%nat wy_model
              x x y b None None 1 1 1 200 1 Hok ltac:(discriminate) eq_refl
              ltac:(lia) wy_model_ok)
    as (o1 & f1 & w1 & o2 & f2 & w2 & E1 & E2 & Ho & _).
  exists o1, f1, o2, f2. rewrite E1, E2. split; [reflexivity|]. split; [reflexivity|].
  apply Ho; lia.
Defined.

(** ** The value-gradient preparation of the delta rule *)

(** A loop over column tiles that stores one block per tile, observed at
    one cell. *)
Lemma fold_store_cols (blk : nat -> block) (lane row0 Rw Cl r0 BR BV n : nat)
      (dv : data) (l t nu : nat) :
  (0 < BV)%nat ->
  fold_left (fun dv i_v => tl.store dv lane row0 (Rw, Cl) (r0, i_v * BV)%nat (BR, BV)
                                    (blk i_v))
            (seq 0 n) dv l t nu
  = if existsb (fun i_v => stored lane row0 (Rw, Cl) (r0, i_v * BV)%nat (BR, BV) l t nu)
               (seq 0 n)
    then blk (nu / BV)%nat (t - (row0 + r0))%nat (nu - nu / BV * BV)%nat
    else dv l t nu.
Proof.
  intros HBV.
  apply (fold_writes data unit
           (fun i_v dv => tl.store dv lane row0 (Rw, Cl) (r0, i_v * BV)%nat (BR, BV)
                                   (blk i_v))
           (fun _ => tt) (fun _ _ => tt) (fun _ _ => eq_refl)
           (fun dv => dv l t nu)).
  intros pre i_v suf dv' _ _. rewrite store_spec.
  destruct (stored _ _ _ _ _ _ _ _) eqn:Hs; [|reflexivity].
  apply stored_iff in Hs. cbn [fst snd] in Hs.
  destruct Hs as (_ & _ & _ & Hnu & _).
  destruct (tile_index BV i_v nu Hnu) as [-> _]. reflexivity.
Qed.

Lemma prepare_dv_program (q k do : data) (T K V : nat) (scale : R) (BT BK BV : nat)
      (i_t i_bh : nat) (dv : data) (l t nu : nat) :
  (0 < BK)%nat -> (0 < BV)%nat ->
  chunk_delta_rule_fwd_kernel_prepare_dv q k do T K V scale BT BK BV i_t i_bh dv l t nu
  = if existsb (fun i_v => stored i_bh 0 (T, V) (i_t * BT, i_v * BV)%nat (BT, BV) l t nu)
               (seq 0 (tl.cdiv V BV))
    then prepare_dv_formula q k do scale T K BT l t nu
    else dv l t nu.
Proof.
  intros HBK HBV. unfold chunk_delta_rule_fwd_kernel_prepare_dv. cbv zeta.
  rewrite (fold_store_cols
             (fun i_v => tl.dot BT _ (tl.load (tl.rows_of do i_bh 0) (T, V)
                                              (i_t * BT, i_v * BV)%nat)))
    by exact HBV.
  destruct (existsb _ _) eqn:Hex; [|reflexivity].
  apply existsb_exists in Hex as (i_v & _ & Hs).
  apply stored_iff in Hs. cbn [fst snd] in Hs.
  destruct Hs as (-> & Ht & HtT & Hnu & HnuV).
  rewrite Nat.add_0_l in *.
  destruct (tile_index BT i_t t Ht) as [Ec Ei].
  destruct (tile_index BV i_v nu Hnu) as [Ev _].
  unfold prepare_dv_formula. cbv zeta. rewrite Ec, Ei, Ev.
  set (i := (t - i_t * BT)%nat).
  assert (Et : (i_t * BT + i = t)%nat) by (unfold i; lia).
  assert (Enu : (i_v * BV + (nu - i_v * BV) = nu)%nat) by lia.
  unfold tl.dot at 1.
  rewrite (sum_pad (Nat.min BT (T - i_t * BT)) BT).
  - apply sum_ext. intros j Hj.
    unfold tl.where0. destruct (Nat.leb_spec i j); [|lra].
    rewrite (acc_dot _ BK
               (fun i_k => tl.load (tl.rows_of k i_bh 0) (T, K) (i_t * BT, i_k * BK)%nat)
               (fun i_k => bscale scale (tl.load (tl.cols_of q i_bh 0) (K, T)
                                                 (i_k * BK, i_t * BT)%nat))).
    assert (Hsc : tl.sum (tl.cdiv K BK)
                    (fun i_k => tl.sum BK
                       (fun l0 => tl.load (tl.rows_of k i_bh 0) (T, K)
                                          (i_t * BT, i_k * BK)%nat i l0
                                  * bscale scale (tl.load (tl.cols_of q i_bh 0) (K, T)
                                                          (i_k * BK, i_t * BT)%nat) l0 j))
                  = scale * tl.sum (tl.cdiv K BK)
                      (fun i_k => tl.sum BK
                         (fun l0 => tl.load (tl.rows_of k i_bh 0) (T, K)
                                            (i_t * BT, i_k * BK)%nat i l0
                                    * tl.load (tl.cols_of q i_bh 0) (K, T)
                                              (i_k * BK, i_t * BT)%nat l0 j))).
    { rewrite <- sum_scal_l. apply sum_ext. intros i_k _.
      rewrite <- sum_scal_l. apply sum_ext. intros l0 _. unfold bscale. lra. }
    rewrite Hsc, load_dot_tiles by exact HBK. rewrite Et.
    rewrite load_at. cbn [fst snd]. rewrite Enu.
    destruct (Nat.ltb_spec t T); [|lia].
    destruct (Nat.ltb_spec (i_t * BT + j) T); [|lia].
    destruct (Nat.ltb_spec nu V); [|lia].
    cbn [andb]. unfold tl.rows_of, tl.cols_of. cbn [Nat.add]. reflexivity.
  - lia.
  - intros j Hj. rewrite load_at. cbn [fst snd].
    destruct (Nat.ltb_spec (i_t * BT + j) T); [lia|]. cbn [andb]. lra.
Qed.

Lemma prepare_dv_grid (q k do : data) (T K V : nat) (scale : R) (BT BK BV BH : nat)
      (dv : data) (l t nu : nat) :
  (0 < BT)%nat -> (0 < BK)%nat -> (0 < BV)%nat ->
  (l < BH)%nat -> (t < T)%nat -> (nu < V)%nat ->
  triton.launch (tl.cdiv T BT, BH, 1%nat)
    (fun i_t i_bh _ =>
       chunk_delta_rule_fwd_kernel_prepare_dv q k do T K V scale BT BK BV i_t i_bh)
    dv l t nu
  = prepare_dv_formula q k do scale T K BT l t nu.
Proof.
  intros HBT HBK HBV Hl Ht Hnu.
  rewrite (launch_writes _ _ (fun m => m l t nu)
             (fun '(a, b, _) =>
                existsb (fun i_v => stored b 0 (T, V) (a * BT, i_v * BV)%nat (BT, BV)
                                           l t nu)
                        (seq 0 (tl.cdiv V BV)))
             (prepare_dv_formula q k do scale T K BT l t nu)).
  - rewrite (existsb_programs _ _ _ _ (t / BT)%nat l 0%nat); auto.
    + now apply tile_count.
    + apply (existsb_seq _ _ (nu / BV)%nat); [now apply tile_count|].
      apply stored_iff. cbn [fst snd].
      pose proof (tile_bounds BT t HBT). pose proof (tile_bounds BV nu HBV). lia.
  - intros a b c m' _. now apply prepare_dv_program.
Qed.

(** X8.  The value-gradient preparation of the delta-rule backward pass,
    [chunk_delta_rule_fwd_prepare_dv], launches one program per chunk and
    lane and stores, at every position [t] (position [i] of chunk [c]) and
    feature [nu], the sum over the positions [j >= i] of the same chunk of
    [scale * (k_t . q_j) * do_j]: the transposed causal mask, so that a
    position receives gradient only from itself and from later positions
    of its chunk; positions past the end of the sequence contribute
    nothing.  The result has the shape and dtype of [do]. *)
Theorem prepare_dv_formula_holds
    (uninit : data) (q k do : tensor) (BT : nat) (scale : R)
    (B H T K V : nat) (wk : list work) :
  t_shape k = [B; H; T; K] -> t_shape do = [B; H; T; V] ->
  (0 < BT)%nat -> (0 < K)%nat -> (0 < V)%nat ->
  exists dv,
    chunk_delta_rule_fwd_prepare_dv uninit q k do BT scale wk
    = (inl dv, wk ++ [Kernel "chunk_delta_rule_fwd_kernel_prepare_dv"
                             (tl.cdiv T BT, B * H, 1)%nat]) /\
    t_shape dv = t_shape do /\ t_dtype dv = t_dtype do /\
    forall l t nu, (l < B * H)%nat -> (t < T)%nat -> (nu < V)%nat ->
      let c := (t / BT)%nat in
      let i := (t mod BT)%nat in
      t_data dv l t nu
      = tl.sum (Nat.min BT (T - c * BT))
          (fun j => if (i <=? j)%nat
                    then scale
                         * tl.sum K (fun kk => t_data k l t kk
                                               * t_data q l (c * BT + j)%nat kk)
                         * t_data do l (c * BT + j)%nat nu
                    else 0).
Proof.
  intros Hk Hdo HBT HK HV.
  pose proof (min_npow2_pos K HK) as HBK.
  pose proof (min_npow2_pos V HV) as HBV.
  unfold chunk_delta_rule_fwd_prepare_dv, bind.
  rewrite (dims_ok k do B H T K V [B; H; T] Hk Hdo).
  rewrite !cdiv_ok by assumption. unfold dispatch, ret.
  eexists. split; [reflexivity|]. split; [reflexivity|]. split; [reflexivity|].
  intros l t nu Hl Ht Hnu. cbn [t_data with_data].
  now apply prepare_dv_grid.
Qed.

(** ** The value gradient accumulated by the delta-rule backward state kernel *)

Section DeltaBackwardValues.

Variables (q k d dht do dv : data) (scale : R) (T K V BT BC BK BV NT : nat).
Variables (STORE USE : bool) (i_v i_bh : nat).
Hypothesis HKBK : (K <= BK)%nat.
Hypothesis Hdiv : (tl.cdiv BT BC * BC = BT)%nat.

Let sub := chunk_delta_rule_bwd_kernel_dhu_sub q k d do dv scale T K V BT BC BK BV
                                               0 i_v i_bh.
Let chunk := chunk_delta_rule_bwd_kernel_dhu_chunk q k d do dv scale T K V BT BC BK BV
                                                   0 i_v i_bh.
Let step (i_t : nat) (b : block) : block := fst (chunk i_t (b, (zero_data, zero_data))).
Let dH := delta_dH q k d dht do dv scale T K V BT BC NT STORE.

(** Every position of [dv2] holds its entry of [dv] plus its key applied
    to the gradient accumulator as it stood on entry to its chunk. *)
Lemma delta_dv2_program (dh dh0 dv2 : data) (l t nu : nat) :
  snd (chunk_delta_rule_bwd_kernel_dhu q k d dht do dv scale T K V BT BC BK BV NT
         STORE USE 0 i_v i_bh (dh, dh0, dv2)) l t nu
  = if existsb
         (fun i_t =>
            existsb (fun i_c => stored i_bh 0 (T, V)
                                  (i_t * BT + i_c * BC, i_v * BV)%nat (BC, BV) l t nu)
                    (rev (seq 0 (tl.cdiv BT BC))))
         (rev (seq 0 NT))
    then dv l t nu + tl.sum K (fun kk => k l t kk * dH l (S (t / BT)) kk nu)
    else dv2 l t nu.
Proof.
  unfold chunk_delta_rule_bwd_kernel_dhu. fold chunk.
  set (s0 := (bwd_kernel_dh_init dht K V BK BV STORE 0 i_v i_bh, (dh, dv2))).
  destruct (fold_left (fun st i_t => chunk i_t st) (rev (seq 0 NT)) s0)
    as [bN [hN vN]] eqn:E.
  cbn [fst snd].
  change vN with (snd (snd (bN, (hN, vN)))). rewrite <- E.
  apply (fold_writes _ _ chunk fst step
           (delta_bwd_chunk_step q k d do dv scale T K V BT BC BK BV i_v i_bh)
           (fun s => snd (snd s) l t nu)).
  intros pre i suf [b' [h' v']] Hsplit Hreg.
  apply rev_seq_split in Hsplit as (Epre & Hi).
  assert (Hb : b' = delta_dregs q k d dht do dv scale T K V BT BC BK BV NT STORE
                                0 i_v i_bh (S i)).
  { cbn [fst] in Hreg. rewrite Hreg, Epre. reflexivity. }
  unfold chunk, chunk_delta_rule_bwd_kernel_dhu_chunk. fold (sub i b').
  destruct (fold_left (fun st i_c => sub i b' i_c st) (rev (seq 0 (tl.cdiv BT BC)))
                      (tl.zeros, v')) as [tmp vn] eqn:E'.
  cbn [fst snd].
  change vn with (snd (tmp, vn)). rewrite <- E'.
  change v' with (snd (tl.zeros, v')) at 2.
  apply (fold_writes _ unit (sub i b') (fun _ => tt) (fun _ _ => tt)
                      (fun _ _ => eq_refl) (fun s => snd s l t nu)).
  intros pre' i_c suf' [tmp' v''] Hsplit' _.
  apply rev_seq_split in Hsplit' as (_ & Hi').
  unfold sub, chunk_delta_rule_bwd_kernel_dhu_sub. cbn [fst snd]. rewrite store_spec.
  destruct (stored _ _ _ _ _ _ _ _) eqn:Hst; [|reflexivity].
  apply stored_iff in Hst. cbn [fst snd] in Hst.
  destruct Hst as (-> & Ht & HtT & Hnu & HnuV).
  assert (Hic : (i_c * BC + BC <= BT)%nat) by nia.
  destruct (tile_index BT i t ltac:(lia)) as [-> _].
  rewrite Nat.add_0_l in *.
  assert (Et : (i * BT + i_c * BC + (t - (i * BT + i_c * BC)) = t)%nat) by lia.
  assert (Enu : (i_v * BV + (nu - i_v * BV) = nu)%nat) by lia.
  unfold badd, tl.dot. rewrite !load_at. cbn [fst snd].
  rewrite Et, Enu.
  destruct (Nat.ltb_spec t T); [|lia]. destruct (Nat.ltb_spec nu V); [|lia].
  cbn [andb]. unfold tl.rows_of. cbn [Nat.add]. f_equal.
  rewrite (sum_pad K BK).
  - apply sum_ext. intros kk Hkk. rewrite load_at. cbn [fst snd].
    rewrite Et.
    destruct (Nat.ltb_spec t T); [|lia].
    destruct (Nat.ltb_spec (0 * BK + kk) K); [|lia].
    cbn [andb]. rewrite Hb.
    replace (S i) with (NT - (NT - S i))%nat by lia.
    rewrite delta_dregs_tile by (exact HKBK || lia).
    unfold dH. rewrite Enu.
    replace (NT - (NT - S i))%nat with (S i) by lia. reflexivity.
  - exact HKBK.
  - intros kk Hkk. rewrite load_at. cbn [fst snd].
    destruct (Nat.ltb_spec (0 * BK + kk) K); [lia|].
    rewrite andb_false_r. lra.
Qed.

End DeltaBackwardValues.

Lemma delta_dv2_grid (q k d dht do dv : data) (scale : R)
      (T K V BT BC BK BV NT BH : nat) (STORE USE : bool)
      (mem : data * data * data) (l t nu : nat) :
  (0 < K)%nat -> (K <= BK)%nat -> (0 < BV)%nat -> (0 < BC)%nat -> (0 < BT)%nat ->
  (tl.cdiv BT BC * BC = BT)%nat ->
  (l < BH)%nat -> (t < T)%nat -> (t / BT < NT)%nat -> (nu < V)%nat ->
  snd (triton.launch (1%nat, tl.cdiv V BV, BH)
         (chunk_delta_rule_bwd_kernel_dhu q k d dht do dv scale T K V BT BC BK BV NT
                                          STORE USE) mem) l t nu
  = dv l t nu
    + tl.sum K (fun kk => k l t kk
                          * delta_dH q k d dht do dv scale T K V BT BC NT STORE
                                     l (S (t / BT)) kk nu).
Proof.
  intros HK HKBK HBV HBC HBT Hdiv Hl Ht Hc Hnu.
  rewrite (launch_writes _ _ (fun m => snd m l t nu)
             (fun '(a, b, i) =>
                (a =? 0)%nat &&
                existsb
                  (fun i_t =>
                     existsb (fun i_c => stored i 0 (T, V)
                                           (i_t * BT + i_c * BC, b * BV)%nat
                                           (BC, BV) l t nu)
                             (rev (seq 0 (tl.cdiv BT BC))))
                  (rev (seq 0 NT)))
             (dv l t nu
              + tl.sum K (fun kk => k l t kk
                                    * delta_dH q k d dht do dv scale T K V BT BC NT STORE
                                               l (S (t / BT)) kk nu))).
  - rewrite (existsb_programs _ _ _ _ 0%nat (nu / BV)%nat l); auto.
    + now apply tile_count.
    + cbn [Nat.eqb andb].
      apply (existsb_rev_seq _ NT (t / BT)%nat Hc).
      apply (existsb_rev_seq _ (tl.cdiv BT BC) ((t mod BT) / BC)%nat).
      * apply Nat.Div0.div_lt_upper_bound. rewrite Nat.mul_comm, Hdiv.
        now apply Nat.mod_upper_bound; lia.
      * apply stored_iff. cbn [fst snd].
        pose proof (tile_bounds BV nu HBV).
        pose proof (tile_bounds BC (t mod BT) HBC).
        pose proof (Nat.div_mod_eq t BT). nia.
  - intros a b i [[dh' dh0'] dv2'] Hin. apply in_programs in Hin.
    assert (a = 0%nat) as -> by lia. cbn [Nat.eqb andb].
    now rewrite delta_dv2_program.
Qed.

(** X9.  The delta-rule backward state engine [chunk_delta_rule_bwd_dhu_fn]
    also updates the value gradient: at every position [t] and feature
    [nu] the tensor [dv2] it returns holds the incoming [dv] plus the key
    [k_t] applied to the state gradient stored in [dh] for the chunk of
    [t], that is to the accumulator as it stood before that chunk was
    folded in; every sub-tile of a chunk uses that same accumulator.  The
    result has the shape and dtype of [dv]. *)
Theorem value_gradient_update
    (uninit : data) (capability : nat * nat) (q k w : tensor)
    (dht dh0 : option tensor) (do dv : tensor) (BT : nat) (scale : R)
    (B H T K V : nat) (wk : list work) :
  t_shape q = [B; H; T; K] -> t_shape do = [B; H; T; V] ->
  (0 < K <= 256)%nat -> (0 < V)%nat -> (0 < BT)%nat ->
  (let BC := Nat.min BT (snd (bwd_dhu_tiles capability K)) in
   tl.cdiv BT BC * BC = BT)%nat ->
  exists dh g dv2 wo,
    chunk_delta_rule_bwd_dhu_fn uninit capability q k w dht dh0 do dv BT scale wk
    = (inl (dh, g, dv2), wo) /\
    t_shape dv2 = t_shape dv /\ t_dtype dv2 = t_dtype dv /\
    forall l t nu, (l < B * H)%nat -> (t < T)%nat -> (nu < V)%nat ->
      t_data dv2 l t nu
      = t_data dv l t nu
        + tl.sum K (fun kk => t_data k l t kk * t_data dh l (t / BT * K + kk)%nat nu).
Proof.
  intros Hq Hdo HK HV HBT Hdiv. cbv zeta in Hdiv.
  destruct (bwd_dhu_tiles_pos capability K) as [HBV HBC0].
  pose proof (next_power_of_2_ge K) as HBK.
  pose proof (proj2 (next_power_of_2_le_256 K) (proj2 HK)) as HBK256.
  unfold chunk_delta_rule_bwd_dhu_fn, bind.
  rewrite (dims_ok q do B H T K V [B; H; T] Hq Hdo).
  unfold assert at 1. destruct (Nat.leb_spec (triton.next_power_of_2 K) 256); [|lia].
  unfold ret at 1.
  destruct (bwd_dhu_tiles capability K) as [BV BC'] eqn:Etiles. cbn [fst snd] in *.
  rewrite !cdiv_ok by lia.
  rewrite (cdiv_single_tile K (triton.next_power_of_2 K)) by lia.
  cbn [Nat.eqb assert]. unfold ret at 1. unfold dispatch, ret. cbv zeta.
  eexists. eexists. eexists. eexists. split; [reflexivity|].
  split; [reflexivity|]. split; [reflexivity|].
  intros l t nu Hl Ht Hnu. cbn [t_data with_data fst snd].
  assert (Hc : (t / BT < tl.cdiv T BT)%nat) by now apply tile_count.
  etransitivity;
    [ apply (delta_dv2_grid (t_data q) (t_data k) (t_data w) (data_of dht) (t_data do)
               (t_data dv) scale T K V BT (Nat.min BT BC') (triton.next_power_of_2 K) BV
               (tl.cdiv T BT) (B * H) (is_some dht) (is_some dh0));
      try assumption; lia |].
  f_equal. apply sum_ext. intros kk Hkk. f_equal.
  symmetry. apply delta_dh_grid; auto; lia.
Qed.

(** ** The gradient engine of the delta rule *)

Lemma fold_quad {A B C D : Type} (f : A -> nat -> A) (g : B -> nat -> B)
      (h : C -> nat -> C) (k : D -> nat -> D) (l : list nat) (a : A) (b : B) (c : C)
      (d : D) :
  fold_left (fun '(a, b, c, d) i => (f a i, g b i, h c i, k d i)) l (a, b, c, d)
  = (fold_left f l a, fold_left g l b, fold_left h l c, fold_left k l d).
Proof.
  revert a b c d. induction l as [|i l IH]; intros a b c d; cbn; [reflexivity|].
  apply IH.
Qed.

(** A product accumulated over the tiles of the contracted dimension,
    when each factor pair is zero past the end of that dimension. *)
Lemma acc_tiles (n b : nat) (L Rt : nat -> block) (F : nat -> R) (i j : nat) :
  (0 < b)%nat ->
  (forall t a, (a < b)%nat ->
               L t i a * Rt t a j = if (t * b + a <? n)%nat then F (t * b + a)%nat else 0) ->
  fold_left (fun acc t => badd acc (tl.dot b (L t) (Rt t))) (seq 0 (tl.cdiv n b))
            tl.zeros i j
  = tl.sum n F.
Proof.
  intros Hb HF. rewrite acc_dot, <- (sum_tiles_pad n b F Hb).
  apply sum_ext. intros t _. apply sum_ext. intros a Ha. now apply HF.
Qed.

Section DeltaGradProgram.

Variables (v do : data) (T K V BT BK BV NT : nat).
Variables (i_k i_t i_bh : nat).
Hypotheses (HBV : (0 < BV)%nat) (Hit : (i_t < NT)%nat).

Let b_v (i_v : nat) := tl.load (tl.rows_of v i_bh 0) (T, V) (i_t * BT, i_v * BV)%nat.
Let b_do (i_v : nat) := tl.load (tl.rows_of do i_bh 0) (T, V) (i_t * BT, i_v * BV)%nat.

(** The four accumulators after the loop over the value tiles. *)
Lemma dqkw_acc_state (x state : data) (i kk : nat) :
  (i_t * BT + i < T)%nat -> (i_k * BK + kk < K)%nat ->
  fold_left (fun acc i_v =>
               badd acc (tl.dot BV
                           (tl.load (tl.rows_of x i_bh 0) (T, V) (i_t * BT, i_v * BV)%nat)
                           (tl.load (tl.cols_of state i_bh 0) (V, NT * K)%nat
                                    (i_v * BV, i_t * K + i_k * BK)%nat)))
            (seq 0 (tl.cdiv V BV)) tl.zeros i kk
  = tl.sum V (fun nu => x i_bh (i_t * BT + i)%nat nu
                        * state i_bh (i_t * K + (i_k * BK + kk))%nat nu).
Proof.
  intros Hi Hkk.
  apply (acc_tiles V BV
           (fun i_v => tl.load (tl.rows_of x i_bh 0) (T, V) (i_t * BT, i_v * BV)%nat)
           (fun i_v => tl.load (tl.cols_of state i_bh 0) (V, NT * K)%nat
                               (i_v * BV, i_t * K + i_k * BK)%nat)
           (fun nu => x i_bh (i_t * BT + i)%nat nu
                      * state i_bh (i_t * K + (i_k * BK + kk))%nat nu));
    [exact HBV|].
  intros i_v a Ha. rewrite !load_at. cbn [fst snd].
  destruct (Nat.ltb_spec (i_t * BT + i) T); [|lia].
  assert (Hc : (i_t * K + i_k * BK + kk < NT * K)%nat) by nia.
  destruct (Nat.ltb_spec (i_t * K + i_k * BK + kk) (NT * K)); [|lia].
  destruct (Nat.ltb_spec (i_v * BV + a) V); cbn [andb]; [|lra].
  unfold tl.rows_of, tl.cols_of. cbn [Nat.add]. rewrite Nat.add_assoc. reflexivity.
Qed.

Lemma dqkw_acc_ds (i j : nat) :
  fold_left (fun acc i_v => badd acc (tl.dot BV (b_do i_v) (tl.trans (b_v i_v))))
            (seq 0 (tl.cdiv V BV)) tl.zeros i j
  = if ((i_t * BT + i <? T) && (i_t * BT + j <? T))%nat
    then tl.sum V (fun nu => do i_bh (i_t * BT + i)%nat nu * v i_bh (i_t * BT + j)%nat nu)
    else 0.
Proof.
  rewrite (acc_tiles V BV b_do (fun i_v => tl.trans (b_v i_v))
             (fun nu => if ((i_t * BT + i <? T) && (i_t * BT + j <? T))%nat
                        then do i_bh (i_t * BT + i)%nat nu * v i_bh (i_t * BT + j)%nat nu
                        else 0) i j HBV).
  - destruct ((i_t * BT + i <? T) && (i_t * BT + j <? T))%nat; [reflexivity|].
    now apply sum_zero.
  - intros i_v a Ha. unfold b_do, b_v, tl.trans. rewrite !load_at. cbn [fst snd].
    destruct (i_t * BT + i <? T)%nat, (i_t * BT + j <? T)%nat,
             (i_v * BV + a <? V)%nat; cbn [andb]; try lra.
    unfold tl.rows_of. cbn [Nat.add]. reflexivity.
Qed.

End DeltaGradProgram.

Lemma dqkw_program (q k v h do dh dv : data) (scale : R) (T K V BT BK BV NT : nat)
      (i_k i_t i_bh : nat) (dq dk dw : data) (l t kk : nat) :
  (0 < BV)%nat -> (i_t < NT)%nat ->
  let r := chunk_delta_rule_bwd_kernel_dqkw q k v h do dh dv scale T K V BT BK BV NT
                                            i_k i_t i_bh (dq, dk, dw) in
  let hit := stored i_bh 0 (T, K) (i_t * BT, i_k * BK)%nat (BT, BK) l t kk in
  fst (fst r) l t kk
  = (if hit then dqkw_dq_formula k v h do scale K V BT l t kk else dq l t kk) /\
  snd (fst r) l t kk
  = (if hit then dqkw_dk_formula q v do dh scale T K V BT l t kk else dk l t kk) /\
  snd r l t kk
  = (if hit then dqkw_dw_formula h dv K V BT l t kk else dw l t kk).
Proof.
  intros HBV Hit. cbv zeta. unfold chunk_delta_rule_bwd_kernel_dqkw.
  rewrite (fold_quad (fun b i_v => badd b _) (fun b i_v => badd b _)
                     (fun b i_v => badd b _) (fun b i_v => badd b _)).
  cbv beta zeta. cbn [fst snd]. rewrite !store_spec.
  destruct (stored _ _ _ _ _ _ _ _) eqn:Hs; [|repeat split; reflexivity].
  apply stored_iff in Hs. cbn [fst snd] in Hs.
  destruct Hs as (-> & Ht & HtT & Hkk & HkkK).
  rewrite Nat.add_0_l in *.
  destruct (tile_index BT i_t t Ht) as [Ec Ei]. cbn [fst snd].
  set (i := (t - i_t * BT)%nat).
  set (j0 := (kk - i_k * BK)%nat).
  assert (Et : (i_t * BT + i = t)%nat) by (unfold i; lia).
  assert (Ekk : (i_k * BK + j0 = kk)%nat) by (unfold j0; lia).
  assert (Hi : (i_t * BT + i < T)%nat) by lia.
  assert (Hj0 : (i_k * BK + j0 < K)%nat) by lia.
  split; [|split].
  - unfold dqkw_dq_formula. cbv zeta. rewrite Ec, Ei. fold i.
    unfold bscale. f_equal. unfold badd at 1. f_equal.
    + rewrite (dqkw_acc_state T K V BT BK BV NT i_k i_t i_bh HBV Hit do h i j0 Hi Hj0).
      rewrite Et, Ekk. reflexivity.
    + unfold tl.dot at 1. rewrite (sum_pad (i + 1) BT).
      * apply sum_ext. intros j Hj. unfold tl.where0.
        destruct (Nat.leb_spec j i); [|lia].
        rewrite (dqkw_acc_ds v do T V BT BV i_t i_bh HBV i j).
        rewrite load_at. cbn [fst snd]. rewrite Et, Ekk.
        destruct (Nat.ltb_spec t T); [|lia].
        destruct (Nat.ltb_spec (i_t * BT + j) T); [|lia].
        destruct (Nat.ltb_spec kk K); [|lia].
        cbn [andb]. unfold tl.rows_of. cbn [Nat.add]. reflexivity.
      * unfold i. lia.
      * intros j Hj. unfold tl.where0. destruct (Nat.leb_spec j i); [lia|]. lra.
  - unfold dqkw_dk_formula. cbv zeta. rewrite Ec, Ei. fold i.
    unfold badd at 1. f_equal.
    + rewrite (dqkw_acc_state T K V BT BK BV NT i_k i_t i_bh HBV Hit v dh i j0 Hi Hj0).
      rewrite Et, Ekk. reflexivity.
    + unfold tl.trans at 1. unfold tl.dot at 1.
      rewrite (sum_pad (Nat.min BT (T - i_t * BT)) BT).
      * apply sum_ext. intros j Hj. unfold tl.where0, bscale.
        rewrite (dqkw_acc_ds v do T V BT BV i_t i_bh HBV j i).
        rewrite load_at. cbn [fst snd]. rewrite Et, Ekk.
        destruct (Nat.ltb_spec t T); [|lia].
        destruct (Nat.ltb_spec (i_t * BT + j) T); [|lia].
        destruct (Nat.ltb_spec kk K); [|lia].
        cbn [andb]. destruct (Nat.leb_spec i j); [|lra].
        unfold tl.cols_of. cbn [Nat.add]. reflexivity.
      * lia.
      * intros j Hj. unfold bscale. rewrite load_at. cbn [fst snd].
        destruct (Nat.ltb_spec (i_t * BT + j) T); [lia|].
        rewrite andb_false_r. lra.
  - unfold dqkw_dw_formula, bneg. rewrite Ec. f_equal.
    rewrite (dqkw_acc_state T K V BT BK BV NT i_k i_t i_bh HBV Hit dv h i j0 Hi Hj0).
    rewrite Et, Ekk. reflexivity.
Qed.

Lemma dqkw_grid (q k v h do dh dv : data) (scale : R) (T K V BT BK BV BH : nat)
      (mem : data * data * data) (l t kk : nat) :
  (0 < BT)%nat -> (0 < BK)%nat -> (0 < BV)%nat ->
  (l < BH)%nat -> (t < T)%nat -> (kk < K)%nat ->
  let r := triton.launch (tl.cdiv K BK, tl.cdiv T BT, BH)
             (chunk_delta_rule_bwd_kernel_dqkw q k v h do dh dv scale T K V BT BK BV
                                               (tl.cdiv T BT)) mem in
  fst (fst r) l t kk = dqkw_dq_formula k v h do scale K V BT l t kk /\
  snd (fst r) l t kk = dqkw_dk_formula q v do dh scale T K V BT l t kk /\
  snd r l t kk = dqkw_dw_formula h dv K V BT l t kk.
Proof.
  intros HBT HBK HBV Hl Ht Hkk. cbv zeta.
  assert (Hex : existsb (fun '(a, b, i) =>
                           stored i 0 (T, K) (b * BT, a * BK)%nat (BT, BK) l t kk)
                        (triton.programs (tl.cdiv K BK, tl.cdiv T BT, BH)) = true).
  { apply (existsb_programs _ _ _ _ (kk / BK)%nat (t / BT)%nat l); auto.
    - now apply tile_count.
    - now apply tile_count.
    - apply stored_iff. cbn [fst snd].
      pose proof (tile_bounds BT t HBT). pose proof (tile_bounds BK kk HBK). lia. }
  split; [|split].
  - rewrite (launch_writes _ _ (fun m => fst (fst m) l t kk)
               (fun '(a, b, i) =>
                  stored i 0 (T, K) (b * BT, a * BK)%nat (BT, BK) l t kk)
               (dqkw_dq_formula k v h do scale K V BT l t kk)).
    + now rewrite Hex.
    + intros a b i [[dq dk] dw] Hin. apply in_programs in Hin.
      apply dqkw_program; [exact HBV | lia].
  - rewrite (launch_writes _ _ (fun m => snd (fst m) l t kk)
               (fun '(a, b, i) =>
                  stored i 0 (T, K) (b * BT, a * BK)%nat (BT, BK) l t kk)
               (dqkw_dk_formula q v do dh scale T K V BT l t kk)).
    + now rewrite Hex.
    + intros a b i [[dq dk] dw] Hin. apply in_programs in Hin.
      apply dqkw_program; [exact HBV | lia].
  - rewrite (launch_writes _ _ (fun m => snd m l t kk)
               (fun '(a, b, i) =>
                  stored i 0 (T, K) (b * BT, a * BK)%nat (BT, BK) l t kk)
               (dqkw_dw_formula h dv K V BT l t kk)).
    + now rewrite Hex.
    + intros a b i [[dq dk] dw] Hin. apply in_programs in Hin.
      apply dqkw_program; [exact HBV | lia].
Qed.

(** The delta-rule gradient engine: what it dispatches and what each
    cell of its results holds. *)
Lemma chunk_delta_rule_bwd_dqkw_fn_spec
      (uninit : data) (q k v_new w h du do dh : tensor) (BT : nat) (scale : R)
      (B H T K V : nat) (sv : list nat) :
  t_shape q = [B; H; T; K] -> t_shape v_new = sv ++ [V] ->
  (0 < K)%nat -> (0 < V)%nat -> (0 < BT)%nat ->
  exists dq dk dw,
    (forall wk,
       chunk_delta_rule_bwd_dqkw_fn uninit q k v_new w h du do dh BT scale wk
       = (inl (dq, dk, dw),
          wk ++ [Kernel "chunk_delta_rule_bwd_kernel_dqkw"
                        (tl.cdiv K (Nat.min (triton.next_power_of_2 K) 64),
                         tl.cdiv T BT, B * H)%nat])) /\
    (t_shape dq = t_shape q /\ t_dtype dq = t_dtype q) /\
    (t_shape dk = t_shape k /\ t_dtype dk = t_dtype k) /\
    (t_shape dw = t_shape w /\ t_dtype dw = t_dtype w) /\
    forall l t kk, (l < B * H)%nat -> (t < T)%nat -> (kk < K)%nat ->
      t_data dq l t kk
      = dqkw_dq_formula (t_data k) (t_data v_new) (t_data h) (t_data do) scale
                        K V BT l t kk /\
      t_data dk l t kk
      = dqkw_dk_formula (t_data q) (t_data v_new) (t_data do) (t_data dh) scale
                        T K V BT l t kk /\
      t_data dw l t kk = dqkw_dw_formula (t_data h) (t_data du) K V BT l t kk.
Proof.
  intros Hq Hv HK HV HBT.
  pose proof (min_npow2_pos K HK) as HBK.
  pose proof (min_npow2_pos V HV) as HBV.
  set (BK := Nat.min (triton.next_power_of_2 K) 64) in *.
  set (BV := Nat.min (triton.next_power_of_2 V) 64) in *.
  set (mem := triton.launch (tl.cdiv K BK, tl.cdiv T BT, (B * H)%nat)
                (chunk_delta_rule_bwd_kernel_dqkw (t_data q) (t_data k) (t_data v_new)
                   (t_data h) (t_data do) (t_data dh) (t_data du) scale T K V BT BK BV
                   (tl.cdiv T BT))
                (t_data (empty_like uninit q), t_data (empty_like uninit k),
                 t_data (empty_like uninit w))).
  exists (with_data (empty_like uninit q) (fst (fst mem))),
         (with_data (empty_like uninit k) (snd (fst mem))),
         (with_data (empty_like uninit w) (snd mem)).
  split; [|split; [|split; [|split]]].
  - intros wk. unfold chunk_delta_rule_bwd_dqkw_fn, bind.
    rewrite (dims_ok q v_new B H T K V sv Hq Hv).
    rewrite !cdiv_ok by assumption. unfold dispatch, ret. reflexivity.
  - split; reflexivity.
  - split; reflexivity.
  - split; reflexivity.
  - intros l t kk Hl Ht Hkk. cbn [t_data with_data].
    apply (dqkw_grid (t_data q) (t_data k) (t_data v_new) (t_data h) (t_data do)
                     (t_data dh) (t_data du) scale T K V BT BK BV (B * H));
      assumption.
Qed.

(** X10.  The gradient engine of the delta rule,
    [chunk_delta_rule_bwd_dqkw_fn], launches one program per (K-tile,
    chunk, lane) and stores, at every position [t] (position [i] of chunk
    [c]) and key feature [kk]:
    [dq = scale * (do_t . h[c][kk] + sum_{j <= i} (do_t . v_j) k_j[kk])],
    the causal part running over the positions of the chunk up to [t];
    [dk = v_t . dh[c][kk] + sum_{j >= i} scale * q_j[kk] (do_j . v_t)],
    the anti-causal part running over the positions of the chunk from [t]
    on; and [dw = - du_t . h[c][kk]], the sign matching the subtraction of
    [w . h] in the forward pass.  Here [v] is the corrected value, [du] its
    gradient, [h[c]] the state snapshot and [dh[c]] the state gradient of
    the chunk.  The three results have the shapes and dtypes of [q], [k]
    and [w]. *)
Theorem delta_rule_gradient_formulas
    (uninit : data) (q k v_new w h du do dh : tensor) (BT : nat) (scale : R)
    (B H T K V : nat) (wk : list work) :
  t_shape q = [B; H; T; K] -> t_shape v_new = [B; H; T; V] ->
  (0 < K)%nat -> (0 < V)%nat -> (0 < BT)%nat ->
  exists dq dk dw,
    chunk_delta_rule_bwd_dqkw_fn uninit q k v_new w h du do dh BT scale wk
    = (inl (dq, dk, dw),
       wk ++ [Kernel "chunk_delta_rule_bwd_kernel_dqkw"
                     (tl.cdiv K (Nat.min (triton.next_power_of_2 K) 64),
                      tl.cdiv T BT, B * H)%nat]) /\
    (t_shape dq = t_shape q /\ t_dtype dq = t_dtype q) /\
    (t_shape dk = t_shape k /\ t_dtype dk = t_dtype k) /\
    (t_shape dw = t_shape w /\ t_dtype dw = t_dtype w) /\
    forall l t kk, (l < B * H)%nat -> (t < T)%nat -> (kk < K)%nat ->
      let c := (t / BT)%nat in
      let i := (t mod BT)%nat in
      t_data dq l t kk
      = scale *
        (tl.sum V (fun nu => t_data do l t nu * t_data h l (c * K + kk)%nat nu)
         + tl.sum (i + 1)
             (fun j => tl.sum V (fun nu => t_data do l t nu
                                           * t_data v_new l (c * BT + j)%nat nu)
                       * t_data k l (c * BT + j)%nat kk)) /\
      t_data dk l t kk
      = tl.sum V (fun nu => t_data v_new l t nu * t_data dh l (c * K + kk)%nat nu)
        + tl.sum (Nat.min BT (T - c * BT))
            (fun j => if (i <=? j)%nat
                      then scale * t_data q l (c * BT + j)%nat kk
                           * tl.sum V (fun nu => t_data do l (c * BT + j)%nat nu
                                                 * t_data v_new l t nu)
                      else 0) /\
      t_data dw l t kk
      = - tl.sum V (fun nu => t_data du l t nu * t_data h l (c * K + kk)%nat nu).
Proof.
  intros Hq Hv HK HV HBT.
  destruct (chunk_delta_rule_bwd_dqkw_fn_spec uninit q k v_new w h du do dh BT scale
              B H T K V [B; H; T] Hq Hv HK HV HBT)
    as (dq & dk & dw & E & Hsq & Hsk & Hsw & Hf).
  exists dq, dk, dw. split; [apply E|]. split; [exact Hsq|]. split; [exact Hsk|].
  split; [exact Hsw|].
  intros l t kk Hl Ht Hkk. exact (Hf l t kk Hl Ht Hkk).
Qed.

(** ** The gradient engine of retention *)

Lemma dqkv_acc_dh (v dh : data) (T K V BT BK BV NT i_k i_t i_bh : nat) (i kk : nat) :
  (0 < BV)%nat -> (i_t < NT)%nat ->
  (i_t * BT + i < T)%nat -> (i_k * BK + kk < K)%nat ->
  fold_left (fun acc i_v =>
               badd acc (tl.dot BV
                           (tl.load (tl.rows_of v i_bh 0) (T, V) (i_t * BT, i_v * BV)%nat)
                           (tl.trans
                              (tl.load (tl.rows_of dh i_bh 0) (NT * K, V)%nat
                                       (i_t * K + i_k * BK, i_v * BV)%nat))))
            (seq 0 (tl.cdiv V BV)) tl.zeros i kk
  = tl.sum V (fun nu => v i_bh (i_t * BT + i)%nat nu
                        * dh i_bh (i_t * K + (i_k * BK + kk))%nat nu).
Proof.
  intros HBV Hit Hi Hkk.
  apply (acc_tiles V BV
           (fun i_v => tl.load (tl.rows_of v i_bh 0) (T, V) (i_t * BT, i_v * BV)%nat)
           (fun i_v => tl.trans
                         (tl.load (tl.rows_of dh i_bh 0) (NT * K, V)%nat
                                  (i_t * K + i_k * BK, i_v * BV)%nat))
           (fun nu => v i_bh (i_t * BT + i)%nat nu
                      * dh i_bh (i_t * K + (i_k * BK + kk))%nat nu));
    [exact HBV|].
  intros i_v a Ha. unfold tl.trans. rewrite !load_at. cbn [fst snd].
  destruct (Nat.ltb_spec (i_t * BT + i) T); [|lia].
  assert (Hc : (i_t * K + i_k * BK + kk < NT * K)%nat) by nia.
  destruct (Nat.ltb_spec (i_t * K + i_k * BK + kk) (NT * K)); [|lia].
  destruct (Nat.ltb_spec (i_v * BV + a) V); cbn [andb]; [|lra].
  unfold tl.rows_of. cbn [Nat.add]. rewrite Nat.add_assoc. reflexivity.
Qed.

Lemma exp2_chunk_b_b (T BT c i i_h : nat) :
  (c * BT + i < T)%nat -> (i < BT)%nat ->
  tl.exp2 (IZR (Z.min (Z.of_nat BT) (Z.of_nat T - Z.of_nat c * Z.of_nat BT)
                - Z.of_nat i - 1) * b_b i_h)
  = rate i_h ^ (Nat.min BT (T - c * BT) - i - 1).
Proof.
  intros Hi HiBT. rewrite exp2_Z_b_b, pow_powerRZ. f_equal. lia.
Qed.

Lemma dqkv_program_dq_dk (q k v h do dh : data) (scale : R)
      (H T K V BT BK BV NT n_bh : nat) (i_k i_t i_bh : nat) (dq dk dv : data)
      (l t kk : nat) :
  (0 < BV)%nat -> (i_t < NT)%nat ->
  let r := chunk_retention_bwd_kernel_dqkv q k v h do dh scale H T K V BT BK BV NT n_bh
                                           i_k i_t i_bh (dq, dk, dv) in
  let hit := stored i_bh 0 (T, K) (i_t * BT, i_k * BK)%nat (BT, BK) l t kk in
  fst (fst r) l t kk
  = (if hit then retention_dq_formula k v h do scale H K V BT l t kk else dq l t kk) /\
  snd (fst r) l t kk
  = (if hit then retention_dk_formula q v do dh scale H T K V BT l t kk else dk l t kk).
Proof.
  intros HBV Hit. cbv zeta. unfold chunk_retention_bwd_kernel_dqkv.
  rewrite (fold_quad (fun b i_v => badd b _) (fun b i_v => badd b _)
                     (fun b i_v => badd b _)
                     (fun m i_v => tl.store m _ _ _ _ _ _)).
  cbv beta zeta. cbn [fst snd]. rewrite !store_spec.
  destruct (stored _ _ _ _ _ _ _ _) eqn:Hs; [|split; reflexivity].
  apply stored_iff in Hs. cbn [fst snd] in Hs.
  destruct Hs as (-> & Ht & HtT & Hkk & HkkK).
  rewrite Nat.add_0_l in *.
  destruct (tile_index BT i_t t Ht) as [Ec Ei]. cbn [fst snd].
  set (i := (t - i_t * BT)%nat).
  set (j0 := (kk - i_k * BK)%nat).
  assert (Et : (i_t * BT + i = t)%nat) by (unfold i; lia).
  assert (Ekk : (i_k * BK + j0 = kk)%nat) by (unfold j0; lia).
  assert (Hi : (i_t * BT + i < T)%nat) by lia.
  assert (Hj0 : (i_k * BK + j0 < K)%nat) by lia.
  assert (HiBT : (i < BT)%nat) by (unfold i; lia).
  split.
  - unfold retention_dq_formula. cbv zeta. rewrite Ec, Ei. fold i.
    unfold badd at 1, brows.
    rewrite (dqkw_acc_state T K V BT BK BV NT i_k i_t i_bh HBV Hit do h i j0 Hi Hj0).
    rewrite Et, Ekk, exp2_nat_b_b.
    rewrite Rmult_plus_distr_l. f_equal; [ring|].
    unfold tl.dot at 1. rewrite <- sum_scal_l. rewrite (sum_pad (i + 1) BT).
    + apply sum_ext. intros j Hj. unfold bmul, bscale, tl.where0.
      destruct (Nat.leb_spec j i); [|lia].
      rewrite (dqkw_acc_ds v do T V BT BV i_t i_bh HBV i j).
      rewrite load_at. cbn [fst snd]. rewrite Et, Ekk.
      destruct (Nat.ltb_spec t T); [|lia].
      destruct (Nat.ltb_spec (i_t * BT + j) T); [|lia].
      destruct (Nat.ltb_spec kk K); [|lia].
      cbn [andb]. rewrite exp2_sub_b_b by lia.
      unfold tl.rows_of. cbn [Nat.add]. ring.
    + unfold i. lia.
    + intros j Hj. unfold bmul, bscale, tl.where0.
      destruct (Nat.leb_spec j i); [lia|]. ring.
  - unfold retention_dk_formula. cbv zeta. rewrite Ec, Ei. fold i.
    unfold badd at 1, brows.
    rewrite (dqkv_acc_dh v dh T K V BT BK BV NT i_k i_t i_bh i j0 HBV Hit Hi Hj0).
    rewrite Et, Ekk, exp2_chunk_b_b by assumption.
    f_equal; [ring|].
    unfold tl.trans at 1. unfold tl.dot at 1.
    rewrite (sum_pad (Nat.min BT (T - i_t * BT)) BT).
    + apply sum_ext. intros j Hj. unfold bmul, bscale, tl.where0.
      rewrite (dqkw_acc_ds v do T V BT BV i_t i_bh HBV j i).
      rewrite load_at. cbn [fst snd]. rewrite Et, Ekk.
      destruct (Nat.ltb_spec t T); [|lia].
      destruct (Nat.ltb_spec (i_t * BT + j) T); [|lia].
      destruct (Nat.ltb_spec kk K); [|lia].
      cbn [andb]. destruct (Nat.leb_spec i j); [|ring].
      rewrite exp2_sub_b_b by lia.
      unfold tl.cols_of. cbn [Nat.add]. ring.
    + lia.
    + intros j Hj. rewrite load_at. cbn [fst snd].
      destruct (Nat.ltb_spec (i_t * BT + j) T); [lia|].
      rewrite andb_false_r. ring.
Qed.

Lemma dqkv_program_dv (q k v h do dh : data) (scale : R)
      (H T K V BT BK BV NT n_bh : nat) (i_k i_t i_bh : nat) (dq dk dv : data)
      (l t nu : nat) :
  (0 < BV)%nat -> (i_t < NT)%nat ->
  snd (chunk_retention_bwd_kernel_dqkv q k v h do dh scale H T K V BT BK BV NT n_bh
                                       i_k i_t i_bh (dq, dk, dv)) l t nu
  = if existsb (fun i_v => stored (i_k * n_bh + i_bh) 0 (T, V)
                                  (i_t * BT, i_v * BV)%nat (BT, BV) l t nu)
               (seq 0 (tl.cdiv V BV))
    then retention_dv_slice q k do dh scale H T K BT BK i_k i_bh t nu
    else dv l t nu.
Proof.
  intros HBV Hit. unfold chunk_retention_bwd_kernel_dqkv.
  rewrite (fold_quad (fun b i_v => badd b _) (fun b i_v => badd b _)
                     (fun b i_v => badd b _)
                     (fun m i_v => tl.store m _ _ _ _ _ _)).
  cbv beta zeta. cbn [fst snd].
  rewrite (fold_store_cols
             (fun i_v =>
                badd (brows (tl.dot BK _ (tl.load (tl.rows_of dh i_bh 0) (NT * K, V)%nat
                                                  (i_t * K + i_k * BK, i_v * BV)%nat)) _)
                     (tl.dot BT _ (tl.load (tl.rows_of do i_bh 0) (T, V)
                                           (i_t * BT, i_v * BV)%nat))))
    by exact HBV.
  destruct (existsb _ _) eqn:Hex; [|reflexivity].
  apply existsb_exists in Hex as (i_v & _ & Hs).
  apply stored_iff in Hs. cbn [fst snd] in Hs.
  destruct Hs as (_ & Ht & HtT & Hnu & HnuV).
  rewrite Nat.add_0_l in *.
  destruct (tile_index BT i_t t Ht) as [Ec Ei].
  destruct (tile_index BV i_v nu Hnu) as [Ev _].
  unfold retention_dv_slice. cbv zeta. rewrite Ec, Ei, Ev.
  set (i := (t - i_t * BT)%nat).
  assert (Et : (i_t * BT + i = t)%nat) by (unfold i; lia).
  assert (Enu : (i_v * BV + (nu - i_v * BV) = nu)%nat) by lia.
  assert (HiBT : (i < BT)%nat) by (unfold i; lia).
  unfold badd at 1, brows. rewrite exp2_chunk_b_b by lia.
  f_equal.
  - rewrite Rmult_comm. f_equal. unfold tl.dot. apply sum_ext. intros a Ha.
    rewrite !load_at. cbn [fst snd]. rewrite Et, Enu.
    destruct (Nat.ltb_spec t T); [|lia].
    destruct (Nat.ltb_spec nu V); [|lia].
    destruct (Nat.ltb_spec (i_k * BK + a) K); cbn [andb]; [|ring].
    assert (Hc : (i_t * K + i_k * BK + a < NT * K)%nat) by nia.
    destruct (Nat.ltb_spec (i_t * K + i_k * BK + a) (NT * K)); [|lia].
    unfold tl.rows_of. cbn [Nat.add]. rewrite Nat.add_assoc. reflexivity.
  - unfold tl.dot at 1.
    rewrite (sum_pad (Nat.min BT (T - i_t * BT)) BT).
    + apply sum_ext. intros j Hj. unfold bmul, bscale, tl.trans, tl.where0.
      rewrite load_at. cbn [fst snd]. rewrite Enu.
      destruct (Nat.ltb_spec (i_t * BT + j) T); [|lia].
      destruct (Nat.ltb_spec nu V); [|lia].
      cbn [andb]. destruct (Nat.leb_spec i j); [|ring].
      rewrite exp2_sub_b_b by lia.
      assert (Ed : tl.dot BK (tl.load (tl.rows_of k i_bh 0) (T, K)
                                      (i_t * BT, i_k * BK)%nat)
                          (tl.load (tl.cols_of q i_bh 0) (K, T)
                                   (i_k * BK, i_t * BT)%nat) i j
                   = tl.sum BK (fun a => if (i_k * BK + a <? K)%nat
                                         then k i_bh t (i_k * BK + a)%nat
                                              * q i_bh (i_t * BT + j)%nat
                                                  (i_k * BK + a)%nat
                                         else 0)).
      { unfold tl.dot. apply sum_ext. intros a Ha.
        rewrite !load_at. cbn [fst snd]. rewrite Et.
        destruct (Nat.ltb_spec t T); [|lia].
        destruct (Nat.ltb_spec (i_t * BT + j) T); [|lia].
        destruct (Nat.ltb_spec (i_k * BK + a) K); cbn [andb]; [|ring].
        unfold tl.rows_of, tl.cols_of. cbn [Nat.add]. reflexivity. }
      rewrite Ed. unfold tl.rows_of. cbn [Nat.add]. ring.
    + lia.
    + intros j Hj. rewrite load_at. cbn [fst snd].
      destruct (Nat.ltb_spec (i_t * BT + j) T); [lia|]. cbn [andb]. ring.
Qed.

Lemma retention_dv_slices (q k do dh : data) (scale : R) (H T K BT BK : nat)
      (l t nu : nat) :
  (0 < BK)%nat ->
  tl.sum (tl.cdiv K BK)
         (fun i_k => retention_dv_slice q k do dh scale H T K BT BK i_k l t nu)
  = retention_dv_formula q k do dh scale H T K BT l t nu.
Proof.
  intros HBK. unfold retention_dv_slice, retention_dv_formula. cbv zeta.
  rewrite sum_plus. f_equal.
  - rewrite sum_scal_l. f_equal.
    apply (sum_tiles_pad K BK
             (fun kk => k l t kk * dh l (t / BT * K + kk)%nat nu) HBK).
  - rewrite sum_swap. apply sum_ext. intros j Hj.
    destruct (t mod BT <=? j)%nat; [|now apply sum_zero].
    rewrite sum_scal_r. f_equal. rewrite sum_scal_l. f_equal.
    apply (sum_tiles_pad K BK
             (fun kk => k l t kk * q l (t / BT * BT + j)%nat kk) HBK).
Qed.

Lemma dqkv_grid (q k v h do dh : data) (scale : R) (H T K V BT BK BV BH : nat)
      (mem : data * data * data) (l t : nat) :
  (0 < BT)%nat -> (0 < BK)%nat -> (0 < BV)%nat -> (l < BH)%nat -> (t < T)%nat ->
  let r := triton.launch (tl.cdiv K BK, tl.cdiv T BT, BH)
             (chunk_retention_bwd_kernel_dqkv q k v h do dh scale H T K V BT BK BV
                                              (tl.cdiv T BT) BH) mem in
  (forall kk, (kk < K)%nat ->
     fst (fst r) l t kk = retention_dq_formula k v h do scale H K V BT l t kk /\
     snd (fst r) l t kk = retention_dk_formula q v do dh scale H T K V BT l t kk) /\
  (forall i_k nu, (i_k < tl.cdiv K BK)%nat -> (nu < V)%nat ->
     snd r (i_k * BH + l)%nat t nu
     = retention_dv_slice q k do dh scale H T K BT BK i_k l t nu).
Proof.
  intros HBT HBK HBV Hl Ht. cbv zeta. split.
  - intros kk Hkk.
    assert (Hex : existsb (fun '(a, b, i) =>
                             stored i 0 (T, K) (b * BT, a * BK)%nat (BT, BK) l t kk)
                          (triton.programs (tl.cdiv K BK, tl.cdiv T BT, BH)) = true).
    { apply (existsb_programs _ _ _ _ (kk / BK)%nat (t / BT)%nat l); auto.
      - now apply tile_count.
      - now apply tile_count.
      - apply stored_iff. cbn [fst snd].
        pose proof (tile_bounds BT t HBT). pose proof (tile_bounds BK kk HBK). lia. }
    split.
    + rewrite (launch_writes _ _ (fun m => fst (fst m) l t kk)
                 (fun '(a, b, i) =>
                    stored i 0 (T, K) (b * BT, a * BK)%nat (BT, BK) l t kk)
                 (retention_dq_formula k v h do scale H K V BT l t kk)).
      * now rewrite Hex.
      * intros a b i [[dq dk] dv] Hin. apply in_programs in Hin.
        apply dqkv_program_dq_dk; [exact HBV | lia].
    + rewrite (launch_writes _ _ (fun m => snd (fst m) l t kk)
                 (fun '(a, b, i) =>
                    stored i 0 (T, K) (b * BT, a * BK)%nat (BT, BK) l t kk)
                 (retention_dk_formula q v do dh scale H T K V BT l t kk)).
      * now rewrite Hex.
      * intros a b i [[dq dk] dv] Hin. apply in_programs in Hin.
        apply dqkv_program_dq_dk; [exact HBV | lia].
  - intros i_k nu Hik Hnu.
    rewrite (launch_writes _ _ (fun m => snd m (i_k * BH + l)%nat t nu)
               (fun '(a, b, i) =>
                  existsb (fun i_v => stored (a * BH + i) 0 (T, V)
                                             (b * BT, i_v * BV)%nat (BT, BV)
                                             (i_k * BH + l)%nat t nu)
                          (seq 0 (tl.cdiv V BV)))
               (retention_dv_slice q k do dh scale H T K BT BK i_k l t nu)).
    + rewrite (existsb_programs _ _ _ _ i_k (t / BT)%nat l); auto.
      * now apply tile_count.
      * apply (existsb_seq _ _ (nu / BV)%nat); [now apply tile_count|].
        apply stored_iff. cbn [fst snd].
        pose proof (tile_bounds BT t HBT). pose proof (tile_bounds BV nu HBV). lia.
    + intros a b i [[dq dk] dv] Hin. apply in_programs in Hin.
      rewrite dqkv_program_dv by (exact HBV || lia).
      destruct (existsb _ _) eqn:Hex; [|reflexivity].
      apply existsb_exists in Hex as (i_v & _ & Hs).
      apply stored_iff in Hs. destruct Hs as (E & _).
      destruct (tile_index BH a (i_k * BH + l)%nat ltac:(lia)) as [Ea _].
      destruct (tile_index BH i_k (i_k * BH + l)%nat ltac:(lia)) as [Eb _].
      assert (a = i_k) as -> by congruence.
      assert (i = l) as -> by lia.
      reflexivity.
Qed.

(** The retention gradient engine: what it dispatches and what each cell
    of its results holds. *)
Lemma chunk_bwd_dqkv_fn_spec (uninit : data) (q k v h do dh : tensor) (scale : R)
      (B H T K V : nat) :
  t_shape k = [B; H; T; K] -> t_shape v = [B; H; T; V] ->
  (0 < K)%nat -> (0 < V)%nat ->
  exists dq dk dv,
    (forall wk,
       chunk_bwd_dqkv_fn uninit q k v h do dh scale wk
       = (inl (dq, dk, dv),
          wk ++ [Kernel "chunk_retention_bwd_kernel_dqkv"
                        (tl.cdiv K (Nat.min (triton.next_power_of_2 K) 64),
                         tl.cdiv T 64, B * H)%nat])) /\
    (t_shape dq = t_shape q /\ t_dtype dq = t_dtype q) /\
    (t_shape dk = t_shape k /\ t_dtype dk = t_dtype k) /\
    (t_shape dv = t_shape v /\ t_dtype dv = t_dtype v) /\
    (forall l t kk, (l < B * H)%nat -> (t < T)%nat -> (kk < K)%nat ->
       t_data dq l t kk
       = retention_dq_formula (t_data k) (t_data v) (t_data h) (t_data do) scale
                              H K V 64 l t kk /\
       t_data dk l t kk
       = retention_dk_formula (t_data q) (t_data v) (t_data do) (t_data dh) scale
                              H T K V 64 l t kk) /\
    (forall l t nu, (l < B * H)%nat -> (t < T)%nat -> (nu < V)%nat ->
       t_data dv l t nu
       = retention_dv_formula (t_data q) (t_data k) (t_data do) (t_data dh) scale
                              H T K 64 l t nu).
Proof.
  intros Hk Hv HK HV.
  pose proof (min_npow2_pos K HK) as HBK.
  pose proof (min_npow2_pos V HV) as HBV.
  assert (HBT : (0 < 64)%nat) by lia.
  set (BK := Nat.min (triton.next_power_of_2 K) 64) in *.
  set (BV := Nat.min (triton.next_power_of_2 V) 64) in *.
  set (mem := triton.launch (tl.cdiv K BK, tl.cdiv T 64, (B * H)%nat)
                (chunk_retention_bwd_kernel_dqkv (t_data q) (t_data k) (t_data v)
                   (t_data h) (t_data do) (t_data dh) scale H T K V 64 BK BV
                   (tl.cdiv T 64) (B * H))
                (t_data (new_empty uninit (t_shape q) (t_dtype q)),
                 t_data (new_empty uninit (t_shape k) (t_dtype k)),
                 t_data (new_empty uninit (tl.cdiv K BK :: t_shape v) (t_dtype v)))).
  exists (with_data (new_empty uninit (t_shape q) (t_dtype q)) (fst (fst mem))),
         (with_data (new_empty uninit (t_shape k) (t_dtype k)) (snd (fst mem))),
         (sum0 (with_data (new_empty uninit (tl.cdiv K BK :: t_shape v) (t_dtype v))
                          (snd mem))).
  split; [|split; [|split; [|split; [|split]]]].
  - intros wk. unfold chunk_bwd_dqkv_fn, bind.
    rewrite (dims_ok k v B H T K V [B; H; T] Hk Hv).
    rewrite !cdiv_ok by assumption. unfold dispatch, ret. reflexivity.
  - split; reflexivity.
  - split; reflexivity.
  - split; reflexivity.
  - intros l t kk Hl Ht Hkk. cbn [t_data with_data].
    apply (proj1 (dqkv_grid (t_data q) (t_data k) (t_data v) (t_data h) (t_data do)
                            (t_data dh) scale H T K V 64 BK BV (B * H) _ l t
                            HBT HBK HBV Hl Ht)).
    exact Hkk.
  - intros l t nu Hl Ht Hnu.
    unfold sum0. cbn [t_shape t_data with_data new_empty].
    rewrite Hv. cbn [List.length Nat.sub firstn fold_right].
    rewrite Nat.mul_1_r.
    rewrite <- (retention_dv_slices (t_data q) (t_data k) (t_data do) (t_data dh) scale
                                    H T K 64 BK l t nu HBK).
    apply sum_ext. intros i_k Hik.
    apply (proj2 (dqkv_grid (t_data q) (t_data k) (t_data v) (t_data h) (t_data do)
                            (t_data dh) scale H T K V 64 BK BV (B * H) _ l t
                            HBT HBK HBV Hl Ht)); assumption.
Qed.

(** X11.  The gradient engine of retention, [chunk_bwd_dqkv_fn], works on
    chunks of 64 positions whatever the caller's chunk size, launches one
    program per (K-tile, chunk, lane) and returns, for every position [t]
    (position [i] of chunk [c], which holds [L] valid positions), with
    [r] the decay rate of the head:
    [dq = scale * (r^(i+1) * do_t . h[c][kk]
                   + sum_{j <= i} r^(i-j) * (do_t . v_j) * k_j[kk])];
    [dk = r^(L-i-1) * v_t . dh[c][kk]
          + sum_{i <= j < L} scale * r^(j-i) * q_j[kk] * (do_j . v_t)];
    [dv = r^(L-i-1) * k_t . dh[c][nu]
          + sum_{i <= j < L} scale * r^(j-i) * (k_t . q_j) * do_j[nu]],
    where the value gradient is the sum over the K-tiles of the partial
    results that the programs of each K-tile store in their own slice.
    The results have the shapes and dtypes of [q], [k] and [v]. *)
Theorem retention_gradient_formulas
    (uninit : data) (q k v h do dh : tensor) (scale : R)
    (B H T K V : nat) (wk : list work) :
  t_shape k = [B; H; T; K] -> t_shape v = [B; H; T; V] ->
  (0 < K)%nat -> (0 < V)%nat ->
  exists dq dk dv,
    chunk_bwd_dqkv_fn uninit q k v h do dh scale wk
    = (inl (dq, dk, dv),
       wk ++ [Kernel "chunk_retention_bwd_kernel_dqkv"
                     (tl.cdiv K (Nat.min (triton.next_power_of_2 K) 64),
                      tl.cdiv T 64, B * H)%nat]) /\
    (t_shape dq = t_shape q /\ t_dtype dq = t_dtype q) /\
    (t_shape dk = t_shape k /\ t_dtype dk = t_dtype k) /\
    (t_shape dv = t_shape v /\ t_dtype dv = t_dtype v) /\
    forall l t, (l < B * H)%nat -> (t < T)%nat ->
      let c := (t / 64)%nat in
      let i := (t mod 64)%nat in
      let L := Nat.min 64 (T - c * 64) in
      let r := rate (l mod H) in
      (forall kk, (kk < K)%nat ->
         t_data dq l t kk
         = scale *
           (r ^ (i + 1)
            * tl.sum V (fun nu => t_data do l t nu * t_data h l (c * K + kk)%nat nu)
            + tl.sum (i + 1)
                (fun j => r ^ (i - j)
                          * tl.sum V (fun nu => t_data do l t nu
                                                * t_data v l (c * 64 + j)%nat nu)
                          * t_data k l (c * 64 + j)%nat kk)) /\
         t_data dk l t kk
         = r ^ (L - i - 1)
           * tl.sum V (fun nu => t_data v l t nu * t_data dh l (c * K + kk)%nat nu)
           + tl.sum L
               (fun j => if (i <=? j)%nat
                         then scale * r ^ (j - i) * t_data q l (c * 64 + j)%nat kk
                              * tl.sum V (fun nu => t_data do l (c * 64 + j)%nat nu
                                                    * t_data v l t nu)
                         else 0)) /\
      (forall nu, (nu < V)%nat ->
         t_data dv l t nu
         = r ^ (L - i - 1)
           * tl.sum K (fun kk => t_data k l t kk * t_data dh l (c * K + kk)%nat nu)
           + tl.sum L
               (fun j => if (i <=? j)%nat
                         then scale * r ^ (j - i)
                              * tl.sum K (fun kk => t_data k l t kk
                                                    * t_data q l (c * 64 + j)%nat kk)
                              * t_data do l (c * 64 + j)%nat nu
                         else 0)).
Proof.
  intros Hk Hv HK HV.
  destruct (chunk_bwd_dqkv_fn_spec uninit q k v h do dh scale B H T K V Hk Hv HK HV)
    as (dq & dk & dv & E & Hsq & Hsk & Hsv & Hqk & Hdv).
  exists dq, dk, dv. split; [apply E|]. split; [exact Hsq|]. split; [exact Hsk|].
  split; [exact Hsv|].
  intros l t Hl Ht. cbv zeta. split.
  - intros kk Hkk. exact (Hqk l t kk Hl Ht Hkk).
  - intros nu Hnu. exact (Hdv l t nu Hl Ht Hnu).
Qed.

(** ** The retention backward pass is the adjoint of the recurrent form *)

Lemma retention_adj_step (g scale : R) (q do dT : block) (T t kk nu : nat) :
  (t < T)%nat ->
  retention_adj g scale q do dT T (T - t) kk nu
  = g * (retention_adj g scale q do dT T (T - S t) kk nu
         + scale * q t kk * do t nu).
Proof.
  intros Ht. replace (T - t)%nat with (S (T - S t)) by lia.
  cbn [retention_adj]. replace (T - S (T - S t))%nat with t by lia. reflexivity.
Qed.

Lemma retention_adj_unroll (g scale : R) (q do dT : block) (T t0 L kk nu : nat) :
  (t0 + L <= T)%nat ->
  retention_adj g scale q do dT T (T - t0) kk nu
  = g ^ L * retention_adj g scale q do dT T (T - (t0 + L)) kk nu
    + tl.sum L (fun m => g ^ (m + 1)
                         * (scale * q (t0 + m)%nat kk * do (t0 + m)%nat nu)).
Proof.
  induction L as [|L IH]; intros HL.
  - rewrite Nat.add_0_r. cbn. lra.
  - rewrite IH by lia. rewrite (retention_adj_step g scale q do dT T (t0 + L)) by lia.
    cbn [tl.sum]. replace (S (t0 + L)) with (t0 + S L)%nat by lia.
    replace (L + 1)%nat with (S L) by lia. cbn [pow]. ring.
Qed.

Lemma retention_dH_adj (q do dht : data) (scale : R) (H T K V BT : nat) (USE : bool)
      (l n kk nu : nat) :
  (0 < BT)%nat -> (n <= tl.cdiv T BT)%nat -> (kk < K)%nat -> (nu < V)%nat ->
  let c := (tl.cdiv T BT - n)%nat in
  retention_dH q do dht scale H T K V BT (tl.cdiv T BT) USE l c kk nu
  = retention_adj (rate (l mod H)) scale (q l) (do l)
                  (fun kk nu => if USE then dht l kk nu else 0)
                  T (T - Nat.min (c * BT) T) kk nu.
Proof.
  intros HBT Hn Hkk Hnu. cbv zeta. induction n as [|n IH].
  - rewrite Nat.sub_0_r. rewrite retention_dH_NT by assumption.
    pose proof (cdiv_cover T BT HBT) as Hcov. fold (tl.cdiv T BT) in Hcov.
    rewrite (Nat.min_r _ T) by exact Hcov. rewrite Nat.sub_diag. reflexivity.
  - set (c := (tl.cdiv T BT - S n)%nat).
    assert (Hc : (c < tl.cdiv T BT)%nat) by (unfold c; lia).
    pose proof (cdiv_chunk_lt T BT c HBT Hc) as HcT.
    rewrite (retention_dH_fold q do dht scale H T K V BT USE l c kk nu HBT Hc Hkk Hnu).
    replace (S c) with (tl.cdiv T BT - n)%nat by (unfold c; lia).
    rewrite IH by lia.
    replace ((tl.cdiv T BT - n) * BT)%nat with (S c * BT)%nat by (unfold c; f_equal; lia).
    replace (Nat.min (c * BT) T) with (c * BT)%nat by lia.
    replace (Nat.min (S c * BT) T) with (c * BT + Nat.min BT (T - c * BT))%nat by lia.
    rewrite (retention_adj_unroll _ _ _ _ _ T (c * BT) (Nat.min BT (T - c * BT)))
      by lia.
    f_equal. apply sum_ext. intros i Hi. ring.
Qed.

Lemma sum_from (L i : nat) (f : nat -> R) :
  (i <= L)%nat ->
  tl.sum L (fun j => if (i <=? j)%nat then f j else 0)
  = tl.sum (L - i) (fun m => f (i + m)%nat).
Proof.
  intros Hi. replace L with (i + (L - i))%nat at 1 by lia.
  rewrite sum_split, sum_zero.
  - rewrite Rplus_0_l. apply sum_ext. intros m _.
    destruct (Nat.leb_spec i (i + m)); [reflexivity | lia].
  - intros j Hj. destruct (Nat.leb_spec i j); [lia | reflexivity].
Qed.

Lemma sum_S_front (n : nat) (f : nat -> R) :
  tl.sum (S n) f = f 0%nat + tl.sum n (fun m => f (S m)).
Proof.
  induction n as [|n IH]; [cbn; lra|].
  change (tl.sum (S (S n)) f) with (tl.sum (S n) f + f (S n)).
  rewrite IH. cbn [tl.sum]. lra.
Qed.

(** The gradient that reaches the state [S (t+1)], unrolled to the end of
    the chunk of [t]: the decayed gradient of the state after the chunk
    plus the decayed contributions of the outputs from [t] on. *)
Lemma retention_adj_chunk (g scale : R) (q do dT : block) (T t0 L i kk nu : nat) :
  (i < L)%nat -> (t0 + L <= T)%nat ->
  retention_adj g scale q do dT T (T - S (t0 + i)) kk nu
  + scale * q (t0 + i)%nat kk * do (t0 + i)%nat nu
  = g ^ (L - i - 1) * retention_adj g scale q do dT T (T - (t0 + L)) kk nu
    + tl.sum L (fun j => if (i <=? j)%nat
                         then scale * g ^ (j - i) * q (t0 + j)%nat kk * do (t0 + j)%nat nu
                         else 0).
Proof.
  intros Hi HL.
  rewrite (sum_from L i (fun j => scale * g ^ (j - i) * q (t0 + j)%nat kk
                                  * do (t0 + j)%nat nu)) by lia.
  remember (L - i - 1)%nat as n eqn:En.
  replace (L - i)%nat with (S n) by lia.
  rewrite (retention_adj_unroll g scale q do dT T (S (t0 + i)) n) by lia.
  replace (S (t0 + i) + n)%nat with (t0 + L)%nat by lia.
  rewrite sum_S_front.
  rewrite Nat.add_0_r, Nat.sub_diag. cbn [pow].
  rewrite Rplus_assoc. f_equal. rewrite Rplus_comm. f_equal; [ring|].
  apply sum_ext. intros m Hm.
  replace (i + S m - i)%nat with (m + 1)%nat by lia.
  replace (S (t0 + i) + m)%nat with (t0 + (i + S m))%nat by lia. ring.
Qed.

Section RetentionAdjoint.

Variables (q k v h do dh : data) (s0 dT : block) (scale : R) (H T K V BT : nat).
Variables (l t : nat).
Hypotheses (HBT : (0 < BT)%nat) (Ht : (t < T)%nat).

Let c := (t / BT)%nat.
Let i := (t mod BT)%nat.
Let L := Nat.min BT (T - c * BT).
Let g := rate (l mod H).
Let S := retention_seq g (k l) (v l) s0.
Let D (t' : nat) := retention_adj g scale (q l) (do l) dT T (T - t').

Let Et : (c * BT + i = t)%nat.
Proof. unfold c, i. pose proof (Nat.div_mod_eq t BT). lia. Qed.

Let HiL : (i < L)%nat.
Proof.
  unfold L, i, c. pose proof (Nat.div_mod_eq t BT).
  pose proof (Nat.mod_upper_bound t BT ltac:(lia)). lia.
Qed.

Hypothesis Hh : forall kk nu, (kk < K)%nat -> (nu < V)%nat ->
                              h l (c * K + kk)%nat nu = S (c * BT)%nat kk nu.
Hypothesis Hdh : forall kk nu, (kk < K)%nat -> (nu < V)%nat ->
                               dh l (c * K + kk)%nat nu = D (c * BT + L)%nat kk nu.

Lemma retention_dq_adj (kk : nat) :
  (kk < K)%nat ->
  retention_dq_formula k v h do scale H K V BT l t kk
  = scale * tl.sum V (fun nu => do l t nu * S (Datatypes.S t) kk nu).
Proof.
  intros Hkk. unfold retention_dq_formula. cbv zeta. fold c i g. f_equal.
  transitivity
    (tl.sum V (fun nu => do l t nu
                         * (g ^ (i + 1) * h l (c * K + kk)%nat nu
                            + tl.sum (i + 1)
                                (fun j => g ^ (i - j) * (k l (c * BT + j)%nat kk
                                                         * v l (c * BT + j)%nat nu))))).
  - transitivity
      (tl.sum V (fun nu => g ^ (i + 1) * (do l t nu * h l (c * K + kk)%nat nu)
                           + tl.sum (i + 1)
                               (fun j => g ^ (i - j)
                                         * (do l t nu * v l (c * BT + j)%nat nu)
                                         * k l (c * BT + j)%nat kk))).
    + rewrite sum_plus, sum_scal_l, sum_swap. f_equal.
      apply sum_ext. intros j _.
      rewrite <- sum_scal_l, <- sum_scal_r. apply sum_ext. intros nu _. ring.
    + apply sum_ext. intros nu _.
      rewrite Rmult_plus_distr_l, <- sum_scal_l. f_equal; [ring|].
      apply sum_ext. intros j _. ring.
  - apply sum_ext. intros nu Hnu. f_equal.
    replace (Datatypes.S t) with (c * BT + (i + 1))%nat by (pose proof Et; lia).
    unfold S. rewrite retention_seq_unroll. fold S. rewrite <- Hh by assumption.
    f_equal. apply sum_ext. intros j Hj.
    replace (i + 1 - 1 - j)%nat with (i - j)%nat by lia. reflexivity.
Qed.

Lemma retention_dk_adj (kk : nat) :
  (kk < K)%nat ->
  retention_dk_formula q v do dh scale H T K V BT l t kk
  = tl.sum V (fun nu => v l t nu
                        * (D (Datatypes.S t) kk nu + scale * q l t kk * do l t nu)).
Proof.
  intros Hkk. unfold retention_dk_formula. cbv zeta. fold c i L g.
  transitivity
    (tl.sum V (fun nu => v l t nu
                         * (g ^ (L - i - 1) * D (c * BT + L)%nat kk nu
                            + tl.sum L
                                (fun j => if (i <=? j)%nat
                                          then scale * g ^ (j - i)
                                               * q l (c * BT + j)%nat kk
                                               * do l (c * BT + j)%nat nu
                                          else 0)))).
  - transitivity
      (tl.sum V (fun nu => g ^ (L - i - 1) * (v l t nu * dh l (c * K + kk)%nat nu)
                           + tl.sum L
                               (fun j => if (i <=? j)%nat
                                         then scale * g ^ (j - i)
                                              * q l (c * BT + j)%nat kk
                                              * (do l (c * BT + j)%nat nu * v l t nu)
                                         else 0))).
    + rewrite sum_plus, sum_scal_l, sum_swap. f_equal.
      apply sum_ext. intros j _.
      destruct (i <=? j)%nat; [|symmetry; now apply sum_zero].
      now rewrite sum_scal_l.
    + apply sum_ext. intros nu Hnu.
      rewrite Rmult_plus_distr_l, <- sum_scal_l, Hdh by assumption.
      f_equal; [ring|].
      apply sum_ext. intros j _. destruct (i <=? j)%nat; ring.
  - apply sum_ext. intros nu Hnu. f_equal.
    unfold D. rewrite <- Et at 1 2 3. symmetry.
    apply retention_adj_chunk; [exact HiL|].
    unfold L. pose proof Et. pose proof HiL. unfold L in *. lia.
Qed.

Lemma retention_dv_adj (nu : nat) :
  (nu < V)%nat ->
  retention_dv_formula q k do dh scale H T K BT l t nu
  = tl.sum K (fun kk => k l t kk
                        * (D (Datatypes.S t) kk nu + scale * q l t kk * do l t nu)).
Proof.
  intros Hnu. unfold retention_dv_formula. cbv zeta. fold c i L g.
  transitivity
    (tl.sum K (fun kk => k l t kk
                         * (g ^ (L - i - 1) * D (c * BT + L)%nat kk nu
                            + tl.sum L
                                (fun j => if (i <=? j)%nat
                                          then scale * g ^ (j - i)
                                               * q l (c * BT + j)%nat kk
                                               * do l (c * BT + j)%nat nu
                                          else 0)))).
  - transitivity
      (tl.sum K (fun kk => g ^ (L - i - 1) * (k l t kk * dh l (c * K + kk)%nat nu)
                           + tl.sum L
                               (fun j => if (i <=? j)%nat
                                         then scale * g ^ (j - i)
                                              * (k l t kk * q l (c * BT + j)%nat kk)
                                              * do l (c * BT + j)%nat nu
                                         else 0))).
    + rewrite sum_plus, sum_scal_l, sum_swap. f_equal.
      apply sum_ext. intros j _.
      destruct (i <=? j)%nat; [|symmetry; now apply sum_zero].
      rewrite sum_scal_r, sum_scal_l. reflexivity.
    + apply sum_ext. intros kk Hkk.
      rewrite Rmult_plus_distr_l, <- sum_scal_l, Hdh by assumption.
      f_equal; [ring|].
      apply sum_ext. intros j _. destruct (i <=? j)%nat; ring.
  - apply sum_ext. intros kk Hkk. f_equal.
    unfold D. rewrite <- Et at 1 2 3. symmetry.
    apply retention_adj_chunk; [exact HiL|].
    unfold L. pose proof Et. pose proof HiL. unfold L in *. lia.
Qed.

End RetentionAdjoint.

(** X12.  The backward pass of retention, [ChunkRetentionFunction.backward]
    with the chunk size 64 that [forward] saves, computes the adjoint of
    the recurrent form.  It recomputes the state snapshots, runs the
    backward state kernel and the gradient kernel, and returns, with
    [S (t+1) = rate * S t + k_t^T v_t] the states of the forward recurrence
    and [D t] the gradient with respect to [S t], given by [D T = dht] (zero
    when there is none) and [D t = rate * (D (t+1) + scale * q_t^T do_t)]:
    [dq_t = scale * S (t+1) do_t],
    [dk_t = (D (t+1) + scale * q_t^T do_t) v_t],
    [dv_t = k_t (D (t+1) + scale * q_t^T do_t)], each with the dtype of its
    input, no gradient for the scale and for the flag, and [dh0 = D 0] as a
    float32 tensor exactly when an initial state was given. *)
Theorem retention_backward_adjoint
    (uninit : data) (q k v : tensor) (h0 : option tensor) (scale : R)
    (do : tensor) (dht : option tensor) (B H T K V : nat) :
  t_shape q = [B; H; T; K] -> t_shape k = [B; H; T; K] -> t_shape v = [B; H; T; V] ->
  (0 < K)%nat -> (0 < V)%nat ->
  let S := fun l => retention_seq (rate (l mod H)) (t_data k l) (t_data v l)
                                  (state0 h0 l) in
  let D := fun l t => retention_adj (rate (l mod H)) scale (t_data q l) (t_data do l)
                                    (state0 dht l) T (T - t) in
  exists dq dk dv g,
    run (ChunkRetentionFunction_backward uninit q k v h0 64 scale do dht)
    = (inl (dq, dk, dv, None, g, None),
       [Kernel "chunk_retention_fwd_kernel_h"
               (tl.cdiv K (Nat.min 64 (triton.next_power_of_2 K)),
                tl.cdiv V (Nat.min 64 (triton.next_power_of_2 V)), B * H)%nat;
        Kernel "chunk_retention_bwd_kernel_dh"
               (tl.cdiv K (Nat.min (triton.next_power_of_2 K) 64),
                tl.cdiv V (Nat.min (triton.next_power_of_2 V) 64), B * H)%nat;
        Kernel "chunk_retention_bwd_kernel_dqkv"
               (tl.cdiv K (Nat.min (triton.next_power_of_2 K) 64),
                tl.cdiv T 64, B * H)%nat]) /\
    (t_dtype dq = t_dtype q /\ t_dtype dk = t_dtype k /\ t_dtype dv = t_dtype v) /\
    (forall l t, (l < B * H)%nat -> (t < T)%nat ->
       (forall kk, (kk < K)%nat ->
          t_data dq l t kk
          = scale * tl.sum V (fun nu => t_data do l t nu * S l (Datatypes.S t) kk nu) /\
          t_data dk l t kk
          = tl.sum V (fun nu => t_data v l t nu
                                * (D l (Datatypes.S t) kk nu
                                   + scale * t_data q l t kk * t_data do l t nu))) /\
       (forall nu, (nu < V)%nat ->
          t_data dv l t nu
          = tl.sum K (fun kk => t_data k l t kk
                                * (D l (Datatypes.S t) kk nu
                                   + scale * t_data q l t kk * t_data do l t nu)))) /\
    match h0 with
    | None => g = None
    | Some _ =>
        exists g0, g = Some g0 /\ t_dtype g0 = float32 /\
          forall l kk nu, (l < B * H)%nat -> (kk < K)%nat -> (nu < V)%nat ->
                          t_data g0 l kk nu = D l 0%nat kk nu
    end.
Proof.
  intros Hq Hk Hv HK HV S D.
  assert (HBT : (0 < 64)%nat) by lia.
  assert (Hs0 : forall l, (fun kk nu => if is_some h0 then data_of h0 l kk nu else 0)
                          = state0 h0 l).
  { intros l. unfold state0. destruct h0; reflexivity. }
  assert (HdT : forall l, (fun kk nu => if is_some dht then data_of dht l kk nu else 0)
                          = state0 dht l).
  { intros l. unfold state0. destruct dht; reflexivity. }
  destruct (chunk_fwd_h_fn_spec uninit k v h0 64 false B H T K V [B; H; T] []
              Hk Hv HK HV HBT) as (h & ht & Eh & _ & Hh & _).
  destruct (chunk_bwd_dh_fn_spec uninit q k v h0 do dht 64 scale B H T K V [B; H; T]
              ([] ++ [Kernel "chunk_retention_fwd_kernel_h"
                             (tl.cdiv K (Nat.min 64 (triton.next_power_of_2 K)),
                              tl.cdiv V (Nat.min 64 (triton.next_power_of_2 V)),
                              B * H)%nat])
              Hk Hv HK HV) as (dh & g & Edh & _ & Hdh & Hg).
  destruct (chunk_bwd_dqkv_fn_spec uninit q k v h do dh scale B H T K V Hk Hv HK HV)
    as (dq & dk & dv & Edqkv & _ & _ & _ & Hqk & Hdv).
  exists (to_dtype dq (t_dtype q)), (to_dtype dk (t_dtype k)),
         (to_dtype dv (t_dtype v)), g.
  assert (Hh' : forall l t kk nu, (l < B * H)%nat -> (t < T)%nat ->
                  (kk < K)%nat -> (nu < V)%nat ->
                  t_data h l (t / 64 * K + kk)%nat nu = S l (t / 64 * 64)%nat kk nu).
  { intros l t kk nu Hl Ht Hkk Hnu.
    assert (Hc : (t / 64 < tl.cdiv T 64)%nat) by now apply tile_count.
    rewrite Hh by assumption.
    rewrite retention_H_seq by (assumption || lia).
    pose proof (tile_bounds 64 t HBT).
    rewrite (Nat.min_l _ T) by lia. unfold S. now rewrite Hs0. }
  assert (Hdh' : forall l t kk nu, (l < B * H)%nat -> (t < T)%nat ->
                   (kk < K)%nat -> (nu < V)%nat ->
                   t_data dh l (t / 64 * K + kk)%nat nu
                   = D l (t / 64 * 64 + Nat.min 64 (T - t / 64 * 64))%nat kk nu).
  { intros l t kk nu Hl Ht Hkk Hnu.
    assert (Hc : (t / 64 < tl.cdiv T 64)%nat) by now apply tile_count.
    rewrite Hdh by assumption.
    pose proof (retention_dH_adj (t_data q) (t_data do) (data_of dht) scale H T K V 64
                  (is_some dht) l (tl.cdiv T 64 - Datatypes.S (t / 64))%nat kk nu HBT ltac:(lia)
                  Hkk Hnu) as E.
    cbv zeta in E.
    replace (tl.cdiv T 64 - (tl.cdiv T 64 - Datatypes.S (t / 64)))%nat
      with (Datatypes.S (t / 64)) in E
      by lia.
    rewrite E, HdT. unfold D. f_equal.
    pose proof (tile_bounds 64 t HBT). lia. }
  split; [|split; [|split]].
  - unfold run, ChunkRetentionFunction_backward.
    erewrite bind_inl by apply Eh. cbv beta iota.
    erewrite bind_inl by apply Edh. cbv beta iota.
    erewrite bind_inl by apply Edqkv. reflexivity.
  - repeat split; reflexivity.
  - intros l t Hl Ht. split.
    + intros kk Hkk. cbn [t_data to_dtype].
      destruct (Hqk l t kk Hl Ht Hkk) as [-> ->]. split.
      * apply (retention_dq_adj (t_data k) (t_data v) (t_data h) (t_data do)
                 (state0 h0 l) scale H T K V 64 l t HBT Ht); [|exact Hkk].
        intros kk' nu Hkk' Hnu. now apply Hh'.
      * apply (retention_dk_adj (t_data q) (t_data v) (t_data do) (t_data dh)
                 (state0 dht l) scale H T K V 64 l t HBT Ht); [|exact Hkk].
        intros kk' nu Hkk' Hnu. now apply Hdh'.
    + intros nu Hnu. cbn [t_data to_dtype]. rewrite (Hdv l t nu Hl Ht Hnu).
      apply (retention_dv_adj (t_data q) (t_data k) (t_data do) (t_data dh)
               (state0 dht l) scale H T K V 64 l t HBT Ht); [|exact Hnu].
      intros kk nu' Hkk Hnu'. now apply Hdh'.
  - destruct h0 as [x|]; [|exact Hg].
    destruct Hg as (g0 & -> & Hd & _ & Hg0).
    exists g0. split; [reflexivity|]. split; [exact Hd|].
    intros l kk nu Hl Hkk Hnu. rewrite Hg0 by assumption.
    pose proof (retention_dH_adj (t_data q) (t_data do) (data_of dht) scale H T K V 64
                  (is_some dht) l (tl.cdiv T 64) kk nu HBT ltac:(lia) Hkk Hnu) as E.
    cbv zeta in E. rewrite Nat.sub_diag in E. rewrite E, HdT.
    unfold D. f_equal.
Qed.

(** ** The query gradient of the delta rule *)

Section DeltaSeqGrad.

Variables (BH T K V BT BC : nat) (k v u w h0 : data) (beta : nat -> nat -> R).
Variable USE : bool.
Hypothesis Hwy : wy_contract BH T K V BT k v beta w u.
Hypotheses (HBT : (0 < BT)%nat) (Hdiv : (tl.cdiv BT BC * BC = BT)%nat).
Variable l : nat.
Hypothesis Hl : (l < BH)%nat.

Let S := delta_seq K (k l) (v l) (beta l) (fun kk nu => if USE then h0 l kk nu else 0).
Let Hs := delta_H k u w h0 T K V BT BC USE l.

Lemma delta_dq_seq (v_new h do : data) (scale : R) (t kk : nat) :
  (t < T)%nat -> (kk < K)%nat ->
  (forall kk' nu, (kk' < K)%nat -> (nu < V)%nat ->
     h l (t / BT * K + kk')%nat nu = Hs (t / BT)%nat kk' nu) ->
  (forall t' nu, (t' < T)%nat -> (nu < V)%nat ->
     v_new l t' nu
     = u l t' nu - tl.sum K (fun kk' => w l t' kk' * Hs (t' / BT)%nat kk' nu)) ->
  dqkw_dq_formula k v_new h do scale K V BT l t kk
  = scale * tl.sum V (fun nu => do l t nu * S (Datatypes.S t) kk nu).
Proof.
  intros Ht Hkk Hh Hv. unfold dqkw_dq_formula. cbv zeta.
  set (c := (t / BT)%nat) in *. set (i := (t mod BT)%nat).
  assert (Et : (t = c * BT + i)%nat).
  { pose proof (Nat.div_mod_eq t BT). unfold c, i. lia. }
  assert (Hi : (i < BT)%nat) by (apply Nat.mod_upper_bound; lia).
  assert (Hc : (c < tl.cdiv T BT)%nat) by now apply tile_count.
  assert (HH : forall kk' nu, (kk' < K)%nat -> (nu < V)%nat ->
                              Hs c kk' nu = S (c * BT) kk' nu).
  { intros kk' nu Hkk' Hnu. unfold Hs, S.
    rewrite (delta_H_seq BH T K V BT BC k v u w h0 beta USE Hwy HBT Hdiv l Hl c nu)
      by (assumption || lia).
    f_equal. lia. }
  f_equal. replace (Datatypes.S t) with (c * BT + (i + 1))%nat by lia.
  transitivity
    (tl.sum V (fun nu => do l t nu * h l (c * K + kk)%nat nu
                         + tl.sum (i + 1)
                             (fun j => do l t nu * v_new l (c * BT + j)%nat nu
                                       * k l (c * BT + j)%nat kk))).
  - rewrite sum_plus, sum_swap. f_equal.
    apply sum_ext. intros j _. now rewrite sum_scal_r.
  - apply sum_ext. intros nu Hnu.
    unfold S.
    rewrite (delta_seq_in_chunk BH T K V BT BC k v u w h0 beta USE Hwy HBT Hdiv l Hl
               c (i + 1) nu) by (assumption || lia).
    fold S. rewrite Rmult_plus_distr_l, <- sum_scal_l, Hh, HH by assumption.
    f_equal. apply sum_ext. intros j Hj.
    rewrite Hv by (assumption || lia).
    destruct (tile_index BT c (c * BT + j)%nat ltac:(lia)) as [-> _].
    rewrite (sum_ext K (fun kk0 => w l (c * BT + j)%nat kk0 * Hs c kk0 nu)
                     (fun kk' => w l (c * BT + j)%nat kk' * S (c * BT) kk' nu))
      by (intros; now rewrite HH).
    ring.
Qed.

End DeltaSeqGrad.

(** X13.  The backward pass of the delta rule that recomputes its
    snapshots ([chunk_delta_rule_bwd] called without [h] and [v_new], as
    after a forward pass with [checkpoint_level = 1]), on validated inputs
    and with a recomputation collaborator that returns a WY representation
    of [(k, v, beta)]: it hands to the device, in this order, the
    recomputation of [W, U], the forward state kernel, the value-gradient
    preparation, the backward state kernel, the gradient kernel and the WY
    gradient collaborator; the query gradient it returns is
    [dq_t = scale * S (t+1) do_t] with [S] the states of the recurrent delta
    rule, the gradient of the output [o_t = scale * q_t . S (t+1)]; and it
    returns an initial-state gradient exactly when an initial state that
    requires a gradient was given. *)
Theorem delta_rule_backward_query_gradient
    (uninit : data) (capability : nat * nat)
    (rwu : tensor -> tensor -> tensor -> tensor -> nat -> tensor * tensor)
    (bwy : tensor -> tensor -> tensor -> tensor -> tensor -> tensor -> nat
           -> tensor * tensor * tensor)
    (q k v beta A : tensor) (scale : R) (h0 : option tensor) (do : tensor)
    (dht : option tensor) (B H T K V : nat) :
  t_shape q = [B; H; T; K] -> t_shape k = [B; H; T; K] -> t_shape do = [B; H; T; V] ->
  (0 < K <= 256)%nat -> (0 < V)%nat ->
  (let wu := rwu k v beta A 64%nat in
   t_shape (snd wu) = [B; H; T; V] /\
   wy_contract (B * H) T K V 64 (t_data k) (t_data v) (beta_at beta)
               (t_data (fst wu)) (t_data (snd wu))) ->
  let S := fun l => delta_seq K (t_data k l) (t_data v l) (beta_at beta l)
                              (state0 h0 l) in
  exists r,
    run (chunk_delta_rule_bwd uninit capability rwu bwy q k v beta A None None scale h0
                              do dht 64)
    = (inl r,
       [Collaborator "fwd_recompute_w_u";
        Kernel "chunk_delta_rule_fwd_kernel_h"
               (1, tl.cdiv V (fst (fwd_h_tiles capability K)), B * H)%nat;
        Kernel "chunk_delta_rule_fwd_kernel_prepare_dv" (tl.cdiv T 64, B * H, 1)%nat;
        Kernel "chunk_delta_rule_bwd_kernel_dhu"
               (1, tl.cdiv V (fst (bwd_dhu_tiles capability K)), B * H)%nat;
        Kernel "chunk_delta_rule_bwd_kernel_dqkw"
               (tl.cdiv K (Nat.min (triton.next_power_of_2 K) 64), tl.cdiv T 64,
                B * H)%nat;
        Collaborator "bwd_prepare_wy_repr"]) /\
    (forall l t kk, (l < B * H)%nat -> (t < T)%nat -> (kk < K)%nat ->
       t_data (g_dq r) l t kk
       = scale * tl.sum V (fun nu => t_data do l t nu * S l (Datatypes.S t) kk nu)) /\
    is_some (g_dh0 r)
    = match h0 with Some s => t_requires_grad s | None => false end.
Proof.
  intros Hq Hk Hdo HK HV Hwu S.
  assert (HBT : (0 < 64)%nat) by lia.
  destruct (rwu k v beta A 64%nat) as [w u] eqn:Erwu. cbv zeta in Hwu.
  cbn [fst snd] in Hwu. destruct Hwu as [Hu Hwy].
  assert (Hs0 : forall l, (fun kk nu => if is_some h0 then data_of h0 l kk nu else 0)
                          = state0 h0 l).
  { intros l. unfold state0. destruct h0; reflexivity. }
  destruct (chunk_delta_rule_fwd_h_fn_spec uninit capability k w u 64 h0 None
              B H T K V [B; H; T] ([] ++ [Collaborator "fwd_recompute_w_u"])
              Hk Hu HK HV HBT)
    as (h & v_new & ht & Eh & Hsv & Hh & Hvn & Hht).
  rewrite Hu in Hsv. specialize (Hvn (fwd_h_tiles_64 capability K)).
  destruct (chunk_delta_rule_fwd_prepare_dv_ok uninit q k do 64 scale B H T K V
              [B; H; T] Hk Hdo HBT) as (dv & _ & Edv).
  set (dh0 := match h0 with
              | Some s0 => if t_requires_grad s0
                           then Some (new_empty uninit (t_shape s0) float32) else None
              | None => None
              end).
  destruct (chunk_delta_rule_bwd_dhu_fn_spec uninit capability q k w dht dh0 do dv 64
              scale B H T K V [B; H; T] [] Hq Hdo HK HV HBT)
    as (dh & g0 & dv2 & Edhu & _ & _ & Hg0).
  pose proof (fun wk => log_free_run _ wk _ _
                          (log_free_bwd_dhu_fn uninit capability q k w dht dh0 do dv
                                               64 scale) Edhu) as Edhu'.
  destruct (chunk_delta_rule_bwd_dqkw_fn_spec uninit q k v_new w h dv2 do dh 64 scale
              B H T K V [B; H; T] Hq Hsv (proj1 HK) HV HBT)
    as (dq & dk & dw & Edqkw & _ & _ & _ & Hf).
  destruct (bwy k v beta A dw dv2 64%nat) as [[dk2 dv3] db] eqn:Ebwy.
  exists (mk_bwd_result dq (add_ dk dk2) dv3 db g0).
  split; [|split].
  - unfold run, chunk_delta_rule_bwd. rewrite Erwu. fold dh0.
    erewrite bind_inl by reflexivity.
    erewrite bind_inl by (erewrite bind_inl by apply Eh; destruct ht; reflexivity).
    cbv beta iota.
    erewrite bind_inl by apply Edv.
    erewrite bind_inl by apply Edhu'. cbv beta iota.
    erewrite bind_inl by apply Edqkw. cbv beta iota.
    erewrite bind_inl by reflexivity.
    rewrite Ebwy. unfold ret. rewrite <- !app_assoc. reflexivity.
  - intros l t kk Hl Ht Hkk. cbn [g_dq].
    rewrite (proj1 (Hf l t kk Hl Ht Hkk)).
    unfold S. rewrite <- Hs0.
    apply (delta_dq_seq (B * H) T K V 64 _ (t_data k) (t_data v) (t_data u) (t_data w)
             (data_of h0) (beta_at beta) (is_some h0) Hwy HBT
             (fwd_h_tiles_64 capability K) l Hl);
      try assumption.
    + intros kk' nu Hkk' Hnu. apply Hh; try assumption. now apply tile_count.
    + intros t' nu Ht' Hnu. now apply Hvn.
  - cbn [g_dh0]. unfold dh0 in Hg0. unfold dh0.
    destruct h0 as [s|]; [|now rewrite Hg0].
    destruct (t_requires_grad s); [|now rewrite Hg0].
    destruct Hg0 as (g1 & -> & _). reflexivity.
Qed.

(** X14.  The chunk size of the retention engines is invisible in their
    results.  For every chunk size [BT] that is a power of two, as
    [tl.arange (0, BT)] in the kernels requires, and queries, keys and
    values of one dtype other than float64, the state engine
    [chunk_fwd_h_fn] followed by the output engine [chunk_fwd_o_fn] on the
    snapshots it produced computes the recurrent form: the output at
    position [t] is [scale * q_t . S (t+1)] and the final state, when asked
    for, is [S T], where [S (t+1) = rate * S t + k_t^T v_t] starts from the
    initial state; neither depends on [BT], also when [BT] does not divide
    the sequence length. *)
Theorem retention_chunk_size_is_invisible
    (uninit : data) (q k v : tensor) (scale : R) (h0 : option tensor) (ofs : bool)
    (BT B H T K V : nat) (wk : list work) :
  qkv_ok q k v B H T K V -> t_dtype q <> float64 ->
  (exists n, BT = 2 ^ n)%nat ->
  let S := fun l => retention_seq (rate (l mod H)) (t_data k l) (t_data v l)
                                  (state0 h0 l) in
  exists h ht o w1 w2,
    chunk_fwd_h_fn uninit k v h0 BT ofs wk = (inl (h, ht), w1) /\
    chunk_fwd_o_fn uninit q k v h BT scale w1 = (inl o, w2) /\
    (forall l t nu, (l < B * H)%nat -> (t < T)%nat -> (nu < V)%nat ->
       t_data o l t nu
       = scale * tl.sum K (fun kk => t_data q l t kk * S l (Datatypes.S t) kk nu)) /\
    (ofs = false -> ht = None) /\
    (ofs = true ->
     exists f, ht = Some f /\
               forall l kk nu, (l < B * H)%nat -> (kk < K)%nat -> (nu < V)%nat ->
                               t_data f l kk nu = S l T kk nu).
Proof.
  intros (_ & Hk & Hv & _ & _ & HK & HV) _ [n HBT2] S.
  assert (HBT : (0 < BT)%nat).
  { rewrite HBT2. apply Nat.neq_0_lt_0. apply Nat.pow_nonzero. discriminate. }
  assert (Hst : forall l, (fun kk nu => if is_some h0 then data_of h0 l kk nu else 0)
                          = state0 h0 l).
  { intros l. unfold state0. destruct h0; reflexivity. }
  destruct (chunk_fwd_h_fn_spec uninit k v h0 BT ofs B H T K V [B; H; T] wk
              Hk Hv HK HV HBT)
    as (h & ht & E & _ & Hh & Hnone & Hsome).
  match type of E with
  | _ = (_, ?w') =>
      destruct (chunk_fwd_o_fn_spec uninit q k v h BT scale B H T K V [B; H; T] w'
                  Hk Hv HBT HK HV) as (o & Eo & Hso & Ho)
  end.
  exists h, ht, o. eexists. eexists.
  split; [exact E|]. split; [exact Eo|]. split; [|split].
  - intros l t nu Hl Ht Hnu. rewrite Ho by assumption.
    apply (retention_o_seq _ _ _ _ (state0 h0 l) scale H T K BT l t nu HBT).
    intros kk Hkk.
    assert (Hc : (t / BT < tl.cdiv T BT)%nat) by (apply tile_count; lia).
    rewrite Hh by assumption.
    rewrite retention_H_seq by (assumption || lia). rewrite Hst.
    pose proof (cdiv_chunk_lt T BT _ HBT Hc) as Hlt.
    rewrite (Nat.min_l _ T) by (apply Nat.lt_le_incl; exact Hlt). reflexivity.
  - exact Hnone.
  - intros Hofs. destruct (Hsome Hofs) as (f & -> & Hd & Hs & Hf).
    exists f. split; [reflexivity|].
    intros l kk nu Hl Hkk Hnu. rewrite Hf by assumption.
    rewrite retention_H_seq by (assumption || lia). rewrite Hst.
    pose proof (cdiv_cover T BT HBT) as Hcov.
    rewrite (Nat.min_r _ T) by exact Hcov. reflexivity.
Qed.

Lemma retention_chunk_size_is_invisible_witness :
  let x := full bfloat16 [1; 1; 3; 1]%nat 1 in
  exists h ht o f,
    fst (run (chunk_fwd_h_fn zero_data x x None 2 true)) = inl (h, ht) /\
    fst (chunk_fwd_o_fn zero_data x x x h 2 2
                        (snd (run (chunk_fwd_h_fn zero_data x x None 2 true))))
    = inl o /\
    t_data o 0%nat 2%nat 0%nat = 2 * (rate 0 * (rate 0 + 1) + 1) /\
    ht = Some f /\
    t_data f 0%nat 0%nat 0%nat = rate 0 * (rate 0 + 1) + 1.
Proof.
  intros x.
  destruct (retention_chunk_size_is_invisible zero_data x x x 2 None true 2 1 1 3 1 1 []
              (qkv_ok_full bfloat16 1 1 3 1 1 1 1 1 Nat.lt_0_1 Nat.lt_0_1)
              ltac:(discriminate) (ex_intro _ 1%nat eq_refl))
    as (h & ht & o & w1 & w2 & E & Eo & Ho & _ & Hf).
  destruct (Hf eq_refl) as (f & -> & Hf').
  exists h, (Some f), o, f. unfold run. rewrite E. cbn [fst snd]. rewrite Eo.
  split; [reflexivity|]. split; [reflexivity|]. split; [|split].
  - rewrite (Ho 0%nat 2%nat 0%nat) by lia. cbn. lra.
  - reflexivity.
  - rewrite (Hf' 0%nat 0%nat 0%nat) by lia. cbn. lra.
Defined.

(** ** Concrete runs of the gradient engines *)

Lemma prepare_dv_formula_holds_witness :
  let x := full bfloat16 [1; 1; 2; 1]%nat 1 in
  exists dv,
    fst (run (chunk_delta_rule_fwd_prepare_dv zero_data x x x 64 2)) = inl dv /\
    t_data dv 0%nat 0%nat 0%nat = 4 /\ t_data dv 0%nat 1%nat 0%nat = 2.
Proof.
  intros x.
  destruct (prepare_dv_formula_holds zero_data x x x 64 2 1 1 2 1 1 [] eq_refl eq_refl
              ltac:(lia) ltac:(lia) ltac:(lia))
    as (dv & E & _ & _ & Hdv).
  exists dv. unfold run. rewrite E. split; [reflexivity|]. split.
  - rewrite (Hdv 0%nat 0%nat 0%nat) by lia. cbn. lra.
  - rewrite (Hdv 0%nat 1%nat 0%nat) by lia. cbn. lra.
Defined.

Lemma value_gradient_update_witness :
  let x := full bfloat16 [1; 1; 2; 1]%nat 1 in
  exists dh g dv2,
    fst (run (chunk_delta_rule_bwd_dhu_fn zero_data (8, 0)%nat x x x None None x x 64 2))
    = inl (dh, g, dv2) /\
    t_data dv2 0%nat 1%nat 0%nat = 1 + (0 + 1 * t_data dh 0%nat 0%nat 0%nat).
Proof.
  intros x.
  destruct (value_gradient_update zero_data (8, 0)%nat x x x None None x x 64 2
              1 1 2 1 1 [] eq_refl eq_refl ltac:(lia) ltac:(lia) ltac:(lia) eq_refl)
    as (dh & g & dv2 & wo & E & _ & _ & Hdv).
  exists dh, g, dv2. unfold run. rewrite E. split; [reflexivity|].
  rewrite (Hdv 0%nat 1%nat 0%nat) by lia. reflexivity.
Defined.

Lemma delta_rule_gradient_formulas_witness :
  let x := full bfloat16 [1; 1; 2; 1]%nat 1 in
  let y := full bfloat16 [1; 1; 2; 1]%nat 3 in
  exists dq dk dw,
    fst (run (chunk_delta_rule_bwd_dqkw_fn zero_data x x y x x x x x 64 2))
    = inl (dq, dk, dw) /\
    t_data dq 0%nat 1%nat 0%nat = 14 /\
    t_data dk 0%nat 0%nat 0%nat = 15 /\
    t_data dw 0%nat 0%nat 0%nat = -1.
Proof.
  intros x y.
  destruct (delta_rule_gradient_formulas zero_data x x y x x x x x 64 2 1 1 2 1 1 []
              eq_refl eq_refl ltac:(lia) ltac:(lia) ltac:(lia))
    as (dq & dk & dw & E & _ & _ & _ & Hf).
  exists dq, dk, dw. unfold run. rewrite E. split; [reflexivity|].
  split; [|split].
  - rewrite (proj1 (Hf 0%nat 1%nat 0%nat ltac:(lia) ltac:(lia) ltac:(lia))). cbn. lra.
  - rewrite (proj1 (proj2 (Hf 0%nat 0%nat 0%nat ltac:(lia) ltac:(lia) ltac:(lia)))).
    cbn. lra.
  - rewrite (proj2 (proj2 (Hf 0%nat 0%nat 0%nat ltac:(lia) ltac:(lia) ltac:(lia)))).
    cbn. lra.
Defined.

Lemma retention_gradient_formulas_witness :
  let x := full bfloat16 [1; 1; 1; 1]%nat 1 in
  exists dq dk dv,
    fst (run (chunk_bwd_dqkv_fn zero_data x x x x x x 2)) = inl (dq, dk, dv) /\
    t_data dq 0%nat 0%nat 0%nat = 2 * (rate 0 + 1) /\
    t_data dk 0%nat 0%nat 0%nat = 3 /\
    t_data dv 0%nat 0%nat 0%nat = 3.
Proof.
  intros x.
  destruct (retention_gradient_formulas zero_data x x x x x x 2 1 1 1 1 1 []
              eq_refl eq_refl ltac:(lia) ltac:(lia))
    as (dq & dk & dv & E & _ & _ & _ & Hf).
  exists dq, dk, dv. unfold run. rewrite E. split; [reflexivity|].
  destruct (Hf 0%nat 0%nat ltac:(lia) ltac:(lia)) as [Hk Hv].
  destruct (Hk 0%nat ltac:(lia)) as [Hdq Hdk].
  split; [|split].
  - rewrite Hdq. cbn. lra.
  - rewrite Hdk. cbn. lra.
  - rewrite (Hv 0%nat ltac:(lia)). cbn. lra.
Defined.

Lemma retention_backward_adjoint_witness :
  let x := full bfloat16 [1; 1; 1; 1]%nat 1 in
  exists dq dk dv,
    fst (run (ChunkRetentionFunction_backward zero_data x x x None 64 2 x None))
    = inl (dq, dk, dv, None, None, None) /\
    t_data dq 0%nat 0%nat 0%nat = 2 /\
    t_data dk 0%nat 0%nat 0%nat = 2 /\
    t_data dv 0%nat 0%nat 0%nat = 2.
Proof.
  intros x.
  destruct (retention_backward_adjoint zero_data x x x None 2 x None 1 1 1 1 1
              eq_refl eq_refl eq_refl ltac:(lia) ltac:(lia))
    as (dq & dk & dv & g & E & _ & Hf & ->).
  exists dq, dk, dv. rewrite E. split; [reflexivity|].
  destruct (Hf 0%nat 0%nat ltac:(lia) ltac:(lia)) as [Hk Hv].
  destruct (Hk 0%nat ltac:(lia)) as [Hdq Hdk].
  split; [|split].
  - rewrite Hdq. cbn. lra.
  - rewrite Hdk. cbn. lra.
  - rewrite (Hv 0%nat ltac:(lia)). cbn. lra.
Defined.

Lemma delta_rule_backward_query_gradient_witness :
  let x := full bfloat16 [1; 1; 1; 1]%nat 1 in
  let y := full bfloat16 [1; 1; 1; 1]%nat 3 in
  let b := full bfloat16 [1; 1; 1]%nat (/ 2) in
  exists r,
    fst (run (chunk_delta_rule_bwd zero_data (8, 0)%nat rwu_model bwy_model x x y b x
                                   None None 2 None x None 64)) = inl r /\
    t_data (g_dq r) 0%nat 0%nat 0%nat = 3 /\ g_dh0 r = None.
Proof.
  intros x y b.
  destruct (delta_rule_backward_query_gradient zero_data (8, 0)%nat rwu_model bwy_model
              x x y b x 2 None x None 1 1 1 1 1 eq_refl eq_refl eq_refl
              ltac:(lia) ltac:(lia)
              (wy_model_ok x y b 64%nat 1%nat 1%nat 1%nat 1%nat 1%nat _ _ _
                           eq_refl eq_refl ltac:(lia) eq_refl))
    as (r & E & Hdq & Hg).
  exists r. rewrite E. split; [reflexivity|]. split.
  - rewrite (Hdq 0%nat 0%nat 0%nat) by lia. cbn. lra.
  - destruct (g_dh0 r); [discriminate Hg | reflexivity].
Defined.
